(** * Sabouteur: the game-room engine of [server/index.js]

    A shallow embedding of the rules engine (card catalogue, connector
    rotation, role distribution, board exploration and the [GameRoom]
    methods) together with the properties stated about it.

    Conventions of the embedding:
    - a JavaScript object used as a dictionary ([suspicionByPlayer],
      [goldByPlayer], [efficiencyByPlayer], [awards]) is a [gmap string _];
    - the [players] Map is a list in insertion order, keyed by the [id]
      field of its entries ([Map.set] on a present key keeps the position);
    - arrays ([tiles], [deck], [discard], [hand]) are lists in array order;
    - integers are [Z]; the non-integral numbers (suspicion, progress,
      efficiency, pose coordinates) are exact rationals [Qc]: the engine only
      adds and subtracts constants and clamps with [Math.max]/[Math.min];
    - [undefined]/[null] are [None];
    - card keys are an enumeration of the keys of [CARD_LIBRARY]: the deck is
      only ever built from [DECK_TEMPLATE];
    - [Math.random], [uuid] and [Date.now] are read from the [Host] field of
      the room: two oracles with their read positions, and the clock;
    - a method that can throw returns an [option], [None] standing for the
      [TypeError]: within the engine the one throw site is [applyRoundRewards],
      which reads [order[idx % order.length]] of an empty [order] when a miner
      win is settled in a room without miners; the payloads of the gameplay
      methods are objects there, and what the socket handlers do with a
      missing payload is modelled by [onCardEvent];
    - messages sent to the sockets and the database updates change nothing
      in the room and are left out. *)

From Stdlib Require Import ZArith QArith Qcanon Lia.
From stdpp Require Import gmap strings list fin_maps pretty.

Local Open Scope Z_scope.

(** ** Card catalogue *)

Inductive Role := miner | saboteur.

Inductive CardCategory := cat_path | cat_rockfall | cat_break | cat_repair.

Record PathConnectors := mkConnectors {
  north : bool;
  east : bool;
  south : bool;
  west : bool;
}.

(** The keys of [CARD_LIBRARY]. *)
Inductive CardKey :=
  | straight | straightLong | straightBranchNorth | straightBranchSouth
  | turn | cross | tee | deadendEast | deadendNorth
  | rockfall | break | repair.

Record CardDefinition := mkDef {
  category : CardCategory;
  def_connectors : option PathConnectors;
}.

Definition CARD_LIBRARY (key : CardKey) : CardDefinition :=
  match key with
  | straight => mkDef cat_path (Some (mkConnectors false true false true))
  | straightLong => mkDef cat_path (Some (mkConnectors true false true false))
  | straightBranchNorth => mkDef cat_path (Some (mkConnectors true true false true))
  | straightBranchSouth => mkDef cat_path (Some (mkConnectors false true true true))
  | turn => mkDef cat_path (Some (mkConnectors true true false false))
  | cross => mkDef cat_path (Some (mkConnectors true true true true))
  | tee => mkDef cat_path (Some (mkConnectors true true true false))
  | deadendEast => mkDef cat_path (Some (mkConnectors false true false false))
  | deadendNorth => mkDef cat_path (Some (mkConnectors true false false false))
  | rockfall => mkDef cat_rockfall None
  | break => mkDef cat_break None
  | repair => mkDef cat_repair None
  end.

Definition DECK_TEMPLATE : list (CardKey * nat) :=
  [ (straight, 6); (straightLong, 6); (straightBranchNorth, 3);
    (straightBranchSouth, 3); (turn, 8); (tee, 6); (cross, 4);
    (deadendEast, 4); (deadendNorth, 4); (rockfall, 5); (break, 4);
    (repair, 6) ]%nat.

Definition BOARD_ROWS : Z := 7.
Definition BOARD_COLUMNS : Z := 9.

Record CardInstance := mkCard {
  instanceId : string;
  cardKey : CardKey;
  card_rotation : Z;
}.

Global Instance Role_eq_dec : EqDecision Role.
Proof. solve_decision. Defined.
Global Instance CardCategory_eq_dec : EqDecision CardCategory.
Proof. solve_decision. Defined.
Global Instance CardKey_eq_dec : EqDecision CardKey.
Proof. solve_decision. Defined.
Global Instance PathConnectors_eq_dec : EqDecision PathConnectors.
Proof. solve_decision. Defined.

(** ** Randomness, fresh identifiers and the clock *)

Record Host := mkHost {
  random : nat -> nat;     (* the successive values of [Math.random] *)
  randPos : nat;
  uuids : nat -> string;   (* the successive values of [uuid()] *)
  uuidPos : nat;
  clock : Z;               (* [Date.now()] *)
}.

(** [Math.floor(Math.random() * k)]: a value below [k], and the host after
    the read. *)
Definition randomBelow (k : nat) (h : Host) : nat * Host :=
  ((random h (randPos h) mod k)%nat,
   mkHost (random h) (S (randPos h)) (uuids h) (uuidPos h) (clock h)).

Definition uuid (h : Host) : string * Host :=
  (uuids h (uuidPos h),
   mkHost (random h) (randPos h) (uuids h) (S (uuidPos h)) (clock h)).

(** [[a[i], a[j]] = [a[j], a[i]]] on an array, both indices in range. *)
Definition swap {A} (a : list A) (i j : nat) : list A :=
  match a !! i, a !! j with
  | Some x, Some y => <[j := x]> (<[i := y]> a)
  | _, _ => a
  end.

(** The Fisher-Yates loop [for (i = length - 1; i > 0; i -= 1)], entered
    with the loop variable at [i]. *)
Fixpoint shuffleFrom {A} (i : nat) (a : list A) (h : Host) : list A * Host :=
  match i with
  | O => (a, h)
  | S i' =>
      let '(j, h1) := randomBelow (i + 1) h in
      shuffleFrom i' (swap a i j) h1
  end.

Definition shuffle {A} (a : list A) (h : Host) : list A * Host :=
  shuffleFrom (length a - 1)%nat a h.

(** ** Role distribution *)

Definition saboteurQuota (count : nat) : nat :=
  if (7 <=? count)%nat then 3%nat
  else if (5 <=? count)%nat then 2%nat
  else if (3 <=? count)%nat then 1%nat
  else 0%nat.

Definition rolesBeforeShuffle (count saboteurs : nat) : list Role :=
  (fun idx => if (idx <? saboteurs)%nat then saboteur else miner) <$> seq 0 count.

Definition roleDistribution (count : nat) (h : Host) : list Role * Host :=
  shuffle (rolesBeforeShuffle count (saboteurQuota count)) h.

(** The copy of the function kept in the client's [game/cards.ts]. *)
Module Client.

Definition saboteurCount (playerCount : nat) : nat :=
  if (7 <=? playerCount)%nat then 3%nat
  else if (5 <=? playerCount)%nat then 2%nat
  else 1%nat.

Definition roleDistribution (playerCount : nat) (h : Host) : list Role * Host :=
  shuffle (rolesBeforeShuffle playerCount (saboteurCount playerCount)) h.

End Client.

Definition countRole (r : Role) (roles : list Role) : nat :=
  length (filter (fun x => x = r) roles).

(** ** Connector rotation *)

Definition quarterTurn (current : PathConnectors) : PathConnectors :=
  {| north := west current;
     east := north current;
     south := east current;
     west := south current |}.

Fixpoint rotateLoop (steps : nat) (current : PathConnectors) : PathConnectors :=
  match steps with
  | O => current
  | S n => rotateLoop n (quarterTurn current)
  end.

(** [%] of JavaScript truncates towards zero: [Z.rem]. *)
Definition rotationSteps (rotation : Z) : Z :=
  Z.rem (Z.rem rotation 4 + 4) 4.

Definition rotateConnectors (connectors : option PathConnectors) (rotation : Z)
  : option PathConnectors :=
  match connectors with
  | None => None
  | Some c => Some (rotateLoop (Z.to_nat (rotationSteps rotation)) c)
  end.

(** ** Board model *)

Inductive TileType := t_empty | t_start | t_goal | t_path | t_blocked.

(** What a tile's [cardKey] can hold: the key of the card placed on it, or
    the designation of a goal tile. *)
Inductive TileKey := placed (k : CardKey) | gold | coal.

Global Instance TileType_eq_dec : EqDecision TileType.
Proof. solve_decision. Defined.
Global Instance TileKey_eq_dec : EqDecision TileKey.
Proof. solve_decision. Defined.

Record Tile := mkTile {
  tid : string;                          (* [id] *)
  row : Z;
  col : Z;
  tileType : TileType;
  connectors : option PathConnectors;
  tileCard : option TileKey;             (* [cardKey] *)
  tileRotation : option Z;               (* [rotation] *)
  revealed : bool;
  ownerId : option string;
}.

Record Board := mkBoard {
  rows : Z;
  columns : Z;
  tiles : list Tile;
  winningTeam : option Role;
}.

Definition tileId (r c : Z) : string := pretty r +:+ "-" +:+ pretty c.

(** [arr.find(p)] followed by a mutation of the object found: the first
    element that satisfies [p] is replaced by its image. *)
Fixpoint assignFirst {A} (p : A -> bool) (f : A -> A) (l : list A) : list A :=
  match l with
  | [] => []
  | x :: r => if p x then f x :: r else x :: assignFirst p f r
  end.

Definition atPosition (r c : Z) (t : Tile) : bool :=
  (row t =? r) && (col t =? c).

Definition emptyTile (r c : Z) : Tile :=
  mkTile (tileId r c) r c t_empty None None None false None.

Definition makeStart (t : Tile) : Tile :=
  mkTile (tid t) (row t) (col t) t_start
    (Some (mkConnectors true true true false))
    (tileCard t) (tileRotation t) true (ownerId t).

Definition makeGoal (key : TileKey) (t : Tile) : Tile :=
  mkTile (tid t) (row t) (col t) t_goal
    (Some (mkConnectors true false true true))
    (Some key) (tileRotation t) false (ownerId t).

Definition goalRows : list Z := [1; 3; 5].

Definition createBoard (h : Host) : Board * Host :=
  let '(goldIndex, h1) := randomBelow (length goalRows) h in
  let grid :=
    r ← seqZ 0 BOARD_ROWS; c ← seqZ 0 BOARD_COLUMNS; [emptyTile r c] in
  let withStart :=
    assignFirst (atPosition (BOARD_ROWS `quot` 2) 0) makeStart grid in
  let withGoals :=
    foldl (fun ts '(index, r) =>
             assignFirst (atPosition r (BOARD_COLUMNS - 1))
               (makeGoal (if decide (index = goldIndex) then gold else coal)) ts)
          withStart (imap (fun index r => (index, r)) goalRows) in
  (mkBoard BOARD_ROWS BOARD_COLUMNS withGoals None, h1).

Inductive Dir := North | South | East | West.

Record Neighbor := mkNeighbor {
  key : Dir;
  dr : Z;
  dc : Z;
  opposite : Dir;
}.

Definition neighbors : list Neighbor :=
  [ mkNeighbor North (-1) 0 South;
    mkNeighbor South 1 0 North;
    mkNeighbor East 0 1 West;
    mkNeighbor West 0 (-1) East ].

(** [connectors[key]] *)
Definition open (c : PathConnectors) (d : Dir) : bool :=
  match d with
  | North => north c
  | South => south c
  | East => east c
  | West => west c
  end.

Definition findTile (b : Board) (id : string) : option Tile :=
  List.find (fun t => String.eqb (tid t) id) (tiles b).

(** [board.tiles.find((t) => t.row === r && t.col === c)] *)
Definition tileAt (b : Board) (r c : Z) : option Tile :=
  List.find (atPosition r c) (tiles b).

(** ** Connectivity explorer *)

(** The body of [neighbors.forEach] in [exploreBoard]: what one direction
    adds to the queue. *)
Definition enqueueNeighbor (b : Board) (tile : Tile) (c : PathConnectors)
    (visited : gset string) (queue : list Tile) (nb : Neighbor) : list Tile :=
  if negb (open c (key nb)) then queue
  else match tileAt b (row tile + dr nb) (col tile + dc nb) with
       | None => queue
       | Some neighbor =>
           if decide (tid neighbor ∈ visited) then queue
           else match connectors neighbor with
                | None => queue
                | Some nc =>
                    if open nc (opposite nb) then queue ++ [neighbor] else queue
                end
       end.

Record Exploration := mkExploration {
  farthestCol : Z;
  visited : gset string;
  pending : list Tile;   (* the queue when the loop was left *)
}.

(** The [while (queue.length)] loop, at most [fuel] iterations. *)
Fixpoint exploreLoop (fuel : nat) (b : Board) (queue : list Tile)
    (seen : gset string) (far : Z) : Exploration :=
  match fuel with
  | O => mkExploration far seen queue
  | S fuel' =>
      match queue with
      | [] => mkExploration far seen []
      | tile :: rest =>
          match connectors tile with
          | None => exploreLoop fuel' b rest seen far
          | Some c =>
              if decide (tid tile ∈ seen) then exploreLoop fuel' b rest seen far
              else
                let seen' := seen ∪ {[ tid tile ]} in
                let far' := Z.max far (col tile) in
                let queue' := foldl (enqueueNeighbor b tile c seen') rest neighbors in
                exploreLoop fuel' b queue' seen' far'
          end
      end
  end.

(** Every iteration either drops a queue entry or visits a tile whose id was
    not seen and adds at most four entries: this many iterations empty the
    queue (lemma [exploreBoard_terminates]). *)
Definition exploreFuel (b : Board) : nat := (5 * length (tiles b) + 2)%nat.

Definition exploreBoard (b : Board) : Exploration :=
  let startTile := List.find (fun t => bool_decide (tileType t = t_start)) (tiles b) in
  let queue := match startTile with Some t => [t] | None => [] end in
  let far := match startTile with Some t => col t | None => 0 end in
  exploreLoop (exploreFuel b) b queue ∅ far.

(** ** Players, metrics and the room *)

Definition num (n d : Z) : Qc := Q2Qc (Qmake n (Z.to_pos d)).

Definition Math_max (a b : Qc) : Qc :=
  match (a ?= b)%Qc with Lt => b | _ => a end.

Definition Math_min (a b : Qc) : Qc :=
  match (a ?= b)%Qc with Gt => b | _ => a end.

Record Vec3 := mkVec3 { vx : Qc; vy : Qc; vz : Qc }.
Record Quaternion := mkQuat { qx : Qc; qy : Qc; qz : Qc; qw : Qc }.

Definition spawnPosition : Vec3 := mkVec3 (num 0 1) (num 8 5) (num 0 1).
Definition spawnRotation : Quaternion :=
  mkQuat (num 0 1) (num 0 1) (num 0 1) (num 1 1).

Record Player := mkPlayer {
  playerId : string;        (* [id] *)
  socketId : string;
  name : string;
  role : Role;
  position : Vec3;
  rotation : Quaternion;
  hand : list CardInstance;
  connected : bool;
  toolBroken : bool;
  suspicion : Qc;
  score : Z;
}.

Record Metrics := mkMetrics {
  deckRemaining : Z;
  progress : Qc;
  collapsedTiles : Z;
  suspicionByPlayer : gmap string Qc;
  turnsTaken : Z;
  goldByPlayer : gmap string Z;
  round : Z;
  efficiencyByPlayer : gmap string Qc;
  activePlayerId : option string;
  turnEndsAt : option Z;
}.

Record GameRoom := mkRoom {
  roomId : string;
  board : Board;
  players : list Player;
  deck : list CardInstance;
  discard : list CardInstance;
  roundEnded : bool;
  roundNumber : Z;
  metrics : Metrics;
  turnIndex : Z;
  turnTimer : bool;                         (* a timeout is pending *)
  lastWinnerId : option string;
  lastAwards : option (gmap string Z);
  lastWinners : option (list string);
  lastWinningTeam : option Role;
  host : Host;
}.

(** Field updates. *)

Definition setWinningTeam (w : option Role) (b : Board) : Board :=
  mkBoard (rows b) (columns b) (tiles b) w.
Definition setTiles (ts : list Tile) (b : Board) : Board :=
  mkBoard (rows b) (columns b) ts (winningTeam b).

Definition setHand (h : list CardInstance) (p : Player) : Player :=
  mkPlayer (playerId p) (socketId p) (name p) (role p) (position p) (rotation p)
    h (connected p) (toolBroken p) (suspicion p) (score p).
Definition setToolBroken (v : bool) (p : Player) : Player :=
  mkPlayer (playerId p) (socketId p) (name p) (role p) (position p) (rotation p)
    (hand p) (connected p) v (suspicion p) (score p).
Definition setScore (v : Z) (p : Player) : Player :=
  mkPlayer (playerId p) (socketId p) (name p) (role p) (position p) (rotation p)
    (hand p) (connected p) (toolBroken p) (suspicion p) v.
Definition setPose (pos : Vec3) (rot : Quaternion) (p : Player) : Player :=
  mkPlayer (playerId p) (socketId p) (name p) (role p) pos rot
    (hand p) (connected p) (toolBroken p) (suspicion p) (score p).

Definition setDeckRemaining (v : Z) (m : Metrics) : Metrics :=
  mkMetrics v (progress m) (collapsedTiles m) (suspicionByPlayer m) (turnsTaken m)
    (goldByPlayer m) (round m) (efficiencyByPlayer m) (activePlayerId m) (turnEndsAt m).
Definition setProgress (v : Qc) (m : Metrics) : Metrics :=
  mkMetrics (deckRemaining m) v (collapsedTiles m) (suspicionByPlayer m) (turnsTaken m)
    (goldByPlayer m) (round m) (efficiencyByPlayer m) (activePlayerId m) (turnEndsAt m).
Definition setCollapsedTiles (v : Z) (m : Metrics) : Metrics :=
  mkMetrics (deckRemaining m) (progress m) v (suspicionByPlayer m) (turnsTaken m)
    (goldByPlayer m) (round m) (efficiencyByPlayer m) (activePlayerId m) (turnEndsAt m).
Definition setSuspicionByPlayer (v : gmap string Qc) (m : Metrics) : Metrics :=
  mkMetrics (deckRemaining m) (progress m) (collapsedTiles m) v (turnsTaken m)
    (goldByPlayer m) (round m) (efficiencyByPlayer m) (activePlayerId m) (turnEndsAt m).
Definition setTurnsTaken (v : Z) (m : Metrics) : Metrics :=
  mkMetrics (deckRemaining m) (progress m) (collapsedTiles m) (suspicionByPlayer m) v
    (goldByPlayer m) (round m) (efficiencyByPlayer m) (activePlayerId m) (turnEndsAt m).
Definition setGoldByPlayer (v : gmap string Z) (m : Metrics) : Metrics :=
  mkMetrics (deckRemaining m) (progress m) (collapsedTiles m) (suspicionByPlayer m)
    (turnsTaken m) v (round m) (efficiencyByPlayer m) (activePlayerId m) (turnEndsAt m).
Definition setEfficiencyByPlayer (v : gmap string Qc) (m : Metrics) : Metrics :=
  mkMetrics (deckRemaining m) (progress m) (collapsedTiles m) (suspicionByPlayer m)
    (turnsTaken m) (goldByPlayer m) (round m) v (activePlayerId m) (turnEndsAt m).
Definition setActivePlayerId (v : option string) (m : Metrics) : Metrics :=
  mkMetrics (deckRemaining m) (progress m) (collapsedTiles m) (suspicionByPlayer m)
    (turnsTaken m) (goldByPlayer m) (round m) (efficiencyByPlayer m) v (turnEndsAt m).
Definition setTurnEndsAt (v : option Z) (m : Metrics) : Metrics :=
  mkMetrics (deckRemaining m) (progress m) (collapsedTiles m) (suspicionByPlayer m)
    (turnsTaken m) (goldByPlayer m) (round m) (efficiencyByPlayer m) (activePlayerId m) v.

Definition setBoard (v : Board) (r : GameRoom) : GameRoom :=
  mkRoom (roomId r) v (players r) (deck r) (discard r) (roundEnded r) (roundNumber r)
    (metrics r) (turnIndex r) (turnTimer r) (lastWinnerId r) (lastAwards r)
    (lastWinners r) (lastWinningTeam r) (host r).
Definition setPlayers (v : list Player) (r : GameRoom) : GameRoom :=
  mkRoom (roomId r) (board r) v (deck r) (discard r) (roundEnded r) (roundNumber r)
    (metrics r) (turnIndex r) (turnTimer r) (lastWinnerId r) (lastAwards r)
    (lastWinners r) (lastWinningTeam r) (host r).
Definition setDeck (v : list CardInstance) (r : GameRoom) : GameRoom :=
  mkRoom (roomId r) (board r) (players r) v (discard r) (roundEnded r) (roundNumber r)
    (metrics r) (turnIndex r) (turnTimer r) (lastWinnerId r) (lastAwards r)
    (lastWinners r) (lastWinningTeam r) (host r).
Definition setDiscard (v : list CardInstance) (r : GameRoom) : GameRoom :=
  mkRoom (roomId r) (board r) (players r) (deck r) v (roundEnded r) (roundNumber r)
    (metrics r) (turnIndex r) (turnTimer r) (lastWinnerId r) (lastAwards r)
    (lastWinners r) (lastWinningTeam r) (host r).
Definition setMetrics (v : Metrics) (r : GameRoom) : GameRoom :=
  mkRoom (roomId r) (board r) (players r) (deck r) (discard r) (roundEnded r)
    (roundNumber r) v (turnIndex r) (turnTimer r) (lastWinnerId r) (lastAwards r)
    (lastWinners r) (lastWinningTeam r) (host r).
Definition setTurnIndex (v : Z) (r : GameRoom) : GameRoom :=
  mkRoom (roomId r) (board r) (players r) (deck r) (discard r) (roundEnded r)
    (roundNumber r) (metrics r) v (turnTimer r) (lastWinnerId r) (lastAwards r)
    (lastWinners r) (lastWinningTeam r) (host r).
Definition setTurnTimer_ (v : bool) (r : GameRoom) : GameRoom :=
  mkRoom (roomId r) (board r) (players r) (deck r) (discard r) (roundEnded r)
    (roundNumber r) (metrics r) (turnIndex r) v (lastWinnerId r) (lastAwards r)
    (lastWinners r) (lastWinningTeam r) (host r).
Definition setHost (v : Host) (r : GameRoom) : GameRoom :=
  mkRoom (roomId r) (board r) (players r) (deck r) (discard r) (roundEnded r)
    (roundNumber r) (metrics r) (turnIndex r) (turnTimer r) (lastWinnerId r)
    (lastAwards r) (lastWinners r) (lastWinningTeam r) v.

(** [this.metrics.f = v] *)
Definition onMetrics (f : Metrics -> Metrics) (r : GameRoom) : GameRoom :=
  setMetrics (f (metrics r)) r.
Definition onBoard (f : Board -> Board) (r : GameRoom) : GameRoom :=
  setBoard (f (board r)) r.

(** ** The [players] Map *)

Definition hasId (id : string) (p : Player) : bool := String.eqb (playerId p) id.

(** [players.get(id)] *)
Definition getPlayer (id : string) (ps : list Player) : option Player :=
  List.find (hasId id) ps.

(** [players.set(p.id, p)] *)
Definition putPlayer (p : Player) (ps : list Player) : list Player :=
  match getPlayer (playerId p) ps with
  | Some _ => assignFirst (hasId (playerId p)) (fun _ => p) ps
  | None => ps ++ [p]
  end.

(** [players.delete(id)] *)
Definition deletePlayer (id : string) (ps : list Player) : list Player :=
  List.filter (fun p => negb (hasId id p)) ps.

(** A mutation of the player object stored under [id]. *)
Definition onPlayer (id : string) (f : Player -> Player) (r : GameRoom) : GameRoom :=
  setPlayers (assignFirst (hasId id) f (players r)) r.

(** JavaScript truthiness of an id: [null], [undefined] and the empty string
    are falsy. *)
Definition truthy (o : option string) : bool :=
  match o with
  | Some s => negb (String.eqb s EmptyString)
  | None => false
  end.

(** ** Single statements of the gameplay methods *)

(** A mutation of the tile object found by [findTile(board, id)]. *)
Definition onTile (id : string) (f : Tile -> Tile) (r : GameRoom) : GameRoom :=
  onBoard (fun b => setTiles (assignFirst (fun t => String.eqb (tid t) id) f (tiles b)) b) r.

Definition withoutCard (card : CardInstance) (h : list CardInstance)
  : list CardInstance :=
  List.filter (fun c => negb (String.eqb (instanceId c) (instanceId card))) h.

(** [player.hand = player.hand.filter((c) => c.instanceId !== card.instanceId)] *)
Definition takeFromHand (id : string) (card : CardInstance) (r : GameRoom) : GameRoom :=
  onPlayer id (fun p => setHand (withoutCard card (hand p)) p) r.

(** [this.discard.push(card)] *)
Definition pushDiscard (card : CardInstance) (r : GameRoom) : GameRoom :=
  setDiscard (discard r ++ [card]) r.

(** [this.metrics.suspicionByPlayer[id] ?? 0] *)
Definition suspicionOf (id : string) (m : Metrics) : Qc :=
  default (num 0 1) (suspicionByPlayer m !! id).

Definition setSuspicion (id : string) (v : Qc) (r : GameRoom) : GameRoom :=
  onMetrics (fun m => setSuspicionByPlayer (<[id := v]> (suspicionByPlayer m)) m) r.

(** [suspicionByPlayer[id] = Math.max(0, (suspicionByPlayer[id] ?? 0) - by)] *)
Definition lowerSuspicion (id : string) (by_ : Qc) (r : GameRoom) : GameRoom :=
  setSuspicion id (Math_max (num 0 1) (suspicionOf id (metrics r) - by_)%Qc) r.

(** [suspicionByPlayer[id] = Math.min(1, (suspicionByPlayer[id] ?? 0) + by)] *)
Definition raiseSuspicion (id : string) (by_ : Qc) (r : GameRoom) : GameRoom :=
  setSuspicion id (Math_min (num 1 1) (suspicionOf id (metrics r) + by_)%Qc) r.

(** [this.metrics.turnsTaken += 1] *)
Definition countTurn (r : GameRoom) : GameRoom :=
  onMetrics (fun m => setTurnsTaken (turnsTaken m + 1) m) r.

(** [this.metrics.collapsedTiles += 1] *)
Definition countCollapse (r : GameRoom) : GameRoom :=
  onMetrics (fun m => setCollapsedTiles (collapsedTiles m + 1) m) r.

(** [const deltaProgress = this.metrics.progress - prevProgress;
     efficiencyByPlayer[id] = (efficiencyByPlayer[id] ?? 0) + deltaProgress] *)
Definition recordEfficiency (id : string) (prevProgress : Qc) (r : GameRoom)
  : GameRoom :=
  let deltaProgress := (progress (metrics r) - prevProgress)%Qc in
  onMetrics
    (fun m => setEfficiencyByPlayer
       (<[id := (default (num 0 1) (efficiencyByPlayer m !! id) + deltaProgress)%Qc]>
          (efficiencyByPlayer m)) m) r.

Definition setResolution (ended : bool) (winner : option string) (r : GameRoom)
  : GameRoom :=
  mkRoom (roomId r) (board r) (players r) (deck r) (discard r) ended (roundNumber r)
    (metrics r) (turnIndex r) (turnTimer r) winner (lastAwards r)
    (lastWinners r) (lastWinningTeam r) (host r).

Definition setLastResult (awards : option (gmap string Z))
    (winners : option (list string)) (team : option Role) (r : GameRoom) : GameRoom :=
  mkRoom (roomId r) (board r) (players r) (deck r) (discard r) (roundEnded r)
    (roundNumber r) (metrics r) (turnIndex r) (turnTimer r) (lastWinnerId r)
    awards winners team (host r).

(** ** Win detection and round settlement *)

Definition maybeDeclareSaboteurWin (r : GameRoom) : GameRoom :=
  match winningTeam (board r) with
  | None =>
      if deckRemaining (metrics r) =? 0
      then onBoard (setWinningTeam (Some saboteur)) r
      else r
  | Some _ => r
  end.

(** [Array.from({ length: n }, () => 1 + Math.floor(Math.random() * 3))] *)
Fixpoint nuggetCards (n : nat) (h : Host) : list Z * Host :=
  match n with
  | O => ([], h)
  | S n' =>
      let '(v, h1) := randomBelow 3 h in
      let '(rest, h2) := nuggetCards n' h1 in
      (1 + Z.of_nat v :: rest, h2)
  end.

(** The dealing order of a miner win: the miners, rotated to start at the
    placer when the placer is one of them. *)
Definition dealingOrder (placerId : option string) (miners : list string)
  : list string :=
  match placerId with
  | Some pid =>
      if truthy placerId then
        match list_find (fun m => m = pid) miners with
        | Some (startIdx, _) => drop startIdx miners ++ take startIdx miners
        | None => miners
        end
      else miners
  | None => miners
  end.

Record Purse := mkPurse {
  pursePlayers : list Player;
  purseGold : gmap string Z;
  purseAwards : gmap string Z;
}.

(** [p.score += value; goldByPlayer[p.id] += value; awards[p.id] += value] *)
Definition credit (id : string) (value : Z) (acc : Purse) : Purse :=
  mkPurse
    (assignFirst (hasId id) (fun p => setScore (score p + value) p) (pursePlayers acc))
    (<[id := default 0 (purseGold acc !! id) + value]> (purseGold acc))
    (<[id := default 0 (purseAwards acc !! id) + value]> (purseAwards acc)).

(** One turn of [nuggetCards.forEach].  With no miner to deal to,
    [order[idx % 0]] is [undefined] and reading its score throws: [None]. *)
Definition dealNugget (order : list string) (acc : option Purse) (entry : nat * Z)
  : option Purse :=
  acc ← acc;
  match order with
  | [] => None
  | _ =>
      minerId ← order !! (entry.1 mod length order)%nat;
      Some (credit minerId entry.2 acc)
  end.

Definition saboteurAward (saboteurs : nat) : Z :=
  if decide (saboteurs = 1%nat) then 4
  else if decide (saboteurs = 2%nat \/ saboteurs = 3%nat) then 3
  else 2.

Record Rewards := mkRewards {
  awards : gmap string Z;
  winners : list string;
}.

Definition applyRoundRewards (placerId : option string) (r : GameRoom)
  : option (Rewards * GameRoom) :=
  let gold0 := goldByPlayer (metrics r) in
  let playersArr := players r in
  let miners := playerId <$> List.filter (fun p => bool_decide (role p = miner)) playersArr in
  let sabos := playerId <$> List.filter (fun p => bool_decide (role p = saboteur)) playersArr in
  match winningTeam (board r) with
  | Some miner =>
      let '(cards, h1) := nuggetCards (length playersArr) (host r) in
      let order := dealingOrder placerId miners in
      acc ← foldl (dealNugget order) (Some (mkPurse playersArr gold0 ∅))
                  (imap (fun idx value => (idx, value)) cards);
      Some (mkRewards (purseAwards acc) order,
            onMetrics (setGoldByPlayer (purseGold acc))
              (setPlayers (pursePlayers acc) (setHost h1 r)))
  | Some saboteur =>
      let award := saboteurAward (length sabos) in
      let acc := foldl (fun acc s => credit s award acc) (mkPurse playersArr gold0 ∅) sabos in
      Some (mkRewards (purseAwards acc) sabos,
            onMetrics (setGoldByPlayer (purseGold acc))
              (setPlayers (pursePlayers acc) r))
  | None =>
      Some (mkRewards ∅ [], onMetrics (setGoldByPlayer gold0) r)
  end.

Definition maybeFinishRound (placerId : option string) (r : GameRoom)
  : option GameRoom :=
  if roundEnded r then Some r
  else match winningTeam (board r) with
       | None => Some r
       | Some _ =>
           '(res, r1) ← applyRoundRewards placerId (setResolution true placerId r);
           Some (setLastResult (Some (awards res)) (Some (winners res))
                   (winningTeam (board r1)) r1)
       end.

(** ** Drawing *)

(** [deck.pop()] *)
Definition pop {A} (l : list A) : option (A * list A) :=
  match last l with
  | Some x => Some (x, take (length l - 1) l)
  | None => None
  end.

(** The [for] loop of [drawCards]: the deck and the hand after it. *)
Fixpoint drawLoop (count : nat) (d h : list CardInstance)
  : list CardInstance * list CardInstance :=
  match count with
  | O => (d, h)
  | S n =>
      match pop d with
      | None => (d, h)
      | Some (card, d') => drawLoop n d' (h ++ [card])
      end
  end.

(** The loop of [drawCards(player, count)], the player given by its id. *)
Definition takeCards (id : string) (count : nat) (r : GameRoom) : GameRoom :=
  let handBefore := match getPlayer id (players r) with
                    | Some p => hand p
                    | None => []
                    end in
  let '(d, h) := drawLoop count (deck r) handBefore in
  setDeck d (onPlayer id (setHand h) r).

(** [this.metrics.deckRemaining = this.deck.length] *)
Definition refreshDeckRemaining (r : GameRoom) : GameRoom :=
  onMetrics (setDeckRemaining (Z.of_nat (length (deck r)))) r.

(** [drawCards] up to and including the saboteur check, before settlement. *)
Definition drawn (id : string) (count : nat) (r : GameRoom) : GameRoom :=
  maybeDeclareSaboteurWin (refreshDeckRemaining (takeCards id count r)).

Definition drawCards (id : string) (count : nat) (r : GameRoom) : option GameRoom :=
  maybeFinishRound None (drawn id count r).

(** ** Turn order *)

Definition clearTurnTimer (r : GameRoom) : GameRoom :=
  if turnTimer r then setTurnTimer_ false r else r.

Definition setTurnTimer (r : GameRoom) : GameRoom :=
  let r1 := clearTurnTimer r in
  if negb (truthy (activePlayerId (metrics r1))) then r1
  else setTurnTimer_ true
         (onMetrics (setTurnEndsAt (Some (clock (host r1) + 60000))) r1).

(** [ids.indexOf(x)] *)
Definition indexOf (x : option string) (ids : list string) : Z :=
  match x with
  | Some s =>
      match list_find (fun i => i = s) ids with
      | Some (i, _) => Z.of_nat i
      | None => -1
      end
  | None => -1
  end.

Definition advanceTurn (r : GameRoom) : GameRoom :=
  let ids := playerId <$> players r in
  match ids with
  | [] =>
      clearTurnTimer
        (onMetrics (setTurnEndsAt None) (onMetrics (setActivePlayerId None) r))
  | _ =>
      let currentIdx := indexOf (activePlayerId (metrics r)) ids in
      let idx := if 0 <=? currentIdx then currentIdx else 0 in
      let next := Z.rem (idx + 1) (Z.of_nat (length ids)) in
      setTurnTimer
        (onMetrics (setActivePlayerId (ids !! Z.to_nat next)) (setTurnIndex next r))
  end.

(** ** Telemetry *)

Definition reached (seen : gset string) (t : Tile) : bool :=
  bool_decide (tileType t = t_goal) && bool_decide (tid t ∈ seen).

(** The body of [goalTiles.forEach] on the tile object ... *)
Definition revealIfReached (seen : gset string) (t : Tile) : Tile :=
  if reached seen t
  then mkTile (tid t) (row t) (col t) (tileType t) (connectors t) (tileCard t)
         (tileRotation t) true (ownerId t)
  else t.

(** ... and on [board.winningTeam]. *)
Definition declareIfGold (seen : gset string) (w : option Role) (t : Tile)
  : option Role :=
  if reached seen t && bool_decide (tileCard t = Some gold) then Some miner else w.

(** [goalTiles.forEach] as a whole. *)
Definition revealGoals (seen : gset string) (b : Board) : Board :=
  mkBoard (rows b) (columns b)
    (revealIfReached seen <$> tiles b)
    (foldl (declareIfGold seen) (winningTeam b) (tiles b)).

(** [farthestCol / (BOARD_COLUMNS - 1)] *)
Definition progressOf (ex : Exploration) : Qc :=
  (Q2Qc (inject_Z (farthestCol ex)) / Q2Qc (inject_Z (BOARD_COLUMNS - 1)))%Qc.

Definition syncBoardTelemetry (r : GameRoom) : GameRoom :=
  let ex := exploreBoard (board r) in
  refreshDeckRemaining
    (maybeDeclareSaboteurWin
       (onBoard (revealGoals (visited ex))
          (onMetrics (setProgress (progressOf ex)) r))).

(** ** Joining, leaving, poses and the serialized view *)

Definition initialSuspicion (ro : Role) : Qc :=
  match ro with saboteur => num 1 2 | miner => num 0 1 end.

(** The player object built by [insertPlayer]. *)
Definition newPlayer (socket : string) (name : option string) (playerCount : nat)
    (ro : Role) : Player :=
  mkPlayer socket socket
    (if truthy name then default EmptyString name else "Dwarf-" +:+ pretty playerCount)
    ro spawnPosition spawnRotation [] true false (initialSuspicion ro) 0.

(** [this.players.set(socket.id, player);
     this.metrics.suspicionByPlayer[player.id] = player.suspicion] *)
Definition seatPlayer (player : Player) (r : GameRoom) : GameRoom :=
  setSuspicion (playerId player) (suspicion player)
    (setPlayers (putPlayer player (players r)) r).

(** The end of [insertPlayer]: the first player to join takes the turn. *)
Definition claimIdleTurn (socket : string) (r : GameRoom) : GameRoom :=
  if negb (truthy (activePlayerId (metrics r)))
  then setTurnTimer (setTurnIndex 0 (onMetrics (setActivePlayerId (Some socket)) r))
  else r.

Definition insertPlayer (socket : string) (name : option string) (r : GameRoom)
  : option GameRoom :=
  let playerCount := (length (players r) + 1)%nat in
  let '(roles, h1) := roleDistribution playerCount (host r) in
  (* [roles] has [playerCount] entries (lemma [roleDistribution_length]) *)
  let ro := default miner (roles !! (playerCount - 1)%nat) in
  r3 ← drawCards socket 5
         (seatPlayer (newPlayer socket name playerCount ro) (setHost h1 r));
  Some (claimIdleTurn socket r3).

Definition removePlayer (id : string) (r : GameRoom) : GameRoom :=
  let r1 := setPlayers (deletePlayer id (players r)) r in
  let r2 := onMetrics
              (fun m => setSuspicionByPlayer (delete id (suspicionByPlayer m)) m) r1 in
  if bool_decide (activePlayerId (metrics r2) = Some id) then advanceTurn r2 else r2.

Definition updatePlayerPose (id : string) (pos : Vec3) (rot : Quaternion)
    (r : GameRoom) : GameRoom :=
  match getPlayer id (players r) with
  | None => r
  | Some _ => onPlayer id (setPose pos rot) r
  end.

Record PlayerView := mkView {
  viewId : string;
  viewName : string;
  viewRole : option Role;       (* [None] is ['unknown'] *)
  viewPosition : Vec3;
  viewRotation : Quaternion;
  viewConnected : bool;
  viewToolBroken : bool;
  viewSuspicion : Qc;
  viewScore : Z;
}.

Definition serializePlayer (requestingId : option string) (m : Metrics) (p : Player)
  : PlayerView :=
  mkView (playerId p) (name p)
    (if bool_decide (Some (playerId p) = requestingId) then Some (role p) else None)
    (position p) (rotation p) (connected p) (toolBroken p)
    (default (num 0 1) (suspicionByPlayer m !! playerId p))
    (score p).

Definition serializePlayers (requestingId : option string) (r : GameRoom)
  : list PlayerView :=
  serializePlayer requestingId (metrics r) <$> players r.

(** ** Card resolution *)

(** The payload object of a [placeCard] event, as the client sent it.  The
    event without any object is handled in [onCardEvent]. *)
Record Payload := mkPayload {
  cardInstanceId : string;
  targetTileId : string;
  payloadRotation : Z;      (* [rotation] *)
}.

(** What a gameplay method returns: [{ error }], the success record of
    [placeCard], or [{ success: true }]. *)
Inductive Result :=
  | Error (msg : string)
  | Placed (card : CardInstance) (justEnded : bool) (placerId : option string)
  | Success.

Definition isError (res : Result) : bool :=
  match res with Error _ => true | _ => false end.

(** The turn-ownership guard shared by the three gameplay methods. *)
Definition notYourTurn (id : string) (r : GameRoom) : bool :=
  truthy (activePlayerId (metrics r))
  && negb (bool_decide (activePlayerId (metrics r) = Some id)).

Record EdgeCheck := mkEdgeCheck {
  hasValidAttachment : bool;
  mismatch : bool;
}.

(** The body of [neighbors.forEach] in [placeCard]. *)
Definition checkEdge (b : Board) (tile : Tile) (c : PathConnectors)
    (acc : EdgeCheck) (nb : Neighbor) : EdgeCheck :=
  match tileAt b (row tile + dr nb) (col tile + dc nb) with
  | None => acc
  | Some neighbor =>
      match connectors neighbor with
      | None => acc
      | Some nc =>
          if open c (key nb) && open nc (opposite nb)
          then mkEdgeCheck true (mismatch acc)
          else if open c (key nb) || open nc (opposite nb)
          then mkEdgeCheck (hasValidAttachment acc) true
          else acc
      end
  end.

Definition checkEdges (b : Board) (tile : Tile) (c : PathConnectors) : EdgeCheck :=
  foldl (checkEdge b tile c) (mkEdgeCheck false false) neighbors.

(** [Object.assign(tile, { tileType: 'path', ... })] *)
Definition placePathCard (c : PathConnectors) (k : CardKey) (rot : Z)
    (placer : string) (t : Tile) : Tile :=
  mkTile (tid t) (row t) (col t) t_path (Some c) (Some (placed k)) (Some rot)
    true (Some placer).

(** [Object.assign(tile, { tileType: 'blocked', connectors: undefined, ... })] *)
Definition collapseTile (t : Tile) : Tile :=
  mkTile (tid t) (row t) (col t) t_blocked None None None (revealed t) (ownerId t).

(** The statements of a successful placement from [Object.assign] to the
    efficiency record, before the redraw. *)
Definition stagePlacement (id : string) (payload : Payload) (card : CardInstance)
    (tile : Tile) (c : PathConnectors) (prevProgress : Qc) (r : GameRoom) : GameRoom :=
  recordEfficiency id prevProgress
    (lowerSuspicion id (num 5 100)
       (countTurn
          (pushDiscard card
             (takeFromHand id card
                (onTile (tid tile)
                   (placePathCard c (cardKey card) (payloadRotation payload) id) r))))).

(** The state changes of a successful placement, from [Object.assign] to the
    final [maybeFinishRound]. *)
Definition commitPlacement (id : string) (payload : Payload) (player : Player)
    (card : CardInstance) (tile : Tile) (c : PathConnectors) (r : GameRoom)
  : option GameRoom :=
  r7 ← drawCards id 1 (stagePlacement id payload card tile c (progress (metrics r)) r);
  maybeFinishRound (Some id) (advanceTurn (syncBoardTelemetry r7)).

Definition placeCard (id : string) (payload : Payload) (r : GameRoom)
  : option (Result * GameRoom) :=
  if notYourTurn id r then Some (Error "Not your turn", r)
  else
    let endedBefore := roundEnded r in
    match getPlayer id (players r) with
    | None => Some (Error "Unknown player", r)
    | Some player =>
        if toolBroken player then Some (Error "Tool broken", r)
        else match List.find (fun c => String.eqb (instanceId c) (cardInstanceId payload))
                     (hand player) with
        | None => Some (Error "Card not available", r)
        | Some card =>
            let def := CARD_LIBRARY (cardKey card) in
            if negb (bool_decide (category def = cat_path))
            then Some (Error "Not a path card", r)
            else match findTile (board r) (targetTileId payload) with
            | None => Some (Error "Invalid tile", r)
            | Some tile =>
                if bool_decide (tileType tile = t_start)
                   || bool_decide (tileType tile = t_goal)
                then Some (Error "Invalid tile", r)
                else if bool_decide (tileType tile = t_path)
                then Some (Error "Tile already filled", r)
                else
                  (* a path definition always has connectors *)
                  c ← rotateConnectors (def_connectors def) (payloadRotation payload);
                  let check := checkEdges (board r) tile c in
                  if negb (hasValidAttachment check) || mismatch check
                  then Some (Error "Card does not connect cleanly", r)
                  else
                    r' ← commitPlacement id payload player card tile c r;
                    let justEnded := negb endedBefore && roundEnded r' in
                    Some (Placed card justEnded (if justEnded then Some id else None), r')
            end
        end
    end.

(** The statements of a rockfall from [Object.assign] to the suspicion
    update, before the redraw. *)
Definition stageRockfall (id : string) (card : CardInstance) (tile : Tile)
    (r : GameRoom) : GameRoom :=
  raiseSuspicion id (num 15 100)
    (countTurn
       (countCollapse
          (takeFromHand id card (onTile (tid tile) collapseTile r)))).

Definition triggerRockfall (id : string) (tileId : string) (r : GameRoom)
  : option (Result * GameRoom) :=
  if notYourTurn id r then Some (Error "Not your turn", r)
  else match getPlayer id (players r) with
  | None => Some (Error "Unknown player", r)
  | Some player =>
      match List.find (fun c => bool_decide (cardKey c = rockfall)) (hand player) with
      | None => Some (Error "No rockfall card", r)
      | Some card =>
          match findTile (board r) tileId with
          | None => Some (Error "Tile is not a tunnel", r)
          | Some tile =>
              if negb (bool_decide (tileType tile = t_path))
              then Some (Error "Tile is not a tunnel", r)
              else
                r6 ← drawCards id 1 (stageRockfall id card tile r);
                Some (Success, advanceTurn (syncBoardTelemetry r6))
          end
      end
  end.

(** The payload object of a [toolEffect] event, which [applyToolEffect]
    destructures on entry.  The event without any object is handled in
    [onCardEvent]. *)
Record ToolPayload := mkToolPayload {
  targetPlayerId : string;
  toolKey : option CardKey;   (* [cardKey]; [None] is a string that names no card *)
}.

(** The effect of the tool card and its removal from the actor's hand,
    before the redraw. *)
Definition stageToolEffect (actorId : string) (payload : ToolPayload)
    (card : CardInstance) (r : GameRoom) : GameRoom :=
  takeFromHand actorId card
    (if bool_decide (toolKey payload = Some break)
     then raiseSuspicion actorId (num 12 100)
            (onPlayer (targetPlayerId payload) (setToolBroken true) r)
     else lowerSuspicion actorId (num 4 100)
            (onPlayer (targetPlayerId payload) (setToolBroken false) r)).

Definition applyToolEffect (actorId : string) (payload : ToolPayload) (r : GameRoom)
  : option (Result * GameRoom) :=
  if notYourTurn actorId r then Some (Error "Not your turn", r)
  else match getPlayer actorId (players r), getPlayer (targetPlayerId payload) (players r) with
  | Some actor, Some target =>
      match List.find (fun c => bool_decide (Some (cardKey c) = toolKey payload))
              (hand actor) with
      | None => Some (Error "Card missing", r)
      | Some card =>
          r3 ← drawCards actorId 1 (stageToolEffect actorId payload card r);
          Some (Success, advanceTurn (countTurn r3))
      end
  | _, _ => Some (Error "Players missing", r)
  end.

(** ** Room creation and restart *)

(** The inner [for] loop of [generateDeck]: [quantity] fresh instances. *)
Fixpoint freshCards (k : CardKey) (quantity : nat) (h : Host)
  : list CardInstance * Host :=
  match quantity with
  | O => ([], h)
  | S n =>
      let '(id, h1) := uuid h in
      let '(rest, h2) := freshCards k n h1 in
      (mkCard id k 0 :: rest, h2)
  end.

Definition generateDeck (h : Host) : list CardInstance * Host :=
  let '(cards, h1) :=
    foldl (fun '(d, h0) '(k, quantity) =>
             let '(cs, h') := freshCards k quantity h0 in (d ++ cs, h'))
          ([], h) DECK_TEMPLATE in
  shuffle cards h1.

Definition freshMetrics (deckLength : nat) (gold : gmap string Z) (roundNo : Z)
  : Metrics :=
  mkMetrics (Z.of_nat deckLength) (num 0 1) 0 ∅ 0 gold roundNo ∅ None None.

(** [new GameRoom(id)] *)
Definition newGameRoom (id : string) (h : Host) : GameRoom :=
  let '(b, h1) := createBoard h in
  let '(d, h2) := generateDeck h1 in
  syncBoardTelemetry
    (mkRoom id b [] d [] false 1 (freshMetrics (length d) ∅ 1) 0 false
       None None None None h2).

(** [Object.assign(player, { role, ..., score: prevScore })] *)
Definition resetPlayer (ro : Role) (p : Player) : Player :=
  mkPlayer (playerId p) (socketId p) (name p) ro spawnPosition spawnRotation []
    true false (initialSuspicion ro) (score p).

(** The body of the [forEach] over the players in [resetRoom]. *)
Definition resetSeat (roles : list Role) (acc : option GameRoom) (seat : nat * string)
  : option GameRoom :=
  r ← acc;
  (* [roles] has one entry per player (lemma [roleDistribution_length]) *)
  let ro := default miner (roles !! seat.1) in
  drawCards seat.2 5
    (setSuspicion seat.2 (initialSuspicion ro) (onPlayer seat.2 (resetPlayer ro) r)).

(** The first statements of [resetRoom]: everything but the players is
    renewed. *)
Definition renewRoom (r : GameRoom) : GameRoom :=
  let '(b, h1) := createBoard (host r) in
  let '(d, h2) := generateDeck h1 in
  let roundNo := roundNumber r + 1 in
  setTurnIndex 0
    (clearTurnTimer
       (mkRoom (roomId r) b (players r) d [] false roundNo
          (freshMetrics (length d) (goldByPlayer (metrics r)) roundNo)
          (turnIndex r) (turnTimer r) None (Some ∅) (lastWinners r) None h2)).

(** The end of [resetRoom]: the first player in the list takes the turn. *)
Definition seatFirstTurn (r : GameRoom) : GameRoom :=
  match playerId <$> players r with
  | [] => r
  | first :: _ => setTurnTimer (onMetrics (setActivePlayerId (Some first)) r)
  end.

Definition resetRoom (r : GameRoom) : option GameRoom :=
  let r2 := renewRoom r in
  let '(roles, h3) := roleDistribution (length (players r2)) (host r2) in
  r3 ← foldl (resetSeat roles) (Some (setHost h3 r2))
             (imap (fun idx p => (idx, playerId p)) (players r2));
  Some (syncBoardTelemetry (seatFirstTurn r3)).

(** ** The room as a state machine *)

(** The three card-consuming calls a client can make on its turn. *)
Inductive Intent :=
  | PlaceCard (payload : Payload)
  | Rockfall (tileId : string)
  | ToolEffect (payload : ToolPayload).

Definition resolve (id : string) (i : Intent) (r : GameRoom)
  : option (Result * GameRoom) :=
  match i with
  | PlaceCard payload => placeCard id payload r
  | Rockfall tileId => triggerRockfall id tileId r
  | ToolEffect payload => applyToolEffect id payload r
  end.

Inductive Action :=
  | Join (socket : string) (name : option string)
  | Leave (id : string)
  | Move (id : string) (pos : Vec3) (rot : Quaternion)
  | Play (id : string) (i : Intent)
  | TurnTimeout
  | Tick (now : Z)
  | RestartRound.

Definition setClock (now : Z) (r : GameRoom) : GameRoom :=
  setHost (mkHost (random (host r)) (randPos (host r)) (uuids (host r))
             (uuidPos (host r)) now) r.

(** One event handled by the room; [None] when the handler throws. *)
Definition handle (a : Action) (r : GameRoom) : option GameRoom :=
  match a with
  | Join socket name => insertPlayer socket name r
  | Leave id => Some (removePlayer id r)
  | Move id pos rot => Some (updatePlayerPose id pos rot r)
  | Play id i => snd <$> resolve id i r
  | TurnTimeout => Some (advanceTurn r)
  | Tick now => Some (setClock now r)
  | RestartRound => resetRoom r
  end.

Fixpoint run (actions : list Action) (r : GameRoom) : option GameRoom :=
  match actions with
  | [] => Some r
  | a :: rest => r' ← handle a r; run rest r'
  end.

(** ** Statements about the edge check of [placeCard] *)

(** The connectors, if any, on the other side of the edge in direction
    [nb]: none at the edge of the board and none on an empty or blocked
    neighbour. *)
Definition facing (b : Board) (tile : Tile) (nb : Neighbor) : option PathConnectors :=
  neighbor ← tileAt b (row tile + dr nb) (col tile + dc nb);
  connectors neighbor.

(** A valid attachment: both sides of the edge are open. *)
Definition attaches (b : Board) (tile : Tile) (c : PathConnectors) (nb : Neighbor)
  : bool :=
  match facing b tile nb with
  | Some nc => open c (key nb) && open nc (opposite nb)
  | None => false
  end.

(** A mismatch against a neighbour that has connectors: exactly one of the
    two facing connectors is open. *)
Definition conflicts (b : Board) (tile : Tile) (c : PathConnectors) (nb : Neighbor)
  : bool :=
  match facing b tile nb with
  | Some nc => xorb (open c (key nb)) (open nc (opposite nb))
  | None => false
  end.

(** The mismatch of the specification's wording, which also counts an open
    connector of the placed card that faces the edge of the board or a
    neighbour without connectors. *)
Definition mismatchAsStated (b : Board) (tile : Tile) (c : PathConnectors)
    (nb : Neighbor) : bool :=
  match facing b tile nb with
  | Some nc => xorb (open c (key nb)) (open nc (opposite nb))
  | None => open c (key nb)
  end.

(** The call passes the turn, player, tool, card and tile validation of
    [placeCard], with these intermediate values. *)
Definition passesValidation (id : string) (payload : Payload) (r : GameRoom)
    (player : Player) (card : CardInstance) (tile : Tile) (c : PathConnectors)
  : Prop :=
  notYourTurn id r = false
  /\ getPlayer id (players r) = Some player
  /\ toolBroken player = false
  /\ List.find (fun c => String.eqb (instanceId c) (cardInstanceId payload))
       (hand player) = Some card
  /\ category (CARD_LIBRARY (cardKey card)) = cat_path
  /\ findTile (board r) (targetTileId payload) = Some tile
  /\ tileType tile <> t_start /\ tileType tile <> t_goal /\ tileType tile <> t_path
  /\ rotateConnectors (def_connectors (CARD_LIBRARY (cardKey card)))
       (payloadRotation payload) = Some c.

(** The placement is committed: [placeCard] returns its success record. *)
Definition accepted (id : string) (payload : Payload) (r : GameRoom) : Prop :=
  exists card justEnded placer r',
    placeCard id payload r = Some (Placed card justEnded placer, r').

Definition rejectedAsUnclean (id : string) (payload : Payload) (r : GameRoom) : Prop :=
  placeCard id payload r = Some (Error "Card does not connect cleanly", r).

(** The edge rule in the specification's wording. *)
Definition edgeRuleAsStated (id : string) (payload : Payload) (r : GameRoom) : Prop :=
  forall player card tile c,
    passesValidation id payload r player card tile c ->
    (accepted id payload r <->
       (exists nb, nb ∈ neighbors /\ attaches (board r) tile c nb = true)
       /\ (forall nb, nb ∈ neighbors -> mismatchAsStated (board r) tile c nb = false))
    /\ (~ accepted id payload r -> rejectedAsUnclean id payload r).

(** ** Classes of actions *)

Definition isRestart (a : Action) : bool :=
  match a with RestartRound => true | _ => false end.

(** Joins and departures change who sits in the room. *)
Definition changesSeats (a : Action) : bool :=
  match a with Join _ _ | Leave _ => true | _ => false end.

(** ** Views of the room used in the statements *)

(** Board tiles whose id the exploration has not seen. *)
Definition unseen (b : Board) (seen : gset string) : nat :=
  length (filter (fun t => tid t ∉ seen) (tiles b)).

(** Two player lists that differ in scores only. *)
Definition scoreOnly (ps qs : list Player) : Prop :=
  Forall2 (fun p q => exists v, p = setScore v q) ps qs.

(** What a settlement writes: the flag, the gold tallies and the scores. *)
Definition ledger (r : GameRoom)
  : bool * gmap string Z * list (string * Z) :=
  (roundEnded r, goldByPlayer (metrics r),
   (fun p => (playerId p, score p)) <$> players r).

Definition seat (p : Player) : string * Role * Qc :=
  (playerId p, role p, suspicion p).

(** What only card effects, joins, departures and restarts write. *)
Definition quiet (r : GameRoom)
  : gmap string Qc * gmap string Qc * list (string * Role * Qc) :=
  (suspicionByPlayer (metrics r), efficiencyByPlayer (metrics r),
   seat <$> players r).

Definition inUnit (q : Qc) : Prop := (num 0 1 <= q)%Qc /\ (q <= num 1 1)%Qc.

(** The suspicion a successful call of player [id] writes for that player. *)
Definition suspicionAfter (id : string) (i : Intent) (r : GameRoom) : Qc :=
  let s := suspicionOf id (metrics r) in
  match i with
  | PlaceCard _ => Math_max (num 0 1) (s - num 5 100)%Qc
  | Rockfall _ => Math_min (num 1 1) (s + num 15 100)%Qc
  | ToolEffect payload =>
      if bool_decide (toolKey payload = Some break)
      then Math_min (num 1 1) (s + num 12 100)%Qc
      else Math_max (num 0 1) (s - num 4 100)%Qc
  end.

(** The efficiency dictionary after a successful call of player [id]. *)
Definition efficiencyAfter (id : string) (i : Intent) (r : GameRoom)
  : gmap string Qc :=
  match i with
  | PlaceCard _ =>
      <[id := (default (num 0 1) (efficiencyByPlayer (metrics r) !! id)
               + (progress (metrics r) - progress (metrics r)))%Qc]>
        (efficiencyByPlayer (metrics r))
  | _ => efficiencyByPlayer (metrics r)
  end.

(** Every suspicion value of the room, in the metrics and on the player
    objects, lies in [0, 1]. *)
Definition suspicionBounded (r : GameRoom) : Prop :=
  map_Forall (fun _ v => inUnit v) (suspicionByPlayer (metrics r))
  /\ Forall (fun p => inUnit (suspicion p)) (players r).

(** Every recorded efficiency is 0. *)
Definition efficiencyAllZero (r : GameRoom) : Prop :=
  map_Forall (fun _ v => v = num 0 1) (efficiencyByPlayer (metrics r)).

(** What another player is sent about [p]. *)
Definition viewOf (requester : option string) (r : GameRoom) (p : Player)
  : PlayerView :=
  serializePlayer requester (metrics r) p.

(** The role read off the suspicion a view reports. *)
Definition inferRole (v : PlayerView) : Role :=
  if Qc_eq_dec (viewSuspicion v) (num 1 2) then saboteur else miner.

(** At the start of a round the suspicion of [p], on the player object and
    in the metrics, is the initial value of its role. *)
Definition disclosed (r : GameRoom) (p : Player) : Prop :=
  suspicion p = initialSuspicion (role p)
  /\ suspicionByPlayer (metrics r) !! playerId p = Some (initialSuspicion (role p)).

(** [disclosed] on a seat and the suspicion dictionary. *)
Definition disclosedSeat (m : gmap string Qc) (t : string * Role * Qc) : Prop :=
  t.2 = initialSuspicion t.1.2 /\ m !! t.1.1 = Some t.2.

(** The invariant of the [forEach] of [resetRoom]: the seats already reset
    are disclosed. *)
Definition resetSoFar (done : gset string) (r : GameRoom) : Prop :=
  NoDup (playerId <$> players r)
  /\ forall t, t ∈ seat <$> players r -> t.1.1 ∈ done ->
       disclosedSeat (suspicionByPlayer (metrics r)) t.

(** ** Sample rooms *)

Module Sample.

Definition host0 : Host :=
  mkHost (fun n => S n) 0 (fun n => "card-" +:+ pretty n) 0 1000.

Definition lobby : GameRoom := newGameRoom "lobby" host0.

(** The lobby after Alice joined. *)
Definition withAlice : GameRoom :=
  default lobby (handle (Join "alice" (Some "Alice")) lobby).

Definition firstPlacement : Payload := mkPayload "card-2" "3-1" 0.

(** Alice as she sits in [withAlice], the card she plays, the tile she
    targets and the connectors of the card as played. *)
Definition alice : Player :=
  default (newPlayer "alice" None 1 miner) (getPlayer "alice" (players withAlice)).
Definition straightCard : CardInstance := mkCard "card-2" straight 0.
Definition target : Tile := emptyTile 3 1.
Definition eastWest : PathConnectors := mkConnectors false true false true.

(** The room after that placement. *)
Definition afterPlacement : GameRoom :=
  default withAlice (snd <$> placeCard "alice" firstPlacement withAlice).

(** A straight tunnel laid from the start tile to the gold goal, before the
    telemetry is recomputed. *)
Definition tunnel : list string :=
  ["3-1"; "3-2"; "3-3"; "3-4"; "3-5"; "3-6"; "3-7"].
Definition bridged : GameRoom :=
  foldl (fun r id => onTile id (placePathCard eastWest straight 0 "alice") r)
        withAlice tunnel.
Definition goldGoal : Tile := makeGoal gold (emptyTile 3 8).

(** One card left in the deck, and the room after Alice drew it. *)
Definition lastCard : GameRoom := setDeck [mkCard "card-last" cross 0] withAlice.
Definition settled : GameRoom := default lastCard (drawCards "alice" 1 lastCard).

End Sample.

(** ** Further views of the room used in the statements *)

(** The keys of [DECK_TEMPLATE], each as often as its quantity. *)
Definition templateKeys : list CardKey :=
  entry ← DECK_TEMPLATE; replicate entry.2 entry.1.

(** Where a tile lies: its id and its coordinates. *)
Definition placeOf (t : Tile) : string * Z * Z := (tid t, row t, col t).

(** The grid of [createBoard], row by row. *)
Definition grid : list (string * Z * Z) :=
  r ← seqZ 0 BOARD_ROWS; c ← seqZ 0 BOARD_COLUMNS; [(tileId r c, r, c)].

(** A host whose [Math.random] always gives [k]. *)
Definition constantHost (k : nat) : Host :=
  mkHost (fun _ => k) 0 (fun _ => EmptyString) 0 0.

Global Instance Tile_eq_dec : EqDecision Tile.
Proof. solve_decision. Defined.

(** The room [r'] differs from [r] in the turn bookkeeping only: the active
    player, the deadline, the turn index and the pending timer. *)
Definition turnOnly (r r' : GameRoom) : Prop :=
  exists a e i tm,
    r' = setTurnTimer_ tm
           (setTurnIndex i
              (onMetrics (fun m => setTurnEndsAt e (setActivePlayerId a m)) r)).

(** The board tiles, the discard pile and the counters of played cards. *)
Definition table (r : GameRoom) : list Tile * list CardInstance * Z * Z :=
  (tiles (board r), discard r, turnsTaken (metrics r), collapsedTiles (metrics r)).

(** Who sits where and holds what, apart from the scores. *)
Definition holding (p : Player)
  : string * Role * list CardInstance * bool :=
  (playerId p, role p, hand p, toolBroken p).

(** The cards the draw loop moves for a deck [d]: the last [count] of them,
    the last one first. *)
Definition drawnCards (count : nat) (d : list CardInstance) : list CardInstance :=
  reverse (drop (length d - count) d).

(** ** Views of the settlement *)

(** The ids of the players with role [ro], in seating order. *)
Definition idsWithRole (ro : Role) (ps : list Player) : list string :=
  playerId <$> List.filter (fun p => bool_decide (role p = ro)) ps.

Definition sumZ (l : list Z) : Z := foldr Z.add 0 l.

(** What the round-robin over [order] hands to [x] out of [cards]: the cards
    at the indices [idx] with [order[idx % order.length] = x]. *)
Definition dealt (order : list string) (cards : list Z) (x : string) : Z :=
  sumZ (imap (fun idx v =>
                if bool_decide (order !! (idx mod length order)%nat = Some x)
                then v else 0) cards).

(** The score of [p] raised by [f] of its id. *)
Definition paid (f : string -> Z) (p : Player) : Player :=
  setScore (score p + f (playerId p)) p.

(** A list of credits applied one after the other. *)
Definition creditAll (cs : list (string * Z)) (acc : Purse) : Purse :=
  foldl (fun acc c => credit c.1 c.2 acc) acc cs.

(** What the credits [cs] add up to for [x]. *)
Definition credited (cs : list (string * Z)) (x : string) : Z :=
  sumZ ((fun c => if bool_decide (c.1 = x) then c.2 else 0) <$> cs).

(** The credits of a miner win: card [idx] goes to [order[idx % order.length]]. *)
Definition schedule (order : list string) (cards : list Z) : list (string * Z) :=
  imap (fun idx v => (default EmptyString (order !! (idx mod length order)%nat), v)) cards.

(** ** Invariants of the room *)

(** The players' ids are distinct and are exactly the keys of the suspicion
    dictionary. *)
Definition registered (r : GameRoom) : Prop :=
  NoDup (playerId <$> players r)
  /\ dom (suspicionByPlayer (metrics r)) =@{gset string}
     list_to_set (playerId <$> players r).

(** ** Tunnels *)

(** [board.tiles.find((tile) => tile.tileType === 'start')] *)
Definition startTile (b : Board) : option Tile :=
  List.find (fun t => bool_decide (tileType t = t_start)) (tiles b).

(** The tiles joined to the start tile by a chain of tiles with connectors
    in which each step crosses an edge that is open on both sides. *)
Inductive linked (b : Board) : Tile -> Prop :=
  | linked_start t c :
      startTile b = Some t -> connectors t = Some c -> linked b t
  | linked_step s c nb t nc :
      linked b s -> connectors s = Some c -> nb ∈ neighbors ->
      open c (key nb) = true ->
      tileAt b (row s + dr nb) (col s + dc nb) = Some t ->
      connectors t = Some nc -> open nc (opposite nb) = true ->
      linked b t.

(** ** The fixed part of the board *)

Definition isAnchor (t : Tile) : bool :=
  bool_decide (tileType t = t_start) || bool_decide (tileType t = t_goal).

(** Where a tile lies and, for the start tile and the goal tiles, what it
    is: its type, its connectors and whether it hides gold or coal. *)
Definition layout (t : Tile)
  : string * Z * Z * option (TileType * option PathConnectors * option TileKey) :=
  (placeOf t,
   if isAnchor t then Some (tileType t, connectors t, tileCard t) else None).

Definition plan (r : GameRoom)
  : list (string * Z * Z * option (TileType * option PathConnectors * option TileKey)) :=
  layout <$> tiles (board r).

(** The tiles are those of the grid of [createBoard] and the recorded
    progress is a fraction. *)
Definition charted (r : GameRoom) : Prop :=
  placeOf <$> tiles (board r) = grid /\ inUnit (progress (metrics r)).

(** ** Further views *)

(** How many sides of a card are open. *)
Definition openSides (c : PathConnectors) : nat :=
  length (List.filter (open c) [North; East; South; West]).

(** The host after [k] more reads of [Math.random]. *)
Definition afterReads (k : nat) (h : Host) : Host :=
  mkHost (random h) (randPos h + k) (uuids h) (uuidPos h) (clock h).

(** A declared win stays declared, and a win of the miners stays theirs. *)
Definition kept (w w' : option Role) : Prop :=
  (w = Some miner -> w' = Some miner) /\ (w <> None -> w' <> None).

(** What the restart leaves the player at seat [idx] holding: the role
    [roles[idx]], the five cards at the end of what is left of the fresh
    deck [d] after the seats before it, and a working tool. *)
Definition dealtSeat (roles : list Role) (d : list CardInstance) (idx : nat)
    (p : Player) : string * Role * list CardInstance * bool :=
  (playerId p, default miner (roles !! idx),
   drawnCards 5 (take (length d - 5 * idx) d), false).

(** ** Further sample rooms *)

Module Cases.

Definition setRole (ro : Role) (p : Player) : Player :=
  mkPlayer (playerId p) (socketId p) (name p) ro (position p) (rotation p) (hand p)
    (connected p) (toolBroken p) (suspicion p) (score p).

(** The room after Alice drew one more card. *)
Definition afterDraw : GameRoom :=
  default Sample.withAlice (drawCards "alice" 1 Sample.withAlice).

(** Alice as the only player and a saboteur. *)
Definition turncoat : GameRoom := onPlayer "alice" (setRole saboteur) Sample.withAlice.

(** The saboteurs have won and nothing is settled yet. *)
Definition deckLost : GameRoom := onBoard (setWinningTeam (Some saboteur)) turncoat.

(** The miners have won and nothing is settled yet, and the settlement. *)
Definition struckGold : GameRoom :=
  onBoard (setWinningTeam (Some miner)) Sample.withAlice.
Definition paidOut : Rewards * GameRoom :=
  default (mkRewards ∅ [], struckGold) (applyRoundRewards (Some "alice") struckGold).



(** The room after a restart. *)
Definition restarted : GameRoom :=
  default Sample.withAlice (resetRoom Sample.withAlice).

(** A saboteur alone in the room, one card short of the gold. *)
Definition oneShort : GameRoom :=
  foldl (fun r id => onTile id (placePathCard Sample.eastWest straight 0 "alice") r)
        turncoat ["3-2"; "3-3"; "3-4"; "3-5"; "3-6"; "3-7"].

(** Bob joined after Alice. *)
Definition withBob : GameRoom :=
  default Sample.withAlice (handle (Join "bob" (Some "Bob")) Sample.withAlice).

End Cases.

(** ** What the socket handlers pass on *)

(** The argument of a card event as the handler of the socket receives it:
    the object the client sent, or [None] when it sent [undefined] or [null].
    The handlers pass it on unchecked.  A field that is missing from an
    object compares unequal to every id and every card key, which the
    gameplay methods answer with an error; only a missing object makes a
    read throw. *)
Inductive CardEvent :=
  | PlaceCardEvent (payload : option Payload)
  | RockfallEvent (payload : option string)     (* [payload.targetTileId] *)
  | ToolEffectEvent (payload : option ToolPayload).

(** [placeCard(playerId, undefined)]: the first read of the payload is
    [payload.cardInstanceId] in the callback of [player.hand.find], which
    runs as soon as the hand holds a card. *)
Definition placeCardUnsent (id : string) (r : GameRoom)
  : option (Result * GameRoom) :=
  if notYourTurn id r then Some (Error "Not your turn", r)
  else match getPlayer id (players r) with
       | None => Some (Error "Unknown player", r)
       | Some player =>
           if toolBroken player then Some (Error "Tool broken", r)
           else match hand player with
                | [] => Some (Error "Card not available", r)
                | _ :: _ => None
                end
       end.

(** The handlers of [placeCard], [rockfall] and [toolEffect] up to the call of
    the gameplay method.  The rockfall handler reads [payload.targetTileId]
    itself, and [applyToolEffect] destructures its argument on entry: both
    throw when no object was sent, whatever the room. *)
Definition onCardEvent (id : string) (e : CardEvent) (r : GameRoom)
  : option (Result * GameRoom) :=
  match e with
  | PlaceCardEvent (Some payload) => placeCard id payload r
  | PlaceCardEvent None => placeCardUnsent id r
  | RockfallEvent (Some tileId) => triggerRockfall id tileId r
  | RockfallEvent None => None
  | ToolEffectEvent (Some payload) => applyToolEffect id payload r
  | ToolEffectEvent None => None
  end.

(** ** A room of three *)

Module Trio.

(** Carol joined after Alice and Bob, and the room after a restart. *)
Definition withCarol : GameRoom :=
  default Cases.withBob (handle (Join "carol" (Some "Carol")) Cases.withBob).
Definition regrouped : GameRoom := default withCarol (resetRoom withCarol).

(** Alice as she sits in [regrouped]. *)
Definition alice : Player :=
  default Sample.alice (getPlayer "alice" (players regrouped)).

End Trio.

(** * Properties *)

(** * Connector rotation *)

Lemma rotationSteps_mod (r : Z) : rotationSteps r = r mod 4.
Proof.
  unfold rotationSteps.
  pose proof (Z.rem_bound_abs r 4 ltac:(lia)) as Hb.
  pose proof (Z.rem_mod_eq_0 r 4) as _.
  assert (Hrem : exists q, r = 4 * q + Z.rem r 4).
  { exists (Z.quot r 4). apply Z.quot_rem'. }
  destruct Hrem as [q Hq].
  assert (Hr : -4 < Z.rem r 4 < 4) by lia.
  rewrite Z.rem_mod_nonneg by lia.
  replace r with (Z.rem r 4 + q * 4) at 2 by lia.
  rewrite Z.mod_add by lia.
  replace (Z.rem r 4 + 4) with (Z.rem r 4 + 1 * 4) by lia.
  rewrite Z.mod_add by lia. reflexivity.
Qed.

Lemma rotationSteps_range (r : Z) : 0 <= rotationSteps r < 4.
Proof. rewrite rotationSteps_mod. apply Z.mod_pos_bound. lia. Qed.

Lemma rotationSteps_complement (r : Z) :
  rotationSteps (4 - r) = (4 - rotationSteps r) mod 4.
Proof.
  rewrite !rotationSteps_mod.
  rewrite Zminus_mod_idemp_r. reflexivity.
Qed.

Lemma rotateLoop_compose (n m : nat) (c : PathConnectors) :
  rotateLoop m (rotateLoop n c) = rotateLoop (n + m) c.
Proof. revert c. induction n as [|n IH]; intros c; simpl; [reflexivity | apply IH]. Qed.

Lemma rotateLoop_full_turn (c : PathConnectors) : rotateLoop 4 c = c.
Proof. destruct c. reflexivity. Qed.

(** Claim C7.  For every connector set [c] (or [undefined]) and every integer
    rotation [r], rotating by [r] and then by [4 - r] gives [c] back, rotating
    by 4 is the identity, and [rotateConnectors] returns [undefined] exactly
    when its connectors argument is [undefined]. *)
Theorem rotateConnectors_round_trip (c : option PathConnectors) (r : Z) :
  rotateConnectors (rotateConnectors c r) (4 - r) = c
  /\ rotateConnectors c 4 = c
  /\ (rotateConnectors c r = None <-> c = None).
Proof.
  destruct c as [c|]; simpl; [|tauto].
  split; [|split; [|split; discriminate]].
  - f_equal. rewrite rotateLoop_compose, rotationSteps_complement.
    pose proof (rotationSteps_range r) as Hr.
    assert (Hk : rotationSteps r = 0 \/ rotationSteps r = 1
                 \/ rotationSteps r = 2 \/ rotationSteps r = 3) by lia.
    destruct Hk as [-> | [-> | [-> | ->]]]; destruct c; reflexivity.
  - destruct c. reflexivity.
Qed.

(** * Role distribution *)

Lemma insert_swap_head {A} (l : list A) (j : nat) (a y : A) :
  l !! j = Some y -> y :: <[j := a]> l ≡ₚ a :: l.
Proof.
  revert j. induction l as [|b l IH]; intros [|j] Hj; simplify_eq/=.
  - apply Permutation_swap.
  - rewrite Permutation_swap. rewrite (IH j Hj). apply Permutation_swap.
Qed.

Lemma swap_Permutation {A} (a : list A) (i j : nat) : swap a i j ≡ₚ a.
Proof.
  unfold swap.
  destruct (a !! i) as [x|] eqn:Hi; [|reflexivity].
  destruct (a !! j) as [y|] eqn:Hj; [|reflexivity].
  revert i j Hi Hj. induction a as [|b a IH]; intros [|i] [|j] Hi Hj; simplify_eq/=.
  - reflexivity.
  - by apply insert_swap_head.
  - by apply insert_swap_head.
  - f_equiv. by apply IH.
Qed.

Lemma shuffleFrom_Permutation {A} (i : nat) (a : list A) (h : Host) :
  (shuffleFrom i a h).1 ≡ₚ a.
Proof.
  revert a h. induction i as [|i IH]; intros a h; simpl; [reflexivity|].
  rewrite IH. apply swap_Permutation.
Qed.

Lemma shuffle_Permutation {A} (a : list A) (h : Host) : (shuffle a h).1 ≡ₚ a.
Proof. apply shuffleFrom_Permutation. Qed.

Lemma countRole_Permutation (r : Role) (l1 l2 : list Role) :
  l1 ≡ₚ l2 -> countRole r l1 = countRole r l2.
Proof. intros H. unfold countRole. by rewrite H. Qed.

Lemma length_rolesBeforeShuffle (count s : nat) :
  length (rolesBeforeShuffle count s) = count.
Proof. unfold rolesBeforeShuffle. by rewrite length_fmap, length_seq. Qed.

Lemma countRole_total (l : list Role) :
  (countRole saboteur l + countRole miner l = length l)%nat.
Proof.
  unfold countRole. induction l as [|[] l IH]; [done| |].
  - rewrite filter_cons_False by done. rewrite filter_cons_True by done.
    rewrite !length_cons. lia.
  - rewrite filter_cons_True by done. rewrite filter_cons_False by done.
    rewrite !length_cons. lia.
Qed.

Lemma countRole_saboteur_from (start count s : nat) :
  countRole saboteur
    ((fun idx => if (idx <? s)%nat then saboteur else miner) <$> seq start count)
  = (Nat.min (start + count) s - Nat.min start s)%nat.
Proof.
  unfold countRole. revert start. induction count as [|n IH]; intros start.
  - replace (start + 0)%nat with start by lia. simpl. lia.
  - cbn [seq fmap list_fmap]. destruct (start <? s)%nat eqn:E.
    + rewrite filter_cons_True by done. rewrite length_cons.
      fold (fmap (M:=list) (fun idx => if (idx <? s)%nat then saboteur else miner)).
      rewrite IH. apply Nat.ltb_lt in E. lia.
    + rewrite filter_cons_False by done.
      fold (fmap (M:=list) (fun idx => if (idx <? s)%nat then saboteur else miner)).
      rewrite IH. apply Nat.ltb_ge in E. lia.
Qed.

Lemma countRole_rolesBeforeShuffle (count s : nat) :
  countRole saboteur (rolesBeforeShuffle count s) = Nat.min count s.
Proof. unfold rolesBeforeShuffle. rewrite countRole_saboteur_from. simpl. lia. Qed.

Lemma roleDistribution_length (count : nat) (h : Host) :
  length (roleDistribution count h).1 = count.
Proof.
  unfold roleDistribution. rewrite shuffle_Permutation.
  apply length_rolesBeforeShuffle.
Qed.

Lemma roleDistribution_quota (n : nat) (h : Host) :
  let roles := (roleDistribution n h).1 in
  length roles = n
  /\ countRole saboteur roles = saboteurQuota n
  /\ countRole miner roles = (n - saboteurQuota n)%nat
  /\ ((n < 3)%nat -> countRole saboteur roles = 0%nat)
  /\ ((n = 3 \/ n = 4)%nat -> countRole saboteur roles = 1%nat)
  /\ ((n = 5 \/ n = 6)%nat -> countRole saboteur roles = 2%nat)
  /\ ((7 <= n)%nat -> countRole saboteur roles = 3%nat).
Proof.
  intros roles.
  assert (Hlen : length roles = n) by apply roleDistribution_length.
  assert (Hsab : countRole saboteur roles = saboteurQuota n).
  { unfold roles, roleDistribution.
    rewrite (countRole_Permutation _ _ _ (shuffle_Permutation _ _)).
    rewrite countRole_rolesBeforeShuffle.
    unfold saboteurQuota. repeat case_match; 
      repeat match goal with H : (_ <=? _)%nat = _ |- _ =>
        first [apply Nat.leb_le in H | apply Nat.leb_gt in H] end; lia. }
  pose proof (countRole_total roles) as Htot.
  split; [done|]. split; [done|]. split; [lia|].
  rewrite Hsab. unfold saboteurQuota.
  repeat split; intros Hn; repeat case_match;
    repeat match goal with H : (_ <=? _)%nat = _ |- _ =>
      first [apply Nat.leb_le in H | apply Nat.leb_gt in H] end; lia.
Qed.

(** Claim C3.  For every player count [n] and every random source,
    [roleDistribution n] returns [n] roles with no saboteur when [n < 3], one
    when [n] is 3 or 4, two when [n] is 5 or 6 and three when [n >= 7]; every
    other role is miner. *)
Theorem roleDistribution_meets_quota (n : nat) (h : Host) :
  let roles := (roleDistribution n h).1 in
  length roles = n
  /\ ((n < 3)%nat -> countRole saboteur roles = 0%nat)
  /\ ((n = 3 \/ n = 4)%nat -> countRole saboteur roles = 1%nat)
  /\ ((n = 5 \/ n = 6)%nat -> countRole saboteur roles = 2%nat)
  /\ ((7 <= n)%nat -> countRole saboteur roles = 3%nat)
  /\ countRole miner roles = (n - countRole saboteur roles)%nat
  /\ Forall (fun ro => ro = saboteur \/ ro = miner) roles.
Proof.
  intros roles.
  destruct (roleDistribution_quota n h) as (Hlen & Hsab & Hmin & H0 & H1 & H2 & H3).
  fold roles in Hlen, Hsab, Hmin, H0, H1, H2, H3.
  split; [exact Hlen|]. split; [exact H0|]. split; [exact H1|].
  split; [exact H2|]. split; [exact H3|]. split.
  - rewrite Hmin, Hsab. reflexivity.
  - apply Forall_forall. intros ro _. destruct ro; [by right|by left].
Qed.

(** The copy kept in the client's [game/cards.ts] is imported and called
    nowhere; it has no case for fewer than 3 players and would deal one
    saboteur to 1 or 2 players. *)
Lemma client_copy_differs (h : Host) :
  countRole saboteur (Client.roleDistribution 1 h).1 = 1%nat
  /\ countRole saboteur (Client.roleDistribution 2 h).1 = 1%nat.
Proof.
  split.
  - unfold Client.roleDistribution.
    by rewrite (countRole_Permutation _ _ _ (shuffle_Permutation _ _)).
  - unfold Client.roleDistribution.
    by rewrite (countRole_Permutation _ _ _ (shuffle_Permutation _ _)).
Qed.

(** * Board exploration ends within its fuel *)


Lemma find_elem_of {A} (p : A -> bool) (l : list A) (x : A) :
  List.find p l = Some x -> x ∈ l /\ p x = true.
Proof.
  intros H. apply find_some in H as [H1 H2]. split; [|done].
  by apply list_elem_of_In.
Qed.

Lemma enqueueNeighbor_bound b tile c seen queue nb :
  Forall (fun t => t ∈ tiles b) queue ->
  Forall (fun t => t ∈ tiles b) (enqueueNeighbor b tile c seen queue nb)
  /\ (length (enqueueNeighbor b tile c seen queue nb) <= S (length queue))%nat.
Proof.
  intros Hq. unfold enqueueNeighbor, tileAt.
  repeat case_match; try (split; [done | lia]).
  split.
  - apply Forall_app. split; [done|]. apply Forall_singleton.
    by eapply find_elem_of.
  - rewrite length_app. simpl. lia.
Qed.

Lemma enqueue_all_bound b tile c seen queue nbs :
  Forall (fun t => t ∈ tiles b) queue ->
  Forall (fun t => t ∈ tiles b) (foldl (enqueueNeighbor b tile c seen) queue nbs)
  /\ (length (foldl (enqueueNeighbor b tile c seen) queue nbs)
      <= length queue + length nbs)%nat.
Proof.
  revert queue. induction nbs as [|nb nbs IH]; intros queue Hq; simpl.
  - split; [done | lia].
  - destruct (enqueueNeighbor_bound b tile c seen queue nb Hq) as [H1 H2].
    destruct (IH _ H1) as [H3 H4]. split; [done | lia].
Qed.

Lemma unseen_mono (l : list Tile) (seen : gset string) (x : string) :
  (length (filter (fun t => tid t ∉ seen ∪ {[ x ]}) l)
   <= length (filter (fun t => tid t ∉ seen) l))%nat.
Proof.
  induction l as [|y l IH]; [done|].
  rewrite !filter_cons. repeat case_decide; rewrite ?length_cons; try lia.
  set_solver.
Qed.

Lemma unseen_visit (b : Board) (seen : gset string) (t : Tile) :
  t ∈ tiles b -> tid t ∉ seen ->
  (unseen b (seen ∪ {[ tid t ]}) < unseen b seen)%nat.
Proof.
  unfold unseen. intros Hin Hnew.
  induction (tiles b) as [|x l IH]; [by apply elem_of_nil in Hin|].
  pose proof (unseen_mono l seen (tid t)) as Hmono.
  rewrite !filter_cons.
  apply elem_of_cons in Hin as [<- | Hin].
  - rewrite decide_False by set_solver. rewrite decide_True by done.
    rewrite length_cons. lia.
  - specialize (IH Hin).
    repeat case_decide; rewrite ?length_cons; try lia. set_solver.
Qed.

Lemma exploreLoop_terminates (b : Board) (fuel : nat) :
  forall queue seen far,
    Forall (fun t => t ∈ tiles b) queue ->
    (5 * unseen b seen + length queue < fuel)%nat ->
    pending (exploreLoop fuel b queue seen far) = [].
Proof.
  induction fuel as [|fuel IH]; intros queue seen far Hq Hfuel; [lia|].
  destruct queue as [|tile rest]; [done|]. simpl.
  apply Forall_cons in Hq as [Htile Hrest]. simpl in Hfuel.
  destruct (connectors tile) as [c|]; [|apply IH; [done | lia]].
  destruct (decide (tid tile ∈ seen)) as [Hseen|Hnew]; [apply IH; [done | lia]|].
  destruct (enqueue_all_bound b tile c (seen ∪ {[tid tile]}) rest neighbors Hrest)
    as [Hin Hlen].
  pose proof (unseen_visit b seen tile Htile Hnew) as Hless.
  apply IH; [done|]. simpl in Hlen. lia.
Qed.

Lemma exploreBoard_terminates (b : Board) : pending (exploreBoard b) = [].
Proof.
  unfold exploreBoard. apply exploreLoop_terminates.
  - destruct (List.find _ (tiles b)) as [t|] eqn:E; [|done].
    apply Forall_singleton. by eapply find_elem_of.
  - assert (unseen b ∅ <= length (tiles b))%nat by apply length_filter.
    unfold exploreFuel. destruct (List.find _ (tiles b)); simpl; lia.
Qed.

(** Projections of updated records. *)
Ltac fields :=
  cbn [roomId board players deck discard roundEnded roundNumber metrics turnIndex
       turnTimer lastWinnerId lastAwards lastWinners lastWinningTeam host
       setBoard setPlayers setDeck setDiscard setMetrics setTurnIndex setTurnTimer_
       setHost setResolution setLastResult setClock onMetrics onBoard onPlayer onTile
       setSuspicion countTurn
       deckRemaining progress collapsedTiles suspicionByPlayer turnsTaken goldByPlayer
       round efficiencyByPlayer activePlayerId turnEndsAt
       setDeckRemaining setProgress setCollapsedTiles setSuspicionByPlayer
       setTurnsTaken setGoldByPlayer setEfficiencyByPlayer setActivePlayerId
       setTurnEndsAt
       rows columns tiles winningTeam setWinningTeam setTiles
       playerId socketId name role position rotation hand connected toolBroken
       suspicion score setHand setToolBroken setScore setPose resetPlayer
       refreshDeckRemaining revealGoals
       pursePlayers purseGold purseAwards awards winners] in *.

(** * Goal reveal and the miner win *)

Lemma declareIfGold_miner seen (l : list Tile) :
  foldl (declareIfGold seen) (Some miner) l = Some miner.
Proof.
  induction l as [|t l IH]; [done|]. simpl.
  unfold declareIfGold at 2. by destruct (_ && _).
Qed.

Lemma declareIfGold_found seen (l : list Tile) (g : Tile) (w : option Role) :
  g ∈ l -> reached seen g = true -> tileCard g = Some gold ->
  foldl (declareIfGold seen) w l = Some miner.
Proof.
  intros Hin Hr Hg. revert w.
  induction l as [|t l IH]; intros w; [by apply elem_of_nil in Hin|].
  simpl. apply elem_of_cons in Hin as [<- | Hin]; [|by apply IH].
  unfold declareIfGold at 2. rewrite Hr, Hg.
  rewrite bool_decide_eq_true_2 by done. apply declareIfGold_miner.
Qed.

Lemma maybeDeclareSaboteurWin_tiles r :
  tiles (board (maybeDeclareSaboteurWin r)) = tiles (board r).
Proof. unfold maybeDeclareSaboteurWin. repeat case_match; reflexivity. Qed.

Lemma maybeDeclareSaboteurWin_keeps r w :
  winningTeam (board r) = Some w ->
  winningTeam (board (maybeDeclareSaboteurWin r)) = Some w.
Proof. unfold maybeDeclareSaboteurWin. intros H. by rewrite H. Qed.

(** Claim C4.  When the exploration run by [syncBoardTelemetry] has a goal
    tile in its visited set, that tile (same position, id and card) is revealed
    in the room [syncBoardTelemetry] returns, and if it is the gold goal the
    winning team of that room is the miners. *)
Theorem syncBoardTelemetry_reveals_goal (r : GameRoom) (i : nat) (g : Tile) :
  tiles (board r) !! i = Some g ->
  tileType g = t_goal ->
  tid g ∈ visited (exploreBoard (board r)) ->
  (exists g',
      tiles (board (syncBoardTelemetry r)) !! i = Some g'
      /\ revealed g' = true
      /\ tid g' = tid g /\ tileType g' = t_goal /\ tileCard g' = tileCard g)
  /\ (tileCard g = Some gold ->
      winningTeam (board (syncBoardTelemetry r)) = Some miner).
Proof.
  intros Hi Hgoal Hseen.
  assert (Hreached : reached (visited (exploreBoard (board r))) g = true).
  { unfold reached. rewrite !bool_decide_eq_true_2 by done. done. }
  unfold syncBoardTelemetry. fields. split.
  - rewrite maybeDeclareSaboteurWin_tiles. fields.
    rewrite list_lookup_fmap, Hi. simpl.
    unfold revealIfReached. rewrite Hreached. eexists. split; [done|]. done.
  - intros Hgold. apply maybeDeclareSaboteurWin_keeps. fields.
    eapply declareIfGold_found; [|done..].
    by eapply list_elem_of_lookup_2.
Qed.

(** * What settlement, drawing and turn changes leave alone *)


Lemma setScore_same (p : Player) : setScore (score p) p = p.
Proof. by destruct p. Qed.

Lemma scoreOnly_refl (ps : list Player) : scoreOnly ps ps.
Proof.
  induction ps as [|p ps IH]; constructor; [|done].
  exists (score p). by rewrite setScore_same.
Qed.

Lemma scoreOnly_trans (ps qs rs : list Player) :
  scoreOnly ps qs -> scoreOnly qs rs -> scoreOnly ps rs.
Proof.
  intros H. revert rs. induction H as [|p q ps qs [v ->] _ IH]; intros rs Hr.
  - inversion Hr. constructor.
  - inversion Hr as [|? r ? rs' [w ->] Hrest]; subst.
    constructor; [by exists v | by apply IH].
Qed.

Lemma scoreOnly_assignFirst (pr : Player -> bool) (f : Player -> Z) (l : list Player) :
  scoreOnly (assignFirst pr (fun p => setScore (f p) p) l) l.
Proof.
  induction l as [|p l IH]; simpl; [constructor|].
  destruct (pr p); constructor.
  - by exists (f p).
  - apply scoreOnly_refl.
  - exists (score p). by rewrite setScore_same.
  - done.
Qed.

Lemma scoreOnly_fmap {X} (g : Player -> X) (ps qs : list Player) :
  (forall p v, g (setScore v p) = g p) ->
  scoreOnly ps qs -> g <$> ps = g <$> qs.
Proof.
  intros Hg H. induction H as [|p q ps qs [v ->] _ IH]; [done|].
  rewrite !fmap_cons. by rewrite Hg, IH.
Qed.

Lemma scoreOnly_credit id value acc :
  scoreOnly (pursePlayers (credit id value acc)) (pursePlayers acc).
Proof. apply scoreOnly_assignFirst. Qed.

Lemma dealNugget_thrown order l : foldl (dealNugget order) None l = None.
Proof. induction l; [done|]. simpl. done. Qed.

Lemma scoreOnly_deal order l a0 acc :
  foldl (dealNugget order) (Some a0) l = Some acc ->
  scoreOnly (pursePlayers acc) (pursePlayers a0).
Proof.
  revert a0. induction l as [|e l IH]; intros a0 H.
  - simpl in H. simplify_eq. apply scoreOnly_refl.
  - change (foldl (dealNugget order) (dealNugget order (Some a0) e) l = Some acc) in H.
    destruct (dealNugget order (Some a0) e) as [a1|] eqn:E;
      [|by rewrite dealNugget_thrown in H].
    eapply scoreOnly_trans; [by apply IH|].
    unfold dealNugget in E. simpl in E. destruct order; [done|].
    destruct (_ !! _); simplify_eq/=. apply scoreOnly_credit.
Qed.

Lemma scoreOnly_credit_all award sabos a0 :
  scoreOnly (pursePlayers (foldl (fun acc s => credit s award acc) a0 sabos))
            (pursePlayers a0).
Proof.
  revert a0. induction sabos as [|s l IH]; intros a0; simpl;
    [apply scoreOnly_refl|].
  eapply scoreOnly_trans; [apply IH | apply scoreOnly_credit].
Qed.

(** The shape of the room after the reward computation. *)
Lemma applyRoundRewards_shape placer r res r' :
  applyRoundRewards placer r = Some (res, r') ->
  exists ps gold h,
    r' = onMetrics (setGoldByPlayer gold) (setPlayers ps (setHost h r))
    /\ scoreOnly ps (players r).
Proof.
  unfold applyRoundRewards. intros H.
  destruct (winningTeam (board r)) as [[]|].
  - destruct (nuggetCards _ _) as [cards h1].
    destruct (foldl _ _ _) as [acc|] eqn:E; simplify_eq/=.
    exists (pursePlayers acc), (purseGold acc), h1. split; [done|].
    by apply scoreOnly_deal in E.
  - simplify_eq/=. eexists _, _, (host r). split.
    + by destruct r.
    + apply scoreOnly_credit_all.
  - simplify_eq/=. exists (players r), (goldByPlayer (metrics r)), (host r). split.
    + by destruct r.
    + apply scoreOnly_refl.
Qed.

Lemma applyRoundRewards_saboteur placer r :
  winningTeam (board r) = Some saboteur ->
  exists res r', applyRoundRewards placer r = Some (res, r').
Proof. unfold applyRoundRewards. intros ->. eauto. Qed.

Lemma maybeFinishRound_shape placer r r' :
  maybeFinishRound placer r = Some r' ->
  r' = r
  \/ (roundEnded r = false /\ winningTeam (board r) <> None /\
      exists ps gold h aw wi,
        r' = setLastResult aw wi (winningTeam (board r))
               (onMetrics (setGoldByPlayer gold)
                  (setPlayers ps (setHost h (setResolution true placer r))))
        /\ scoreOnly ps (players r)).
Proof.
  unfold maybeFinishRound. intros H.
  destruct (roundEnded r) eqn:Hended; [left; by simplify_eq|].
  destruct (winningTeam (board r)) as [w|] eqn:Hw; [|left; by simplify_eq].
  right. split; [done|]. split; [done|].
  destruct (applyRoundRewards _ _) as [[res r1]|] eqn:E; simplify_eq/=.
  apply applyRoundRewards_shape in E as (ps & gold & h & -> & Hps).
  fields. rewrite Hw. eauto 10.
Qed.


Lemma drawCards_drawn id count r :
  drawCards id count r = maybeFinishRound None (drawn id count r).
Proof. reflexivity. Qed.

Lemma pop_nil {A} (l : list A) : pop l = None <-> l = [].
Proof.
  unfold pop. destruct (last l) eqn:E; split; try done.
  - intros ->. done.
  - intros _. by apply last_None.
Qed.

Lemma drawLoop_deck count d h :
  (drawLoop count d h).1 = take (length d - count) d.
Proof.
  revert d h. induction count as [|n IH]; intros d h; simpl.
  - rewrite Nat.sub_0_r. by rewrite firstn_all.
  - unfold pop. destruct (last d) as [x|] eqn:E.
    + rewrite IH. rewrite take_take, length_take. f_equal. lia.
    + apply last_None in E as ->. done.
Qed.

Lemma assignFirst_fmap {A X} (g : A -> X) (pr : A -> bool) (f : A -> A) (l : list A) :
  (forall x, g (f x) = g x) -> g <$> assignFirst pr f l = g <$> l.
Proof.
  intros Hg. induction l as [|x l IH]; [done|]. simpl.
  destruct (pr x); rewrite !fmap_cons; by rewrite ?Hg, ?IH.
Qed.

(** * The saboteur win is declared inside the draw *)

Lemma takeCards_deck id count r :
  deck (takeCards id count r) = take (length (deck r) - count) (deck r)
  /\ board (takeCards id count r) = board r.
Proof.
  unfold takeCards. cbv zeta.
  pose proof (drawLoop_deck count (deck r)
                match getPlayer id (players r) with
                | Some p => hand p
                | None => []
                end) as H.
  destruct (drawLoop _ _ _) as [d h]. by subst.
Qed.

Lemma maybeDeclareSaboteurWin_deck r :
  deck (maybeDeclareSaboteurWin r) = deck r.
Proof. unfold maybeDeclareSaboteurWin. repeat case_match; reflexivity. Qed.

Lemma drawn_deck id count r :
  deck (drawn id count r) = take (length (deck r) - count) (deck r).
Proof.
  unfold drawn. rewrite maybeDeclareSaboteurWin_deck.
  apply takeCards_deck.
Qed.

Lemma maybeDeclareSaboteurWin_fires r :
  winningTeam (board r) = None -> deckRemaining (metrics r) = 0 ->
  winningTeam (board (maybeDeclareSaboteurWin r)) = Some saboteur.
Proof. unfold maybeDeclareSaboteurWin. by intros -> ->. Qed.

Lemma drawn_saboteur id count r :
  winningTeam (board r) = None -> (length (deck r) <= count)%nat ->
  winningTeam (board (drawn id count r)) = Some saboteur.
Proof.
  intros Hw Hlen. destruct (takeCards_deck id count r) as [Hd Hb].
  unfold drawn. apply maybeDeclareSaboteurWin_fires.
  - change (winningTeam (board (takeCards id count r)) = None). by rewrite Hb.
  - change (Z.of_nat (length (deck (takeCards id count r))) = 0).
    rewrite Hd. by replace (length (deck r) - count)%nat with 0%nat by lia.
Qed.

Lemma maybeFinishRound_saboteur placer r :
  winningTeam (board r) = Some saboteur ->
  exists r', maybeFinishRound placer r = Some r'
    /\ board r' = board r /\ deck r' = deck r.
Proof.
  intros Hw. unfold maybeFinishRound.
  destruct (roundEnded r); [eauto|]. rewrite Hw.
  destruct (applyRoundRewards_saboteur placer (setResolution true placer r) Hw)
    as (res & r1 & E).
  rewrite E. simpl. eexists. split; [done|].
  apply applyRoundRewards_shape in E as (ps & gold & h & -> & _). done.
Qed.

Lemma setTurnTimer_board r : board (setTurnTimer r) = board r /\ deck (setTurnTimer r) = deck r.
Proof. unfold setTurnTimer, clearTurnTimer. repeat case_match; done. Qed.

(** Claim C5.  A draw that takes the last cards of the deck (or finds it
    empty) while no winning team is set completes, leaves the deck empty and
    has set the winning team to the saboteurs when it returns; the same holds
    for the five-card draw of a join. *)
Theorem drawCards_declares_saboteur_win (id : string) (count : nat) (r : GameRoom) :
  winningTeam (board r) = None ->
  (length (deck r) <= count)%nat ->
  (exists r', drawCards id count r = Some r'
      /\ deck r' = [] /\ winningTeam (board r') = Some saboteur)
  /\ (count = 5%nat -> forall name,
      exists r', insertPlayer id name r = Some r'
        /\ deck r' = [] /\ winningTeam (board r') = Some saboteur).
Proof.
  intros Hw Hlen.
  assert (Hdraw : forall r0, board r0 = board r -> deck r0 = deck r ->
            exists r', drawCards id count r0 = Some r'
              /\ deck r' = [] /\ winningTeam (board r') = Some saboteur).
  { intros r0 Hb Hd. rewrite drawCards_drawn.
    assert (Hs : winningTeam (board (drawn id count r0)) = Some saboteur).
    { apply drawn_saboteur; by rewrite ?Hb, ?Hd. }
    destruct (maybeFinishRound_saboteur None _ Hs) as (r' & E & Hb' & Hd').
    exists r'. split; [done|]. rewrite Hb', Hd', drawn_deck, Hd. split; [|done].
    replace (length (deck r) - count)%nat with 0%nat by lia. done. }
  split; [by apply Hdraw|].
  intros -> name. unfold insertPlayer.
  destruct (roleDistribution _ _) as [roles h1]. cbv zeta.
  match goal with |- context [drawCards id 5 ?r2] =>
    destruct (Hdraw r2 eq_refl eq_refl) as (r3 & E & Hd & Hb) end.
  rewrite E. cbn [mbind option_bind]. eexists. split; [done|].
  unfold claimIdleTurn. destruct (negb _); [|done].
  destruct (setTurnTimer_board
              (setTurnIndex 0 (onMetrics (setActivePlayerId (Some id)) r3))) as [-> ->].
  done.
Qed.

(** * One settlement per round *)


Lemma ledger_inv r r' :
  ledger r' = ledger r ->
  roundEnded r' = roundEnded r
  /\ goldByPlayer (metrics r') = goldByPlayer (metrics r).
Proof. unfold ledger. intros H. by simplify_eq. Qed.

Lemma ledger_onPlayer id f r :
  (forall p, playerId (f p) = playerId p /\ score (f p) = score p) ->
  ledger (onPlayer id f r) = ledger r.
Proof.
  intros Hf. unfold ledger. fields. f_equal.
  apply assignFirst_fmap. intros p. destruct (Hf p) as [-> ->]. done.
Qed.

Lemma ledger_onMetrics f r :
  goldByPlayer (f (metrics r)) = goldByPlayer (metrics r) ->
  ledger (onMetrics f r) = ledger r.
Proof. intros H. unfold ledger. fields. by rewrite H. Qed.

Lemma ledger_setDeck d r : ledger (setDeck d r) = ledger r.
Proof. reflexivity. Qed.
Lemma ledger_setDiscard d r : ledger (setDiscard d r) = ledger r.
Proof. reflexivity. Qed.
Lemma ledger_setBoard b r : ledger (setBoard b r) = ledger r.
Proof. reflexivity. Qed.
Lemma ledger_onBoard f r : ledger (onBoard f r) = ledger r.
Proof. reflexivity. Qed.
Lemma ledger_onTile id f r : ledger (onTile id f r) = ledger r.
Proof. reflexivity. Qed.
Lemma ledger_setHost h r : ledger (setHost h r) = ledger r.
Proof. reflexivity. Qed.
Lemma ledger_setTurnIndex i r : ledger (setTurnIndex i r) = ledger r.
Proof. reflexivity. Qed.
Lemma ledger_setTurnTimer_ v r : ledger (setTurnTimer_ v r) = ledger r.
Proof. reflexivity. Qed.
Lemma ledger_setSuspicion id v r : ledger (setSuspicion id v r) = ledger r.
Proof. reflexivity. Qed.
Lemma ledger_countTurn r : ledger (countTurn r) = ledger r.
Proof. reflexivity. Qed.

Lemma ledger_maybeDeclareSaboteurWin r :
  ledger (maybeDeclareSaboteurWin r) = ledger r.
Proof. unfold maybeDeclareSaboteurWin. repeat case_match; reflexivity. Qed.

Lemma ledger_clearTurnTimer r : ledger (clearTurnTimer r) = ledger r.
Proof. unfold clearTurnTimer. by destruct (turnTimer r). Qed.

Lemma ledger_setTurnTimer r : ledger (setTurnTimer r) = ledger r.
Proof.
  unfold setTurnTimer. destruct (negb _).
  - apply ledger_clearTurnTimer.
  - rewrite ledger_setTurnTimer_, ledger_onMetrics by reflexivity.
    apply ledger_clearTurnTimer.
Qed.

Lemma ledger_advanceTurn r : ledger (advanceTurn r) = ledger r.
Proof.
  unfold advanceTurn. destruct (playerId <$> players r).
  - rewrite ledger_clearTurnTimer. by rewrite !ledger_onMetrics by reflexivity.
  - rewrite ledger_setTurnTimer. by rewrite ledger_onMetrics by reflexivity.
Qed.

Lemma ledger_refreshDeckRemaining r : ledger (refreshDeckRemaining r) = ledger r.
Proof. reflexivity. Qed.

Lemma ledger_syncBoardTelemetry r : ledger (syncBoardTelemetry r) = ledger r.
Proof.
  unfold syncBoardTelemetry. cbv zeta.
  rewrite ledger_refreshDeckRemaining, ledger_maybeDeclareSaboteurWin, ledger_onBoard.
  by rewrite ledger_onMetrics by reflexivity.
Qed.

Lemma ledger_takeCards id count r : ledger (takeCards id count r) = ledger r.
Proof.
  unfold takeCards. cbv zeta. destruct (drawLoop _ _ _) as [d h].
  rewrite ledger_setDeck. by apply ledger_onPlayer.
Qed.

Lemma ledger_drawn id count r : ledger (drawn id count r) = ledger r.
Proof.
  unfold drawn.
  by rewrite ledger_maybeDeclareSaboteurWin, ledger_refreshDeckRemaining,
    ledger_takeCards.
Qed.

Lemma ledger_takeFromHand id card r : ledger (takeFromHand id card r) = ledger r.
Proof. by apply ledger_onPlayer. Qed.
Lemma ledger_pushDiscard card r : ledger (pushDiscard card r) = ledger r.
Proof. reflexivity. Qed.
Lemma ledger_lowerSuspicion id v r : ledger (lowerSuspicion id v r) = ledger r.
Proof. reflexivity. Qed.
Lemma ledger_raiseSuspicion id v r : ledger (raiseSuspicion id v r) = ledger r.
Proof. reflexivity. Qed.
Lemma ledger_countCollapse r : ledger (countCollapse r) = ledger r.
Proof. reflexivity. Qed.
Lemma ledger_recordEfficiency id v r : ledger (recordEfficiency id v r) = ledger r.
Proof. reflexivity. Qed.

(** Rewriting with the frame lemmas of [ledger]. *)
Ltac ledger_frame :=
  repeat first
    [ rewrite ledger_advanceTurn | rewrite ledger_syncBoardTelemetry
    | rewrite ledger_drawn | rewrite ledger_setTurnTimer
    | rewrite ledger_maybeDeclareSaboteurWin
    | rewrite ledger_setDeck | rewrite ledger_setDiscard | rewrite ledger_setBoard
    | rewrite ledger_onTile | rewrite ledger_onBoard | rewrite ledger_setHost
    | rewrite ledger_setTurnIndex | rewrite ledger_setTurnTimer_
    | rewrite ledger_setSuspicion | rewrite ledger_countTurn
    | rewrite ledger_takeFromHand | rewrite ledger_pushDiscard
    | rewrite ledger_lowerSuspicion | rewrite ledger_raiseSuspicion
    | rewrite ledger_countCollapse | rewrite ledger_recordEfficiency
    | rewrite ledger_refreshDeckRemaining | rewrite ledger_takeCards
    | rewrite ledger_onMetrics by reflexivity
    | rewrite ledger_onPlayer by (intros; split; reflexivity) ].

Lemma maybeFinishRound_ended placer r :
  roundEnded r = true -> maybeFinishRound placer r = Some r.
Proof. unfold maybeFinishRound. by intros ->. Qed.

Lemma ledger_ended r r' :
  ledger r' = ledger r -> roundEnded r = true -> roundEnded r' = true.
Proof. intros H <-. by apply ledger_inv. Qed.

Lemma drawCards_ended id count r :
  roundEnded r = true -> drawCards id count r = Some (drawn id count r).
Proof.
  intros H. rewrite drawCards_drawn. apply maybeFinishRound_ended.
  eapply ledger_ended; [apply ledger_drawn | done].
Qed.

(** * Validation failures *)

(** Claim C2.  When [placeCard], [triggerRockfall] or [applyToolEffect]
    returns an error, the room after the call is the room before it. *)
Theorem errors_leave_room_unchanged (id : string) (i : Intent) (r r' : GameRoom)
    (msg : string) :
  resolve id i r = Some (Error msg, r') -> r' = r.
Proof.
  destruct i as [payload | tileId | payload]; simpl.
  - unfold placeCard. intros H.
    repeat (case_match; simplify_eq/=; try done).
    destruct (rotateConnectors _ _); simplify_eq/=.
    repeat (case_match; simplify_eq/=; try done).
    destruct (commitPlacement _ _ _ _ _ _ _); simplify_eq/=.
  - unfold triggerRockfall. intros H.
    repeat (case_match; simplify_eq/=; try done).
    destruct (drawCards _ _ _); simplify_eq/=.
  - unfold applyToolEffect. intros H.
    repeat (case_match; simplify_eq/=; try done).
    all: destruct (drawCards _ _ _); simplify_eq/=.
Qed.

(** * The edge check of [placeCard] *)

Lemma checkEdge_step b tile c acc nb :
  checkEdge b tile c acc nb
  = mkEdgeCheck (hasValidAttachment acc || attaches b tile c nb)
                (mismatch acc || conflicts b tile c nb).
Proof.
  unfold checkEdge, attaches, conflicts, facing.
  destruct acc as [v m].
  destruct (tileAt _ _ _) as [n|]; simpl; [|by rewrite !orb_false_r].
  destruct (connectors n) as [nc|]; simpl; [|by rewrite !orb_false_r].
  destruct (open c (key nb)), (open nc (opposite nb)); simpl;
    by rewrite ?orb_false_r, ?orb_true_r.
Qed.

Lemma checkEdges_fold b tile c acc nbs :
  foldl (checkEdge b tile c) acc nbs
  = mkEdgeCheck (hasValidAttachment acc || existsb (attaches b tile c) nbs)
                (mismatch acc || existsb (conflicts b tile c) nbs).
Proof.
  revert acc. induction nbs as [|nb nbs IH]; intros acc.
  - destruct acc. simpl. by rewrite !orb_false_r.
  - cbn [foldl existsb]. rewrite IH, checkEdge_step. simpl.
    by rewrite !orb_assoc.
Qed.

Lemma existsb_elem_of {A} (f : A -> bool) (l : list A) :
  existsb f l = true <-> exists x, x ∈ l /\ f x = true.
Proof.
  rewrite existsb_exists. split; intros (x & H1 & H2); exists x;
    (split; [by apply list_elem_of_In | done]).
Qed.

Lemma path_card_has_connectors (k : CardKey) :
  category (CARD_LIBRARY k) = cat_path ->
  exists c, def_connectors (CARD_LIBRARY k) = Some c.
Proof. destruct k; simpl; intros H; try discriminate; eauto. Qed.

(** Past validation, [placeCard] is the edge check followed by the commit. *)
Lemma placeCard_validated id payload r player card tile c :
  passesValidation id payload r player card tile c ->
  placeCard id payload r =
    let check := checkEdges (board r) tile c in
    if negb (hasValidAttachment check) || mismatch check
    then Some (Error "Card does not connect cleanly", r)
    else
      r' ← commitPlacement id payload player card tile c r;
      let justEnded := negb (roundEnded r) && roundEnded r' in
      Some (Placed card justEnded (if justEnded then Some id else None), r').
Proof.
  intros (Hturn & Hp & Htool & Hcard & Hcat & Htile & Hs & Hg & Hpath & Hc).
  unfold placeCard.
  rewrite Hturn, Hp, Htool, Hcard, Htile, Hc.
  rewrite (bool_decide_eq_true_2 _ Hcat).
  rewrite !bool_decide_eq_false_2 by done. done.
Qed.

(** Claim C1, as amended.  Past the turn, player, tool, card and tile
    validation, a direction is a valid attachment when the card's connector and
    the facing connector of a neighbour that has connectors are both open, and
    a mismatch when exactly one of the two is open; a direction with no
    neighbour, or with a neighbour without connectors, records nothing.  The
    call is rejected with the no-clean-connection error exactly when there is
    no valid attachment or there is a mismatch, and otherwise the placement is
    committed. *)
Theorem placeCard_edge_rule (id : string) (payload : Payload) (r : GameRoom)
    (player : Player) (card : CardInstance) (tile : Tile) (c : PathConnectors) :
  passesValidation id payload r player card tile c ->
  let check := checkEdges (board r) tile c in
  (hasValidAttachment check = true <->
     exists nb, nb ∈ neighbors /\ attaches (board r) tile c nb = true)
  /\ (mismatch check = true <->
     exists nb, nb ∈ neighbors /\ conflicts (board r) tile c nb = true)
  /\ (rejectedAsUnclean id payload r <->
     ~ (hasValidAttachment check = true /\ mismatch check = false))
  /\ (hasValidAttachment check = true -> mismatch check = false ->
      placeCard id payload r =
        r' ← commitPlacement id payload player card tile c r;
        let justEnded := negb (roundEnded r) && roundEnded r' in
        Some (Placed card justEnded (if justEnded then Some id else None), r')).
Proof.
  intros Hvalid check.
  pose proof (placeCard_validated _ _ _ _ _ _ _ Hvalid) as Hplace.
  cbv zeta in Hplace. fold check in Hplace.
  assert (Hcheck : check = mkEdgeCheck (existsb (attaches (board r) tile c) neighbors)
                             (existsb (conflicts (board r) tile c) neighbors)).
  { unfold check, checkEdges. by rewrite checkEdges_fold. }
  split; [rewrite Hcheck; apply existsb_elem_of|].
  split; [rewrite Hcheck; apply existsb_elem_of|].
  split.
  - unfold rejectedAsUnclean. rewrite Hplace.
    destruct (hasValidAttachment check), (mismatch check); cbn [negb orb].
    + split; [intros _ [_ ?]; done | tauto].
    + split; [|tauto].
      destruct (commitPlacement _ _ _ _ _ _ _); cbn [mbind option_bind];
        intros ?; discriminate.
    + split; [intros _ [? _]; done | tauto].
    + split; [intros _ [? _]; done | tauto].
  - intros Hv Hm. rewrite Hplace, Hv, Hm. reflexivity.
Qed.

Lemma ledger_drawCards_ended id count r r' :
  roundEnded r = true -> drawCards id count r = Some r' -> ledger r' = ledger r.
Proof.
  intros H E. rewrite drawCards_ended in E by done.
  injection E as <-. apply ledger_drawn.
Qed.

Lemma ledger_settled placer r r' :
  roundEnded r = true -> maybeFinishRound placer r = Some r' -> ledger r' = ledger r.
Proof.
  intros H E. rewrite maybeFinishRound_ended in E by done. by injection E as <-.
Qed.

Lemma ledger_commitPlacement id payload player card tile c r r' :
  roundEnded r = true ->
  commitPlacement id payload player card tile c r = Some r' ->
  ledger r' = ledger r.
Proof.
  intros Hended. unfold commitPlacement.
  destruct (drawCards _ _ _) as [r7|] eqn:E; [|discriminate].
  cbn [mbind option_bind]. intros H.
  assert (Hstage : ledger (stagePlacement id payload card tile c (progress (metrics r)) r)
                   = ledger r) by (unfold stagePlacement; by ledger_frame).
  apply ledger_drawCards_ended in E; [|by eapply ledger_ended].
  assert (L : ledger (advanceTurn (syncBoardTelemetry r7)) = ledger r).
  { ledger_frame. congruence. }
  apply ledger_settled in H; [congruence|].
  by eapply ledger_ended.
Qed.

Lemma ledger_triggerRockfall id tileId r res r' :
  roundEnded r = true -> triggerRockfall id tileId r = Some (res, r') ->
  ledger r' = ledger r.
Proof.
  intros Hended. unfold triggerRockfall.
  destruct (notYourTurn id r); [intros [= _ <-]; done|].
  destruct (getPlayer id (players r)) as [player|]; [|intros [= _ <-]; done].
  destruct (List.find _ (hand player)) as [card|]; [|intros [= _ <-]; done].
  destruct (findTile (board r) tileId) as [tile|]; [|intros [= _ <-]; done].
  destruct (negb _); [intros [= _ <-]; done|].
  destruct (drawCards _ _ _) as [r6|] eqn:E; [|discriminate].
  cbn [mbind option_bind]. intros [= _ <-].
  assert (Hstage : ledger (stageRockfall id card tile r) = ledger r)
    by (unfold stageRockfall; by ledger_frame).
  apply ledger_drawCards_ended in E; [|by eapply ledger_ended].
  ledger_frame. congruence.
Qed.

Lemma ledger_applyToolEffect id payload r res r' :
  roundEnded r = true -> applyToolEffect id payload r = Some (res, r') ->
  ledger r' = ledger r.
Proof.
  intros Hended. unfold applyToolEffect.
  destruct (notYourTurn id r); [intros [= _ <-]; done|].
  destruct (getPlayer id (players r)) as [actor|]; [|intros [= _ <-]; done].
  destruct (getPlayer (targetPlayerId payload) (players r)) as [target|];
    [|intros [= _ <-]; done].
  destruct (List.find _ (hand actor)) as [card|]; [|intros [= _ <-]; done].
  destruct (drawCards _ _ _) as [r3|] eqn:E; [|discriminate].
  cbn [mbind option_bind]. intros [= _ <-].
  assert (Hstage : ledger (stageToolEffect id payload card r) = ledger r).
  { unfold stageToolEffect. destruct (bool_decide _); by ledger_frame. }
  apply ledger_drawCards_ended in E; [|by eapply ledger_ended].
  ledger_frame. congruence.
Qed.

Lemma ledger_placeCard id payload r res r' :
  roundEnded r = true -> placeCard id payload r = Some (res, r') ->
  ledger r' = ledger r.
Proof.
  intros Hended. unfold placeCard.
  destruct (notYourTurn id r); [intros [= _ <-]; done|].
  destruct (getPlayer id (players r)) as [player|]; [|intros [= _ <-]; done].
  destruct (toolBroken player); [intros [= _ <-]; done|].
  destruct (List.find _ (hand player)) as [card|]; [|intros [= _ <-]; done].
  destruct (negb _); [intros [= _ <-]; done|].
  destruct (findTile _ _) as [tile|]; [|intros [= _ <-]; done].
  destruct (_ || _); [intros [= _ <-]; done|].
  destruct (bool_decide (tileType tile = t_path)); [intros [= _ <-]; done|].
  destruct (rotateConnectors _ _) as [c|]; [|discriminate].
  cbn [mbind option_bind]. cbv zeta.
  destruct (_ || _); [intros [= _ <-]; done|].
  destruct (commitPlacement _ _ _ _ _ _ _) as [r1|] eqn:E; [|discriminate].
  cbn [mbind option_bind]. intros [= _ <-].
  by eapply ledger_commitPlacement.
Qed.

Lemma ledger_resolve id i r res r' :
  roundEnded r = true -> resolve id i r = Some (res, r') -> ledger r' = ledger r.
Proof.
  destruct i; cbn [resolve]; intros Hended H.
  - by eapply ledger_placeCard.
  - by eapply ledger_triggerRockfall.
  - by eapply ledger_applyToolEffect.
Qed.

Lemma ledger_claimIdleTurn socket r : ledger (claimIdleTurn socket r) = ledger r.
Proof. unfold claimIdleTurn. destruct (negb _); [|done]. by ledger_frame. Qed.

Lemma insertPlayer_ended socket name r r' :
  roundEnded r = true -> insertPlayer socket name r = Some r' ->
  roundEnded r' = true /\ goldByPlayer (metrics r') = goldByPlayer (metrics r).
Proof.
  intros Hended. unfold insertPlayer.
  destruct (roleDistribution _ _) as [roles h1]. cbv zeta.
  destruct (drawCards _ _ _) as [r3|] eqn:E; [|discriminate].
  cbn [mbind option_bind]. intros [= <-].
  rewrite drawCards_ended in E by done. injection E as <-.
  match goal with |- context [drawn ?i ?n ?x] =>
    pose proof (ledger_drawn i n x) as L; set (r3 := drawn i n x) in * end.
  apply ledger_inv in L as [L1 L2].
  pose proof (ledger_claimIdleTurn socket r3) as L3.
  apply ledger_inv in L3 as [-> ->]. rewrite L1, L2. done.
Qed.

Lemma removePlayer_ended id r :
  roundEnded (removePlayer id r) = roundEnded r
  /\ goldByPlayer (metrics (removePlayer id r)) = goldByPlayer (metrics r).
Proof.
  unfold removePlayer. cbv zeta. destruct (bool_decide _); [|done].
  match goal with |- context [advanceTurn ?x] =>
    pose proof (ledger_advanceTurn x) as L end.
  by apply ledger_inv in L as [-> ->].
Qed.

Lemma ledger_updatePlayerPose id pos rot r :
  ledger (updatePlayerPose id pos rot r) = ledger r.
Proof.
  unfold updatePlayerPose. destruct (getPlayer _ _); [|done].
  by apply ledger_onPlayer.
Qed.

Lemma handle_ended a r r' :
  isRestart a = false -> roundEnded r = true -> handle a r = Some r' ->
  roundEnded r' = true
  /\ goldByPlayer (metrics r') = goldByPlayer (metrics r)
  /\ (changesSeats a = false -> ledger r' = ledger r).
Proof.
  intros Ha Hended H.
  assert (Hledger : ledger r' = ledger r ->
            roundEnded r' = true
            /\ goldByPlayer (metrics r') = goldByPlayer (metrics r)
            /\ (changesSeats a = false -> ledger r' = ledger r)).
  { intros L. destruct (ledger_inv _ _ L) as [L1 L2].
    split; [congruence|]. split; done. }
  destruct a; cbn [handle isRestart changesSeats] in *; try discriminate Ha.
  - apply insertPlayer_ended in H as [? ?]; done.
  - injection H as <-. destruct (removePlayer_ended id r) as [-> ->]. done.
  - injection H as <-. apply Hledger, ledger_updatePlayerPose.
  - destruct (resolve id i r) as [[res r1]|] eqn:E; [|discriminate].
    injection H as <-. apply Hledger. by eapply ledger_resolve.
  - injection H as <-. apply Hledger, ledger_advanceTurn.
  - injection H as <-. by apply Hledger.
Qed.

(** Claim C6.  Once the round-ended flag is set, [maybeFinishRound] returns the
    room unchanged; a settlement sets the flag; and no handler other than the
    restart clears the flag or changes the gold tallies (nor the scores, when
    nobody joins or leaves), also along any sequence of such handlers. *)
Theorem settlement_runs_once :
  (forall placer r, roundEnded r = true -> maybeFinishRound placer r = Some r)
  /\ (forall placer r r',
        roundEnded r = false -> winningTeam (board r) <> None ->
        maybeFinishRound placer r = Some r' -> roundEnded r' = true)
  /\ (forall a r r',
        isRestart a = false -> roundEnded r = true -> handle a r = Some r' ->
        roundEnded r' = true
        /\ goldByPlayer (metrics r') = goldByPlayer (metrics r)
        /\ (changesSeats a = false -> ledger r' = ledger r))
  /\ (forall actions r r',
        forallb (fun a => negb (isRestart a)) actions = true ->
        roundEnded r = true -> run actions r = Some r' ->
        roundEnded r' = true
        /\ goldByPlayer (metrics r') = goldByPlayer (metrics r)).
Proof.
  split; [intros; by apply maybeFinishRound_ended|].
  split.
  { intros placer r r' Hopen Hw. unfold maybeFinishRound. rewrite Hopen.
    destruct (winningTeam (board r)); [|done].
    destruct (applyRoundRewards _ _) as [[res r1]|] eqn:E; [|discriminate].
    cbn [mbind option_bind]. intros [= <-].
    apply applyRoundRewards_shape in E as (ps & gold & h & -> & _).
    reflexivity. }
  split; [apply handle_ended|].
  induction actions as [|a actions IH]; intros r r' Hall Hended H;
    cbn [run forallb] in *.
  - by injection H as <-.
  - apply andb_true_iff in Hall as [Ha Hall].
    destruct (handle a r) as [r1|] eqn:E; [|discriminate].
    cbn [mbind option_bind] in H.
    apply handle_ended in E as (H1 & H2 & _); [|by destruct (isRestart a)|done].
    destruct (IH _ _ Hall H1 H) as [? ?]. split; congruence.
Qed.

Lemma Math_max_floor (x : Qc) : (num 0 1 <= Math_max (num 0 1) x)%Qc.
Proof.
  unfold Math_max. destruct (num 0 1 ?= x)%Qc eqn:E.
  - apply Qcle_refl.
  - apply Qclt_le_weak. by apply Qclt_alt.
  - apply Qcle_refl.
Qed.

Lemma Math_min_cap (x : Qc) : (Math_min (num 1 1) x <= num 1 1)%Qc.
Proof.
  unfold Math_min. destruct (num 1 1 ?= x)%Qc eqn:E.
  - apply Qcle_refl.
  - apply Qcle_refl.
  - apply Qclt_le_weak. by apply Qcgt_alt.
Qed.

Lemma Math_max_upper (a x b : Qc) : (a <= b)%Qc -> (x <= b)%Qc -> (Math_max a x <= b)%Qc.
Proof. unfold Math_max. by destruct (a ?= x)%Qc. Qed.

Lemma Math_min_lower (a x b : Qc) : (b <= a)%Qc -> (b <= x)%Qc -> (b <= Math_min a x)%Qc.
Proof. unfold Math_min. by destruct (a ?= x)%Qc. Qed.

Lemma zero_le_one : (num 0 1 <= num 1 1)%Qc.
Proof. by vm_compute. Qed.

Lemma lowered_in_unit (s c : Qc) :
  (num 0 1 <= c)%Qc -> inUnit s -> inUnit (Math_max (num 0 1) (s - c)%Qc).
Proof.
  intros Hc [H0 H1]. split; [apply Math_max_floor|].
  apply Math_max_upper; [apply zero_le_one|].
  apply Qcle_trans with s; [|done].
  apply Qcle_minus_iff. 
  replace (s + - (s - c))%Qc with c by ring. done.
Qed.

Lemma raised_in_unit (s c : Qc) :
  (num 0 1 <= c)%Qc -> inUnit s -> inUnit (Math_min (num 1 1) (s + c)%Qc).
Proof.
  intros Hc [H0 H1]. split; [|apply Math_min_cap].
  apply Math_min_lower; [apply zero_le_one|].
  apply Qcle_trans with s; [done|].
  apply Qcle_minus_iff. 
  replace (s + c + - s)%Qc with c by ring. done.
Qed.

Lemma initialSuspicion_in_unit (ro : Role) : inUnit (initialSuspicion ro).
Proof. destruct ro; split; by vm_compute. Qed.

(** * What only the card effects, joins and restarts can change *)

Lemma quiet_inv r r' :
  quiet r' = quiet r ->
  suspicionByPlayer (metrics r') = suspicionByPlayer (metrics r)
  /\ efficiencyByPlayer (metrics r') = efficiencyByPlayer (metrics r)
  /\ seat <$> players r' = seat <$> players r.
Proof. unfold quiet. intros H. by simplify_eq. Qed.

Lemma quiet_parts r' s e l :
  quiet r' = (s, e, l) ->
  suspicionByPlayer (metrics r') = s
  /\ efficiencyByPlayer (metrics r') = e
  /\ seat <$> players r' = l.
Proof. unfold quiet. intros H. by simplify_eq. Qed.

Lemma quiet_onPlayer id f r :
  (forall p, seat (f p) = seat p) -> quiet (onPlayer id f r) = quiet r.
Proof.
  intros Hf. unfold quiet. fields. f_equal. by apply assignFirst_fmap.
Qed.

Lemma quiet_onMetrics f r :
  suspicionByPlayer (f (metrics r)) = suspicionByPlayer (metrics r) ->
  efficiencyByPlayer (f (metrics r)) = efficiencyByPlayer (metrics r) ->
  quiet (onMetrics f r) = quiet r.
Proof. intros H1 H2. unfold quiet. fields. by rewrite H1, H2. Qed.

Lemma quiet_setDeck d r : quiet (setDeck d r) = quiet r.
Proof. reflexivity. Qed.
Lemma quiet_setDiscard d r : quiet (setDiscard d r) = quiet r.
Proof. reflexivity. Qed.
Lemma quiet_onBoard f r : quiet (onBoard f r) = quiet r.
Proof. reflexivity. Qed.
Lemma quiet_onTile id f r : quiet (onTile id f r) = quiet r.
Proof. reflexivity. Qed.
Lemma quiet_setHost h r : quiet (setHost h r) = quiet r.
Proof. reflexivity. Qed.
Lemma quiet_setTurnIndex i r : quiet (setTurnIndex i r) = quiet r.
Proof. reflexivity. Qed.
Lemma quiet_setTurnTimer_ v r : quiet (setTurnTimer_ v r) = quiet r.
Proof. reflexivity. Qed.
Lemma quiet_countTurn r : quiet (countTurn r) = quiet r.
Proof. reflexivity. Qed.
Lemma quiet_countCollapse r : quiet (countCollapse r) = quiet r.
Proof. reflexivity. Qed.
Lemma quiet_pushDiscard card r : quiet (pushDiscard card r) = quiet r.
Proof. reflexivity. Qed.
Lemma quiet_refreshDeckRemaining r : quiet (refreshDeckRemaining r) = quiet r.
Proof. reflexivity. Qed.
Lemma quiet_setClock now r : quiet (setClock now r) = quiet r.
Proof. reflexivity. Qed.
Lemma quiet_takeFromHand id card r : quiet (takeFromHand id card r) = quiet r.
Proof. by apply quiet_onPlayer. Qed.

Lemma quiet_maybeDeclareSaboteurWin r : quiet (maybeDeclareSaboteurWin r) = quiet r.
Proof. unfold maybeDeclareSaboteurWin. repeat case_match; reflexivity. Qed.

Lemma quiet_clearTurnTimer r : quiet (clearTurnTimer r) = quiet r.
Proof. unfold clearTurnTimer. by destruct (turnTimer r). Qed.

Lemma quiet_setTurnTimer r : quiet (setTurnTimer r) = quiet r.
Proof.
  unfold setTurnTimer. destruct (negb _).
  - apply quiet_clearTurnTimer.
  - rewrite quiet_setTurnTimer_, quiet_onMetrics by reflexivity.
    apply quiet_clearTurnTimer.
Qed.

Lemma quiet_advanceTurn r : quiet (advanceTurn r) = quiet r.
Proof.
  unfold advanceTurn. destruct (playerId <$> players r).
  - rewrite quiet_clearTurnTimer. by rewrite !quiet_onMetrics by reflexivity.
  - rewrite quiet_setTurnTimer. by rewrite quiet_onMetrics by reflexivity.
Qed.

Lemma quiet_syncBoardTelemetry r : quiet (syncBoardTelemetry r) = quiet r.
Proof.
  unfold syncBoardTelemetry. cbv zeta.
  rewrite quiet_refreshDeckRemaining, quiet_maybeDeclareSaboteurWin, quiet_onBoard.
  by rewrite quiet_onMetrics by reflexivity.
Qed.

Lemma quiet_takeCards id count r : quiet (takeCards id count r) = quiet r.
Proof.
  unfold takeCards. cbv zeta. destruct (drawLoop _ _ _) as [d h].
  rewrite quiet_setDeck. by apply quiet_onPlayer.
Qed.

Lemma quiet_drawn id count r : quiet (drawn id count r) = quiet r.
Proof.
  unfold drawn.
  by rewrite quiet_maybeDeclareSaboteurWin, quiet_refreshDeckRemaining,
    quiet_takeCards.
Qed.

Lemma quiet_maybeFinishRound placer r r' :
  maybeFinishRound placer r = Some r' -> quiet r' = quiet r.
Proof.
  intros H.
  apply maybeFinishRound_shape in H
    as [-> | (_ & _ & ps & gold & h & aw & wi & -> & Hps)]; [done|].
  unfold quiet. fields. f_equal. by apply scoreOnly_fmap.
Qed.

Lemma quiet_drawCards id count r r' :
  drawCards id count r = Some r' -> quiet r' = quiet r.
Proof.
  unfold drawCards. intros H.
  apply quiet_maybeFinishRound in H. by rewrite H, quiet_drawn.
Qed.

Lemma quiet_claimIdleTurn socket r : quiet (claimIdleTurn socket r) = quiet r.
Proof.
  unfold claimIdleTurn. destruct (negb _); [|done].
  rewrite quiet_setTurnTimer, quiet_setTurnIndex.
  by rewrite quiet_onMetrics by reflexivity.
Qed.

Lemma quiet_seatFirstTurn r : quiet (seatFirstTurn r) = quiet r.
Proof.
  unfold seatFirstTurn. destruct (playerId <$> players r); [done|].
  rewrite quiet_setTurnTimer. by rewrite quiet_onMetrics by reflexivity.
Qed.

Lemma quiet_updatePlayerPose id pos rot r :
  quiet (updatePlayerPose id pos rot r) = quiet r.
Proof.
  unfold updatePlayerPose. destruct (getPlayer _ _); [|done].
  by apply quiet_onPlayer.
Qed.

(** The writes. *)

Lemma quiet_setSuspicion id v r :
  quiet (setSuspicion id v r)
  = (<[id := v]> (suspicionByPlayer (metrics r)),
     efficiencyByPlayer (metrics r), seat <$> players r).
Proof. reflexivity. Qed.

Lemma quiet_recordEfficiency id prev r :
  quiet (recordEfficiency id prev r)
  = (suspicionByPlayer (metrics r),
     <[id := (default (num 0 1) (efficiencyByPlayer (metrics r) !! id)
              + (progress (metrics r) - prev))%Qc]> (efficiencyByPlayer (metrics r)),
     seat <$> players r).
Proof. reflexivity. Qed.

(** The part of the room a placement stages before the redraw. *)
Lemma stagePlacement_quiet id payload card tile c r :
  quiet (stagePlacement id payload card tile c (progress (metrics r)) r)
  = (<[id := Math_max (num 0 1) (suspicionOf id (metrics r) - num 5 100)%Qc]>
       (suspicionByPlayer (metrics r)),
     <[id := (default (num 0 1) (efficiencyByPlayer (metrics r) !! id)
              + (progress (metrics r) - progress (metrics r)))%Qc]>
       (efficiencyByPlayer (metrics r)),
     seat <$> players r).
Proof.
  unfold stagePlacement.
  set (r0 := countTurn (pushDiscard card (takeFromHand id card (onTile _ _ r)))).
  assert (H0 : quiet r0 = quiet r).
  { unfold r0. by rewrite quiet_countTurn, quiet_pushDiscard, quiet_takeFromHand,
      quiet_onTile. }
  assert (Hp : progress (metrics r0) = progress (metrics r)) by reflexivity.
  apply quiet_inv in H0 as (Hs & He & Hl).
  rewrite quiet_recordEfficiency.
  change (progress (metrics (lowerSuspicion id (num 5 100) r0)))
    with (progress (metrics r0)).
  change (efficiencyByPlayer (metrics (lowerSuspicion id (num 5 100) r0)))
    with (efficiencyByPlayer (metrics r0)).
  change (seat <$> players (lowerSuspicion id (num 5 100) r0))
    with (seat <$> players r0).
  change (suspicionByPlayer (metrics (lowerSuspicion id (num 5 100) r0)))
    with (<[id := Math_max (num 0 1) (suspicionOf id (metrics r0) - num 5 100)%Qc]>
            (suspicionByPlayer (metrics r0))).
  unfold suspicionOf. by rewrite Hs, He, Hl, Hp.
Qed.

Lemma commitPlacement_quiet id payload player card tile c r r' :
  commitPlacement id payload player card tile c r = Some r' ->
  quiet r' = quiet (stagePlacement id payload card tile c (progress (metrics r)) r).
Proof.
  unfold commitPlacement.
  destruct (drawCards _ _ _) as [r7|] eqn:E; [|discriminate].
  cbn [mbind option_bind]. intros H.
  apply quiet_maybeFinishRound in H.
  rewrite H, quiet_advanceTurn, quiet_syncBoardTelemetry.
  by apply quiet_drawCards in E.
Qed.

(** * The quiet part of the room after each handler *)

Lemma quiet_lowerSuspicion id c r :
  quiet (lowerSuspicion id c r)
  = (<[id := Math_max (num 0 1) (suspicionOf id (metrics r) - c)%Qc]>
       (suspicionByPlayer (metrics r)),
     efficiencyByPlayer (metrics r), seat <$> players r).
Proof. reflexivity. Qed.

Lemma quiet_raiseSuspicion id c r :
  quiet (raiseSuspicion id c r)
  = (<[id := Math_min (num 1 1) (suspicionOf id (metrics r) + c)%Qc]>
       (suspicionByPlayer (metrics r)),
     efficiencyByPlayer (metrics r), seat <$> players r).
Proof. reflexivity. Qed.

Lemma suspicionOf_quiet id r r' :
  quiet r' = quiet r -> suspicionOf id (metrics r') = suspicionOf id (metrics r).
Proof. intros H. apply quiet_inv in H as (H & _ & _). unfold suspicionOf. by rewrite H. Qed.

Lemma stageRockfall_quiet id card tile r :
  quiet (stageRockfall id card tile r)
  = (<[id := Math_min (num 1 1) (suspicionOf id (metrics r) + num 15 100)%Qc]>
       (suspicionByPlayer (metrics r)),
     efficiencyByPlayer (metrics r), seat <$> players r).
Proof.
  unfold stageRockfall.
  set (r0 := countTurn (countCollapse (takeFromHand id card (onTile _ _ r)))).
  assert (H0 : quiet r0 = quiet r).
  { unfold r0. by rewrite quiet_countTurn, quiet_countCollapse, quiet_takeFromHand,
      quiet_onTile. }
  rewrite quiet_raiseSuspicion, (suspicionOf_quiet _ _ _ H0).
  apply quiet_inv in H0 as (-> & -> & ->). done.
Qed.

Lemma stageToolEffect_quiet id payload card r :
  quiet (stageToolEffect id payload card r)
  = (<[id := suspicionAfter id (ToolEffect payload) r]> (suspicionByPlayer (metrics r)),
     efficiencyByPlayer (metrics r), seat <$> players r).
Proof.
  unfold stageToolEffect, suspicionAfter. rewrite quiet_takeFromHand.
  destruct (bool_decide _).
  - set (r0 := onPlayer _ _ r).
    assert (H0 : quiet r0 = quiet r) by (by apply quiet_onPlayer).
    rewrite quiet_raiseSuspicion, (suspicionOf_quiet _ _ _ H0).
    apply quiet_inv in H0 as (-> & -> & ->). done.
  - set (r0 := onPlayer _ _ r).
    assert (H0 : quiet r0 = quiet r) by (by apply quiet_onPlayer).
    rewrite quiet_lowerSuspicion, (suspicionOf_quiet _ _ _ H0).
    apply quiet_inv in H0 as (-> & -> & ->). done.
Qed.

(** A gameplay call either fails and leaves the room as it was, or succeeds
    and writes the caller's suspicion (and, for a placement, efficiency). *)
Lemma resolve_quiet id i r res r' :
  resolve id i r = Some (res, r') ->
  (isError res = true /\ r' = r)
  \/ (isError res = false
      /\ quiet r' = (<[id := suspicionAfter id i r]> (suspicionByPlayer (metrics r)),
                     efficiencyAfter id i r, seat <$> players r)).
Proof.
  destruct i as [payload | tileId | payload]; cbn [resolve].
  - unfold placeCard.
    destruct (notYourTurn id r); [intros [= <- <-]; by left|].
    destruct (getPlayer id (players r)) as [player|]; [|intros [= <- <-]; by left].
    destruct (toolBroken player); [intros [= <- <-]; by left|].
    destruct (List.find _ (hand player)) as [card|]; [|intros [= <- <-]; by left].
    destruct (negb _); [intros [= <- <-]; by left|].
    destruct (findTile _ _) as [tile|]; [|intros [= <- <-]; by left].
    destruct (_ || _); [intros [= <- <-]; by left|].
    destruct (bool_decide (tileType tile = t_path)); [intros [= <- <-]; by left|].
    destruct (rotateConnectors _ _) as [c|]; [|discriminate].
    cbn [mbind option_bind]. cbv zeta.
    destruct (_ || _); [intros [= <- <-]; by left|].
    destruct (commitPlacement _ _ _ _ _ _ _) as [r1|] eqn:E; [|discriminate].
    cbn [mbind option_bind]. intros [= <- <-].
    right. split; [done|].
    rewrite (commitPlacement_quiet _ _ _ _ _ _ _ _ E). apply stagePlacement_quiet.
  - unfold triggerRockfall.
    destruct (notYourTurn id r); [intros [= <- <-]; by left|].
    destruct (getPlayer id (players r)) as [player|]; [|intros [= <- <-]; by left].
    destruct (List.find _ (hand player)) as [card|]; [|intros [= <- <-]; by left].
    destruct (findTile (board r) tileId) as [tile|]; [|intros [= <- <-]; by left].
    destruct (negb _); [intros [= <- <-]; by left|].
    destruct (drawCards _ _ _) as [r6|] eqn:E; [|discriminate].
    cbn [mbind option_bind]. intros [= <- <-].
    right. split; [done|].
    rewrite quiet_advanceTurn, quiet_syncBoardTelemetry.
    rewrite (quiet_drawCards _ _ _ _ E). apply stageRockfall_quiet.
  - unfold applyToolEffect.
    destruct (notYourTurn id r); [intros [= <- <-]; by left|].
    destruct (getPlayer id (players r)) as [actor|]; [|intros [= <- <-]; by left].
    destruct (getPlayer (targetPlayerId payload) (players r)) as [target|];
      [|intros [= <- <-]; by left].
    destruct (List.find _ (hand actor)) as [card|]; [|intros [= <- <-]; by left].
    destruct (drawCards _ _ _) as [r3|] eqn:E; [|discriminate].
    cbn [mbind option_bind]. intros [= <- <-].
    right. split; [done|].
    rewrite quiet_advanceTurn, quiet_countTurn.
    rewrite (quiet_drawCards _ _ _ _ E). apply stageToolEffect_quiet.
Qed.

Lemma putPlayer_seats p ps :
  seat <$> putPlayer p ps
  = match getPlayer (playerId p) ps with
    | Some _ => assignFirst (fun s => String.eqb s.1.1 (playerId p)) (fun _ => seat p)
                  (seat <$> ps)
    | None => (seat <$> ps) ++ [seat p]
    end.
Proof.
  unfold putPlayer. destruct (getPlayer _ _); [|by rewrite fmap_app].
  induction ps as [|q ps IH]; [done|]. simpl.
  unfold hasId at 1. destruct (String.eqb _ _); [done|].
  rewrite fmap_cons. by rewrite IH.
Qed.

Lemma insertPlayer_quiet socket name r r' :
  insertPlayer socket name r = Some r' ->
  exists ro,
    quiet r' = (<[socket := initialSuspicion ro]> (suspicionByPlayer (metrics r)),
                efficiencyByPlayer (metrics r),
                seat <$> putPlayer
                  (newPlayer socket name (length (players r) + 1) ro) (players r)).
Proof.
  unfold insertPlayer. destruct (roleDistribution _ _) as [roles h1]. cbv zeta.
  destruct (drawCards _ _ _) as [r3|] eqn:E; [|discriminate].
  cbn [mbind option_bind]. intros [= <-].
  eexists. rewrite quiet_claimIdleTurn, (quiet_drawCards _ _ _ _ E).
  reflexivity.
Qed.

Lemma removePlayer_quiet id r :
  quiet (removePlayer id r)
  = (delete id (suspicionByPlayer (metrics r)), efficiencyByPlayer (metrics r),
     seat <$> deletePlayer id (players r)).
Proof.
  unfold removePlayer. cbv zeta. destruct (bool_decide _); [|reflexivity].
  by rewrite quiet_advanceTurn.
Qed.

Lemma renewRoom_quiet r : quiet (renewRoom r) = (∅, ∅, seat <$> players r).
Proof.
  unfold renewRoom. destruct (createBoard _) as [b h1].
  destruct (generateDeck _) as [d h2]. cbv zeta.
  by rewrite quiet_setTurnIndex, quiet_clearTurnTimer.
Qed.

Lemma resetSeat_thrown roles l : foldl (resetSeat roles) None l = None.
Proof. by induction l. Qed.

(** Induction over the [forEach] of [resetRoom]. *)
Lemma resetSeats_ind (P : GameRoom -> Prop) roles :
  (forall r s r', P r -> resetSeat roles (Some r) s = Some r' -> P r') ->
  forall l r r', P r -> foldl (resetSeat roles) (Some r) l = Some r' -> P r'.
Proof.
  intros Hstep. induction l as [|s l IH]; intros r r' HP H.
  - by injection H as <-.
  - change (foldl (resetSeat roles) (resetSeat roles (Some r) s) l = Some r') in H.
    destruct (resetSeat roles (Some r) s) as [r1|] eqn:E;
      [|by rewrite resetSeat_thrown in H].
    eapply IH; [|done]. by eapply Hstep.
Qed.

Lemma resetSeat_quiet roles r s r' :
  resetSeat roles (Some r) s = Some r' ->
  exists ro,
    quiet r' = (<[s.2 := initialSuspicion ro]> (suspicionByPlayer (metrics r)),
                efficiencyByPlayer (metrics r),
                seat <$> assignFirst (hasId s.2) (resetPlayer ro) (players r)).
Proof.
  unfold resetSeat. cbn [mbind option_bind]. cbv zeta. intros E.
  eexists. by rewrite (quiet_drawCards _ _ _ _ E).
Qed.

(** The shape of a restart. *)
Lemma resetRoom_shape r r' :
  resetRoom r = Some r' ->
  exists roles h r3,
    foldl (resetSeat roles) (Some (setHost h (renewRoom r)))
      (imap (fun idx p => (idx, playerId p)) (players (renewRoom r))) = Some r3
    /\ quiet r' = quiet r3.
Proof.
  unfold resetRoom. cbv zeta. destruct (roleDistribution _ _) as [roles h3].
  destruct (foldl _ _ _) as [r3|] eqn:E; [|discriminate].
  cbn [mbind option_bind]. intros [= <-].
  exists roles, h3, r3. split; [done|].
  by rewrite quiet_syncBoardTelemetry, quiet_seatFirstTurn.
Qed.

Lemma newGameRoom_quiet id h : quiet (newGameRoom id h) = (∅, ∅, []).
Proof.
  unfold newGameRoom. destruct (createBoard _) as [b h1].
  destruct (generateDeck _) as [d h2]. by rewrite quiet_syncBoardTelemetry.
Qed.

(** * Efficiency never moves *)

Lemma efficiency_quiet r r' :
  quiet r' = quiet r -> efficiencyAllZero r -> efficiencyAllZero r'.
Proof. intros H. apply quiet_inv in H as (_ & H & _). unfold efficiencyAllZero. by rewrite H. Qed.

Lemma resetRoom_efficiency r r' :
  resetRoom r = Some r' -> efficiencyByPlayer (metrics r') = ∅.
Proof.
  intros H. apply resetRoom_shape in H as (roles & h & r3 & Hfold & Hq).
  apply quiet_inv in Hq as (_ & -> & _).
  revert Hfold.
  apply (resetSeats_ind (fun x => efficiencyByPlayer (metrics x) = ∅)).
  - intros r0 s r1 IH E. apply resetSeat_quiet in E as (ro & Hq).
    apply quiet_parts in Hq as (_ & Hq & _). congruence.
  - assert (Hq : quiet (setHost h (renewRoom r)) = (∅, ∅, seat <$> players r))
      by (rewrite quiet_setHost; apply renewRoom_quiet).
    by apply quiet_parts in Hq as (_ & Hq & _).
Qed.

Lemma handle_efficiency a r r' :
  efficiencyAllZero r -> handle a r = Some r' -> efficiencyAllZero r'.
Proof.
  intros Hz. destruct a; cbn [handle].
  - intros H. apply insertPlayer_quiet in H as (ro & Hq).
    apply quiet_parts in Hq as (_ & Hq & _). unfold efficiencyAllZero.
    by rewrite Hq.
  - intros [= <-]. pose proof (removePlayer_quiet id r) as Hq.
    apply quiet_parts in Hq as (_ & Hq & _). unfold efficiencyAllZero.
    by rewrite Hq.
  - intros [= <-]. eapply efficiency_quiet; [apply quiet_updatePlayerPose | done].
  - destruct (resolve id i r) as [[res r1]|] eqn:E; [|discriminate].
    intros [= <-]. cbn [snd].
    apply resolve_quiet in E as [[_ ->] | [_ Hq]]; [done|].
    apply quiet_parts in Hq as (_ & Hq & _).
    unfold efficiencyAllZero. rewrite Hq.
    destruct i; cbn [efficiencyAfter]; [|done..].
    apply map_Forall_insert_2; [|done].
    assert (Hold : default (num 0 1) (efficiencyByPlayer (metrics r) !! id) = num 0 1).
    { destruct (efficiencyByPlayer (metrics r) !! id) as [e|] eqn:He; [|done].
      by apply Hz in He. }
    rewrite Hold. ring.
  - intros [= <-]. eapply efficiency_quiet; [apply quiet_advanceTurn | done].
  - intros [= <-]. done.
  - intros H. apply resetRoom_efficiency in H. unfold efficiencyAllZero.
    rewrite H. apply map_Forall_empty.
Qed.

(** Claim C9.  A successful [placeCard] adds 0 to the acting player's
    efficiency entry and leaves every other entry alone; every handler keeps
    all entries at 0, so they are 0 in every room reached from a new one. *)
Theorem placeCard_records_no_progress :
  (forall id payload r card justEnded placer r',
      placeCard id payload r = Some (Placed card justEnded placer, r') ->
      let old := default (num 0 1) (efficiencyByPlayer (metrics r) !! id) in
      efficiencyByPlayer (metrics r') !! id = Some (old + num 0 1)%Qc
      /\ (old + num 0 1)%Qc = old
      /\ forall other, other <> id ->
           efficiencyByPlayer (metrics r') !! other
           = efficiencyByPlayer (metrics r) !! other)
  /\ (forall a r r',
        efficiencyAllZero r -> handle a r = Some r' -> efficiencyAllZero r')
  /\ (forall actions id h r,
        run actions (newGameRoom id h) = Some r -> efficiencyAllZero r).
Proof.
  split; [|split; [apply handle_efficiency|]].
  - intros id payload r card justEnded placer r' H old.
    pose proof (resolve_quiet id (PlaceCard payload) r _ r' H) as Hcases.
    destruct Hcases as [[Herr _] | [_ Hq]].
    + discriminate Herr.
    + apply quiet_parts in Hq as (_ & Hq & _). rewrite Hq. cbn [efficiencyAfter].
      assert (Hzero : (progress (metrics r) - progress (metrics r))%Qc = num 0 1)
        by (change (num 0 1) with 0%Qc; ring).
      rewrite Hzero. fold old.
      split; [apply lookup_insert_eq|]. split; [apply Qcplus_0_r|].
      intros other Hother. by apply lookup_insert_ne.
  - intros actions id h.
    assert (Hstart : efficiencyAllZero (newGameRoom id h)).
    { pose proof (newGameRoom_quiet id h) as Hq.
      apply quiet_parts in Hq as (_ & Hq & _). unfold efficiencyAllZero.
      rewrite Hq. apply map_Forall_empty. }
    revert Hstart. generalize (newGameRoom id h).
    induction actions as [|a actions IH]; intros r0 Hz r; cbn [run].
    + by intros [= <-].
    + destruct (handle a r0) as [r1|] eqn:E; [|discriminate].
      cbn [mbind option_bind]. apply IH. by eapply handle_efficiency.
Qed.

(** * Suspicion stays in the unit interval *)

(** [suspicionBounded] read off the quiet part of the room. *)
Lemma suspicionBounded_parts r s e l :
  quiet r = (s, e, l) ->
  suspicionBounded r
  <-> map_Forall (fun _ v => inUnit v) s /\ Forall (fun t => inUnit t.2) l.
Proof.
  intros H. apply quiet_parts in H as (<- & _ & <-). unfold suspicionBounded.
  by rewrite Forall_fmap.
Qed.

Lemma suspicionBounded_quiet r r' :
  quiet r' = quiet r -> suspicionBounded r -> suspicionBounded r'.
Proof.
  intros H Hb. apply (suspicionBounded_parts r' _ _ _ H).
  by apply (suspicionBounded_parts r _ _ _ eq_refl).
Qed.

Lemma suspicionOf_in_unit id r : suspicionBounded r -> inUnit (suspicionOf id (metrics r)).
Proof.
  intros [Hm _]. unfold suspicionOf.
  destruct (suspicionByPlayer (metrics r) !! id) as [v|] eqn:E.
  - by apply Hm in E.
  - split; [apply Qcle_refl | apply zero_le_one].
Qed.

Lemma constant_nonneg (n d : Z) : (0 <= n)%Z -> (0 < d)%Z -> (num 0 1 <= num n d)%Qc.
Proof.
  intros Hn Hd. unfold num, Qcle. cbn [this Q2Qc].
  rewrite !Qred_correct. unfold Qle. cbn [Qnum Qden]. lia.
Qed.

Lemma Forall_assignFirst {A} (P : A -> Prop) (pr : A -> bool) (f : A -> A) (l : list A) :
  (forall x, P (f x)) -> Forall P l -> Forall P (assignFirst pr f l).
Proof.
  intros Hf. induction 1 as [|x l Hx Hl IH]; [constructor|]. simpl.
  destruct (pr x); constructor; auto.
Qed.

Lemma Forall_List_filter {A} (P : A -> Prop) (f : A -> bool) (l : list A) :
  Forall P l -> Forall P (List.filter f l).
Proof.
  induction 1 as [|x l Hx Hl IH]; [constructor|]. simpl.
  destruct (f x); [constructor|]; auto.
Qed.

Lemma Forall_putPlayer (P : Player -> Prop) p ps :
  P p -> Forall P ps -> Forall P (putPlayer p ps).
Proof.
  intros Hp Hps. unfold putPlayer. destruct (getPlayer _ _).
  - by apply Forall_assignFirst.
  - apply Forall_app. split; [done|]. by apply Forall_singleton.
Qed.

Lemma suspicionBounded_write r r' id v ps :
  quiet r' = (<[id := v]> (suspicionByPlayer (metrics r)),
              efficiencyByPlayer (metrics r), seat <$> ps) ->
  inUnit v -> Forall (fun p => inUnit (suspicion p)) ps ->
  suspicionBounded r -> suspicionBounded r'.
Proof.
  intros Hq Hv Hps [Hm _]. apply (suspicionBounded_parts r' _ _ _ Hq). split.
  - by apply map_Forall_insert_2.
  - by apply Forall_fmap.
Qed.

Lemma suspicionAfter_in_unit id i r :
  inUnit (suspicionOf id (metrics r)) -> inUnit (suspicionAfter id i r).
Proof.
  intros Hs. unfold suspicionAfter. cbv zeta.
  destruct i as [payload | tileId | payload]; [| |destruct (bool_decide _)].
  - apply lowered_in_unit; [by apply constant_nonneg | exact Hs].
  - apply raised_in_unit; [by apply constant_nonneg | exact Hs].
  - apply raised_in_unit; [by apply constant_nonneg | exact Hs].
  - apply lowered_in_unit; [by apply constant_nonneg | exact Hs].
Qed.

Lemma handle_suspicionBounded a r r' :
  suspicionBounded r -> handle a r = Some r' -> suspicionBounded r'.
Proof.
  intros Hb. pose proof Hb as [Hm Hp]. destruct a; cbn [handle].
  - intros H. apply insertPlayer_quiet in H as (ro & Hq).
    eapply suspicionBounded_write; [exact Hq | apply initialSuspicion_in_unit | | done].
    apply Forall_putPlayer; [apply initialSuspicion_in_unit | done].
  - intros [= <-]. apply (suspicionBounded_parts _ _ _ _ (removePlayer_quiet id r)).
    split.
    + by apply map_Forall_delete.
    + apply Forall_fmap. by apply Forall_List_filter.
  - intros [= <-]. eapply suspicionBounded_quiet; [apply quiet_updatePlayerPose | done].
  - destruct (resolve id i r) as [[res r1]|] eqn:E; [|discriminate].
    intros [= <-]. cbn [snd].
    pose proof (suspicionOf_in_unit id r Hb) as Hs.
    apply resolve_quiet in E as [[_ ->] | [_ Hq]]; [done|].
    apply (suspicionBounded_parts _ _ _ _ Hq). split; [|by apply Forall_fmap].
    apply map_Forall_insert_2; [|done]. by apply suspicionAfter_in_unit.
  - intros [= <-]. eapply suspicionBounded_quiet; [apply quiet_advanceTurn | done].
  - intros [= <-]. done.
  - intros H. apply resetRoom_shape in H as (roles & h & r3 & Hfold & Hq).
    eapply suspicionBounded_quiet; [exact Hq|].
    revert Hfold. apply (resetSeats_ind suspicionBounded).
    + intros r0 s r1 [Hm0 Hp0] E. apply resetSeat_quiet in E as (ro & Hq1).
      eapply suspicionBounded_write;
        [exact Hq1 | apply initialSuspicion_in_unit | | by split].
      apply Forall_assignFirst; [|done].
      intros p. apply initialSuspicion_in_unit.
    + assert (Hq0 : quiet (setHost h (renewRoom r)) = (∅, ∅, seat <$> players r))
        by (rewrite quiet_setHost; apply renewRoom_quiet).
      apply (suspicionBounded_parts _ _ _ _ Hq0). split.
      * apply map_Forall_empty.
      * by apply Forall_fmap.
Qed.

(** Claim C8.  Every suspicion value of a new room lies in [0, 1], every
    handler keeps it so, hence so does every sequence of handlers; a successful
    card effect writes the clamped value [suspicionAfter] (0.05 and 0.04
    decreases floored at 0, 0.15 and 0.12 increases capped at 1), and the
    initial values of both roles lie in [0, 1]. *)
Theorem suspicion_stays_in_unit_interval :
  (forall id h, suspicionBounded (newGameRoom id h))
  /\ (forall a r r',
        suspicionBounded r -> handle a r = Some r' -> suspicionBounded r')
  /\ (forall actions id h r,
        run actions (newGameRoom id h) = Some r -> suspicionBounded r)
  /\ (forall id i r res r',
        resolve id i r = Some (res, r') -> isError res = false ->
        suspicionByPlayer (metrics r')
        = <[id := suspicionAfter id i r]> (suspicionByPlayer (metrics r))
        /\ (suspicionBounded r -> inUnit (suspicionAfter id i r)))
  /\ (forall ro, inUnit (initialSuspicion ro)).
Proof.
  assert (Hstart : forall id h, suspicionBounded (newGameRoom id h)).
  { intros id h. apply (suspicionBounded_parts _ _ _ _ (newGameRoom_quiet id h)).
    split; [apply map_Forall_empty | constructor]. }
  split; [done|]. split; [apply handle_suspicionBounded|].
  split; [|split; [|apply initialSuspicion_in_unit]].
  - intros actions id h. generalize (Hstart id h). generalize (newGameRoom id h).
    induction actions as [|a actions IH]; intros r0 Hb r; cbn [run].
    + by intros [= <-].
    + destruct (handle a r0) as [r1|] eqn:E; [|discriminate].
      cbn [mbind option_bind]. apply IH. by eapply handle_suspicionBounded.
  - intros id i r res r' H Hok.
    apply resolve_quiet in H as [[Herr _] | [_ Hq]]; [congruence|].
    apply quiet_parts in Hq as (Hq & _ & _). split; [done|].
    intros Hb. by apply suspicionAfter_in_unit, suspicionOf_in_unit.
Qed.

(** * The round-start suspicion discloses the role *)


Lemma disclosed_seat r p :
  disclosed r p <-> disclosedSeat (suspicionByPlayer (metrics r)) (seat p).
Proof.
  unfold disclosed, disclosedSeat, seat. cbn [fst snd].
  split; intros [H1 H2]; split; congruence.
Qed.

Lemma hasId_true id p : hasId id p = true <-> playerId p = id.
Proof. unfold hasId. apply String.eqb_eq. Qed.

Lemma getPlayer_putPlayer p ps : getPlayer (playerId p) (putPlayer p ps) = Some p.
Proof.
  unfold putPlayer. destruct (getPlayer (playerId p) ps) as [q|] eqn:E.
  - induction ps as [|x ps IH]; [discriminate|]. unfold getPlayer in *. simpl in *.
    destruct (hasId (playerId p) x) eqn:Hx; simpl.
    + assert (Hp : hasId (playerId p) p = true) by by apply hasId_true.
      by rewrite Hp.
    + rewrite Hx. by apply IH.
  - unfold getPlayer in *. induction ps as [|x ps IH]; simpl in *.
    + assert (Hp : hasId (playerId p) p = true) by by apply hasId_true.
      by rewrite Hp.
    + destruct (hasId (playerId p) x); [discriminate|]. by apply IH.
Qed.

Lemma getPlayer_seats id ps qs q :
  seat <$> ps = seat <$> qs -> getPlayer id qs = Some q ->
  exists p, getPlayer id ps = Some p /\ seat p = seat q.
Proof.
  revert qs. induction ps as [|x ps IH]; intros [|y qs] H Hq;
    try discriminate H; try discriminate Hq.
  rewrite !fmap_cons in H. injection H as Hpid Hrole Hsus Hrest.
  unfold getPlayer in *. cbn [List.find] in *.
  assert (Hid : hasId id x = hasId id y) by (unfold hasId; by rewrite Hpid).
  rewrite Hid. destruct (hasId id y); [|by eapply IH].
  injection Hq as <-. exists x. split; [done|]. unfold seat. congruence.
Qed.

Lemma insertPlayer_discloses socket name r r' :
  insertPlayer socket name r = Some r' ->
  exists p, getPlayer socket (players r') = Some p /\ disclosed r' p.
Proof.
  intros H. apply insertPlayer_quiet in H as (ro & Hq).
  apply quiet_parts in Hq as (Hs & _ & Hl).
  set (new := newPlayer socket name (length (players r) + 1) ro) in *.
  destruct (getPlayer_seats socket _ _ new Hl) as (p & Hp & Hseat).
  { apply (getPlayer_putPlayer new). }
  exists p. split; [done|]. apply disclosed_seat. rewrite Hseat, Hs.
  split; [done|]. apply lookup_insert_eq.
Qed.

(** The players a mutation by id leaves alone, when ids are distinct. *)
Lemma assignFirst_elem (id : string) (f : Player -> Player) (ps : list Player) (q : Player) :
  (forall p, playerId (f p) = playerId p) ->
  NoDup (playerId <$> ps) ->
  q ∈ assignFirst (hasId id) f ps ->
  (playerId q = id /\ exists p, p ∈ ps /\ q = f p)
  \/ (playerId q <> id /\ q ∈ ps).
Proof.
  intros Hf. induction ps as [|x ps IH]; intros Hnd Hq; cbn [assignFirst] in Hq.
  - by apply elem_of_nil in Hq.
  - rewrite fmap_cons in Hnd. apply NoDup_cons in Hnd as [Hx Hnd].
    destruct (hasId id x) eqn:E.
    + apply hasId_true in E. apply elem_of_cons in Hq as [-> | Hq].
      * left. rewrite Hf. split; [done|]. exists x. split; [left|done].
      * right. split; [|by right]. intros Heq. apply Hx.
        rewrite E, <- Heq. by apply list_elem_of_fmap_2.
    + apply elem_of_cons in Hq as [-> | Hq].
      * right. split; [|left]. intros Heq. apply hasId_true in Heq. congruence.
      * destruct (IH Hnd Hq) as [(? & p & ? & ?) | (? & ?)].
        -- left. split; [done|]. exists p. split; [by right|done].
        -- right. split; [done|by right].
Qed.


Lemma seats_ids (ps qs : list Player) :
  seat <$> ps = seat <$> qs -> playerId <$> ps = playerId <$> qs.
Proof.
  intros H. apply (f_equal (fmap (fun t : string * Role * Qc => t.1.1))) in H.
  by rewrite <- !list_fmap_compose in H.
Qed.

Lemma resetSeat_resetSoFar roles done r s r' :
  resetSoFar done r -> resetSeat roles (Some r) s = Some r' ->
  resetSoFar (done ∪ {[ s.2 ]}) r'
  /\ playerId <$> players r' = playerId <$> players r.
Proof.
  intros [Hnd Hinv] E. apply resetSeat_quiet in E as (ro & Hq).
  apply quiet_parts in Hq as (Hs & _ & Hl).
  assert (Hids : playerId <$> players r' = playerId <$> players r).
  { rewrite (seats_ids _ _ Hl). by apply assignFirst_fmap. }
  split; [|done]. split; [by rewrite Hids|].
  intros t Ht Hdone. rewrite Hl in Ht. rewrite Hs.
  apply list_elem_of_fmap in Ht as (q & -> & Hq).
  apply assignFirst_elem in Hq as [(Hid & p & Hp & ->) | (Hid & Hq)]; [| |done|done].
  - split; [done|]. cbn [resetPlayer playerId] in Hid.
    cbn [seat fst snd resetPlayer playerId suspicion]. rewrite Hid.
    apply lookup_insert_eq.
  - assert (Hold : disclosedSeat (suspicionByPlayer (metrics r)) (seat q)).
    { apply Hinv; [by apply list_elem_of_fmap_2|].
      apply elem_of_union in Hdone as [Hd | Hd]; [done|].
      apply elem_of_singleton in Hd. by destruct Hid. }
    destruct Hold as [H1 H2]. split; [done|].
    rewrite lookup_insert_ne; [done|]. intros Heq. by apply Hid.
Qed.

Lemma resetSeats_resetSoFar roles l done r r' :
  resetSoFar done r -> foldl (resetSeat roles) (Some r) l = Some r' ->
  resetSoFar (done ∪ list_to_set (snd <$> l)) r'
  /\ playerId <$> players r' = playerId <$> players r.
Proof.
  revert done r. induction l as [|s l IH]; intros done r Hinv H.
  - injection H as <-. cbn [fmap list_fmap list_to_set].
    by rewrite (right_id_L ∅ (∪)).
  - change (foldl (resetSeat roles) (resetSeat roles (Some r) s) l = Some r') in H.
    destruct (resetSeat roles (Some r) s) as [r1|] eqn:E;
      [|by rewrite resetSeat_thrown in H].
    destruct (resetSeat_resetSoFar _ _ _ _ _ Hinv E) as [Hinv1 Hids1].
    destruct (IH _ _ Hinv1 H) as [Hinv2 Hids2].
    split; [|congruence].
    rewrite fmap_cons, list_to_set_cons.
    by rewrite (assoc_L (∪)).
Qed.

Lemma renewRoom_players r : players (renewRoom r) = players r.
Proof.
  unfold renewRoom. destruct (createBoard _) as [b h1].
  destruct (generateDeck _) as [d h2]. cbv zeta.
  unfold clearTurnTimer. cbn [turnTimer]. by destruct (turnTimer r).
Qed.

Lemma seats_of_players (ps : list Player) :
  (imap (fun idx p => (idx, playerId p)) ps).*2 = playerId <$> ps.
Proof.
  rewrite fmap_imap, <- (imap_const playerId). by apply imap_ext.
Qed.

Lemma players_setHost h r : players (setHost h r) = players r.
Proof. reflexivity. Qed.

Lemma resetRoom_discloses r r' :
  NoDup (playerId <$> players r) -> resetRoom r = Some r' ->
  forall p, p ∈ players r' -> disclosed r' p.
Proof.
  intros Hnd H p Hp.
  apply resetRoom_shape in H as (roles & h & r3 & Hfold & Hq).
  apply quiet_inv in Hq as (Hs & _ & Hl).
  assert (Hplayers : players (setHost h (renewRoom r)) = players r)
    by (rewrite players_setHost; apply renewRoom_players).
  rewrite renewRoom_players in Hfold.
  apply (resetSeats_resetSoFar _ _ ∅) in Hfold as [[_ Hinv] Hids].
  - apply disclosed_seat. rewrite Hs. apply Hinv.
    + rewrite <- Hl. by apply list_elem_of_fmap_2.
    + rewrite seats_of_players.
      rewrite (left_id_L ∅ (∪)). apply elem_of_list_to_set.
      rewrite <- Hplayers, <- Hids, <- (seats_ids _ _ Hl).
      change ((seat p).1.1) with (playerId p). by apply list_elem_of_fmap_2.
  - split; [by rewrite Hplayers|]. intros t _ Ht. exfalso. revert Ht. apply not_elem_of_empty.
Qed.

Lemma initialSuspicion_half ro : initialSuspicion ro = num 1 2 <-> ro = saboteur.
Proof.
  destruct ro; split; intros H; done.
Qed.

(** * A restart always completes *)

Lemma board_setHost h r : board (setHost h r) = board r.
Proof. reflexivity. Qed.

Lemma board_refreshDeckRemaining r : board (refreshDeckRemaining r) = board r.
Proof. reflexivity. Qed.

(** Settlement throws only when a miner win is settled. *)
Lemma maybeFinishRound_total placer r :
  winningTeam (board r) <> Some miner ->
  exists r', maybeFinishRound placer r = Some r' /\ board r' = board r.
Proof.
  intros Hw. unfold maybeFinishRound.
  destruct (roundEnded r); [eauto|].
  destruct (winningTeam (board r)) as [[]|] eqn:E; [done| |eauto].
  destruct (applyRoundRewards_saboteur placer (setResolution true placer r) E)
    as (res & r1 & E1).
  rewrite E1. cbn [mbind option_bind]. eexists. split; [done|].
  apply applyRoundRewards_shape in E1 as (ps & gold & h & -> & _). done.
Qed.

Lemma maybeDeclareSaboteurWin_no_miner r :
  winningTeam (board r) <> Some miner ->
  winningTeam (board (maybeDeclareSaboteurWin r)) <> Some miner.
Proof.
  unfold maybeDeclareSaboteurWin.
  destruct (winningTeam (board r)) eqn:E; [by rewrite E|].
  destruct (_ =? _); [done | by rewrite E].
Qed.

Lemma drawCards_total id count r :
  winningTeam (board r) <> Some miner ->
  exists r', drawCards id count r = Some r'
    /\ winningTeam (board r') <> Some miner.
Proof.
  intros Hw. unfold drawCards.
  assert (Hd : winningTeam (board (drawn id count r)) <> Some miner).
  { unfold drawn. apply maybeDeclareSaboteurWin_no_miner.
    by rewrite board_refreshDeckRemaining, (proj2 (takeCards_deck id count r)). }
  destruct (maybeFinishRound_total None _ Hd) as (r' & E & Hb).
  exists r'. split; [done|]. by rewrite Hb.
Qed.

Lemma resetSeats_total roles l r :
  winningTeam (board r) <> Some miner ->
  exists r', foldl (resetSeat roles) (Some r) l = Some r'.
Proof.
  revert r. induction l as [|s l IH]; intros r Hw; [by exists r|].
  change (exists r', foldl (resetSeat roles) (resetSeat roles (Some r) s) l = Some r').
  unfold resetSeat at 2. cbn [mbind option_bind]. cbv zeta.
  match goal with |- context [drawCards ?i ?n ?x] =>
    destruct (drawCards_total i n x) as (r1 & E & Hw1); [exact Hw|] end.
  rewrite E. by apply IH.
Qed.

Lemma createBoard_winningTeam h : winningTeam (createBoard h).1 = None.
Proof. unfold createBoard. by destruct (randomBelow _ _). Qed.

Lemma renewRoom_winningTeam r : winningTeam (board (renewRoom r)) = None.
Proof.
  unfold renewRoom. pose proof (createBoard_winningTeam (host r)) as H.
  destruct (createBoard _) as [b h1]. destruct (generateDeck _) as [d h2].
  cbv zeta. unfold clearTurnTimer. cbn [turnTimer].
  destruct (turnTimer r); exact H.
Qed.

Lemma resetRoom_total r : exists r', resetRoom r = Some r'.
Proof.
  unfold resetRoom. cbv zeta. destruct (roleDistribution _ _) as [roles h3].
  match goal with |- context [foldl (resetSeat roles) (Some ?x) ?l] =>
    destruct (resetSeats_total roles l x) as (r3 & E) end.
  - by rewrite board_setHost, renewRoom_winningTeam.
  - rewrite E. cbn [mbind option_bind]. eauto.
Qed.

(** * What the serialized view gives away *)

Lemma serializePlayers_lookup requester r i p :
  players r !! i = Some p ->
  serializePlayers requester r !! i
  = Some (mkView (playerId p) (name p)
            (if bool_decide (Some (playerId p) = requester) then Some (role p) else None)
            (position p) (rotation p) (connected p) (toolBroken p)
            (default (num 0 1) (suspicionByPlayer (metrics r) !! playerId p))
            (score p)).
Proof.
  intros Hi. unfold serializePlayers. rewrite list_lookup_fmap, Hi. reflexivity.
Qed.

Lemma viewOf_sent requester r i p :
  players r !! i = Some p ->
  serializePlayers requester r !! i = Some (viewOf requester r p).
Proof. exact (serializePlayers_lookup requester r i p). Qed.

Lemma serializePlayers_length requester r :
  length (serializePlayers requester r) = length (players r).
Proof. unfold serializePlayers. apply length_fmap. Qed.

Lemma half_is_not_zero : num 1 2 <> num 0 1.
Proof. discriminate. Qed.

Lemma disclosed_literal r p :
  disclosed r p ->
  suspicion p = match role p with saboteur => num 1 2 | miner => num 0 1 end
  /\ suspicionByPlayer (metrics r) !! playerId p
     = Some (match role p with saboteur => num 1 2 | miner => num 0 1 end).
Proof.
  intros [Hp Hm]. rewrite Hp, Hm. unfold initialSuspicion.
  by destruct (role p).
Qed.

(** Claim C10.  After a join the new player, and after a restart (which always
    completes) every player, has suspicion 0.5 when saboteur and 0 when miner,
    on the player object and in the metrics.  [serializePlayers] for any other
    requester then holds, at the player's index, an entry with the player's id,
    role unknown and that suspicion, which is 0.5 exactly when the player is a
    saboteur and 0 exactly when a miner: the entry determines the role. *)
Theorem round_start_suspicion_discloses_role :
  let start := fun ro : Role =>
                 match ro with saboteur => num 1 2 | miner => num 0 1 end in
  let sent := fun (requester : option string) (r : GameRoom) (p : Player) =>
    exists i v,
      players r !! i = Some p
      /\ serializePlayers requester r !! i = Some v
      /\ viewId v = playerId p
      /\ viewRole v = None
      /\ viewSuspicion v = start (role p)
      /\ (viewSuspicion v = num 1 2 <-> role p = saboteur)
      /\ (viewSuspicion v = num 0 1 <-> role p = miner)
      /\ inferRole v = role p in
  (forall socket name r r',
      insertPlayer socket name r = Some r' ->
      exists p,
        getPlayer socket (players r') = Some p
        /\ suspicion p = start (role p)
        /\ suspicionByPlayer (metrics r') !! socket = Some (start (role p))
        /\ forall requester, requester <> Some socket -> sent requester r' p)
  /\ (forall r r',
        NoDup (playerId <$> players r) -> resetRoom r = Some r' ->
        length (players r') = length (players r)
        /\ (forall requester,
              length (serializePlayers requester r') = length (players r))
        /\ forall p,
             p ∈ players r' ->
             suspicion p = start (role p)
             /\ suspicionByPlayer (metrics r') !! playerId p = Some (start (role p))
             /\ forall requester,
                  requester <> Some (playerId p) -> sent requester r' p)
  /\ (forall r, exists r', resetRoom r = Some r').
Proof.
  cbv zeta.
  assert (Hsent : forall requester r p,
            p ∈ players r -> disclosed r p -> requester <> Some (playerId p) ->
            exists i v,
              players r !! i = Some p
              /\ serializePlayers requester r !! i = Some v
              /\ viewId v = playerId p
              /\ viewRole v = None
              /\ viewSuspicion v
                 = match role p with saboteur => num 1 2 | miner => num 0 1 end
              /\ (viewSuspicion v = num 1 2 <-> role p = saboteur)
              /\ (viewSuspicion v = num 0 1 <-> role p = miner)
              /\ inferRole v = role p).
  { intros requester r p Hin Hd Hother.
    apply list_elem_of_lookup_1 in Hin as [i Hi].
    destruct (disclosed_literal r p Hd) as [_ Hm].
    eexists i, _. split; [exact Hi|].
    split; [exact (serializePlayers_lookup requester r i p Hi)|].
    cbn [viewId viewRole viewSuspicion]. rewrite Hm. cbn [default from_option id].
    split; [reflexivity|]. split.
    { rewrite bool_decide_eq_false_2; [reflexivity|]. congruence. }
    split; [reflexivity|]. unfold inferRole. cbn [viewSuspicion default from_option id].
    destruct (role p); (split; [|split]);
      first [ split; intros H;
              first [reflexivity | discriminate H | by destruct half_is_not_zero]
            | by destruct (Qc_eq_dec _ _) ]. }
  split; [|split].
  - intros socket name r r' H.
    destruct (insertPlayer_discloses socket name r r' H) as (p & Hp & Hd).
    assert (Hid : playerId p = socket).
    { apply find_some in Hp as [_ Hp]. by apply hasId_true in Hp. }
    assert (Hin : p ∈ players r').
    { apply find_some in Hp as [Hp _]. by apply list_elem_of_In. }
    destruct (disclosed_literal r' p Hd) as [Hs Hm].
    exists p. split; [exact Hp|]. split; [exact Hs|].
    split; [by rewrite <- Hid|].
    intros requester Hother. apply (Hsent requester r' p Hin Hd). by rewrite Hid.
  - intros r r' Hnd H.
    assert (Hlen : length (players r') = length (players r)).
    { apply resetRoom_shape in H as (roles & h & r3 & Hfold & Hq).
      apply quiet_inv in Hq as (_ & _ & Hl).
      rewrite renewRoom_players in Hfold.
      apply (resetSeats_resetSoFar _ _ ∅) in Hfold as [_ Hids].
      - apply (f_equal length) in Hl. rewrite !length_fmap in Hl.
        apply (f_equal length) in Hids. rewrite !length_fmap in Hids.
        rewrite Hl, Hids. rewrite players_setHost. by rewrite renewRoom_players.
      - split; [by rewrite players_setHost, renewRoom_players|].
        intros t _ Ht. exfalso. revert Ht. apply not_elem_of_empty. }
    split; [exact Hlen|].
    split; [intros requester; by rewrite serializePlayers_length|].
    intros p Hin.
    pose proof (resetRoom_discloses r r' Hnd H p Hin) as Hd.
    destruct (disclosed_literal r' p Hd) as [Hs Hm].
    split; [exact Hs|]. split; [exact Hm|].
    intros requester Hother. exact (Hsent requester r' p Hin Hd Hother).
  - apply resetRoom_total.
Qed.

Import Sample.

(** * The statements at the sample rooms *)

Lemma firstPlacement_passesValidation :
  passesValidation "alice" firstPlacement withAlice alice straightCard target eastWest.
Proof.
  unfold passesValidation.
  split; [vm_compute; reflexivity|].
  split; [vm_compute; reflexivity|].
  split; [vm_compute; reflexivity|].
  split; [vm_compute; reflexivity|].
  split; [vm_compute; reflexivity|].
  split; [vm_compute; reflexivity|].
  split; [vm_compute; discriminate|].
  split; [vm_compute; discriminate|].
  split; [vm_compute; discriminate|].
  vm_compute; reflexivity.
Defined.

Lemma placeCard_edge_rule_witness :
  passesValidation "alice" firstPlacement withAlice alice straightCard target eastWest
  /\ (rejectedAsUnclean "alice" firstPlacement withAlice <->
      ~ (hasValidAttachment (checkEdges (board withAlice) target eastWest) = true
         /\ mismatch (checkEdges (board withAlice) target eastWest) = false)).
Proof.
  split; [exact firstPlacement_passesValidation|].
  exact (proj1 (proj2 (proj2
    (placeCard_edge_rule "alice" firstPlacement withAlice alice straightCard target
       eastWest firstPlacement_passesValidation)))).
Defined.

(** Claim C1 as stated fails: Alice's first card, a straight tunnel played
    next to the start tile, is accepted although its east connector faces an
    empty tile. *)
Lemma edge_rule_as_stated_fails :
  ~ edgeRuleAsStated "alice" firstPlacement withAlice.
Proof.
  intros H.
  destruct (H alice straightCard target eastWest firstPlacement_passesValidation)
    as [[Hacc _] _].
  assert (Haccepted : accepted "alice" firstPlacement withAlice).
  { exists straightCard, false, None, afterPlacement. vm_compute. reflexivity. }
  apply Hacc in Haccepted as [_ Hnone].
  assert (Heast : mkNeighbor East 0 1 West ∈ neighbors)
    by (unfold neighbors; do 2 right; left).
  specialize (Hnone _ Heast). vm_compute in Hnone. discriminate Hnone.
Qed.

Lemma errors_leave_room_unchanged_witness :
  resolve "bob" (Rockfall "3-1") withAlice = Some (Error "Not your turn", withAlice)
  /\ withAlice = withAlice.
Proof.
  assert (H : resolve "bob" (Rockfall "3-1") withAlice
              = Some (Error "Not your turn", withAlice))
    by (vm_compute; reflexivity).
  split; [exact H|].
  exact (errors_leave_room_unchanged "bob" (Rockfall "3-1") withAlice withAlice
           "Not your turn" H).
Defined.

Lemma syncBoardTelemetry_reveals_goal_witness :
  tiles (board bridged) !! 35%nat = Some goldGoal
  /\ tileType goldGoal = t_goal
  /\ tid goldGoal ∈ visited (exploreBoard (board bridged))
  /\ winningTeam (board (syncBoardTelemetry bridged)) = Some miner.
Proof.
  assert (H1 : tiles (board bridged) !! 35%nat = Some goldGoal)
    by (vm_compute; reflexivity).
  assert (H2 : tileType goldGoal = t_goal) by reflexivity.
  assert (H3 : tid goldGoal ∈ visited (exploreBoard (board bridged)))
    by (apply (bool_decide_unpack _); vm_compute; exact I).
  split; [exact H1|]. split; [exact H2|]. split; [exact H3|].
  exact (proj2 (syncBoardTelemetry_reveals_goal bridged 35 goldGoal H1 H2 H3) eq_refl).
Defined.

Lemma drawCards_declares_saboteur_win_witness :
  winningTeam (board lastCard) = None
  /\ (length (deck lastCard) <= 1)%nat
  /\ exists r', drawCards "alice" 1 lastCard = Some r'
       /\ deck r' = [] /\ winningTeam (board r') = Some saboteur.
Proof.
  assert (H1 : winningTeam (board lastCard) = None) by (vm_compute; reflexivity).
  assert (H2 : (length (deck lastCard) <= 1)%nat) by (vm_compute; lia).
  split; [exact H1|]. split; [exact H2|].
  exact (proj1 (drawCards_declares_saboteur_win "alice" 1 lastCard H1 H2)).
Defined.

Lemma settlement_runs_once_witness :
  roundEnded settled = true /\ maybeFinishRound None settled = Some settled.
Proof.
  assert (H : roundEnded settled = true) by (vm_compute; reflexivity).
  split; [exact H|].
  exact (proj1 settlement_runs_once None settled H).
Defined.

Lemma suspicion_stays_in_unit_interval_witness :
  run [Join "alice" (Some "Alice")] (newGameRoom "lobby" host0) = Some withAlice
  /\ suspicionBounded withAlice.
Proof.
  assert (H : run [Join "alice" (Some "Alice")] (newGameRoom "lobby" host0)
              = Some withAlice) by (vm_compute; reflexivity).
  split; [exact H|].
  exact (proj1 (proj2 (proj2 suspicion_stays_in_unit_interval))
           [Join "alice" (Some "Alice")] "lobby" host0 withAlice H).
Defined.

Lemma placeCard_records_no_progress_witness :
  placeCard "alice" firstPlacement withAlice
    = Some (Placed straightCard false None, afterPlacement)
  /\ efficiencyByPlayer (metrics afterPlacement) !! "alice"
     = Some (default (num 0 1) (efficiencyByPlayer (metrics withAlice) !! "alice")
             + num 0 1)%Qc.
Proof.
  assert (H : placeCard "alice" firstPlacement withAlice
              = Some (Placed straightCard false None, afterPlacement))
    by (vm_compute; reflexivity).
  split; [exact H|].
  exact (proj1 (proj1 placeCard_records_no_progress "alice" firstPlacement withAlice
                  straightCard false None afterPlacement H)).
Defined.

Lemma round_start_suspicion_discloses_role_witness :
  resetRoom Trio.withCarol = Some Trio.regrouped
  /\ role Trio.alice = saboteur
  /\ exists i v,
       players Trio.regrouped !! i = Some Trio.alice
       /\ serializePlayers (Some "bob") Trio.regrouped !! i = Some v
       /\ viewId v = "alice" /\ viewRole v = None /\ viewSuspicion v = num 1 2.
Proof.
  assert (Hnd : NoDup (playerId <$> players Trio.withCarol))
    by (apply (bool_decide_unpack _); vm_compute; exact I).
  assert (H : resetRoom Trio.withCarol = Some Trio.regrouped)
    by (vm_compute; reflexivity).
  assert (Hrole : role Trio.alice = saboteur) by (vm_compute; reflexivity).
  assert (Hin : Trio.alice ∈ players Trio.regrouped).
  { apply (list_elem_of_lookup_2 _ 0%nat). vm_compute; reflexivity. }
  assert (Hbob : Some "bob" <> Some (playerId Trio.alice))
    by (vm_compute; discriminate).
  split; [exact H|]. split; [exact Hrole|].
  destruct (proj2 (proj2 (proj1 (proj2 round_start_suspicion_discloses_role)
                            Trio.withCarol Trio.regrouped Hnd H))
              Trio.alice Hin) as (_ & _ & Hview).
  destruct (Hview (Some "bob") Hbob) as (i & v & Hi & Hv & Hid & Hhidden & _ & Hhalf & _ & _).
  exists i, v. split; [exact Hi|]. split; [exact Hv|].
  split; [rewrite Hid; vm_compute; reflexivity|].
  split; [exact Hhidden|]. exact (proj2 Hhalf Hrole).
Defined.

(** * The deck that [generateDeck] builds *)

Lemma freshCards_spec k q h :
  cardKey <$> (freshCards k q h).1 = replicate q k
  /\ instanceId <$> (freshCards k q h).1 = uuids h <$> seq (uuidPos h) q
  /\ Forall (fun c => card_rotation c = 0) (freshCards k q h).1
  /\ uuids (freshCards k q h).2 = uuids h
  /\ uuidPos (freshCards k q h).2 = (uuidPos h + q)%nat.
Proof.
  revert h. induction q as [|q IH]; intros h.
  - cbn. repeat split; [constructor | lia].
  - cbn [freshCards]. unfold uuid.
    match goal with |- context [freshCards k q ?h1] =>
      specialize (IH h1); destruct (freshCards k q h1) as [rest h2] end.
    destruct IH as (IH1 & IH2 & IH3 & IH4 & IH5). cbn [fst snd uuids uuidPos] in *.
    rewrite !fmap_cons, IH1, IH2. cbn [cardKey instanceId replicate seq fmap list_fmap].
    repeat split; [by constructor | done | lia].
Qed.

Lemma buildDeck_spec template h d0 :
  let res := foldl (fun '(d, h0) '(k, quantity) =>
                      let '(cs, h') := freshCards k quantity h0 in (d ++ cs, h'))
                   (d0, h) template in
  cardKey <$> res.1 = (cardKey <$> d0) ++ (entry ← template; replicate entry.2 entry.1)
  /\ instanceId <$> res.1
     = (instanceId <$> d0)
       ++ (uuids h <$> seq (uuidPos h) (length (entry ← template; replicate entry.2 entry.1)))
  /\ (Forall (fun c => card_rotation c = 0) d0 ->
      Forall (fun c => card_rotation c = 0) res.1).
Proof.
  revert h d0. induction template as [|[k q] template IH]; intros h d0.
  - cbn. rewrite !app_nil_r. done.
  - cbn [foldl].
    pose proof (freshCards_spec k q h) as (F1 & F2 & F3 & F4 & F5).
    destruct (freshCards k q h) as [cs h1]. cbn [fst snd] in *.
    specialize (IH h1 (d0 ++ cs)). cbv zeta in IH. destruct IH as (IH1 & IH2 & IH3).
    cbv zeta. rewrite IH1, IH2, !fmap_app, F1, F2, F4, F5.
    rewrite bind_cons, length_app, length_replicate, seq_app, fmap_app. cbn [fst snd].
    rewrite <- !(assoc_L (++)). split; [done|]. split; [done|].
    intros Hd0. apply IH3. apply Forall_app. done.
Qed.

Lemma templateKeys_length : length templateKeys = 59%nat.
Proof. reflexivity. Qed.

Lemma generateDeck_keys (h : Host) :
  cardKey <$> (generateDeck h).1 ≡ₚ templateKeys.
Proof.
  unfold generateDeck.
  pose proof (buildDeck_spec DECK_TEMPLATE h []) as H. cbv zeta in H.
  destruct (foldl _ _ DECK_TEMPLATE) as [cards h1]. cbn [fst] in H.
  destruct H as (H1 & _ & _). rewrite app_nil_l in H1.
  by rewrite (shuffle_Permutation cards h1), H1.
Qed.

Lemma generateDeck_length (h : Host) : length (generateDeck h).1 = 59%nat.
Proof. by rewrite <- (length_fmap cardKey), generateDeck_keys. Qed.

(** Property X1.  Whatever the random source, [generateDeck] returns 59
    cards: a permutation of the template (44 path cards, 5 rockfall, 4 break,
    6 repair), carrying the next 59 identifiers of [uuid] and rotation 0. *)
Theorem generateDeck_composition (h : Host) :
  let deck := (generateDeck h).1 in
  length deck = 59%nat
  /\ cardKey <$> deck ≡ₚ templateKeys
  /\ instanceId <$> deck ≡ₚ uuids h <$> seq (uuidPos h) 59
  /\ Forall (fun c => card_rotation c = 0) deck
  /\ length (filter (fun k => category (CARD_LIBRARY k) = cat_path) (cardKey <$> deck))
     = 44%nat
  /\ length (filter (fun k => k = rockfall) (cardKey <$> deck)) = 5%nat
  /\ length (filter (fun k => k = break) (cardKey <$> deck)) = 4%nat
  /\ length (filter (fun k => k = repair) (cardKey <$> deck)) = 6%nat.
Proof.
  cbv zeta. unfold generateDeck.
  pose proof (buildDeck_spec DECK_TEMPLATE h []) as H. cbv zeta in H.
  destruct (foldl _ _ DECK_TEMPLATE) as [cards h1]. cbn [fst] in H.
  destruct H as (H1 & H2 & H3). rewrite app_nil_l in H1, H2.
  fold templateKeys in H1, H2. rewrite templateKeys_length in H2.
  pose proof (shuffle_Permutation cards h1) as Hperm.
  assert (Hkeys : cardKey <$> (shuffle cards h1).1 ≡ₚ templateKeys)
    by (by rewrite Hperm, H1).
  split; [by rewrite <- (length_fmap cardKey), Hkeys|].
  split; [done|]. split; [by rewrite Hperm, H2|].
  split; [rewrite Hperm; apply H3; constructor|].
  rewrite !Hkeys. done.
Qed.

(** * The board that [createBoard] builds *)

(** The board depends on the random source through the gold index only. *)
Lemma createBoard_cases (h : Host) :
  exists k, (k < 3)%nat /\ (createBoard h).1 = (createBoard (constantHost k)).1.
Proof.
  exists (random h (randPos h) mod 3)%nat. split; [apply Nat.mod_upper_bound; lia|].
  unfold createBoard, randomBelow, constantHost. cbn [fst snd random randPos length goalRows].
  rewrite Nat.Div0.mod_mod. reflexivity.
Qed.

Lemma createBoard_gold (h : Host) :
  (createBoard h).1 = (createBoard (constantHost (random h (randPos h) mod 3))).1.
Proof.
  unfold createBoard, randomBelow, constantHost. cbn [fst snd random randPos length goalRows].
  rewrite Nat.Div0.mod_mod. reflexivity.
Qed.

(** Property X2.  [createBoard] reads one random number and returns 63 tiles,
    the 7 by 9 grid row by row with ids [row-col]: the start tile ["3-0"] is
    revealed and open to the north, east and south; the goal tiles are
    ["1-8"], ["3-8"] and ["5-8"], hidden and open to the north, south and
    west, the one at index [random mod 3] gold and the other two coal; every
    other tile is empty, hidden, without connectors, card or owner; and no
    winning team is set. *)
Theorem createBoard_layout (h : Host) :
  let b := (createBoard h).1 in
  let goldIndex := (random h (randPos h) mod 3)%nat in
  let goal := fun (id : string) (r : Z) (index : nat) =>
    mkTile id r 8 t_goal (Some (mkConnectors true false true true))
      (Some (if decide (index = goldIndex) then gold else coal)) None false None in
  length (tiles b) = 63%nat
  /\ (fun t => (tid t, row t, col t)) <$> tiles b
     = (r ← seqZ 0 7; c ← seqZ 0 9; [(pretty r +:+ "-" +:+ pretty c, r, c)])
  /\ filter (fun t => tileType t = t_start) (tiles b)
     = [mkTile "3-0" 3 0 t_start (Some (mkConnectors true true true false))
          None None true None]
  /\ filter (fun t => tileType t = t_goal) (tiles b)
     = [goal "1-8" 1 0%nat; goal "3-8" 3 1%nat; goal "5-8" 5 2%nat]
  /\ length (filter (fun t => tileCard t = Some gold) (tiles b)) = 1%nat
  /\ length (filter (fun t => tileCard t = Some coal) (tiles b)) = 2%nat
  /\ Forall (fun t => tileType t = t_start \/ tileType t = t_goal
                      \/ t = mkTile (tid t) (row t) (col t) t_empty
                                None None None false None) (tiles b)
  /\ winningTeam b = None /\ rows b = 7 /\ columns b = 9
  /\ (createBoard h).2
     = mkHost (random h) (S (randPos h)) (uuids h) (uuidPos h) (clock h).
Proof.
  cbv zeta. rewrite (createBoard_gold h).
  assert (Hk : (random h (randPos h) mod 3 < 3)%nat)
    by (apply Nat.mod_upper_bound; lia).
  assert (Hhost : (createBoard h).2
                  = mkHost (random h) (S (randPos h)) (uuids h) (uuidPos h) (clock h))
    by reflexivity.
  revert Hk Hhost. generalize (random h (randPos h) mod 3)%nat. intros k Hk Hhost.
  assert (Hcases : k = 0%nat \/ k = 1%nat \/ k = 2%nat) by lia.
  clear Hk. destruct Hcases as [-> | [-> | ->]].
  all: repeat (split; [vm_compute; reflexivity|]).
  all: split; [apply (bool_decide_unpack _); vm_compute; exact I|].
  all: repeat (split; [vm_compute; reflexivity|]).
  all: exact Hhost.
Qed.

(** * A new room *)

Lemma exploreBoard_fresh (h : Host) :
  exploreBoard (createBoard h).1 = mkExploration 0 {[ tileId 3 0 ]} [].
Proof.
  destruct (createBoard_cases h) as (k & Hk & ->).
  assert (Hcases : k = 0%nat \/ k = 1%nat \/ k = 2%nat) by lia.
  destruct Hcases as [-> | [-> | ->]]; vm_compute; reflexivity.
Qed.

Lemma revealGoals_fresh (h : Host) :
  revealGoals {[ tileId 3 0 ]} (createBoard h).1 = (createBoard h).1.
Proof.
  destruct (createBoard_cases h) as (k & Hk & E).
  assert (Hw : winningTeam (createBoard h).1 = None) by apply createBoard_winningTeam.
  destruct (createBoard h) as [b h1]. cbn [fst] in *. subst b.
  assert (Hcases : k = 0%nat \/ k = 1%nat \/ k = 2%nat) by lia.
  destruct Hcases as [-> | [-> | ->]]; vm_compute; reflexivity.
Qed.

Lemma progressOf_zero seen queue :
  progressOf (mkExploration 0 seen queue) = num 0 1.
Proof. apply Qc_is_canon. reflexivity. Qed.

(** Property X3.  A new room has the board of [createBoard] unchanged by the
    first telemetry pass, a deck of 59 cards recorded in [deckRemaining],
    progress 0, only the start tile revealed, no winning team, no players, an
    empty discard pile, round 1 not ended, no active player and no turns
    taken. *)
Theorem newGameRoom_fresh (id : string) (h : Host) :
  let r := newGameRoom id h in
  board r = (createBoard h).1
  /\ length (deck r) = 59%nat
  /\ deckRemaining (metrics r) = 59
  /\ progress (metrics r) = num 0 1
  /\ Forall (fun t => revealed t = true <-> tileType t = t_start) (tiles (board r))
  /\ winningTeam (board r) = None
  /\ players r = [] /\ discard r = [] /\ roundEnded r = false /\ roundNumber r = 1
  /\ activePlayerId (metrics r) = None /\ turnsTaken (metrics r) = 0.
Proof.
  cbv zeta. unfold newGameRoom.
  pose proof (exploreBoard_fresh h) as Hex.
  pose proof (revealGoals_fresh h) as Hrev.
  pose proof (createBoard_winningTeam h) as Hw.
  assert (Htiles : Forall (fun t => revealed t = true <-> tileType t = t_start)
                     (tiles (createBoard h).1)).
  { destruct (createBoard_cases h) as (k & Hk & ->).
    assert (Hcases : k = 0%nat \/ k = 1%nat \/ k = 2%nat) by lia.
    destruct Hcases as [-> | [-> | ->]];
      apply (bool_decide_unpack _); vm_compute; exact I. }
  destruct (createBoard h) as [b h1]. cbn [fst] in *.
  pose proof (generateDeck_length h1) as Hlen.
  destruct (generateDeck h1) as [d h2]. cbn [fst] in Hlen.
  unfold syncBoardTelemetry. cbv zeta. fields. rewrite Hex. cbn [visited].
  unfold onBoard, onMetrics. fields. rewrite Hrev.
  unfold maybeDeclareSaboteurWin, freshMetrics. fields. rewrite Hw, Hlen.
  change (Z.of_nat 59 =? 0) with false. fields.
  rewrite progressOf_zero. change (Z.of_nat 59) with 59.
  rewrite Hlen. repeat (split; [done|]). done.
Qed.

(** * Turn bookkeeping *)

Lemma turnOnly_refl r : turnOnly r r.
Proof.
  exists (activePlayerId (metrics r)), (turnEndsAt (metrics r)), (turnIndex r),
    (turnTimer r).
  destruct r as [? ? ? ? ? ? ? m ? ? ? ? ? ? ?]. by destruct m.
Qed.

Lemma turnOnly_trans r1 r2 r3 : turnOnly r1 r2 -> turnOnly r2 r3 -> turnOnly r1 r3.
Proof. intros (a & e & i & tm & ->) (a' & e' & i' & tm' & ->). by exists a', e', i', tm'. Qed.

Lemma turnOnly_setTurnTimer_ v r : turnOnly r (setTurnTimer_ v r).
Proof.
  exists (activePlayerId (metrics r)), (turnEndsAt (metrics r)), (turnIndex r), v.
  destruct r as [? ? ? ? ? ? ? m ? ? ? ? ? ? ?]. by destruct m.
Qed.

Lemma turnOnly_setTurnIndex v r : turnOnly r (setTurnIndex v r).
Proof.
  exists (activePlayerId (metrics r)), (turnEndsAt (metrics r)), v, (turnTimer r).
  destruct r as [? ? ? ? ? ? ? m ? ? ? ? ? ? ?]. by destruct m.
Qed.

Lemma turnOnly_setActivePlayerId v r : turnOnly r (onMetrics (setActivePlayerId v) r).
Proof.
  exists v, (turnEndsAt (metrics r)), (turnIndex r), (turnTimer r).
  destruct r as [? ? ? ? ? ? ? m ? ? ? ? ? ? ?]. by destruct m.
Qed.

Lemma turnOnly_setTurnEndsAt v r : turnOnly r (onMetrics (setTurnEndsAt v) r).
Proof.
  exists (activePlayerId (metrics r)), v, (turnIndex r), (turnTimer r).
  destruct r as [? ? ? ? ? ? ? m ? ? ? ? ? ? ?]. by destruct m.
Qed.

Lemma turnOnly_clearTurnTimer r : turnOnly r (clearTurnTimer r).
Proof.
  unfold clearTurnTimer. destruct (turnTimer r);
    [apply turnOnly_setTurnTimer_ | apply turnOnly_refl].
Qed.

Lemma turnOnly_setTurnTimer r : turnOnly r (setTurnTimer r).
Proof.
  unfold setTurnTimer. destruct (negb _); [apply turnOnly_clearTurnTimer|].
  eapply turnOnly_trans; [apply turnOnly_clearTurnTimer|].
  eapply turnOnly_trans; [apply turnOnly_setTurnEndsAt | apply turnOnly_setTurnTimer_].
Qed.

Lemma turnOnly_advanceTurn r : turnOnly r (advanceTurn r).
Proof.
  unfold advanceTurn. destruct (playerId <$> players r).
  - eapply turnOnly_trans; [apply turnOnly_setActivePlayerId|].
    eapply turnOnly_trans; [apply turnOnly_setTurnEndsAt | apply turnOnly_clearTurnTimer].
  - eapply turnOnly_trans; [apply turnOnly_setTurnIndex|].
    eapply turnOnly_trans; [apply turnOnly_setActivePlayerId | apply turnOnly_setTurnTimer].
Qed.

Lemma turnOnly_claimIdleTurn socket r : turnOnly r (claimIdleTurn socket r).
Proof.
  unfold claimIdleTurn. destruct (negb _); [|apply turnOnly_refl].
  eapply turnOnly_trans; [apply turnOnly_setActivePlayerId|].
  eapply turnOnly_trans; [apply turnOnly_setTurnIndex | apply turnOnly_setTurnTimer].
Qed.

(** What the turn bookkeeping leaves alone. *)
Lemma turnOnly_frame r r' :
  turnOnly r r' ->
  board r' = board r /\ players r' = players r /\ deck r' = deck r
  /\ discard r' = discard r /\ roundEnded r' = roundEnded r
  /\ table r' = table r
  /\ deckRemaining (metrics r') = deckRemaining (metrics r)
  /\ progress (metrics r') = progress (metrics r)
  /\ host r' = host r.
Proof. intros (a & e & i & tm & ->). repeat split. Qed.

(** * The table through drawing, settlement and telemetry *)

Lemma table_maybeDeclareSaboteurWin r : table (maybeDeclareSaboteurWin r) = table r.
Proof. unfold maybeDeclareSaboteurWin. repeat case_match; reflexivity. Qed.

Lemma table_takeCards id count r : table (takeCards id count r) = table r.
Proof. unfold takeCards. cbv zeta. by destruct (drawLoop _ _ _). Qed.

Lemma table_refreshDeckRemaining r : table (refreshDeckRemaining r) = table r.
Proof. reflexivity. Qed.

Lemma table_drawn id count r : table (drawn id count r) = table r.
Proof.
  unfold drawn.
  by rewrite table_maybeDeclareSaboteurWin, table_refreshDeckRemaining, table_takeCards.
Qed.

Lemma table_maybeFinishRound placer r r' :
  maybeFinishRound placer r = Some r' -> table r' = table r.
Proof.
  intros H. apply maybeFinishRound_shape in H
    as [-> | (_ & _ & ps & gold & h & aw & wi & -> & _)]; reflexivity.
Qed.

Lemma table_drawCards id count r r' :
  drawCards id count r = Some r' -> table r' = table r.
Proof.
  unfold drawCards. intros H. apply table_maybeFinishRound in H.
  by rewrite H, table_drawn.
Qed.

Lemma table_advanceTurn r : table (advanceTurn r) = table r.
Proof. apply (turnOnly_frame _ _ (turnOnly_advanceTurn r)). Qed.

Lemma table_syncBoardTelemetry r :
  table (syncBoardTelemetry r)
  = (revealIfReached (visited (exploreBoard (board r))) <$> tiles (board r),
     discard r, turnsTaken (metrics r), collapsedTiles (metrics r)).
Proof.
  unfold syncBoardTelemetry. cbv zeta.
  by rewrite table_refreshDeckRemaining, table_maybeDeclareSaboteurWin.
Qed.

(** * Drawing moves cards from the end of the deck to the hand *)

Lemma drawnCards_snoc count d x :
  drawnCards (S count) (d ++ [x]) = x :: drawnCards count d.
Proof.
  unfold drawnCards. rewrite length_app. cbn [length].
  replace (length d + 1 - S count)%nat with (length d - count)%nat by lia.
  rewrite drop_app_le by lia. by rewrite reverse_app.
Qed.

Lemma drawLoop_spec count d h :
  drawLoop count d h = (take (length d - count) d, h ++ drawnCards count d).
Proof.
  revert d h. induction count as [|n IH]; intros d h.
  - cbn [drawLoop]. unfold drawnCards. rewrite Nat.sub_0_r, firstn_all, drop_all.
    by rewrite app_nil_r.
  - cbn [drawLoop]. unfold pop. destruct (last d) as [x|] eqn:E.
    + apply last_Some in E as [d' ->].
      rewrite IH, drawnCards_snoc, length_app. cbn [length].
      replace (length d' + 1 - 1)%nat with (length d') by lia.
      rewrite take_app_length.
      replace (length d' + 1 - S n)%nat with (length d' - n)%nat by lia.
      rewrite take_app_le by lia. by rewrite <- (assoc_L (++)).
    + apply last_None in E as ->. unfold drawnCards. cbn. by rewrite app_nil_r.
Qed.

Lemma drawnCards_conserved count d :
  take (length d - count) d ++ reverse (drawnCards count d) = d
  /\ length (drawnCards count d) = Nat.min count (length d).
Proof.
  unfold drawnCards. rewrite reverse_involutive, take_drop. split; [done|].
  rewrite length_reverse, length_drop. lia.
Qed.

Lemma assignFirst_ext {A} (pr : A -> bool) (f g : A -> A) (l : list A) :
  (forall x, List.find pr l = Some x -> f x = g x) ->
  assignFirst pr f l = assignFirst pr g l.
Proof.
  induction l as [|x l IH]; intros H; [done|]. cbn [assignFirst List.find] in *.
  destruct (pr x); [by rewrite H | by rewrite IH].
Qed.

Lemma takeCards_spec id count r :
  takeCards id count r
  = setDeck (take (length (deck r) - count) (deck r))
      (onPlayer id (fun p => setHand (hand p ++ drawnCards count (deck r)) p) r).
Proof.
  unfold takeCards. cbv zeta. rewrite drawLoop_spec. unfold onPlayer. do 2 f_equal.
  apply assignFirst_ext. intros p Hp.
  unfold getPlayer. by rewrite Hp.
Qed.

Lemma holding_maybeFinishRound placer r r' :
  maybeFinishRound placer r = Some r' -> holding <$> players r' = holding <$> players r.
Proof.
  intros H. apply maybeFinishRound_shape in H
    as [-> | (_ & _ & ps & gold & h & aw & wi & -> & Hps)]; [done|].
  by apply scoreOnly_fmap.
Qed.

Lemma players_maybeDeclareSaboteurWin r :
  players (maybeDeclareSaboteurWin r) = players r
  /\ deck (maybeDeclareSaboteurWin r) = deck r
  /\ metrics (maybeDeclareSaboteurWin r) = metrics r.
Proof. unfold maybeDeclareSaboteurWin. repeat case_match; done. Qed.

Lemma maybeFinishRound_deck placer r r' :
  maybeFinishRound placer r = Some r' ->
  deck r' = deck r /\ deckRemaining (metrics r') = deckRemaining (metrics r).
Proof.
  intros H. apply maybeFinishRound_shape in H
    as [-> | (_ & _ & ps & gold & h & aw & wi & -> & Hps)]; done.
Qed.

Lemma drawCards_spec (id : string) (count : nat) (r r' : GameRoom) :
  drawCards id count r = Some r' ->
  deck r' = take (length (deck r) - count) (deck r)
  /\ deck r' ++ reverse (drawnCards count (deck r)) = deck r
  /\ length (drawnCards count (deck r)) = Nat.min count (length (deck r))
  /\ deckRemaining (metrics r') = Z.of_nat (length (deck r'))
  /\ holding <$> players r'
     = holding <$> assignFirst (hasId id)
                     (fun p => setHand (hand p ++ drawnCards count (deck r)) p)
                     (players r)
  /\ table r' = table r.
Proof.
  intros H. pose proof (table_drawCards _ _ _ _ H) as Htable.
  unfold drawCards in H.
  pose proof (holding_maybeFinishRound _ _ _ H) as Hh.
  apply maybeFinishRound_deck in H as [Hd Hrem].
  unfold drawn in Hd, Hrem, Hh.
  destruct (players_maybeDeclareSaboteurWin
              (refreshDeckRemaining (takeCards id count r))) as (Hp1 & Hd1 & Hm1).
  rewrite Hd1 in Hd. rewrite Hm1 in Hrem. rewrite Hp1 in Hh.
  rewrite takeCards_spec in Hd, Hrem, Hh.
  cbn [refreshDeckRemaining deck setDeck onMetrics setMetrics metrics deckRemaining
       setDeckRemaining onPlayer setPlayers players] in Hd, Hrem, Hh.
  destruct (drawnCards_conserved count (deck r)) as [Hc Hl].
  rewrite Hd. repeat split; done.
Qed.

(** * Whose turn is next *)

Lemma setTurnTimer_active r :
  activePlayerId (metrics (setTurnTimer r)) = activePlayerId (metrics r).
Proof.
  unfold setTurnTimer, clearTurnTimer.
  destruct (turnTimer r); destruct (negb _); reflexivity.
Qed.

Lemma setTurnTimer_deadline r :
  truthy (activePlayerId (metrics r)) = true ->
  turnEndsAt (metrics (setTurnTimer r)) = Some (clock (host r) + 60000)
  /\ turnTimer (setTurnTimer r) = true.
Proof.
  unfold setTurnTimer, clearTurnTimer. intros H.
  destruct (turnTimer r); cbn [metrics setTurnTimer_]; rewrite H; done.
Qed.

Lemma indexOf_found (ids : list string) (i : nat) (cur : string) :
  NoDup ids -> ids !! i = Some cur -> indexOf (Some cur) ids = Z.of_nat i.
Proof.
  intros Hnd Hi. unfold indexOf.
  destruct (list_find (fun x => x = cur) ids) as [[j y]|] eqn:E.
  - apply list_find_Some in E as (Hj & -> & _).
    by rewrite (NoDup_lookup _ _ _ _ Hnd Hj Hi).
  - apply list_find_None in E. rewrite Forall_forall in E.
    destruct (E cur); [|done]. by eapply list_elem_of_lookup_2.
Qed.

Lemma indexOf_missing (ids : list string) (a : option string) :
  (forall cur, a = Some cur -> cur ∉ ids) -> indexOf a ids = -1.
Proof.
  intros H. unfold indexOf. destruct a as [cur|]; [|done].
  destruct (list_find (fun x => x = cur) ids) as [[j y]|] eqn:E; [|done].
  apply list_find_Some in E as (Hj & -> & _).
  destruct (H cur eq_refl). by eapply list_elem_of_lookup_2.
Qed.

(** The active player after [advanceTurn], by the index the search for the
    current one gives. *)
Lemma advanceTurn_active r :
  playerId <$> players r <> [] ->
  let ids := playerId <$> players r in
  let found := indexOf (activePlayerId (metrics r)) ids in
  activePlayerId (metrics (advanceTurn r))
  = ids !! Z.to_nat (Z.rem ((if 0 <=? found then found else 0) + 1)
                       (Z.of_nat (length ids))).
Proof.
  intros Hne. cbv zeta. unfold advanceTurn.
  destruct (playerId <$> players r) as [|first rest] eqn:E; [done|].
  by rewrite setTurnTimer_active.
Qed.

Lemma successor_index (i n : nat) :
  (0 < n)%nat ->
  Z.to_nat (Z.rem (Z.of_nat i + 1) (Z.of_nat n)) = (S i mod n)%nat.
Proof.
  intros Hn. rewrite Z.rem_mod_nonneg by lia.
  replace (Z.of_nat i + 1) with (Z.of_nat (S i)) by lia.
  rewrite <- Nat2Z.inj_mod. apply Nat2Z.id.
Qed.

(** Property X5.  [advanceTurn] only touches the turn bookkeeping.  With no
    players it clears the active player, the deadline and the timer.
    Otherwise, with distinct ids, the turn passes from the active player at
    index [i] to the one at index [(i + 1) mod n]; when the active id is none
    of the players' the turn goes to index [1 mod n]; and the new active
    player is always one of the players, with the deadline set to 60000 ms
    after the clock and the timer armed unless its id is the empty string. *)
Theorem advanceTurn_next (r : GameRoom) :
  let ids := playerId <$> players r in
  (board (advanceTurn r) = board r /\ players (advanceTurn r) = players r
   /\ deck (advanceTurn r) = deck r /\ discard (advanceTurn r) = discard r)
  /\ (ids = [] ->
      activePlayerId (metrics (advanceTurn r)) = None
      /\ turnEndsAt (metrics (advanceTurn r)) = None
      /\ turnTimer (advanceTurn r) = false)
  /\ (forall i cur,
        NoDup ids -> ids !! i = Some cur ->
        activePlayerId (metrics r) = Some cur ->
        activePlayerId (metrics (advanceTurn r)) = ids !! (S i mod length ids)%nat)
  /\ (ids <> [] ->
      (forall cur, activePlayerId (metrics r) = Some cur -> cur ∉ ids) ->
      activePlayerId (metrics (advanceTurn r)) = ids !! (1 mod length ids)%nat)
  /\ (ids <> [] ->
      exists next, activePlayerId (metrics (advanceTurn r)) = Some next /\ next ∈ ids
        /\ (next <> EmptyString ->
            turnEndsAt (metrics (advanceTurn r)) = Some (clock (host r) + 60000)
            /\ turnTimer (advanceTurn r) = true)).
Proof.
  cbv zeta.
  destruct (turnOnly_frame _ _ (turnOnly_advanceTurn r))
    as (Hb & Hp & Hd & Hdis & _ & _ & _ & _ & Hhost).
  split; [done|]. split; [|split; [|split]].
  - intros Hids. unfold advanceTurn. rewrite Hids. unfold clearTurnTimer.
    cbn [turnTimer onMetrics setMetrics]. destruct (turnTimer r) eqn:Et.
    all: repeat split; try reflexivity; exact Et.
  - intros i cur Hnd Hi Hact.
    assert (Hne : playerId <$> players r <> []) by (intros E; by rewrite E in Hi).
    rewrite (advanceTurn_active r Hne). cbv zeta.
    rewrite Hact, (indexOf_found _ _ _ Hnd Hi).
    replace (0 <=? Z.of_nat i) with true by (symmetry; apply Z.leb_le; lia).
    rewrite successor_index; [done|].
    apply lookup_lt_Some in Hi. lia.
  - intros Hne Hmiss. rewrite (advanceTurn_active r Hne). cbv zeta.
    rewrite (indexOf_missing _ _ Hmiss). cbn [Z.leb Z.compare].
    rewrite (successor_index 0); [done|].
    destruct (playerId <$> players r); [done | cbn; lia].
  - intros Hne.
    assert (Hlen : (0 < length (playerId <$> players r))%nat)
      by (destruct (playerId <$> players r); [done | cbn; lia]).
    pose proof (advanceTurn_active r Hne) as Hact. cbv zeta in Hact.
    set (found := indexOf _ _) in Hact.
    set (k := Z.to_nat _) in Hact.
    assert (Hk : (k < length (playerId <$> players r))%nat).
    { unfold k. pose proof (Z.rem_bound_pos
        ((if 0 <=? found then found else 0) + 1)
        (Z.of_nat (length (playerId <$> players r)))) as Hb'.
      destruct (0 <=? found) eqn:Ef; [apply Z.leb_le in Ef|]; lia. }
    destruct (lookup_lt_is_Some_2 _ _ Hk) as [next Hnext].
    exists next. rewrite Hact, Hnext. split; [done|].
    split; [by eapply list_elem_of_lookup_2|].
    intros Htruthy. unfold advanceTurn.
    destruct (playerId <$> players r) as [|first rest] eqn:E; [done|].
    match goal with |- context [setTurnTimer ?x] =>
      destruct (setTurnTimer_deadline x) as [H1 H2] end.
    + cbn [metrics onMetrics setMetrics setTurnIndex activePlayerId setActivePlayerId].
      fold found. fold k. rewrite Hnext. cbn [truthy].
      destruct (String.eqb_spec next EmptyString); done.
    + by rewrite H1, H2.
Qed.

(** * Leaving the room *)

Lemma turnOnly_suspicion r r' :
  turnOnly r r' ->
  suspicionByPlayer (metrics r') = suspicionByPlayer (metrics r)
  /\ goldByPlayer (metrics r') = goldByPlayer (metrics r)
  /\ efficiencyByPlayer (metrics r') = efficiencyByPlayer (metrics r)
  /\ turnsTaken (metrics r') = turnsTaken (metrics r).
Proof. intros (a & e & i & tm & ->). repeat split. Qed.

Lemma deletePlayer_ids id ps :
  playerId <$> deletePlayer id ps = List.filter (fun x => negb (String.eqb x id)) (playerId <$> ps).
Proof.
  induction ps as [|p ps IH]; [done|]. cbn. unfold hasId at 1.
  destruct (String.eqb (playerId p) id); cbn; by rewrite <- IH.
Qed.

Lemma deletePlayer_gone id ps : id ∉ playerId <$> deletePlayer id ps.
Proof.
  rewrite deletePlayer_ids. intros H. apply list_elem_of_In, filter_In in H as [_ H].
  by rewrite String.eqb_refl in H.
Qed.

Lemma advanceTurn_among r next :
  activePlayerId (metrics (advanceTurn r)) = Some next -> next ∈ playerId <$> players r.
Proof.
  destruct (playerId <$> players r) as [|first rest] eqn:E.
  - unfold advanceTurn. rewrite E. unfold clearTurnTimer.
    destruct (turnTimer _); discriminate.
  - assert (Hne : playerId <$> players r <> []) by (by rewrite E).
    rewrite (advanceTurn_active r Hne). cbv zeta. rewrite <- E.
    intros H. by eapply list_elem_of_lookup_2.
Qed.

(** Property X6.  [removePlayer] deletes every player with the given id and the
    id's suspicion entry and leaves the board, the deck and the discard pile
    alone.  The removed id is never the active player afterwards: when someone
    else was active the turn bookkeeping is untouched, and when the leaver was
    active the turn goes to index [1 mod n] of the remaining players (to
    nobody when none remains). *)
Theorem removePlayer_effects (id : string) (r : GameRoom) :
  let r' := removePlayer id r in
  let remaining := playerId <$> players r' in
  players r' = deletePlayer id (players r)
  /\ (id ∉ remaining)
  /\ suspicionByPlayer (metrics r') = delete id (suspicionByPlayer (metrics r))
  /\ (board r' = board r /\ deck r' = deck r /\ discard r' = discard r)
  /\ activePlayerId (metrics r') <> Some id
  /\ (activePlayerId (metrics r) <> Some id ->
      activePlayerId (metrics r') = activePlayerId (metrics r)
      /\ turnEndsAt (metrics r') = turnEndsAt (metrics r)
      /\ turnTimer r' = turnTimer r)
  /\ (activePlayerId (metrics r) = Some id ->
      activePlayerId (metrics r') = remaining !! (1 mod length remaining)%nat).
Proof.
  cbv zeta. unfold removePlayer. cbv zeta.
  set (r2 := onMetrics _ (setPlayers _ r)).
  assert (Hp2 : players r2 = deletePlayer id (players r)) by reflexivity.
  assert (Ha2 : activePlayerId (metrics r2) = activePlayerId (metrics r)) by reflexivity.
  assert (Hs2 : suspicionByPlayer (metrics r2) = delete id (suspicionByPlayer (metrics r)))
    by reflexivity.
  assert (Hf2 : board r2 = board r /\ deck r2 = deck r /\ discard r2 = discard r)
    by (repeat split).
  assert (He2 : turnEndsAt (metrics r2) = turnEndsAt (metrics r)
                /\ turnTimer r2 = turnTimer r) by (split; reflexivity).
  clearbody r2. rewrite Ha2.
  destruct (bool_decide_reflect (activePlayerId (metrics r) = Some id)) as [Hact|Hact].
  - destruct (turnOnly_frame _ _ (turnOnly_advanceTurn r2))
      as (Hb & Hp & Hd & Hdis & _).
    destruct (turnOnly_suspicion _ _ (turnOnly_advanceTurn r2)) as (Hs & _).
    destruct Hf2 as (Hb2 & Hd2 & Hdis2).
    rewrite Hp, Hb, Hd, Hdis, Hs, Hp2, Hs2.
    split; [done|]. split; [apply deletePlayer_gone|]. split; [done|].
    split; [done|]. split; [|split; [done|]].
    + intros Hnext. apply advanceTurn_among in Hnext.
      rewrite Hp2 in Hnext. by apply deletePlayer_gone in Hnext.
    + intros _. destruct (playerId <$> deletePlayer id (players r)) as [|a l] eqn:E.
      * unfold advanceTurn. rewrite Hp2, E. unfold clearTurnTimer.
        by destruct (turnTimer _).
      * assert (Hne : playerId <$> players r2 <> []) by (by rewrite Hp2, E).
        rewrite (advanceTurn_active r2 Hne). cbv zeta.
        rewrite indexOf_missing.
        -- cbn [Z.leb Z.compare]. rewrite Hp2, E.
           rewrite (successor_index 0); [done | cbn; lia].
        -- intros cur Hcur. rewrite Ha2, Hact in Hcur. injection Hcur as <-.
           rewrite Hp2. apply deletePlayer_gone.
  - destruct Hf2 as (Hb2 & Hd2 & Hdis2). destruct He2 as [He2 Ht2].
    rewrite Hp2. split; [done|]. split; [apply deletePlayer_gone|].
    split; [done|]. split; [done|]. split; [by rewrite Ha2|]. split; [by rewrite Ha2|done].
Qed.

(** * Credits *)

Lemma paid_id f p : playerId (paid f p) = playerId p.
Proof. reflexivity. Qed.

Lemma paid_ids f (ps : list Player) : playerId <$> (paid f <$> ps) = playerId <$> ps.
Proof. rewrite <- list_fmap_compose. by apply list_fmap_ext. Qed.

Lemma paid_paid f g (ps : list Player) :
  paid f <$> (paid g <$> ps) = paid (fun x => g x + f x) <$> ps.
Proof.
  rewrite <- list_fmap_compose. apply list_fmap_ext. intros i p _.
  unfold paid, compose, setScore. destruct p. cbn. f_equal. lia.
Qed.

Lemma paid_zero f (ps : list Player) :
  (forall p, p ∈ ps -> f (playerId p) = 0) -> paid f <$> ps = ps.
Proof.
  intros H. induction ps as [|p ps IH]; [done|]. rewrite fmap_cons. f_equal.
  - unfold paid. rewrite H by left. rewrite Z.add_0_r. apply setScore_same.
  - apply IH. intros q Hq. apply H. by right.
Qed.

(** With distinct ids, a credit reaches exactly the player of that id. *)
Lemma assignFirst_paid id v ps :
  NoDup (playerId <$> ps) ->
  assignFirst (hasId id) (fun p => setScore (score p + v) p) ps
  = paid (fun x => if bool_decide (id = x) then v else 0) <$> ps.
Proof.
  induction ps as [|p ps IH]; intros Hnd; [done|].
  rewrite fmap_cons in Hnd. apply NoDup_cons in Hnd as [Hp Hnd].
  cbn [assignFirst]. rewrite fmap_cons. destruct (hasId id p) eqn:E.
  - apply hasId_true in E. f_equal.
    + unfold paid. by rewrite bool_decide_true.
    + symmetry. apply paid_zero. intros q Hq. rewrite bool_decide_false; [done|].
      intros Hid. apply Hp. rewrite E, Hid. by apply list_elem_of_fmap_2.
  - f_equal; [|by apply IH].
    unfold paid. rewrite bool_decide_false.
    + rewrite Z.add_0_r. symmetry. apply setScore_same.
    + intros Hid. apply not_true_iff_false in E. apply E. by apply hasId_true.
Qed.

Lemma credited_cons c cs x :
  credited (c :: cs) x = (if bool_decide (c.1 = x) then c.2 else 0) + credited cs x.
Proof. reflexivity. Qed.

Lemma creditAll_players cs a0 :
  NoDup (playerId <$> pursePlayers a0) ->
  pursePlayers (creditAll cs a0) = paid (credited cs) <$> pursePlayers a0.
Proof.
  revert a0. induction cs as [|c cs IH]; intros a0 Hnd.
  - cbn. symmetry. by apply paid_zero.
  - change (creditAll (c :: cs) a0) with (creditAll cs (credit c.1 c.2 a0)).
    assert (Hstep : pursePlayers (credit c.1 c.2 a0)
                    = paid (fun x => if bool_decide (c.1 = x) then c.2 else 0)
                        <$> pursePlayers a0) by (by apply assignFirst_paid).
    rewrite IH by (by rewrite Hstep, paid_ids).
    rewrite Hstep, paid_paid. done.
Qed.

Lemma creditAll_gold cs a0 x :
  purseGold (creditAll cs a0) !! x
  = if bool_decide (x ∈ cs.*1)
    then Some (default 0 (purseGold a0 !! x) + credited cs x)
    else purseGold a0 !! x.
Proof.
  revert a0. induction cs as [|c cs IH]; intros a0.
  - cbn. rewrite bool_decide_false; [done | apply not_elem_of_nil].
  - change (creditAll (c :: cs) a0) with (creditAll cs (credit c.1 c.2 a0)).
    rewrite IH, credited_cons, fmap_cons. destruct c as [y v].
    cbn [purseGold credit fst snd].
    destruct (decide (y = x)) as [->|Hne].
    + rewrite lookup_insert_eq, (bool_decide_true (x = x)) by done.
      rewrite (bool_decide_true (_ ∈ _ :: _)) by left. cbn [default from_option id].
      case_bool_decide as H; [f_equal; lia|]. f_equal.
      assert (credited cs x = 0) as ->; [|lia].
      clear -H. induction cs as [|d cs IH]; [done|].
      rewrite credited_cons. rewrite fmap_cons in H.
      rewrite bool_decide_false by (intros E; apply H; rewrite E; left).
      rewrite IH; [done|]. intros E. apply H. by right.
    + rewrite lookup_insert_ne, (bool_decide_false (y = x)) by done.
      rewrite Z.add_0_l.
      destruct (bool_decide_reflect (x ∈ cs.*1)) as [Hin|Hin].
      * rewrite bool_decide_true by (by right). done.
      * rewrite bool_decide_false; [done|].
        intros [E|E]%elem_of_cons; [by apply Hne | by apply Hin].
Qed.

Lemma creditAll_awards cs a0 x :
  purseAwards (creditAll cs a0) !! x
  = if bool_decide (x ∈ cs.*1)
    then Some (default 0 (purseAwards a0 !! x) + credited cs x)
    else purseAwards a0 !! x.
Proof.
  revert a0. induction cs as [|c cs IH]; intros a0.
  - cbn. rewrite bool_decide_false; [done | apply not_elem_of_nil].
  - change (creditAll (c :: cs) a0) with (creditAll cs (credit c.1 c.2 a0)).
    rewrite IH, credited_cons, fmap_cons. destruct c as [y v].
    cbn [purseAwards credit fst snd].
    destruct (decide (y = x)) as [->|Hne].
    + rewrite lookup_insert_eq, (bool_decide_true (x = x)) by done.
      rewrite (bool_decide_true (_ ∈ _ :: _)) by left. cbn [default from_option id].
      case_bool_decide as H; [f_equal; lia|]. f_equal.
      assert (credited cs x = 0) as ->; [|lia].
      clear -H. induction cs as [|d cs IH]; [done|].
      rewrite credited_cons. rewrite fmap_cons in H.
      rewrite bool_decide_false by (intros E; apply H; rewrite E; left).
      rewrite IH; [done|]. intros E. apply H. by right.
    + rewrite lookup_insert_ne, (bool_decide_false (y = x)) by done.
      rewrite Z.add_0_l.
      destruct (bool_decide_reflect (x ∈ cs.*1)) as [Hin|Hin].
      * rewrite bool_decide_true by (by right). done.
      * rewrite bool_decide_false; [done|].
        intros [E|E]%elem_of_cons; [by apply Hne | by apply Hin].
Qed.

Lemma sumZ_cons x l : sumZ (x :: l) = x + sumZ l.
Proof. reflexivity. Qed.

Lemma sumZ_app l k : sumZ (l ++ k) = sumZ l + sumZ k.
Proof.
  induction l as [|x l IH]; [done|].
  rewrite <- app_comm_cons, !sumZ_cons, IH. lia.
Qed.

Lemma sumZ_nonneg l : Forall (fun v => 0 <= v) l -> 0 <= sumZ l.
Proof. induction 1; [done|]. rewrite sumZ_cons. lia. Qed.

Lemma sumZ_lookup_le l j v :
  Forall (fun v => 0 <= v) l -> l !! j = Some v -> v <= sumZ l.
Proof.
  intros Hl. revert j. induction Hl as [|x l Hx Hl IH]; intros j Hj; [done|].
  rewrite sumZ_cons. destruct j as [|j]; cbn in Hj.
  - injection Hj as ->. pose proof (sumZ_nonneg l Hl). lia.
  - specialize (IH j Hj). lia.
Qed.

Lemma credit_total id v acc :
  id ∈ playerId <$> pursePlayers acc ->
  sumZ (score <$> pursePlayers (credit id v acc))
  = sumZ (score <$> pursePlayers acc) + v.
Proof.
  cbn [credit pursePlayers]. generalize (pursePlayers acc) as ps.
  induction ps as [|p ps IH]; intros Hin; [by apply elem_of_nil in Hin|].
  cbn [assignFirst]. destruct (hasId id p) eqn:E.
  - rewrite !fmap_cons, !sumZ_cons. cbn. lia.
  - rewrite !fmap_cons, !sumZ_cons. rewrite IH; [lia|].
    rewrite fmap_cons in Hin. apply elem_of_cons in Hin as [->|Hin]; [|done].
    apply not_true_iff_false in E. destruct E. by apply hasId_true.
Qed.

Lemma credit_ids id v acc :
  playerId <$> pursePlayers (credit id v acc) = playerId <$> pursePlayers acc.
Proof. cbn [credit pursePlayers]. by apply assignFirst_fmap. Qed.

Lemma creditAll_total cs a0 :
  Forall (fun c => c.1 ∈ playerId <$> pursePlayers a0) cs ->
  sumZ (score <$> pursePlayers (creditAll cs a0))
  = sumZ (score <$> pursePlayers a0) + sumZ cs.*2.
Proof.
  revert a0. induction cs as [|c cs IH]; intros a0 H; [cbn; lia|].
  change (creditAll (c :: cs) a0) with (creditAll cs (credit c.1 c.2 a0)).
  apply Forall_cons in H as [Hc Hcs].
  rewrite IH by (by rewrite credit_ids). rewrite credit_total by done.
  rewrite fmap_cons, sumZ_cons. lia.
Qed.

(** * The two payouts as lists of credits *)

Lemma award_credits award sabos a0 :
  foldl (fun acc s => credit s award acc) a0 sabos
  = creditAll ((fun s => (s, award)) <$> sabos) a0.
Proof. revert a0. induction sabos as [|s l IH]; intros a0; [done|]. cbn. apply IH. Qed.

Lemma credited_flat award (l : list string) x :
  NoDup l ->
  credited ((fun s => (s, award)) <$> l) x = if bool_decide (x ∈ l) then award else 0.
Proof.
  induction 1 as [|s l Hs Hnd IH].
  - cbn. rewrite bool_decide_false; [done | apply not_elem_of_nil].
  - rewrite fmap_cons, credited_cons, IH. cbn [fst snd].
    destruct (decide (s = x)) as [->|Hne].
    + rewrite (bool_decide_true (x = x)), (bool_decide_true (x ∈ x :: l)) by (done || left).
      rewrite (bool_decide_false (x ∈ l)) by done. lia.
    + rewrite (bool_decide_false (s = x)) by done. rewrite Z.add_0_l.
      rewrite (bool_decide_ext (x ∈ s :: l) (x ∈ l)); [done|].
      rewrite elem_of_cons. split; [intros [E|E]; [by destruct Hne|done] | by right].
Qed.

Lemma order_lookup (order : list string) (k : nat) :
  order <> [] -> is_Some (order !! (k mod length order)%nat).
Proof.
  intros Hne. apply lookup_lt_is_Some_2. apply Nat.mod_upper_bound.
  destruct order; [done | cbn; lia].
Qed.

Lemma deal_schedule order cards a0 :
  order <> [] ->
  foldl (dealNugget order) (Some a0) (imap (fun idx value => (idx, value)) cards)
  = Some (creditAll (schedule order cards) a0).
Proof.
  intros Hne. induction cards as [|v cards IH] using rev_ind; [done|].
  unfold schedule, creditAll in *. rewrite !imap_app, !foldl_app, IH.
  cbn [imap foldl compose]. unfold dealNugget at 1. cbn [mbind option_bind fst snd].
  destruct order as [|o order']; [done|].
  destruct (order_lookup (o :: order') (length cards + 0) Hne) as [y Hy].
  by rewrite Hy.
Qed.

Lemma deal_nobody cards a0 :
  cards <> [] ->
  foldl (dealNugget []) (Some a0) (imap (fun idx value => (idx, value)) cards) = None.
Proof.
  destruct cards as [|v cards]; [done|]. intros _. cbn [imap foldl].
  unfold dealNugget at 2. cbn [mbind option_bind]. apply dealNugget_thrown.
Qed.

Lemma credited_schedule order cards x :
  order <> [] -> credited (schedule order cards) x = dealt order cards x.
Proof.
  intros Hne. unfold credited, schedule, dealt. rewrite fmap_imap. f_equal.
  apply imap_ext. intros i v _. cbn [fst snd].
  destruct (order_lookup order i Hne) as [y ->]. cbn.
  apply (f_equal (fun b : bool => if b then v else 0)).
  apply bool_decide_ext. naive_solver.
Qed.

Lemma schedule_values order cards : (schedule order cards).*2 = cards.
Proof.
  unfold schedule. rewrite fmap_imap.
  induction cards as [|v cards IH] using rev_ind; [done|].
  rewrite imap_app. cbn. by rewrite IH.
Qed.

Lemma schedule_ids order cards x :
  order <> [] -> x ∈ (schedule order cards).*1 -> x ∈ order.
Proof.
  intros Hne. unfold schedule. rewrite fmap_imap.
  intros (i & Hi)%list_elem_of_lookup_1. rewrite list_lookup_imap in Hi.
  destruct (cards !! i); [|done]. cbn in Hi. injection Hi as <-.
  destruct (order_lookup order i Hne) as [y Hy]. rewrite Hy. cbn.
  by eapply list_elem_of_lookup_2.
Qed.

Lemma schedule_reaches order cards x :
  (length order <= length cards)%nat -> x ∈ order -> x ∈ (schedule order cards).*1.
Proof.
  intros Hlen (j & Hj)%list_elem_of_lookup_1.
  pose proof (lookup_lt_Some _ _ _ Hj) as Hjm.
  destruct (lookup_lt_is_Some_2 cards j) as [v Hv]; [lia|].
  unfold schedule. rewrite fmap_imap. apply (list_elem_of_lookup_2 _ j).
  rewrite list_lookup_imap, Hv. cbn. by rewrite Nat.mod_small, Hj.
Qed.

Lemma dealt_at_least order cards x :
  Forall (fun v => 1 <= v) cards ->
  (length order <= length cards)%nat -> x ∈ order -> 1 <= dealt order cards x.
Proof.
  intros Hc Hlen (j & Hj)%list_elem_of_lookup_1.
  pose proof (lookup_lt_Some _ _ _ Hj) as Hjm.
  destruct (lookup_lt_is_Some_2 cards j) as [v Hv]; [lia|].
  assert (Hv1 : 1 <= v) by (rewrite Forall_lookup in Hc; by apply (Hc j)).
  etransitivity; [exact Hv1|]. unfold dealt. apply (sumZ_lookup_le _ j).
  - apply Forall_lookup. intros i y Hi. rewrite list_lookup_imap in Hi.
    destruct (cards !! i) as [w|] eqn:Hw; [|done]. cbn in Hi. injection Hi as <-.
    rewrite Forall_lookup in Hc. specialize (Hc i w Hw). case_bool_decide; lia.
  - rewrite list_lookup_imap, Hv. cbn. rewrite Nat.mod_small by done.
    by rewrite bool_decide_true.
Qed.

Lemma dealt_outside order cards x : x ∉ order -> dealt order cards x = 0.
Proof.
  intros Hx. unfold dealt.
  assert (H : imap (fun idx v =>
                if bool_decide (order !! (idx mod length order)%nat = Some x)
                then v else 0) cards = imap (fun _ _ => 0) cards).
  { apply imap_ext. intros i v _. cbn. rewrite bool_decide_false; [done|].
    intros E. apply Hx. by eapply list_elem_of_lookup_2. }
  rewrite H. clear. induction cards as [|v cards IH] using rev_ind; [done|].
  rewrite imap_app, sumZ_app, IH. done.
Qed.

(** * Settlement *)

Lemma nuggetCards_spec n h :
  length (nuggetCards n h).1 = n
  /\ Forall (fun v => 1 <= v <= 3) (nuggetCards n h).1
  /\ (nuggetCards n h).2
     = mkHost (random h) (randPos h + n) (uuids h) (uuidPos h) (clock h).
Proof.
  revert h. induction n as [|n IH]; intros h.
  - cbn. split; [done|]. split; [constructor|]. destruct h. cbn. f_equal. lia.
  - cbn [nuggetCards]. unfold randomBelow.
    specialize (IH (mkHost (random h) (S (randPos h)) (uuids h) (uuidPos h) (clock h))).
    destruct (nuggetCards n _) as [rest h2]. cbn [fst snd] in *.
    destruct IH as (Hl & Hf & ->). split; [cbn; lia|]. split.
    + constructor; [|done]. pose proof (Nat.mod_upper_bound (random h (randPos h)) 3). lia.
    + cbn. f_equal. lia.
Qed.

Lemma dealingOrder_perm placer miners : dealingOrder placer miners ≡ₚ miners.
Proof.
  unfold dealingOrder. destruct placer as [pid|]; [|done].
  destruct (truthy _); [|done].
  destruct (list_find _ _) as [[i y]|]; [|done].
  rewrite Permutation_app_comm. by rewrite take_drop.
Qed.

Lemma dealingOrder_head pid miners :
  truthy (Some pid) = true -> pid ∈ miners ->
  head (dealingOrder (Some pid) miners) = Some pid.
Proof.
  intros Ht Hin. unfold dealingOrder. rewrite Ht.
  destruct (list_find (fun m => m = pid) miners) as [[i y]|] eqn:E.
  - apply list_find_Some in E as (Hi & -> & _).
    rewrite <- (take_drop_middle _ _ _ Hi) at 1.
    rewrite drop_app_length'; [done|].
    rewrite length_take. apply lookup_lt_Some in Hi. lia.
  - apply list_find_None in E. rewrite Forall_forall in E. by destruct (E pid).
Qed.

Lemma no_miner_iff (ps : list Player) :
  idsWithRole miner ps = [] <-> Forall (fun p => role p = saboteur) ps.
Proof.
  unfold idsWithRole. induction ps as [|p ps IH]; [by split; [constructor|]|].
  cbn [List.filter]. destruct (role p) eqn:E; cbn.
  - split; [done|]. intros H. apply Forall_cons in H as [H _]. congruence.
  - rewrite IH. split; [by constructor|]. by intros [_ H]%Forall_cons.
Qed.

Lemma applyRoundRewards_miner placer r :
  winningTeam (board r) = Some miner ->
  let cards := (nuggetCards (length (players r)) (host r)).1 in
  let order := dealingOrder placer (idsWithRole miner (players r)) in
  applyRoundRewards placer r
  = match order with
    | [] => match players r with [] => Some (mkRewards ∅ [], onMetrics (setGoldByPlayer (goldByPlayer (metrics r))) (setPlayers (players r) (setHost (nuggetCards (length (players r)) (host r)).2 r))) | _ => None end
    | _ =>
        let acc := creditAll (schedule order cards)
                     (mkPurse (players r) (goldByPlayer (metrics r)) ∅) in
        Some (mkRewards (purseAwards acc) order,
              onMetrics (setGoldByPlayer (purseGold acc))
                (setPlayers (pursePlayers acc)
                   (setHost (nuggetCards (length (players r)) (host r)).2 r)))
    end.
Proof.
  intros Hw. cbv zeta. unfold applyRoundRewards. rewrite Hw. cbv zeta.
  fold (idsWithRole miner (players r)).
  pose proof (nuggetCards_spec (length (players r)) (host r)) as (Hlen & _ & _).
  destruct (nuggetCards _ _) as [cards h1]. cbn [fst snd] in *.
  destruct (dealingOrder placer _) as [|o order] eqn:E.
  - destruct (players r) as [|p ps] eqn:Ep.
    + destruct cards; [|done]. reflexivity.
    + rewrite deal_nobody; [done|]. by destruct cards.
  - rewrite deal_schedule by done. reflexivity.
Qed.

Lemma settlement_stuck (placer : option string) (r : GameRoom) :
  let stuck := winningTeam (board r) = Some miner /\ players r <> []
               /\ Forall (fun p => role p = saboteur) (players r) in
  (applyRoundRewards placer r = None <-> stuck)
  /\ (maybeFinishRound placer r = None <-> roundEnded r = false /\ stuck).
Proof.
  cbv zeta.
  assert (Hrew : forall r0, applyRoundRewards placer r0 = None <->
            winningTeam (board r0) = Some miner /\ players r0 <> []
            /\ Forall (fun p => role p = saboteur) (players r0)).
  { intros r0. destruct (winningTeam (board r0)) as [[]|] eqn:Hw.
    - rewrite (applyRoundRewards_miner placer r0 Hw). cbv zeta.
      rewrite <- no_miner_iff.
      destruct (dealingOrder placer _) as [|o order] eqn:E.
      + assert (Hm : idsWithRole miner (players r0) = []).
        { apply Permutation_nil. rewrite <- E. apply dealingOrder_perm. }
        destruct (players r0); [by split; [|intros (_ & ? & _)]|]. by split.
      + split; [done|]. intros (_ & _ & Hm). rewrite Hm in E.
        pose proof (dealingOrder_perm placer []) as Hp. rewrite E in Hp.
        by apply Permutation_nil_r in Hp.
    - unfold applyRoundRewards. rewrite Hw. split; [done | by intros [? _]].
    - unfold applyRoundRewards. rewrite Hw. split; [done | by intros [? _]]. }
  split; [apply Hrew|].
  unfold maybeFinishRound. destruct (roundEnded r); [by split; [|intros [? _]]|].
  destruct (winningTeam (board r)) as [w|] eqn:Hw.
  - destruct (applyRoundRewards placer (setResolution true placer r))
      as [[res r1]|] eqn:E.
    + cbn [mbind option_bind]. split; [done|]. intros [_ Hs].
      rewrite <- Hw in Hs.
      apply (proj2 (Hrew (setResolution true placer r))) in Hs. congruence.
    + cbn [mbind option_bind]. split; [|done]. intros _. split; [done|].
      apply Hrew in E. cbn [setResolution board players] in E. by rewrite <- Hw.
  - split; [done|]. by intros (_ & ? & _).
Qed.

(** Property X7.  [applyRoundRewards] throws exactly when the miners have won,
    the room is not empty and no player is a miner; [maybeFinishRound] throws
    exactly when, in addition, the round has not ended yet.  When
    [maybeFinishRound] returns it never changes the board; it changes nothing
    at all when the round has ended already or no team has won; and otherwise
    it ends the round, recording the placer and the winning team. *)
Theorem settlement_throws_iff (placer : option string) (r : GameRoom) :
  let stuck := winningTeam (board r) = Some miner /\ players r <> []
               /\ Forall (fun p => role p = saboteur) (players r) in
  (applyRoundRewards placer r = None <-> stuck)
  /\ (maybeFinishRound placer r = None <-> roundEnded r = false /\ stuck)
  /\ (forall r',
        maybeFinishRound placer r = Some r' ->
        board r' = board r
        /\ (roundEnded r = true \/ winningTeam (board r) = None -> r' = r)
        /\ (roundEnded r = false -> winningTeam (board r) <> None ->
            roundEnded r' = true /\ lastWinnerId r' = placer
            /\ lastWinningTeam r' = winningTeam (board r))).
Proof.
  cbv zeta. destruct (settlement_stuck placer r) as [Hrew Hfin].
  split; [exact Hrew|]. split; [exact Hfin|]. clear Hrew Hfin.
  intros r'. unfold maybeFinishRound. destruct (roundEnded r) eqn:E.
  - intros [= <-]. split; [reflexivity|]. split; [reflexivity|].
    intros Hf. discriminate Hf.
  - destruct (winningTeam (board r)) as [w|] eqn:Ew.
    + destruct (applyRoundRewards placer (setResolution true placer r))
        as [[res r1]|] eqn:Ea; cbn [mbind option_bind]; [|discriminate].
      intros [= <-].
      apply applyRoundRewards_shape in Ea as (ps & gold & h & -> & _).
      split; [reflexivity|].
      split; [intros [Hf|Hf]; discriminate Hf|].
      intros _ _. split; [reflexivity|]. split; [reflexivity|]. exact Ew.
    + intros [= <-]. split; [reflexivity|]. split; [reflexivity|].
      intros _ Hf. by destruct Hf.
Qed.

(** * Who is paid what *)

Lemma idsWithRole_subseteq ro ps x :
  x ∈ idsWithRole ro ps -> x ∈ playerId <$> ps.
Proof.
  unfold idsWithRole. induction ps as [|p ps IH]; [done|].
  cbn [List.filter]. rewrite fmap_cons. destruct (bool_decide _).
  - rewrite fmap_cons. intros [->|H]%elem_of_cons; [left | right; by apply IH].
  - intros H. right. by apply IH.
Qed.

Lemma idsWithRole_NoDup ro ps :
  NoDup (playerId <$> ps) -> NoDup (idsWithRole ro ps).
Proof.
  induction ps as [|p ps IH]; [constructor|].
  rewrite fmap_cons. intros [Hp Hnd]%NoDup_cons. specialize (IH Hnd).
  unfold idsWithRole in *. cbn [List.filter]. destruct (bool_decide _); [|done].
  rewrite fmap_cons. apply NoDup_cons. split; [|done].
  intros H. apply Hp. by eapply idsWithRole_subseteq.
Qed.

Lemma idsWithRole_elem ro ps p :
  NoDup (playerId <$> ps) -> p ∈ ps ->
  playerId p ∈ idsWithRole ro ps <-> role p = ro.
Proof.
  induction ps as [|q ps IH]; intros Hnd Hp; [by apply elem_of_nil in Hp|].
  rewrite fmap_cons in Hnd. apply NoDup_cons in Hnd as [Hq Hnd].
  unfold idsWithRole in *. cbn [List.filter].
  apply elem_of_cons in Hp as [->|Hp].
  - destruct (bool_decide_reflect (role q = ro)) as [E|E].
    + rewrite fmap_cons. split; [done | left].
    + split; [|done]. intros H. destruct Hq. by eapply idsWithRole_subseteq.
  - assert (Hne : playerId p <> playerId q).
    { intros E. apply Hq. rewrite <- E. by apply list_elem_of_fmap_2. }
    destruct (bool_decide (role q = ro)).
    + rewrite fmap_cons, elem_of_cons. rewrite <- (IH Hnd Hp).
      split; [intros [E|E]; [by destruct Hne | done] | by right].
    + by apply IH.
Qed.

Lemma idsWithRole_length ro ps : (length (idsWithRole ro ps) <= length ps)%nat.
Proof.
  unfold idsWithRole. rewrite length_fmap.
  induction ps as [|p ps IH]; [done|]. cbn [List.filter].
  destruct (bool_decide _); cbn; lia.
Qed.

Lemma applyRoundRewards_saboteur_credits placer r :
  winningTeam (board r) = Some saboteur ->
  let sabos := idsWithRole saboteur (players r) in
  let acc := creditAll ((fun s => (s, saboteurAward (length sabos))) <$> sabos)
               (mkPurse (players r) (goldByPlayer (metrics r)) ∅) in
  applyRoundRewards placer r
  = Some (mkRewards (purseAwards acc) sabos,
          onMetrics (setGoldByPlayer (purseGold acc)) (setPlayers (pursePlayers acc) r)).
Proof.
  intros Hw. cbv zeta. unfold applyRoundRewards. rewrite Hw. cbv zeta.
  fold (idsWithRole saboteur (players r)). by rewrite award_credits.
Qed.

Lemma elem_of_flat_ids (award : Z) (l : list string) x :
  x ∈ ((fun s => (s, award)) <$> l).*1 <-> x ∈ l.
Proof.
  rewrite <- list_fmap_compose.
  assert (H : (fst ∘ (fun s : string => (s, award))) <$> l = l).
  { induction l as [|s l IH]; [done|]. rewrite fmap_cons. by rewrite IH. }
  by rewrite H.
Qed.

Lemma saboteur_win_shape (placer : option string) (r : GameRoom) :
  NoDup (playerId <$> players r) ->
  winningTeam (board r) = Some saboteur ->
  exists res r',
    applyRoundRewards placer r = Some (res, r')
    /\ let sabos := idsWithRole saboteur (players r) in
       let award := saboteurAward (length sabos) in
       players r'
       = (fun p => if bool_decide (role p = saboteur)
                   then setScore (score p + award) p else p) <$> players r
       /\ (forall x,
             goldByPlayer (metrics r') !! x
             = if bool_decide (x ∈ sabos)
               then Some (default 0 (goldByPlayer (metrics r) !! x) + award)
               else goldByPlayer (metrics r) !! x)
       /\ (forall x,
             awards res !! x = if bool_decide (x ∈ sabos) then Some award else None)
       /\ winners res = sabos
       /\ board r' = board r /\ deck r' = deck r /\ host r' = host r.
Proof.
  intros Hnd Hw. eexists _, _.
  split; [apply (applyRoundRewards_saboteur_credits placer r Hw)|].
  cbv zeta. set (sabos := idsWithRole saboteur (players r)).
  set (award := saboteurAward (length sabos)).
  assert (Hs : NoDup sabos) by (by apply idsWithRole_NoDup).
  cbn [players onMetrics setMetrics setPlayers metrics goldByPlayer setGoldByPlayer
       awards winners board deck host].
  split; [|split; [|split; [|done]]].
  - rewrite creditAll_players by done. cbn [pursePlayers].
    apply Forall_fmap_ext_1, Forall_forall. intros p Hp.
    unfold paid. rewrite credited_flat by done.
    pose proof (idsWithRole_elem saboteur _ p Hnd Hp) as Hiff. fold sabos in Hiff.
    destruct (bool_decide_reflect (role p = saboteur)) as [E|E].
    + by rewrite bool_decide_true by (by apply Hiff).
    + rewrite bool_decide_false by (by rewrite Hiff).
      rewrite Z.add_0_r. apply setScore_same.
  - intros x. rewrite creditAll_gold. cbn [purseGold].
    rewrite (bool_decide_ext _ _ (elem_of_flat_ids award sabos x)).
    rewrite credited_flat by done. by case_bool_decide.
  - intros x. rewrite creditAll_awards. cbn [purseAwards].
    rewrite (bool_decide_ext _ _ (elem_of_flat_ids award sabos x)).
    rewrite credited_flat by done. rewrite lookup_empty. cbn.
    by case_bool_decide.
Qed.

(** Property X8.  With distinct player ids and the saboteurs as winning team,
    [applyRoundRewards] returns: every saboteur's score and gold tally grow by
    4 when there is one saboteur, by 3 when there are two or three, by 2
    otherwise; the miners keep theirs and no other field of a player changes;
    the awards list exactly the saboteurs with that amount, the winners are
    the saboteurs in seating order, and the board, the deck and the random
    source are untouched. *)
Theorem saboteur_win_payout (placer : option string) (r : GameRoom) :
  NoDup (playerId <$> players r) ->
  winningTeam (board r) = Some saboteur ->
  exists res r',
    applyRoundRewards placer r = Some (res, r')
    /\ let sabos :=
         playerId <$> List.filter (fun p => bool_decide (role p = saboteur)) (players r) in
       let award :=
         if decide (length sabos = 1%nat) then 4
         else if decide (length sabos = 2%nat \/ length sabos = 3%nat) then 3
         else 2 in
       players r'
       = (fun p => if bool_decide (role p = saboteur)
                   then mkPlayer (playerId p) (socketId p) (name p) (role p)
                          (position p) (rotation p) (hand p) (connected p)
                          (toolBroken p) (suspicion p) (score p + award)
                   else p) <$> players r
       /\ (forall x,
             goldByPlayer (metrics r') !! x
             = if bool_decide (x ∈ sabos)
               then Some (default 0 (goldByPlayer (metrics r) !! x) + award)
               else goldByPlayer (metrics r) !! x)
       /\ (forall x,
             awards res !! x = if bool_decide (x ∈ sabos) then Some award else None)
       /\ winners res = sabos
       /\ board r' = board r /\ deck r' = deck r /\ host r' = host r.
Proof.
  intros Hnd Hw.
  destruct (saboteur_win_shape placer r Hnd Hw)
    as (res & r' & Hrun & Hps & Hgold & Hawards & Hwinners & Hframe).
  exists res, r'. split; [exact Hrun|]. cbv zeta.
  split; [exact Hps|]. split; [exact Hgold|]. split; [exact Hawards|].
  split; [exact Hwinners|]. exact Hframe.
Qed.

(** * The nuggets of a miner win *)

Lemma elem_of_schedule order cards x :
  order <> [] -> (length order <= length cards)%nat ->
  x ∈ (schedule order cards).*1 <-> x ∈ order.
Proof.
  intros Hne Hlen. split; [by apply schedule_ids | by apply schedule_reaches].
Qed.

Lemma miner_win_shape (placer : option string) (r r' : GameRoom) (res : Rewards) :
  NoDup (playerId <$> players r) ->
  winningTeam (board r) = Some miner ->
  applyRoundRewards placer r = Some (res, r') ->
  let miners := idsWithRole miner (players r) in
  let cards := (nuggetCards (length (players r)) (host r)).1 in
  let order := dealingOrder placer miners in
  (length cards = length (players r) /\ Forall (fun v => 1 <= v <= 3) cards)
  /\ (winners res = order /\ order ≡ₚ miners
      /\ forall pid, placer = Some pid -> pid <> EmptyString -> pid ∈ miners ->
                     head order = Some pid)
  /\ players r' = paid (dealt order cards) <$> players r
  /\ (forall p, p ∈ players r -> role p = miner -> 1 <= dealt order cards (playerId p))
  /\ (forall p, p ∈ players r -> role p = saboteur -> dealt order cards (playerId p) = 0)
  /\ sumZ (score <$> players r') = sumZ (score <$> players r) + sumZ cards
  /\ (forall x,
        goldByPlayer (metrics r') !! x
        = if bool_decide (x ∈ miners)
          then Some (default 0 (goldByPlayer (metrics r) !! x) + dealt order cards x)
          else goldByPlayer (metrics r) !! x)
  /\ (forall x,
        awards res !! x
        = if bool_decide (x ∈ miners) then Some (dealt order cards x) else None)
  /\ randPos (host r') = (randPos (host r) + length (players r))%nat.
Proof.
  intros Hnd Hw H. cbv zeta.
  rewrite (applyRoundRewards_miner placer r Hw) in H. cbv zeta in H.
  pose proof (nuggetCards_spec (length (players r)) (host r)) as (Hlen & Hcards & Hhost).
  pose proof (dealingOrder_perm placer (idsWithRole miner (players r))) as Hperm.
  set (miners := idsWithRole miner (players r)) in *.
  set (cards := (nuggetCards (length (players r)) (host r)).1) in *.
  set (order := dealingOrder placer miners) in *.
  assert (Hin : forall x, x ∈ order <-> x ∈ miners) by (intros x; by rewrite Hperm).
  assert (Hhead : forall pid, placer = Some pid -> pid <> EmptyString -> pid ∈ miners ->
                    head order = Some pid).
  { intros pid -> Hpid Hm. apply dealingOrder_head; [|done]. cbn.
    by destruct (String.eqb_spec pid EmptyString). }
  assert (Hsab : forall p, p ∈ players r -> role p = saboteur ->
                   dealt order cards (playerId p) = 0).
  { intros p Hp Hr. apply dealt_outside. rewrite Hin.
    unfold miners. rewrite (idsWithRole_elem miner _ p Hnd Hp). congruence. }
  assert (Hmlen : (length order <= length cards)%nat).
  { rewrite Hperm, Hlen. apply idsWithRole_length. }
  assert (Hone : Forall (fun v => 1 <= v) cards).
  { eapply Forall_impl; [exact Hcards|]. cbn. lia. }
  assert (Hmin : forall p, p ∈ players r -> role p = miner ->
                   1 <= dealt order cards (playerId p)).
  { intros p Hp Hr. apply dealt_at_least; [done..|]. rewrite Hin.
    unfold miners. by rewrite (idsWithRole_elem miner _ p Hnd Hp). }
  split; [done|].
  destruct order as [|o order'] eqn:Eo.
  - destruct (players r) as [|p ps] eqn:Ep; [|discriminate H].
    injection H as <- <-. cbn [winners awards].
    assert (Hm : miners = []) by (by apply Permutation_nil).
    assert (Hc : cards = []) by (by apply nil_length_inv).
    assert (Hno : forall x, x ∉ miners) by (intros x; rewrite Hm; apply not_elem_of_nil).
    cbn [players onMetrics setMetrics setPlayers setHost metrics goldByPlayer
         setGoldByPlayer host].
    split; [split; [done | split; [done | exact Hhead]]|].
    split; [done|]. split; [exact Hmin|]. split; [exact Hsab|].
    split; [by rewrite Hc|].
    split; [intros x; by rewrite bool_decide_false|].
    split; [intros x; by rewrite bool_decide_false|].
    cbn [length]. lia.
  - injection H as <- <-. rewrite <- Eo in *.
    assert (Hne : order <> []) by (by rewrite Eo).
    cbn [winners awards players onMetrics setMetrics setPlayers setHost metrics
         goldByPlayer setGoldByPlayer host].
    rewrite Hhost. cbn [randPos].
    split; [done|].
    split; [|split; [done|split; [done|split; [|split; [|split; [|done]]]]]].
    + rewrite creditAll_players by done. cbn [pursePlayers].
      apply Forall_fmap_ext_1, Forall_forall. intros p Hp.
      unfold paid. by rewrite credited_schedule.
    + rewrite creditAll_total.
      * cbn [pursePlayers]. by rewrite schedule_values.
      * cbn [pursePlayers]. apply Forall_forall. intros c Hc.
        apply (idsWithRole_subseteq miner). apply Hin.
        apply (schedule_ids order cards); [done|]. by apply list_elem_of_fmap_2.
    + intros x. rewrite creditAll_gold. cbn [purseGold].
      rewrite (bool_decide_ext _ (x ∈ miners)).
      * by rewrite credited_schedule.
      * by rewrite elem_of_schedule.
    + intros x. rewrite creditAll_awards. cbn [purseAwards].
      rewrite (bool_decide_ext _ (x ∈ miners)).
      * rewrite credited_schedule by done. rewrite lookup_empty. cbn.
        case_bool_decide; [f_equal; lia | done].
      * by rewrite elem_of_schedule.
Qed.

Lemma nuggetCards_values n h :
  (nuggetCards n h).1
  = (fun k => 1 + Z.of_nat (random h (randPos h + k) mod 3)) <$> seq 0 n.
Proof.
  revert h. induction n as [|n IH]; intros h; [reflexivity|].
  cbn [nuggetCards]. unfold randomBelow.
  specialize (IH (mkHost (random h) (S (randPos h)) (uuids h) (uuidPos h) (clock h))).
  destruct (nuggetCards n _) as [rest h2]. cbn [fst snd random randPos] in *.
  rewrite IH. cbn [seq fmap list_fmap]. rewrite Nat.add_0_r. f_equal.
  rewrite <- seq_shift, <- list_fmap_compose.
  apply list_fmap_ext. intros i k _. cbv beta. unfold compose. by rewrite Nat.add_succ_r.
Qed.

Lemma dealingOrder_rotation pid (pre post : list string) :
  pid <> EmptyString -> pid ∉ pre ->
  dealingOrder (Some pid) (pre ++ pid :: post) = pid :: post ++ pre.
Proof.
  intros Hpid Hpre. unfold dealingOrder. cbn [truthy].
  destruct (String.eqb_spec pid EmptyString) as [E|_]; [by destruct Hpid|].
  cbn [negb].
  assert (Hfind : list_find (fun m => m = pid) (pre ++ pid :: post)
                  = Some (length pre, pid)).
  { apply list_find_Some. split; [|split; [reflexivity|]].
    - by rewrite list_lookup_middle.
    - intros j y Hj Hlt ->. apply Hpre.
      rewrite lookup_app_l in Hj by exact Hlt.
      by apply list_elem_of_lookup_2 in Hj. }
  rewrite Hfind. rewrite drop_app_length, take_app_length. reflexivity.
Qed.

Lemma dealingOrder_plain placer (miners : list string) :
  placer = None \/ placer = Some EmptyString
  \/ (exists pid, placer = Some pid /\ pid ∉ miners) ->
  dealingOrder placer miners = miners.
Proof.
  intros [-> | [-> | (pid & -> & Hout)]]; [reflexivity | reflexivity |].
  unfold dealingOrder. destruct (truthy (Some pid)); [|reflexivity].
  destruct (list_find (fun m => m = pid) miners) as [[i y]|] eqn:E; [|reflexivity].
  apply list_find_Some in E as (Hi & -> & _).
  destruct Hout. by apply list_elem_of_lookup_2 in Hi.
Qed.

(** Property X9.  With distinct player ids and the miners as winning team, a
    settlement that returns has read one random number per player, card [k]
    being [1 + random mod 3], and dealt the cards round-robin over the
    winners list.  That list is the miners in seating order rotated to start
    at the placer, [pid :: post ++ pre] for miners [pre ++ pid :: post], and
    the miners as they sit when there is no placer or the placer is no miner.
    Each player's score grows by what the round-robin deals to its id, at
    least 1 for every miner and 0 for every saboteur, and no other field of a
    player changes; the scores grow by the sum of the cards in total; the gold
    tallies and the awards record the same amounts. *)
Theorem miner_win_payout (placer : option string) (r r' : GameRoom) (res : Rewards) :
  NoDup (playerId <$> players r) ->
  winningTeam (board r) = Some miner ->
  applyRoundRewards placer r = Some (res, r') ->
  let miners :=
    playerId <$> List.filter (fun p => bool_decide (role p = miner)) (players r) in
  let cards :=
    (fun k => 1 + Z.of_nat (random (host r) (randPos (host r) + k) mod 3))
      <$> seq 0 (length (players r)) in
  let order := winners res in
  (length cards = length (players r) /\ Forall (fun v => 1 <= v <= 3) cards)
  /\ ((forall pid pre post,
         placer = Some pid -> pid <> EmptyString ->
         miners = pre ++ pid :: post -> pid ∉ pre ->
         order = pid :: post ++ pre)
      /\ (placer = None \/ placer = Some EmptyString
          \/ (exists pid, placer = Some pid /\ pid ∉ miners) ->
          order = miners)
      /\ order ≡ₚ miners)
  /\ players r'
     = (fun p => mkPlayer (playerId p) (socketId p) (name p) (role p) (position p)
                   (rotation p) (hand p) (connected p) (toolBroken p) (suspicion p)
                   (score p + dealt order cards (playerId p))) <$> players r
  /\ (forall p, p ∈ players r -> role p = miner -> 1 <= dealt order cards (playerId p))
  /\ (forall p, p ∈ players r -> role p = saboteur -> dealt order cards (playerId p) = 0)
  /\ sumZ (score <$> players r') = sumZ (score <$> players r) + sumZ cards
  /\ (forall x,
        goldByPlayer (metrics r') !! x
        = if bool_decide (x ∈ miners)
          then Some (default 0 (goldByPlayer (metrics r) !! x) + dealt order cards x)
          else goldByPlayer (metrics r) !! x)
  /\ (forall x,
        awards res !! x
        = if bool_decide (x ∈ miners) then Some (dealt order cards x) else None)
  /\ randPos (host r') = (randPos (host r) + length (players r))%nat.
Proof.
  intros Hnd Hw H. cbv zeta.
  pose proof (miner_win_shape placer r r' res Hnd Hw H) as Hshape.
  cbv zeta in Hshape. unfold idsWithRole in Hshape.
  rewrite nuggetCards_values in Hshape.
  destruct Hshape as (Hcards & (Hwin & Hperm & _) & Hps & Hmin & Hsab & Hsum & Hgold
                      & Hawards & Hrand).
  rewrite <- Hwin in Hps, Hmin, Hsab, Hgold, Hawards, Hperm.
  split; [exact Hcards|]. split.
  { split; [|split; [|exact Hperm]].
    - intros pid pre post -> Hpid Hm Hpre. rewrite Hwin, Hm.
      exact (dealingOrder_rotation pid pre post Hpid Hpre).
    - intros Hplain. rewrite Hwin. exact (dealingOrder_plain placer _ Hplain). }
  split; [exact Hps|]. split; [exact Hmin|]. split; [exact Hsab|].
  split; [exact Hsum|]. split; [exact Hgold|]. split; [exact Hawards|]. exact Hrand.
Qed.

(** * The players and the suspicion dictionary *)

Ltac solve_sets :=
  set_unfold; intuition (subst; first [assumption | congruence | eauto]).

Lemma getPlayer_Some_id id ps p : getPlayer id ps = Some p -> playerId p = id /\ p ∈ ps.
Proof.
  unfold getPlayer. intros H. apply find_some in H as [Hin Hid].
  split; [by apply hasId_true | by apply list_elem_of_In].
Qed.

Lemma getPlayer_None_id id ps : getPlayer id ps = None -> id ∉ playerId <$> ps.
Proof.
  unfold getPlayer. intros H Hin. apply list_elem_of_fmap in Hin as (p & -> & Hp).
  apply list_elem_of_In in Hp. pose proof (find_none _ _ H p Hp) as Hn.
  apply not_true_iff_false in Hn. apply Hn. by apply hasId_true.
Qed.

(** A successful call was made by a player of the room. *)
Lemma resolve_actor id i r res r' :
  resolve id i r = Some (res, r') -> isError res = false ->
  id ∈ playerId <$> players r.
Proof.
  intros H Hres.
  assert (Hget : is_Some (getPlayer id (players r))).
  { destruct (getPlayer id (players r)) as [p|] eqn:E; [by eexists|]. exfalso.
    destruct i as [payload | tileId | payload]; cbn [resolve] in H.
    - unfold placeCard in H. rewrite E in H.
      destruct (notYourTurn id r); injection H as <- <-; discriminate Hres.
    - unfold triggerRockfall in H. rewrite E in H.
      destruct (notYourTurn id r); injection H as <- <-; discriminate Hres.
    - unfold applyToolEffect in H. rewrite E in H.
      destruct (notYourTurn id r); injection H as <- <-; discriminate Hres. }
  destruct Hget as [p Hp]. apply getPlayer_Some_id in Hp as [<- Hp].
  by apply list_elem_of_fmap_2.
Qed.

Lemma putPlayer_ids p ps :
  playerId <$> putPlayer p ps
  = if bool_decide (playerId p ∈ playerId <$> ps)
    then playerId <$> ps else (playerId <$> ps) ++ [playerId p].
Proof.
  unfold putPlayer. destruct (getPlayer (playerId p) ps) as [q|] eqn:E.
  - apply getPlayer_Some_id in E as [Hid Hq].
    rewrite bool_decide_true by (rewrite <- Hid; by apply list_elem_of_fmap_2).
    clear. induction ps as [|x ps IH]; [done|]. cbn [assignFirst].
    destruct (hasId (playerId p) x) eqn:E.
    + apply hasId_true in E. rewrite !fmap_cons. by rewrite E.
    + rewrite !fmap_cons. by rewrite IH.
  - apply getPlayer_None_id in E. rewrite bool_decide_false by done.
    by rewrite fmap_app.
Qed.

Lemma registered_quiet r r' :
  registered r -> quiet r' = quiet r -> registered r'.
Proof.
  intros [Hnd Hdom] (Hs & _ & Hl)%quiet_inv. apply seats_ids in Hl.
  unfold registered. by rewrite Hs, Hl.
Qed.

Lemma list_to_set_filter_ne id (l : list string) :
  list_to_set (List.filter (fun x => negb (String.eqb x id)) l)
  =@{gset string} list_to_set l ∖ {[ id ]}.
Proof.
  induction l as [|x l IH]; [solve_sets|]. cbn [List.filter].
  destruct (String.eqb_spec x id) as [->|Hne]; cbn [negb].
  - rewrite IH. solve_sets.
  - rewrite !list_to_set_cons, IH. solve_sets.
Qed.

Lemma NoDup_filter_ne id (l : list string) :
  NoDup l -> NoDup (List.filter (fun x => negb (String.eqb x id)) l).
Proof.
  induction 1 as [|x l Hx Hnd IH]; [constructor|]. cbn [List.filter].
  destruct (negb _); [|done]. apply NoDup_cons. split; [|done].
  intros Hin. apply list_elem_of_In, filter_In in Hin as [Hin _].
  by apply list_elem_of_In in Hin.
Qed.

Lemma resetSeats_dom roles l r r' :
  foldl (resetSeat roles) (Some r) l = Some r' ->
  dom (suspicionByPlayer (metrics r'))
  =@{gset string} dom (suspicionByPlayer (metrics r)) ∪ list_to_set l.*2
  /\ playerId <$> players r' = playerId <$> players r.
Proof.
  revert r. induction l as [|s l IH]; intros r H.
  - injection H as <-. split; [solve_sets | done].
  - change (foldl (resetSeat roles) (resetSeat roles (Some r) s) l = Some r') in H.
    destruct (resetSeat roles (Some r) s) as [r1|] eqn:E;
      [|by rewrite resetSeat_thrown in H].
    destruct (IH _ H) as [Hd Hi]. rewrite Hd, Hi.
    apply resetSeat_quiet in E as (ro & Hq).
    apply quiet_parts in Hq as (Hs & _ & Hl). apply seats_ids in Hl.
    rewrite Hs, Hl, dom_insert_L, fmap_cons, list_to_set_cons.
    split; [solve_sets|]. by apply assignFirst_fmap.
Qed.

Lemma registered_insertPlayer socket name r r' :
  registered r -> insertPlayer socket name r = Some r' -> registered r'.
Proof.
  intros Hreg H.
  apply insertPlayer_quiet in H as (ro & Hq).
  apply quiet_parts in Hq as (Hs & _ & Hl). apply seats_ids in Hl.
  destruct Hreg as [Hnd Hdom]. unfold registered.
  rewrite Hs, Hl, dom_insert_L, Hdom, putPlayer_ids. cbn [newPlayer playerId].
  case_bool_decide as Hin.
  - split; [done|].
    assert (socket ∈@{gset string} list_to_set (playerId <$> players r))
      by (by apply elem_of_list_to_set).
    solve_sets.
  - split.
    + apply NoDup_app. split; [done|]. split; [|apply NoDup_singleton].
      intros x Hx ->%list_elem_of_singleton. done.
    + rewrite list_to_set_app_L. cbn. solve_sets.
Qed.

Lemma registered_removePlayer id r : registered r -> registered (removePlayer id r).
Proof.
  intros [Hnd Hdom]. unfold registered.
  pose proof (removePlayer_quiet id r) as Hq.
  apply quiet_parts in Hq as (Hs & _ & Hl). apply seats_ids in Hl.
  rewrite Hs, Hl, dom_delete_L, Hdom, deletePlayer_ids.
  split; [by apply NoDup_filter_ne | by rewrite list_to_set_filter_ne].
Qed.

Lemma registered_resolve id i r res r' :
  registered r -> resolve id i r = Some (res, r') -> registered r'.
Proof.
  intros Hreg E. pose proof (resolve_actor _ _ _ _ _ E) as Hactor.
  apply resolve_quiet in E as [[_ ->] | [Hres Hq]]; [done|].
  apply quiet_parts in Hq as (Hs & _ & Hl). apply seats_ids in Hl.
  destruct Hreg as [Hnd Hdom]. unfold registered.
  rewrite Hs, Hl, dom_insert_L, Hdom. split; [done|].
  specialize (Hactor Hres).
  assert (id ∈@{gset string} list_to_set (playerId <$> players r))
    by (by apply elem_of_list_to_set).
  solve_sets.
Qed.

Lemma registered_resetRoom r r' :
  registered r -> resetRoom r = Some r' -> registered r'.
Proof.
  intros [Hnd _] H.
  apply resetRoom_shape in H as (roles & h & r3 & Hfold & Hq).
  apply quiet_inv in Hq as (Hs & _ & Hl). apply seats_ids in Hl.
  apply resetSeats_dom in Hfold as [Hd Hi].
  rewrite renewRoom_players, seats_of_players in Hd.
  rewrite players_setHost, renewRoom_players in Hi.
  pose proof (renewRoom_quiet r) as Hq0. rewrite <- (quiet_setHost h) in Hq0.
  apply quiet_parts in Hq0 as (Hs0 & _ & _).
  unfold registered. rewrite Hl, Hs, Hi, Hd, Hs0. split; [done|].
  rewrite dom_empty_L. by rewrite (left_id_L ∅ (∪)).
Qed.

Lemma registered_handle a r r' :
  registered r -> handle a r = Some r' -> registered r'.
Proof.
  intros Hreg. destruct a as [socket name | id | id pos rot | id i | | now |];
    cbn [handle]; intros H.
  - exact (registered_insertPlayer _ _ _ _ Hreg H).
  - injection H as <-. by apply registered_removePlayer.
  - injection H as <-. eapply registered_quiet; [done|].
    apply quiet_updatePlayerPose.
  - destruct (resolve id i r) as [[res r1]|] eqn:E; [|discriminate H].
    injection H as <-. exact (registered_resolve _ _ _ _ _ Hreg E).
  - injection H as <-. eapply registered_quiet; [done|]. apply quiet_advanceTurn.
  - injection H as <-. eapply registered_quiet; [done|]. apply quiet_setClock.
  - exact (registered_resetRoom _ _ Hreg H).
Qed.

Lemma registered_run actions r r' :
  registered r -> run actions r = Some r' -> registered r'.
Proof.
  revert r. induction actions as [|a rest IH]; intros r Hreg; cbn [run]; intros H.
  - by injection H as <-.
  - destruct (handle a r) as [r1|] eqn:E; [|discriminate H].
    cbn [mbind option_bind] in H. eapply IH; [|exact H].
    exact (registered_handle _ _ _ Hreg E).
Qed.

Lemma registered_newGameRoom id h : registered (newGameRoom id h).
Proof.
  unfold newGameRoom. destruct (createBoard h) as [b h1].
  destruct (generateDeck h1) as [d h2].
  eapply registered_quiet; [|apply quiet_syncBoardTelemetry].
  split; [constructor|]. cbn. by rewrite dom_empty_L.
Qed.

Lemma getPlayer_registered (ps : list Player) (p : Player) :
  NoDup (playerId <$> ps) -> p ∈ ps -> getPlayer (playerId p) ps = Some p.
Proof.
  induction ps as [|q ps IH]; intros Hnd Hp; [by apply elem_of_nil in Hp|].
  rewrite fmap_cons in Hnd. apply NoDup_cons in Hnd as [Hq Hnd].
  unfold getPlayer in *. cbn [List.find]. apply elem_of_cons in Hp as [->|Hp].
  - by rewrite (proj2 (hasId_true (playerId q) q)).
  - destruct (hasId (playerId p) q) eqn:E; [|by apply IH].
    apply hasId_true in E. destruct Hq. rewrite E. by apply list_elem_of_fmap_2.
Qed.

(** Property X10.  In a new room, and after every handler and every sequence of
    handlers from there, the player ids are pairwise distinct and are exactly
    the keys of the suspicion dictionary; so looking a player up by id finds
    that player, and the serialized suspicion is a recorded value. *)
Theorem players_stay_registered :
  (forall id h, registered (newGameRoom id h))
  /\ (forall a r r', registered r -> handle a r = Some r' -> registered r')
  /\ (forall actions r r', registered r -> run actions r = Some r' -> registered r')
  /\ (forall r p,
        registered r -> p ∈ players r ->
        getPlayer (playerId p) (players r) = Some p
        /\ is_Some (suspicionByPlayer (metrics r) !! playerId p)).
Proof.
  split; [exact registered_newGameRoom|]. split; [exact registered_handle|].
  split; [exact registered_run|].
  intros r p [Hnd Hdom] Hp. split; [by apply getPlayer_registered|].
  apply (elem_of_dom (D:=gset string)). rewrite Hdom. apply elem_of_list_to_set.
  by apply list_elem_of_fmap_2.
Qed.

(** * What the exploration reaches *)

Lemma linked_on_board b t : linked b t -> t ∈ tiles b.
Proof.
  destruct 1 as [t c Hs _ | s c nb t nc _ _ _ _ Ht _ _].
  - by apply find_elem_of in Hs as [? _].
  - by apply find_elem_of in Ht as [? _].
Qed.

Lemma NoDup_fmap_eq {A B} (f : A -> B) (l : list A) (x y : A) :
  NoDup (f <$> l) -> x ∈ l -> y ∈ l -> f x = f y -> x = y.
Proof.
  intros Hnd (i & Hi)%list_elem_of_lookup_1 (j & Hj)%list_elem_of_lookup_1 Hf.
  assert (Hi' : (f <$> l) !! i = Some (f x)) by (by rewrite list_lookup_fmap, Hi).
  assert (Hj' : (f <$> l) !! j = Some (f x)) by (by rewrite list_lookup_fmap, Hj, Hf).
  pose proof (NoDup_lookup _ _ _ _ Hnd Hi' Hj') as ->. congruence.
Qed.

(** What one round of [neighbors.forEach] adds to the queue. *)
Lemma enqueueNeighbor_spec b tile c seen queue nb :
  enqueueNeighbor b tile c seen queue nb = queue
  \/ exists t nc,
       enqueueNeighbor b tile c seen queue nb = queue ++ [t]
       /\ open c (key nb) = true
       /\ tileAt b (row tile + dr nb) (col tile + dc nb) = Some t
       /\ (tid t ∉ seen) /\ connectors t = Some nc /\ open nc (opposite nb) = true.
Proof.
  unfold enqueueNeighbor.
  destruct (open c (key nb)) eqn:Ho; [|by left]. cbn [negb].
  destruct (tileAt _ _ _) as [t|]; [|by left].
  destruct (decide (tid t ∈ seen)); [by left|].
  destruct (connectors t) as [nc|] eqn:Hc; [|by left].
  destruct (open nc (opposite nb)) eqn:Hn; [|by left].
  right. by exists t, nc.
Qed.

Lemma enqueueNeighbor_covers b tile c seen queue nb t nc :
  open c (key nb) = true ->
  tileAt b (row tile + dr nb) (col tile + dc nb) = Some t ->
  connectors t = Some nc -> open nc (opposite nb) = true ->
  tid t ∈ seen \/ t ∈ enqueueNeighbor b tile c seen queue nb.
Proof.
  intros Ho Ht Hc Hn. unfold enqueueNeighbor. rewrite Ho, Ht. cbn [negb].
  destruct (decide (tid t ∈ seen)); [by left|]. rewrite Hc, Hn.
  right. apply elem_of_app. right. by apply list_elem_of_singleton.
Qed.

Lemma enqueueNeighbor_keeps b tile c seen queue nb t :
  t ∈ queue -> t ∈ enqueueNeighbor b tile c seen queue nb.
Proof.
  intros Ht. destruct (enqueueNeighbor_spec b tile c seen queue nb)
    as [-> | (t' & nc & -> & _)]; [done|]. apply elem_of_app. by left.
Qed.

Lemma enqueue_all_keeps b tile c seen nbs queue t :
  t ∈ queue -> t ∈ foldl (enqueueNeighbor b tile c seen) queue nbs.
Proof.
  revert queue. induction nbs as [|nb nbs IH]; intros queue Ht; [done|].
  cbn [foldl]. apply IH. by apply enqueueNeighbor_keeps.
Qed.

Lemma enqueue_all_covers b tile c seen nbs queue nb t nc :
  nb ∈ nbs -> open c (key nb) = true ->
  tileAt b (row tile + dr nb) (col tile + dc nb) = Some t ->
  connectors t = Some nc -> open nc (opposite nb) = true ->
  tid t ∈ seen \/ t ∈ foldl (enqueueNeighbor b tile c seen) queue nbs.
Proof.
  revert queue. induction nbs as [|nb' nbs IH]; intros queue Hnb Ho Ht Hc Hn;
    [by apply elem_of_nil in Hnb|].
  cbn [foldl]. apply elem_of_cons in Hnb as [<-|Hnb]; [|by apply IH].
  destruct (enqueueNeighbor_covers b tile c seen queue nb t nc Ho Ht Hc Hn)
    as [?|Hin]; [by left|]. right. by apply enqueue_all_keeps.
Qed.

Lemma enqueue_all_linked b tile c seen nbs queue :
  linked b tile -> connectors tile = Some c ->
  Forall (fun nb => nb ∈ neighbors) nbs ->
  Forall (fun t => forall c', connectors t = Some c' -> linked b t) queue ->
  Forall (fun t => forall c', connectors t = Some c' -> linked b t)
    (foldl (enqueueNeighbor b tile c seen) queue nbs).
Proof.
  intros Hl Hc. revert queue. induction nbs as [|nb nbs IH]; intros queue Hnbs Hq;
    [done|].
  apply Forall_cons in Hnbs as [Hnb Hnbs]. cbn [foldl]. apply IH; [done|].
  destruct (enqueueNeighbor_spec b tile c seen queue nb)
    as [-> | (t & nc & -> & Ho & Ht & _ & Hnc & Hn)]; [done|].
  apply Forall_app. split; [done|]. apply Forall_singleton. intros _ _.
  by eapply linked_step.
Qed.

Lemma all_neighbors : Forall (fun nb => nb ∈ neighbors) neighbors.
Proof. by apply Forall_forall. Qed.

(** Soundness: what is seen is linked, and the farthest column is that of a
    linked tile unless it is still the initial one. *)
Lemma exploreLoop_sound b far0 fuel :
  forall queue seen far,
    Forall (fun t => forall c', connectors t = Some c' -> linked b t) queue ->
    (forall id, id ∈ seen -> exists t, linked b t /\ tid t = id /\ col t <= far) ->
    (far = far0 \/ exists t, linked b t /\ col t = far) ->
    let ex := exploreLoop fuel b queue seen far in
    (forall id, id ∈ visited ex -> exists t, linked b t /\ tid t = id /\ col t <= farthestCol ex)
    /\ (farthestCol ex = far0 \/ exists t, linked b t /\ col t = farthestCol ex).
Proof.
  induction fuel as [|fuel IH]; intros queue seen far Hq Hseen Hfar; [done|].
  destruct queue as [|tile rest]; [done|]. cbn [exploreLoop].
  apply Forall_cons in Hq as [Htile Hrest].
  destruct (connectors tile) as [c|] eqn:Hc; [|by apply IH].
  destruct (decide (tid tile ∈ seen)) as [Hin|Hnew]; [by apply IH|].
  specialize (Htile c eq_refl). cbv zeta. apply IH.
  - by apply enqueue_all_linked; [| |apply all_neighbors|].
  - intros id [Hid | ->%elem_of_singleton]%elem_of_union.
    + destruct (Hseen id Hid) as (t & Hl & Ht & Hcol). exists t. repeat split; [done..|lia].
    + exists tile. repeat split; [done|lia].
  - destruct (Z.max_spec far (col tile)) as [[_ ->] | [_ ->]]; [|done].
    right. by exists tile.
Qed.

(** Completeness: what is seen stays seen, what is queued with connectors is
    seen or still queued, and the open edges out of a seen tile lead to tiles
    that are seen or queued. *)
Lemma exploreLoop_complete b fuel :
  NoDup (tid <$> tiles b) ->
  forall queue seen far,
    Forall (fun t => t ∈ tiles b) queue ->
    (forall s c nb t nc,
        s ∈ tiles b -> tid s ∈ seen -> connectors s = Some c -> nb ∈ neighbors ->
        open c (key nb) = true ->
        tileAt b (row s + dr nb) (col s + dc nb) = Some t ->
        connectors t = Some nc -> open nc (opposite nb) = true ->
        tid t ∈ seen \/ t ∈ queue) ->
    let ex := exploreLoop fuel b queue seen far in
    (forall id, id ∈ seen -> id ∈ visited ex)
    /\ (forall t c, t ∈ queue -> connectors t = Some c ->
          tid t ∈ visited ex \/ t ∈ pending ex)
    /\ (forall s c nb t nc,
          s ∈ tiles b -> tid s ∈ visited ex -> connectors s = Some c ->
          nb ∈ neighbors -> open c (key nb) = true ->
          tileAt b (row s + dr nb) (col s + dc nb) = Some t ->
          connectors t = Some nc -> open nc (opposite nb) = true ->
          tid t ∈ visited ex \/ t ∈ pending ex).
Proof.
  intros Hnd. induction fuel as [|fuel IH]; intros queue seen far Hq Hinv.
  { cbn. split; [done|]. split; [by right | done]. }
  destruct queue as [|tile rest].
  { cbn. split; [done|]. split; [by intros ? ? ?%elem_of_nil | done]. }
  cbn [exploreLoop]. apply Forall_cons in Hq as [Htile Hrest].
  destruct (connectors tile) as [c|] eqn:Hc.
  2:{ destruct (IH rest seen far Hrest) as (H1 & H2 & H3).
      - intros s c nb t nc Hs Hseen Hcs Hnb Ho Ht Hnc Hn.
        destruct (Hinv s c nb t nc) as [?|[->|?]%elem_of_cons]; try done;
          [by left | congruence | by right].
      - split; [done|]. split; [|done].
        intros t c [->|Ht]%elem_of_cons Hct; [congruence | by eapply H2]. }
  destruct (decide (tid tile ∈ seen)) as [Hin|Hnew].
  { destruct (IH rest seen far Hrest) as (H1 & H2 & H3).
    - intros s c' nb t nc Hs Hseen Hcs Hnb Ho Ht Hnc Hn.
      destruct (Hinv s c' nb t nc) as [?|[->|?]%elem_of_cons]; try done;
        [by left | by left | by right].
    - split; [done|]. split; [|done].
      intros t c' [->|Ht]%elem_of_cons Hct; [left; by apply H1 | by eapply H2]. }
  cbv zeta.
  set (seen' := seen ∪ {[tid tile]}).
  set (queue' := foldl (enqueueNeighbor b tile c seen') rest neighbors).
  destruct (IH queue' seen' (Z.max far (col tile))) as (H1 & H2 & H3).
  - by apply enqueue_all_bound.
  - intros s c' nb t nc Hs Hseen Hcs Hnb Ho Ht Hnc Hn.
    apply elem_of_union in Hseen as [Hseen | Hseen%elem_of_singleton].
    + destruct (Hinv s c' nb t nc) as [?|[->|?]%elem_of_cons]; try done.
      * left. apply elem_of_union. by left.
      * left. apply elem_of_union. right. by apply elem_of_singleton.
      * right. by apply enqueue_all_keeps.
    + assert (s = tile) as -> by (by eapply (NoDup_fmap_eq tid)).
      assert (c' = c) as -> by congruence.
      by eapply enqueue_all_covers.
  - split; [|split; [|done]].
    + intros id Hid. apply H1. apply elem_of_union. by left.
    + intros t c' [->|Ht]%elem_of_cons Hct.
      * left. apply H1. apply elem_of_union. right. by apply elem_of_singleton.
      * eapply H2; [|done]. by apply enqueue_all_keeps.
Qed.

(** Property X11.  On a board with distinct tile ids, [exploreBoard] empties its
    queue and visits exactly the ids of the tiles linked to the start tile by
    a chain of tiles with connectors in which every step crosses an edge open
    on both sides; [farthestCol] bounds the column of every such tile and is
    the column of one of them (or the initial value). *)
Theorem exploreBoard_reaches_linked (b : Board) :
  NoDup (tid <$> tiles b) ->
  let ex := exploreBoard b in
  (forall id, id ∈ visited ex <-> exists t, linked b t /\ tid t = id)
  /\ (forall t, linked b t -> col t <= farthestCol ex)
  /\ (farthestCol ex = match startTile b with Some s => col s | None => 0 end
      \/ exists t, linked b t /\ col t = farthestCol ex)
  /\ pending ex = [].
Proof.
  intros Hnd. cbv zeta.
  pose proof (exploreBoard_terminates b) as Hend.
  unfold exploreBoard in *. fold (startTile b) in *. cbv zeta in *.
  set (far0 := match startTile b with Some t => col t | None => 0 end) in *.
  set (queue0 := match startTile b with Some t => [t] | None => [] end) in *.
  assert (Hq0 : Forall (fun t => t ∈ tiles b) queue0).
  { unfold queue0. destruct (startTile b) as [t|] eqn:E; [|done].
    apply Forall_singleton. by apply find_elem_of in E as [? _]. }
  assert (Hl0 : Forall (fun t => forall c', connectors t = Some c' -> linked b t) queue0).
  { unfold queue0. destruct (startTile b) as [t|] eqn:E; [|done].
    apply Forall_singleton. intros c' Hc. by eapply linked_start. }
  destruct (exploreLoop_sound b far0 (exploreFuel b) queue0 ∅ far0 Hl0)
    as [Hsound Hfar]; [by intros ? ?%elem_of_empty | by left |].
  destruct (exploreLoop_complete b (exploreFuel b) Hnd queue0 ∅ far0 Hq0)
    as (_ & Hqueue & Hclosed).
  { intros s c nb t nc _ Hs. exfalso. revert Hs. apply not_elem_of_empty. }
  rewrite Hend in Hqueue, Hclosed.
  assert (Hall : forall t, linked b t ->
            tid t ∈ visited (exploreLoop (exploreFuel b) b queue0 ∅ far0)).
  { induction 1 as [t c Hs Hc | s c nb t nc Hl IH Hc Hnb Ho Ht Hnc Hn].
    - destruct (Hqueue t c) as [?|Hin]; [|done|done|by apply elem_of_nil in Hin].
      unfold queue0. rewrite Hs. by apply list_elem_of_singleton.
    - destruct (Hclosed s c nb t nc) as [?|Hin]; try done;
        [by apply linked_on_board | by apply elem_of_nil in Hin]. }
  split; [|split; [|split; [done|done]]].
  - intros id. split.
    + intros Hid. destruct (Hsound id Hid) as (t & Hl & Ht & _). by exists t.
    + intros (t & Hl & <-). by apply Hall.
  - intros t Hl. destruct (Hsound _ (Hall t Hl)) as (t' & Hl' & Ht' & Hcol).
    assert (t' = t) as ->; [|done].
    eapply (NoDup_fmap_eq tid); [done | by apply linked_on_board..|done].
Qed.

(** * The exploration reads the tiles only *)

Lemma tileAt_tiles b b' r c : tiles b = tiles b' -> tileAt b r c = tileAt b' r c.
Proof. unfold tileAt. by intros ->. Qed.

Lemma enqueueNeighbor_tiles b b' tile c seen queue nb :
  tiles b = tiles b' ->
  enqueueNeighbor b tile c seen queue nb = enqueueNeighbor b' tile c seen queue nb.
Proof. intros H. unfold enqueueNeighbor. by rewrite (tileAt_tiles b b'). Qed.

Lemma enqueue_all_tiles b b' tile c seen nbs queue :
  tiles b = tiles b' ->
  foldl (enqueueNeighbor b tile c seen) queue nbs
  = foldl (enqueueNeighbor b' tile c seen) queue nbs.
Proof.
  intros H. revert queue. induction nbs as [|nb nbs IH]; intros queue; [done|].
  cbn [foldl]. by rewrite IH, (enqueueNeighbor_tiles b b').
Qed.

Lemma exploreLoop_tiles b b' fuel queue seen far :
  tiles b = tiles b' ->
  exploreLoop fuel b queue seen far = exploreLoop fuel b' queue seen far.
Proof.
  intros H. revert queue seen far.
  induction fuel as [|fuel IH]; intros queue seen far; [done|].
  cbn [exploreLoop]. destruct queue as [|tile rest]; [done|].
  destruct (connectors tile) as [c|]; [|apply IH].
  destruct (decide _); [apply IH|]. cbv zeta.
  by rewrite IH, (enqueue_all_tiles b b').
Qed.

Lemma exploreBoard_tiles b b' : tiles b = tiles b' -> exploreBoard b = exploreBoard b'.
Proof.
  intros H. unfold exploreBoard, exploreFuel. rewrite <- H.
  by apply exploreLoop_tiles.
Qed.

(** * What a successful call went through *)

Lemma placeCard_inv id payload r res r' :
  placeCard id payload r = Some (res, r') ->
  (isError res = true /\ r' = r)
  \/ exists player card tile c,
       passesValidation id payload r player card tile c
       /\ hasValidAttachment (checkEdges (board r) tile c) = true
       /\ mismatch (checkEdges (board r) tile c) = false
       /\ commitPlacement id payload player card tile c r = Some r'
       /\ res = Placed card (negb (roundEnded r) && roundEnded r')
                  (if negb (roundEnded r) && roundEnded r' then Some id else None).
Proof.
  unfold placeCard.
  destruct (notYourTurn id r) eqn:Hturn; [intros [= <- <-]; by left|].
  destruct (getPlayer id (players r)) as [player|] eqn:Hp; [|intros [= <- <-]; by left].
  destruct (toolBroken player) eqn:Htool; [intros [= <- <-]; by left|].
  destruct (List.find _ (hand player)) as [card|] eqn:Hcard; [|intros [= <- <-]; by left].
  destruct (bool_decide_reflect (category (CARD_LIBRARY (cardKey card)) = cat_path))
    as [Hcat|Hcat]; cbn [negb]; [|intros [= <- <-]; by left].
  destruct (findTile _ _) as [tile|] eqn:Htile; [|intros [= <- <-]; by left].
  destruct (bool_decide_reflect (tileType tile = t_start)) as [Hs|Hs];
    [intros [= <- <-]; by left|].
  destruct (bool_decide_reflect (tileType tile = t_goal)) as [Hg|Hg];
    [intros [= <- <-]; by left|]. cbn [orb].
  destruct (bool_decide_reflect (tileType tile = t_path)) as [Hpath|Hpath];
    [intros [= <- <-]; by left|].
  destruct (rotateConnectors _ _) as [c|] eqn:Hc; [|discriminate].
  cbn [mbind option_bind]. cbv zeta.
  destruct (hasValidAttachment _) eqn:Hv; cbn [negb orb]; [|intros [= <- <-]; by left].
  destruct (mismatch _) eqn:Hm; [intros [= <- <-]; by left|].
  destruct (commitPlacement _ _ _ _ _ _ _) as [r1|] eqn:E; [|discriminate].
  cbn [mbind option_bind]. intros [= <- <-].
  right. exists player, card, tile, c. unfold passesValidation. by repeat split.
Qed.

Lemma triggerRockfall_inv id tileId r res r' :
  triggerRockfall id tileId r = Some (res, r') ->
  (isError res = true /\ r' = r)
  \/ exists player card tile r6,
       notYourTurn id r = false
       /\ getPlayer id (players r) = Some player
       /\ List.find (fun c => bool_decide (cardKey c = rockfall)) (hand player) = Some card
       /\ findTile (board r) tileId = Some tile
       /\ tileType tile = t_path
       /\ drawCards id 1 (stageRockfall id card tile r) = Some r6
       /\ r' = advanceTurn (syncBoardTelemetry r6)
       /\ res = Success.
Proof.
  unfold triggerRockfall.
  destruct (notYourTurn id r) eqn:Hturn; [intros [= <- <-]; by left|].
  destruct (getPlayer id (players r)) as [player|] eqn:Hp; [|intros [= <- <-]; by left].
  destruct (List.find _ (hand player)) as [card|] eqn:Hcard; [|intros [= <- <-]; by left].
  destruct (findTile (board r) tileId) as [tile|] eqn:Htile; [|intros [= <- <-]; by left].
  destruct (bool_decide_reflect (tileType tile = t_path)) as [Hpath|Hpath];
    cbn [negb]; [|intros [= <- <-]; by left].
  destruct (drawCards _ _ _) as [r6|] eqn:E; [|discriminate].
  cbn [mbind option_bind]. intros [= <- <-].
  right. exists player, card, tile, r6. by repeat split.
Qed.

Lemma applyToolEffect_inv actorId payload r res r' :
  applyToolEffect actorId payload r = Some (res, r') ->
  (isError res = true /\ r' = r)
  \/ exists actor target card r3,
       notYourTurn actorId r = false
       /\ getPlayer actorId (players r) = Some actor
       /\ getPlayer (targetPlayerId payload) (players r) = Some target
       /\ List.find (fun c => bool_decide (Some (cardKey c) = toolKey payload))
            (hand actor) = Some card
       /\ drawCards actorId 1 (stageToolEffect actorId payload card r) = Some r3
       /\ r' = advanceTurn (countTurn r3)
       /\ res = Success.
Proof.
  unfold applyToolEffect.
  destruct (notYourTurn actorId r) eqn:Hturn; [intros [= <- <-]; by left|].
  destruct (getPlayer actorId (players r)) as [actor|] eqn:Hp; [|intros [= <- <-]; by left].
  destruct (getPlayer (targetPlayerId payload) (players r)) as [target|] eqn:Ht;
    [|intros [= <- <-]; by left].
  destruct (List.find _ (hand actor)) as [card|] eqn:Hcard; [|intros [= <- <-]; by left].
  destruct (drawCards _ _ _) as [r3|] eqn:E; [|discriminate].
  cbn [mbind option_bind]. intros [= <- <-].
  right. exists actor, target, card, r3. by repeat split.
Qed.

(** * Frames of the steps a card goes through *)

Lemma assignFirst_compose {A} (pr : A -> bool) (f g : A -> A) (l : list A) :
  (forall x, pr x = true -> pr (f x) = true) ->
  assignFirst pr g (assignFirst pr f l) = assignFirst pr (fun x => g (f x)) l.
Proof.
  intros Hf. induction l as [|x l IH]; [done|]. cbn [assignFirst].
  destruct (pr x) eqn:E; cbn [assignFirst].
  - by rewrite (Hf x E).
  - by rewrite E, IH.
Qed.

(** The part of the metrics that tells whose turn it is and how far the
    tunnel got. *)
Lemma maybeFinishRound_metrics placer r r' :
  maybeFinishRound placer r = Some r' ->
  activePlayerId (metrics r') = activePlayerId (metrics r)
  /\ progress (metrics r') = progress (metrics r)
  /\ turnEndsAt (metrics r') = turnEndsAt (metrics r)
  /\ suspicionByPlayer (metrics r') = suspicionByPlayer (metrics r)
  /\ playerId <$> players r' = playerId <$> players r.
Proof.
  intros H. apply maybeFinishRound_shape in H
    as [-> | (_ & _ & ps & gold & h & aw & wi & -> & Hps)]; [done|].
  repeat split. by apply scoreOnly_fmap.
Qed.

Lemma drawn_metrics id count r :
  activePlayerId (metrics (drawn id count r)) = activePlayerId (metrics r)
  /\ progress (metrics (drawn id count r)) = progress (metrics r)
  /\ playerId <$> players (drawn id count r) = playerId <$> players r.
Proof.
  unfold drawn.
  destruct (players_maybeDeclareSaboteurWin
              (refreshDeckRemaining (takeCards id count r))) as (Hp & _ & Hm).
  rewrite Hp, Hm, takeCards_spec.
  cbn [refreshDeckRemaining onMetrics setMetrics metrics setDeck onPlayer setPlayers
       players setDeckRemaining activePlayerId progress].
  repeat split. by apply assignFirst_fmap.
Qed.

Lemma drawCards_metrics id count r r' :
  drawCards id count r = Some r' ->
  activePlayerId (metrics r') = activePlayerId (metrics r)
  /\ progress (metrics r') = progress (metrics r)
  /\ playerId <$> players r' = playerId <$> players r.
Proof.
  unfold drawCards. intros H.
  apply maybeFinishRound_metrics in H as (Ha & Hp & _ & _ & Hi).
  destruct (drawn_metrics id count r) as (Ha' & Hp' & Hi').
  rewrite Ha, Hp, Hi. done.
Qed.

Lemma syncBoardTelemetry_frame r :
  players (syncBoardTelemetry r) = players r
  /\ deck (syncBoardTelemetry r) = deck r
  /\ activePlayerId (metrics (syncBoardTelemetry r)) = activePlayerId (metrics r)
  /\ progress (metrics (syncBoardTelemetry r)) = progressOf (exploreBoard (board r))
  /\ turnsTaken (metrics (syncBoardTelemetry r)) = turnsTaken (metrics r).
Proof.
  unfold syncBoardTelemetry. cbv zeta.
  match goal with |- context [refreshDeckRemaining (maybeDeclareSaboteurWin ?x)] =>
    destruct (players_maybeDeclareSaboteurWin x) as (Hp & Hd & Hm) end.
  cbn [refreshDeckRemaining onMetrics setMetrics metrics players deck
       setDeckRemaining activePlayerId progress turnsTaken].
  rewrite Hp, Hd, Hm. repeat split.
Qed.

Lemma advanceTurn_active_ext r x :
  playerId <$> players x = playerId <$> players r ->
  activePlayerId (metrics x) = activePlayerId (metrics r) ->
  activePlayerId (metrics (advanceTurn x)) = activePlayerId (metrics (advanceTurn r)).
Proof.
  intros Hi Ha. destruct (decide (playerId <$> players r = [])) as [E|Hr].
  - unfold advanceTurn. rewrite Hi, E. unfold clearTurnTimer.
    cbn [turnTimer onMetrics setMetrics].
    by destruct (turnTimer x), (turnTimer r).
  - assert (Hx : playerId <$> players x <> []) by (by rewrite Hi).
    rewrite (advanceTurn_active x Hx), (advanceTurn_active r Hr). cbv zeta.
    by rewrite Hi, Ha.
Qed.

Lemma stagePlacement_frame id payload card tile c prev r :
  table (stagePlacement id payload card tile c prev r)
  = (assignFirst (fun t => String.eqb (tid t) (tid tile))
       (placePathCard c (cardKey card) (payloadRotation payload) id) (tiles (board r)),
     discard r ++ [card], turnsTaken (metrics r) + 1, collapsedTiles (metrics r))
  /\ deck (stagePlacement id payload card tile c prev r) = deck r
  /\ players (stagePlacement id payload card tile c prev r)
     = assignFirst (hasId id) (fun p => setHand (withoutCard card (hand p)) p) (players r)
  /\ activePlayerId (metrics (stagePlacement id payload card tile c prev r))
     = activePlayerId (metrics r).
Proof. repeat split. Qed.

Lemma holding_hand_twice id (f g : list CardInstance -> list CardInstance) ps :
  assignFirst (hasId id) (fun p => setHand (g (hand p)) p)
    (assignFirst (hasId id) (fun p => setHand (f (hand p)) p) ps)
  = assignFirst (hasId id) (fun p => setHand (g (f (hand p))) p) ps.
Proof.
  rewrite assignFirst_compose by done.
  apply assignFirst_ext. intros p _. by destruct p.
Qed.

Lemma table_parts r ts d n k :
  table r = (ts, d, n, k) ->
  tiles (board r) = ts /\ discard r = d /\ turnsTaken (metrics r) = n
  /\ collapsedTiles (metrics r) = k.
Proof. unfold table. intros H. by injection H as -> -> -> ->. Qed.

Lemma commitPlacement_inv id payload player card tile c r r' :
  commitPlacement id payload player card tile c r = Some r' ->
  exists r7,
    drawCards id 1 (stagePlacement id payload card tile c (progress (metrics r)) r)
    = Some r7
    /\ maybeFinishRound (Some id) (advanceTurn (syncBoardTelemetry r7)) = Some r'.
Proof.
  unfold commitPlacement. destruct (drawCards id 1 _) as [r7|] eqn:E7;
    cbn [mbind option_bind]; intros H; [|discriminate H].
  by exists r7.
Qed.

(** * A successful placement *)

Lemma placeCard_success_shape (id : string) (payload : Payload) (r r' : GameRoom)
    (card : CardInstance) (justEnded : bool) (placer : option string) :
  placeCard id payload r = Some (Placed card justEnded placer, r') ->
  exists player tile c,
    passesValidation id payload r player card tile c
    /\ tid tile = targetTileId payload
    /\ let laid :=
         assignFirst (fun t => String.eqb (tid t) (tid tile))
           (placePathCard c (cardKey card) (payloadRotation payload) id)
           (tiles (board r)) in
       let ex := exploreBoard (setTiles laid (board r)) in
       tiles (board r') = revealIfReached (visited ex) <$> laid
       /\ progress (metrics r') = progressOf ex
       /\ discard r' = discard r ++ [card]
       /\ turnsTaken (metrics r') = turnsTaken (metrics r) + 1
       /\ collapsedTiles (metrics r') = collapsedTiles (metrics r)
       /\ deck r' = take (length (deck r) - 1) (deck r)
       /\ holding <$> players r'
          = holding <$> assignFirst (hasId id)
              (fun p => setHand (withoutCard card (hand p) ++ drawnCards 1 (deck r)) p)
              (players r)
       /\ activePlayerId (metrics r') = activePlayerId (metrics (advanceTurn r))
       /\ justEnded = negb (roundEnded r) && roundEnded r'
       /\ placer = (if justEnded then Some id else None).
Proof.
  intros H. apply placeCard_inv in H
    as [[Herr _] | (player & card' & tile & c & Hval & Hv & Hm & Hcommit & Hres)];
    [discriminate Herr|].
  injection Hres as <- -> ->.
  exists player, tile, c. split; [done|]. split.
  { destruct Hval as (_ & _ & _ & _ & _ & Htile & _).
    apply find_elem_of in Htile as [_ Htile]. by apply String.eqb_eq in Htile. }
  cbv zeta. apply commitPlacement_inv in Hcommit as (r7 & E7 & Hcommit).
  destruct (stagePlacement_frame id payload card tile c (progress (metrics r)) r)
    as (Ht1 & Hd1 & Hp1 & Ha1).
  destruct (drawCards_spec _ _ _ _ E7) as (Hd7 & _ & _ & _ & Hh7 & Ht7).
  destruct (drawCards_metrics _ _ _ _ E7) as (Ha7 & _ & Hi7).
  rewrite Ht1 in Ht7. rewrite Hd1 in Hd7. rewrite Hp1, Hd1 in Hh7.
  rewrite Ha1 in Ha7. rewrite Hp1 in Hi7.
  apply table_parts in Ht7 as (Hts7 & Hdis7 & Hn7 & Hk7).
  destruct (syncBoardTelemetry_frame r7) as (Hp8 & Hd8 & Ha8 & Hpr8 & _).
  pose proof (table_syncBoardTelemetry r7) as Ht8.
  destruct (turnOnly_frame _ _ (turnOnly_advanceTurn (syncBoardTelemetry r7)))
    as (_ & Hp9 & Hd9 & _ & _ & Ht9 & _ & Hpr9 & _).
  pose proof (table_maybeFinishRound _ _ _ Hcommit) as Ht'.
  destruct (maybeFinishRound_metrics _ _ _ Hcommit) as (Ha' & Hpr' & _ & _ & _).
  pose proof (holding_maybeFinishRound _ _ _ Hcommit) as Hh'.
  destruct (maybeFinishRound_deck _ _ _ Hcommit) as [Hd' _].
  rewrite Ht9, Ht8, Hts7, Hdis7, Hn7, Hk7 in Ht'.
  apply table_parts in Ht' as (Hts' & Hdis' & Hn' & Hk').
  assert (Hex : exploreBoard (board r7)
                = exploreBoard (setTiles
                    (assignFirst (fun t => String.eqb (tid t) (tid tile))
                       (placePathCard c (cardKey card) (payloadRotation payload) id)
                       (tiles (board r))) (board r)))
    by (apply exploreBoard_tiles; by rewrite Hts7).
  rewrite Hex in Hts'. rewrite Hex in Hpr8.
  split; [exact Hts'|]. split; [by rewrite Hpr', Hpr9|].
  split; [exact Hdis'|]. split; [exact Hn'|]. split; [exact Hk'|].
  split; [by rewrite Hd', Hd9, Hd8|].
  split.
  { rewrite Hh', Hp9, Hp8, Hh7. f_equal.
    apply (holding_hand_twice id (fun h => withoutCard card h)
             (fun h => h ++ drawnCards 1 (deck r))). }
  split; [|done].
  rewrite Ha'. apply advanceTurn_active_ext.
  - by rewrite Hp8, Hi7, (assignFirst_fmap playerId).
  - by rewrite Ha8.
Qed.

(** * A successful rockfall *)

Lemma stageRockfall_frame id card tile r :
  table (stageRockfall id card tile r)
  = (assignFirst (fun t => String.eqb (tid t) (tid tile)) collapseTile (tiles (board r)),
     discard r, turnsTaken (metrics r) + 1, collapsedTiles (metrics r) + 1)
  /\ deck (stageRockfall id card tile r) = deck r
  /\ players (stageRockfall id card tile r)
     = assignFirst (hasId id) (fun p => setHand (withoutCard card (hand p)) p) (players r)
  /\ activePlayerId (metrics (stageRockfall id card tile r))
     = activePlayerId (metrics r).
Proof. repeat split. Qed.


(** * A successful tool card *)

Lemma stageToolEffect_frame actorId payload card r :
  table (stageToolEffect actorId payload card r) = table r
  /\ deck (stageToolEffect actorId payload card r) = deck r
  /\ players (stageToolEffect actorId payload card r)
     = assignFirst (hasId actorId) (fun p => setHand (withoutCard card (hand p)) p)
         (assignFirst (hasId (targetPlayerId payload))
            (setToolBroken (bool_decide (toolKey payload = Some break))) (players r))
  /\ activePlayerId (metrics (stageToolEffect actorId payload card r))
     = activePlayerId (metrics r)
  /\ progress (metrics (stageToolEffect actorId payload card r))
     = progress (metrics r).
Proof. unfold stageToolEffect. destruct (bool_decide _); repeat split. Qed.

Lemma countTurn_frame r :
  table (countTurn r)
  = (tiles (board r), discard r, turnsTaken (metrics r) + 1, collapsedTiles (metrics r))
  /\ players (countTurn r) = players r /\ deck (countTurn r) = deck r
  /\ activePlayerId (metrics (countTurn r)) = activePlayerId (metrics r)
  /\ progress (metrics (countTurn r)) = progress (metrics r).
Proof. repeat split. Qed.


(** * The layout of the board within a round *)

Lemma layout_assignFirst (pr : Tile -> bool) (f : Tile -> Tile) (l : list Tile) t :
  List.find pr l = Some t -> layout (f t) = layout t ->
  layout <$> assignFirst pr f l = layout <$> l.
Proof.
  intros Hfind Hf. induction l as [|x l IH]; [done|].
  cbn [List.find] in Hfind. cbn [assignFirst]. destruct (pr x).
  - injection Hfind as ->. by rewrite !fmap_cons, Hf.
  - rewrite !fmap_cons. by rewrite IH.
Qed.

Lemma layout_revealIfReached seen t : layout (revealIfReached seen t) = layout t.
Proof. unfold revealIfReached. by destruct (reached seen t). Qed.

Lemma layout_revealed seen (l : list Tile) :
  layout <$> (revealIfReached seen <$> l) = layout <$> l.
Proof.
  rewrite <- list_fmap_compose. apply Forall_fmap_ext_1, Forall_forall.
  intros t _. apply layout_revealIfReached.
Qed.

Lemma layout_placeOf (l l' : list Tile) :
  layout <$> l = layout <$> l' -> placeOf <$> l = placeOf <$> l'.
Proof.
  intros H. apply (f_equal (fmap fst)) in H.
  by rewrite <- !list_fmap_compose in H.
Qed.

Lemma plan_table r r' : table r' = table r -> plan r' = plan r.
Proof. unfold table, plan. intros H. injection H as H _ _ _. by rewrite H. Qed.

Lemma plan_turnOnly r r' : turnOnly r r' -> plan r' = plan r.
Proof. intros H. apply plan_table. apply (turnOnly_frame _ _ H). Qed.

Lemma plan_syncBoardTelemetry r : plan (syncBoardTelemetry r) = plan r.
Proof.
  pose proof (table_syncBoardTelemetry r) as H.
  apply table_parts in H as (H & _). unfold plan. rewrite H. apply layout_revealed.
Qed.

Lemma plan_drawCards id count r r' : drawCards id count r = Some r' -> plan r' = plan r.
Proof. intros H. apply plan_table. by eapply table_drawCards. Qed.

Lemma plan_resolve id i r res r' :
  resolve id i r = Some (res, r') -> plan r' = plan r.
Proof.
  destruct i as [payload | tileId | payload]; cbn [resolve]; intros H.
  - apply placeCard_inv in H
      as [[_ ->] | (player & card & tile & c & Hval & _ & _ & Hcommit & _)]; [done|].
    apply commitPlacement_inv in Hcommit as (r7 & E7 & Hfin).
    rewrite (plan_table _ _ (table_maybeFinishRound _ _ _ Hfin)).
    rewrite (plan_turnOnly _ _ (turnOnly_advanceTurn _)), plan_syncBoardTelemetry.
    rewrite (plan_drawCards _ _ _ _ E7).
    destruct (stagePlacement_frame id payload card tile c (progress (metrics r)) r)
      as (Ht & _). apply table_parts in Ht as (Ht & _).
    unfold plan. rewrite Ht.
    destruct Hval as (_ & _ & _ & _ & _ & Htile & Hs & Hg & _).
    pose proof (find_elem_of _ _ _ Htile) as [_ Hid]. apply String.eqb_eq in Hid.
    unfold findTile in Htile. rewrite <- Hid in Htile.
    apply (layout_assignFirst _ _ _ tile Htile).
    unfold layout, isAnchor. cbn [placePathCard tileType placeOf tid row col].
    rewrite !bool_decide_false by done. done.
  - apply triggerRockfall_inv in H
      as [[_ ->] | (player & card & tile & r6 & _ & _ & _ & Htile & Hpath & E6 & -> & _)];
      [done|].
    rewrite (plan_turnOnly _ _ (turnOnly_advanceTurn _)), plan_syncBoardTelemetry.
    rewrite (plan_drawCards _ _ _ _ E6).
    destruct (stageRockfall_frame id card tile r) as (Ht & _).
    apply table_parts in Ht as (Ht & _). unfold plan. rewrite Ht.
    pose proof (find_elem_of _ _ _ Htile) as [_ Hid]. apply String.eqb_eq in Hid.
    unfold findTile in Htile. rewrite <- Hid in Htile.
    apply (layout_assignFirst _ _ _ tile Htile).
    unfold layout, isAnchor. cbn [collapseTile tileType placeOf tid row col].
    rewrite Hpath. done.
  - apply applyToolEffect_inv in H
      as [[_ ->] | (actor & target & card & r3 & _ & _ & _ & _ & E3 & -> & _)]; [done|].
    rewrite (plan_turnOnly _ _ (turnOnly_advanceTurn _)).
    destruct (countTurn_frame r3) as (Ht4 & _). apply table_parts in Ht4 as (Ht4 & _).
    unfold plan at 1. rewrite Ht4. fold (plan r3).
    rewrite (plan_drawCards _ _ _ _ E3).
    destruct (stageToolEffect_frame id payload card r) as (Ht & _).
    by apply plan_table.
Qed.

Lemma insertPlayer_inv socket name r r' :
  insertPlayer socket name r = Some r' ->
  exists r3,
    let n := (length (players r) + 1)%nat in
    let dealt := roleDistribution n (host r) in
    let ro := default miner (dealt.1 !! (n - 1)%nat) in
    drawCards socket 5 (seatPlayer (newPlayer socket name n ro) (setHost dealt.2 r))
    = Some r3
    /\ r' = claimIdleTurn socket r3.
Proof.
  unfold insertPlayer. cbv zeta.
  destruct (roleDistribution _ _) as [roles h1]. cbn [fst snd].
  destruct (drawCards _ _ _) as [r3|] eqn:E; cbn [mbind option_bind]; intros H;
    [|discriminate H].
  injection H as <-. by exists r3.
Qed.

Lemma plan_insertPlayer socket name r r' :
  insertPlayer socket name r = Some r' ->
  plan r' = plan r /\ progress (metrics r') = progress (metrics r).
Proof.
  intros H. apply insertPlayer_inv in H as (r3 & E & ->). cbv zeta in E.
  destruct (turnOnly_frame _ _ (turnOnly_claimIdleTurn socket r3))
    as (_ & _ & _ & _ & _ & Ht & _ & Hpr & _).
  rewrite (plan_table _ _ Ht), Hpr, (plan_drawCards _ _ _ _ E).
  destruct (drawCards_metrics _ _ _ _ E) as (_ & -> & _). done.
Qed.

Lemma plan_removePlayer id r :
  plan (removePlayer id r) = plan r
  /\ progress (metrics (removePlayer id r)) = progress (metrics r).
Proof.
  unfold removePlayer. cbv zeta. destruct (bool_decide _); [|done].
  match goal with |- context [advanceTurn ?x] =>
    destruct (turnOnly_frame _ _ (turnOnly_advanceTurn x))
      as (_ & _ & _ & _ & _ & Ht & _ & Hpr & _) end.
  by rewrite (plan_table _ _ Ht), Hpr.
Qed.

Lemma plan_updatePlayerPose id pos rot r :
  plan (updatePlayerPose id pos rot r) = plan r
  /\ progress (metrics (updatePlayerPose id pos rot r)) = progress (metrics r).
Proof. unfold updatePlayerPose. by destruct (getPlayer _ _). Qed.

Lemma plan_handle a r r' :
  isRestart a = false -> handle a r = Some r' -> plan r' = plan r.
Proof.
  destruct a as [socket name | id | id pos rot | id i | | now |];
    cbn [handle isRestart]; intros Ha H; try discriminate Ha.
  - by apply plan_insertPlayer in H as [? _].
  - injection H as <-. apply plan_removePlayer.
  - injection H as <-. apply plan_updatePlayerPose.
  - destruct (resolve id i r) as [[res r1]|] eqn:E; [|discriminate H].
    injection H as <-. by eapply plan_resolve.
  - injection H as <-. apply plan_turnOnly, turnOnly_advanceTurn.
  - by injection H as <-.
Qed.

Lemma plan_run actions r r' :
  Forall (fun a => isRestart a = false) actions -> run actions r = Some r' ->
  plan r' = plan r.
Proof.
  revert r. induction actions as [|a rest IH]; intros r Hall; cbn [run]; intros H.
  - by injection H as <-.
  - apply Forall_cons in Hall as [Ha Hrest].
    destruct (handle a r) as [r1|] eqn:E; [|discriminate H].
    cbn [mbind option_bind] in H. rewrite (IH _ Hrest H).
    exact (plan_handle _ _ _ Ha E).
Qed.

Lemma find_layout id (l l' : list Tile) t :
  layout <$> l' = layout <$> l ->
  List.find (fun t => String.eqb (tid t) id) l = Some t ->
  exists t', List.find (fun t => String.eqb (tid t) id) l' = Some t'
             /\ layout t' = layout t.
Proof.
  revert l'. induction l as [|x l IH]; intros [|x' l'] H Hfind;
    try discriminate H; try discriminate Hfind.
  rewrite !fmap_cons in H.
  assert (Hx : layout x' = layout x) by congruence.
  assert (Hrest : layout <$> l' = layout <$> l) by congruence.
  assert (Hid : tid x' = tid x) by (unfold layout, placeOf in Hx; congruence).
  cbn [List.find] in *. rewrite Hid. destruct (String.eqb (tid x) id).
  - injection Hfind as <-. by exists x'.
  - by apply IH.
Qed.

(** Property X15.  No handler other than the restart, and no sequence of such
    handlers, changes where the tiles lie or what the start tile and the goal
    tiles are (type, connectors, gold or coal); a tile found by its id keeps
    its coordinates, stays the start or goal tile it was, and never becomes
    one. *)
Theorem round_keeps_layout :
  (forall a r r',
      isRestart a = false -> handle a r = Some r' -> plan r' = plan r)
  /\ (forall actions r r',
        Forall (fun a => isRestart a = false) actions -> run actions r = Some r' ->
        plan r' = plan r)
  /\ (forall r r' id t,
        plan r' = plan r -> findTile (board r) id = Some t ->
        exists t', findTile (board r') id = Some t'
          /\ row t' = row t /\ col t' = col t
          /\ (isAnchor t = true ->
              tileType t' = tileType t /\ connectors t' = connectors t
              /\ tileCard t' = tileCard t)
          /\ (isAnchor t = false -> isAnchor t' = false)).
Proof.
  split; [exact plan_handle|]. split; [exact plan_run|].
  intros r r' id t Hplan Hfind.
  destruct (find_layout id _ _ t Hplan Hfind) as (t' & Hfind' & Hl).
  exists t'. split; [exact Hfind'|].
  unfold layout, placeOf in Hl. injection Hl as _ Hrow Hcol Hanchor.
  split; [done|]. split; [done|].
  destruct (isAnchor t), (isAnchor t'); try discriminate Hanchor.
  - split; [|done]. intros _. by injection Hanchor as -> -> ->.
  - split; [done|]. done.
Qed.

(** * Progress is a fraction *)

Lemma grid_columns : Forall (fun p : string * Z * Z => 0 <= p.2 <= 8) grid.
Proof. apply (bool_decide_unpack _). vm_compute. exact I. Qed.

Lemma grid_tile_column (b : Board) (t : Tile) :
  placeOf <$> tiles b = grid -> t ∈ tiles b -> 0 <= col t <= 8.
Proof.
  intros Hg Ht. pose proof grid_columns as H. rewrite <- Hg in H.
  rewrite Forall_fmap, Forall_forall in H. exact (H t Ht).
Qed.

Lemma exploreBoard_far_on_board (b : Board) :
  farthestCol (exploreBoard b) = 0
  \/ exists t, t ∈ tiles b /\ col t = farthestCol (exploreBoard b).
Proof.
  unfold exploreBoard. fold (startTile b).
  set (far0 := match startTile b with Some t => col t | None => 0 end).
  set (queue0 := match startTile b with Some t => [t] | None => [] end).
  assert (Hl0 : Forall (fun t => forall c', connectors t = Some c' -> linked b t) queue0).
  { unfold queue0. destruct (startTile b) as [t|] eqn:E; [|done].
    apply Forall_singleton. intros c' Hc. by eapply linked_start. }
  destruct (exploreLoop_sound b far0 (exploreFuel b) queue0 ∅ far0 Hl0)
    as [_ [Hfar | (t & Hl & Ht)]]; [by intros ? ?%elem_of_empty | by left | |].
  - rewrite Hfar. unfold far0. destruct (startTile b) as [t|] eqn:E; [|by left].
    right. exists t. split; [|done]. by apply find_elem_of in E as [? _].
  - right. exists t. split; [by apply linked_on_board | done].
Qed.

Lemma progressOf_in_unit (ex : Exploration) :
  0 <= farthestCol ex <= 8 -> inUnit (progressOf ex).
Proof.
  intros H. unfold progressOf.
  assert (Hc : farthestCol ex = 0 \/ farthestCol ex = 1 \/ farthestCol ex = 2
               \/ farthestCol ex = 3 \/ farthestCol ex = 4 \/ farthestCol ex = 5
               \/ farthestCol ex = 6 \/ farthestCol ex = 7 \/ farthestCol ex = 8) by lia.
  destruct Hc as [-> | [-> | [-> | [-> | [-> | [-> | [-> | [-> | ->]]]]]]]];
    split; by vm_compute.
Qed.

Lemma progressOf_grid (b : Board) :
  placeOf <$> tiles b = grid -> inUnit (progressOf (exploreBoard b)).
Proof.
  intros Hg. apply progressOf_in_unit.
  destruct (exploreBoard_far_on_board b) as [-> | (t & Ht & <-)]; [lia|].
  by eapply grid_tile_column.
Qed.

Lemma charted_plan r r' :
  plan r' = plan r -> progress (metrics r') = progress (metrics r) ->
  charted r -> charted r'.
Proof.
  intros Hp Hpr [Hg Hu]. split; [|by rewrite Hpr].
  unfold plan in Hp. by rewrite (layout_placeOf _ _ Hp).
Qed.

Lemma charted_sync r :
  placeOf <$> tiles (board r) = grid -> charted (syncBoardTelemetry r).
Proof.
  intros Hg. split.
  - pose proof (plan_syncBoardTelemetry r) as Hp. unfold plan in Hp.
    by rewrite (layout_placeOf _ _ Hp).
  - destruct (syncBoardTelemetry_frame r) as (_ & _ & _ & -> & _).
    by apply progressOf_grid.
Qed.

Lemma createBoard_grid (h : Host) : placeOf <$> tiles (createBoard h).1 = grid.
Proof.
  destruct (createBoard_cases h) as (k & Hk & ->).
  assert (Hcases : k = 0%nat \/ k = 1%nat \/ k = 2%nat) by lia.
  destruct Hcases as [-> | [-> | ->]]; vm_compute; reflexivity.
Qed.

Lemma charted_newGameRoom id h : charted (newGameRoom id h).
Proof.
  unfold newGameRoom. pose proof (createBoard_grid h) as Hg.
  destruct (createBoard h) as [b h1]. destruct (generateDeck h1) as [d h2].
  by apply charted_sync.
Qed.

Lemma charted_resolve id i r res r' :
  charted r -> resolve id i r = Some (res, r') -> charted r'.
Proof.
  intros Hc H. pose proof (plan_resolve _ _ _ _ _ H) as Hplan.
  assert (Hg : placeOf <$> tiles (board r') = grid).
  { destruct Hc as [Hg _]. unfold plan in Hplan. by rewrite (layout_placeOf _ _ Hplan). }
  destruct i as [payload | tileId | payload]; cbn [resolve] in H.
  - apply placeCard_inv in H
      as [[_ ->] | (player & card & tile & c & Hval & _ & _ & Hcommit & _)]; [done|].
    apply commitPlacement_inv in Hcommit as (r7 & E7 & Hfin).
    split; [done|].
    destruct (maybeFinishRound_metrics _ _ _ Hfin) as (_ & -> & _).
    destruct (turnOnly_frame _ _ (turnOnly_advanceTurn (syncBoardTelemetry r7)))
      as (_ & _ & _ & _ & _ & Ht & _ & -> & _).
    apply charted_sync.
    pose proof (plan_table _ _ (table_maybeFinishRound _ _ _ Hfin)) as Hp1.
    rewrite (plan_table _ _ Ht), plan_syncBoardTelemetry in Hp1.
    unfold plan in Hp1. by rewrite <- (layout_placeOf _ _ Hp1).
  - apply triggerRockfall_inv in H
      as [[_ ->] | (player & card & tile & r6 & _ & _ & _ & _ & _ & E6 & -> & _)];
      [done|].
    split; [done|].
    destruct (turnOnly_frame _ _ (turnOnly_advanceTurn (syncBoardTelemetry r6)))
      as (_ & _ & _ & _ & _ & Ht & _ & -> & _).
    apply charted_sync.
    pose proof (plan_table _ _ Ht) as Hp1. rewrite plan_syncBoardTelemetry in Hp1.
    unfold plan in Hp1. by rewrite <- (layout_placeOf _ _ Hp1).
  - apply applyToolEffect_inv in H
      as [[_ ->] | (actor & target & card & r3 & _ & _ & _ & _ & E3 & -> & _)]; [done|].
    split; [done|].
    destruct (turnOnly_frame _ _ (turnOnly_advanceTurn (countTurn r3)))
      as (_ & _ & _ & _ & _ & _ & _ & -> & _).
    destruct (countTurn_frame r3) as (_ & _ & _ & _ & ->).
    destruct (drawCards_metrics _ _ _ _ E3) as (_ & -> & _).
    destruct (stageToolEffect_frame id payload card r) as (_ & _ & _ & _ & ->).
    apply Hc.
Qed.

Lemma resetRoom_inv r r' :
  resetRoom r = Some r' ->
  exists roles h r3,
    foldl (resetSeat roles) (Some (setHost h (renewRoom r)))
      (imap (fun idx p => (idx, playerId p)) (players (renewRoom r))) = Some r3
    /\ r' = syncBoardTelemetry (seatFirstTurn r3).
Proof.
  unfold resetRoom. cbv zeta. destruct (roleDistribution _ _) as [roles h3].
  destruct (foldl _ _ _) as [r3|] eqn:E; cbn [mbind option_bind]; intros H;
    [|discriminate H].
  injection H as <-. exists roles, h3, r3. split; [exact E | reflexivity].
Qed.

Lemma turnOnly_seatFirstTurn r : turnOnly r (seatFirstTurn r).
Proof.
  unfold seatFirstTurn. destruct (playerId <$> players r); [apply turnOnly_refl|].
  eapply turnOnly_trans; [apply turnOnly_setActivePlayerId | apply turnOnly_setTurnTimer].
Qed.

Lemma board_renewRoom r : board (renewRoom r) = (createBoard (host r)).1.
Proof.
  unfold renewRoom. destruct (createBoard _) as [b h1].
  destruct (generateDeck _) as [d h2]. cbv zeta.
  unfold clearTurnTimer. cbn [turnTimer]. by destruct (turnTimer r).
Qed.

Lemma resetSeat_table roles r s r' :
  resetSeat roles (Some r) s = Some r' -> table r' = table r.
Proof.
  unfold resetSeat. cbn [mbind option_bind]. cbv zeta. intros E.
  by rewrite (table_drawCards _ _ _ _ E).
Qed.

Lemma charted_resetRoom r r' : resetRoom r = Some r' -> charted r'.
Proof.
  intros H. apply resetRoom_inv in H as (roles & h & r3 & Hfold & ->).
  apply charted_sync.
  destruct (turnOnly_frame _ _ (turnOnly_seatFirstTurn r3)) as (-> & _).
  revert Hfold. apply (resetSeats_ind (fun x => placeOf <$> tiles (board x) = grid)).
  - intros r0 s r1 Hg E. apply resetSeat_table, plan_table in E.
    unfold plan in E. by rewrite (layout_placeOf _ _ E).
  - rewrite board_setHost, board_renewRoom. apply createBoard_grid.
Qed.

Lemma charted_handle a r r' : charted r -> handle a r = Some r' -> charted r'.
Proof.
  intros Hc. destruct a as [socket name | id | id pos rot | id i | | now |];
    cbn [handle]; intros H.
  - apply plan_insertPlayer in H as [Hp Hpr]. by eapply charted_plan.
  - injection H as <-. destruct (plan_removePlayer id r) as [Hp Hpr].
    by eapply charted_plan.
  - injection H as <-. destruct (plan_updatePlayerPose id pos rot r) as [Hp Hpr].
    by eapply charted_plan.
  - destruct (resolve id i r) as [[res r1]|] eqn:E; [|discriminate H].
    injection H as <-. exact (charted_resolve _ _ _ _ _ Hc E).
  - injection H as <-.
    destruct (turnOnly_frame _ _ (turnOnly_advanceTurn r))
      as (_ & _ & _ & _ & _ & Ht & _ & Hpr & _).
    eapply charted_plan; [by apply plan_table | done | done].
  - injection H as <-. exact Hc.
  - exact (charted_resetRoom _ _ H).
Qed.

Lemma charted_run actions r r' : charted r -> run actions r = Some r' -> charted r'.
Proof.
  revert r. induction actions as [|a rest IH]; intros r Hc; cbn [run]; intros H.
  - by injection H as <-.
  - destruct (handle a r) as [r1|] eqn:E; [|discriminate H].
    cbn [mbind option_bind] in H. eapply IH; [|exact H].
    exact (charted_handle _ _ _ Hc E).
Qed.

(** Property X16.  On a board laid out as the grid of [createBoard] the
    exploration ends with a farthest column between 0 and 8, so the progress
    it yields lies in [0, 1]; every room reached from a new one has such a
    board and a recorded progress in [0, 1]. *)
Theorem progress_stays_fraction :
  (forall b, placeOf <$> tiles b = grid ->
             0 <= farthestCol (exploreBoard b) <= 8
             /\ inUnit (progressOf (exploreBoard b)))
  /\ (forall id h, charted (newGameRoom id h))
  /\ (forall a r r', charted r -> handle a r = Some r' -> charted r')
  /\ (forall actions id h r,
        run actions (newGameRoom id h) = Some r ->
        placeOf <$> tiles (board r) = grid
        /\ (num 0 1 <= progress (metrics r))%Qc /\ (progress (metrics r) <= num 1 1)%Qc).
Proof.
  split; [|split; [exact charted_newGameRoom | split; [exact charted_handle|]]].
  - intros b Hg. split; [|by apply progressOf_grid].
    destruct (exploreBoard_far_on_board b) as [-> | (t & Ht & <-)]; [lia|].
    by eapply grid_tile_column.
  - intros actions id h r H.
    destruct (charted_run _ _ _ (charted_newGameRoom id h) H) as [Hg [H0 H1]]. done.
Qed.

(** * When a handler throws *)

Lemma seats_roles (ps qs : list Player) :
  seat <$> ps = seat <$> qs ->
  (Forall (fun p => role p = saboteur) ps -> Forall (fun p => role p = saboteur) qs)
  /\ (ps <> [] -> qs <> []).
Proof.
  intros H. split.
  - intros Hall.
    assert (Hs : Forall (fun s : string * Role * Qc => s.1.2 = saboteur) (seat <$> ps))
      by (by apply Forall_fmap).
    rewrite H in Hs. by apply Forall_fmap in Hs.
  - intros Hne ->. destruct ps; [done | rewrite fmap_cons in H; discriminate H].
Qed.

Lemma quiet_roles r r' :
  quiet r' = quiet r ->
  (Forall (fun p => role p = saboteur) (players r') ->
   Forall (fun p => role p = saboteur) (players r))
  /\ (players r' <> [] -> players r <> []).
Proof. intros (_ & _ & Hl)%quiet_inv. exact (seats_roles _ _ Hl). Qed.

Lemma winningTeam_drawn id count r :
  winningTeam (board (drawn id count r)) = Some miner ->
  winningTeam (board r) = Some miner.
Proof.
  unfold drawn. set (x := refreshDeckRemaining (takeCards id count r)).
  assert (Hb : board x = board r).
  { unfold x. rewrite board_refreshDeckRemaining. apply takeCards_deck. }
  unfold maybeDeclareSaboteurWin. rewrite Hb.
  destruct (winningTeam (board r)) as [w|] eqn:E.
  - by rewrite Hb, E.
  - destruct (_ =? _).
    + cbn [onBoard board setBoard winningTeam setWinningTeam]. discriminate.
    + rewrite Hb, E. discriminate.
Qed.

Lemma drawCards_thrown id count r :
  drawCards id count r = None ->
  roundEnded r = false /\ winningTeam (board r) = Some miner
  /\ players r <> [] /\ Forall (fun p => role p = saboteur) (players r).
Proof.
  unfold drawCards. intros H.
  apply (proj2 (settlement_stuck None (drawn id count r))) in H
    as (Hended & Hw & Hne & Hall).
  destruct (ledger_inv _ _ (ledger_drawn id count r)) as [He _].
  destruct (quiet_roles _ _ (quiet_drawn id count r)) as [Hr Hn].
  split; [by rewrite <- He|]. split; [by eapply winningTeam_drawn|]. split; auto.
Qed.

Lemma drawCards_still_open id count r r' :
  drawCards id count r = Some r' -> roundEnded r' = false -> roundEnded r = false.
Proof.
  unfold drawCards. intros H Hended.
  destruct (ledger_inv _ _ (ledger_drawn id count r)) as [He _].
  apply maybeFinishRound_shape in H
    as [-> | (Ho & _ & ps & gold & h & aw & wi & -> & _)]; by rewrite <- He.
Qed.

Lemma ledger_stagePlacement id payload card tile c prev r :
  roundEnded (stagePlacement id payload card tile c prev r) = roundEnded r.
Proof. reflexivity. Qed.

Lemma ledger_stageRockfall id card tile r :
  roundEnded (stageRockfall id card tile r) = roundEnded r.
Proof. reflexivity. Qed.

Lemma ledger_stageToolEffect id payload card r :
  roundEnded (stageToolEffect id payload card r) = roundEnded r.
Proof. unfold stageToolEffect. by destruct (bool_decide _). Qed.

Lemma quiet_seats_roles r r' s e :
  quiet r' = (s, e, seat <$> players r) ->
  (Forall (fun p => role p = saboteur) (players r') ->
   Forall (fun p => role p = saboteur) (players r))
  /\ (players r' <> [] -> players r <> []).
Proof. intros (_ & _ & Hl)%quiet_parts. exact (seats_roles _ _ Hl). Qed.

Lemma commitPlacement_thrown id payload player card tile c r :
  commitPlacement id payload player card tile c r = None ->
  roundEnded r = false /\ players r <> []
  /\ Forall (fun p => role p = saboteur) (players r).
Proof.
  unfold commitPlacement.
  destruct (quiet_seats_roles _ _ _ _ (stagePlacement_quiet id payload card tile c r))
    as [Hr1 Hn1].
  pose proof (ledger_stagePlacement id payload card tile c (progress (metrics r)) r) as He1.
  destruct (drawCards id 1 _) as [r7|] eqn:E7; cbn [mbind option_bind]; intros H.
  - apply (proj2 (settlement_stuck (Some id) (advanceTurn (syncBoardTelemetry r7)))) in H
      as (Hended & _ & Hne & Hall).
    destruct (ledger_inv _ _ (ledger_advanceTurn (syncBoardTelemetry r7))) as [Ha _].
    destruct (ledger_inv _ _ (ledger_syncBoardTelemetry r7)) as [Hs _].
    rewrite Ha, Hs in Hended.
    pose proof (drawCards_still_open _ _ _ _ E7 Hended) as Hopen.
    rewrite He1 in Hopen. split; [done|].
    destruct (quiet_roles _ _ (quiet_advanceTurn (syncBoardTelemetry r7))) as [Hr9 Hn9].
    destruct (quiet_roles _ _ (quiet_syncBoardTelemetry r7)) as [Hr8 Hn8].
    destruct (quiet_roles _ _ (quiet_drawCards _ _ _ _ E7)) as [Hr7 Hn7].
    split; auto.
  - apply drawCards_thrown in E7 as (Hended & _ & Hne & Hall).
    rewrite He1 in Hended. split; [done|]. split; auto.
Qed.

Lemma resolve_thrown id i r :
  resolve id i r = None ->
  roundEnded r = false /\ players r <> []
  /\ Forall (fun p => role p = saboteur) (players r).
Proof.
  destruct i as [payload | tileId | payload]; cbn [resolve].
  - unfold placeCard.
    destruct (notYourTurn id r); [discriminate|].
    destruct (getPlayer id (players r)) as [player|]; [|discriminate].
    destruct (toolBroken player); [discriminate|].
    destruct (List.find _ (hand player)) as [card|]; [|discriminate].
    destruct (bool_decide_reflect (category (CARD_LIBRARY (cardKey card)) = cat_path))
      as [Hcat|Hcat]; cbn [negb]; [|discriminate].
    destruct (findTile _ _) as [tile|]; [|discriminate].
    destruct (_ || _); [discriminate|].
    destruct (bool_decide (tileType tile = t_path)); [discriminate|].
    destruct (path_card_has_connectors _ Hcat) as [c0 Hc0]. rewrite Hc0.
    cbn [rotateConnectors mbind option_bind]. cbv zeta.
    destruct (_ || _); [discriminate|].
    destruct (commitPlacement _ _ _ _ _ _ _) as [r1|] eqn:E; [discriminate|].
    intros _. by eapply commitPlacement_thrown.
  - unfold triggerRockfall.
    destruct (notYourTurn id r); [discriminate|].
    destruct (getPlayer id (players r)) as [player|]; [|discriminate].
    destruct (List.find _ (hand player)) as [card|]; [|discriminate].
    destruct (findTile (board r) tileId) as [tile|]; [|discriminate].
    destruct (negb _); [discriminate|].
    destruct (drawCards _ _ _) as [r6|] eqn:E; [discriminate|]. intros _.
    apply drawCards_thrown in E as (Hended & _ & Hne & Hall).
    destruct (quiet_seats_roles _ _ _ _ (stageRockfall_quiet id card tile r)) as [Hr Hn].
    rewrite ledger_stageRockfall in Hended. split; [done|]. split; auto.
  - unfold applyToolEffect.
    destruct (notYourTurn id r); [discriminate|].
    destruct (getPlayer id (players r)) as [actor|]; [|discriminate].
    destruct (getPlayer (targetPlayerId payload) (players r)) as [target|];
      [|discriminate].
    destruct (List.find _ (hand actor)) as [card|]; [|discriminate].
    destruct (drawCards _ _ _) as [r3|] eqn:E; [discriminate|]. intros _.
    apply drawCards_thrown in E as (Hended & _ & Hne & Hall).
    destruct (quiet_seats_roles _ _ _ _ (stageToolEffect_quiet id payload card r))
      as [Hr Hn].
    rewrite ledger_stageToolEffect in Hended. split; [done|]. split; auto.
Qed.

Lemma insertPlayer_thrown socket name r :
  insertPlayer socket name r = None ->
  roundEnded r = false /\ winningTeam (board r) = Some miner.
Proof.
  unfold insertPlayer. cbv zeta. destruct (roleDistribution _ _) as [roles h1].
  destruct (drawCards _ _ _) as [r3|] eqn:E; cbn [mbind option_bind]; [discriminate|].
  intros _. by apply drawCards_thrown in E as (Hended & Hw & _).
Qed.

Lemma placeCardUnsent_thrown id r :
  placeCardUnsent id r = None <->
  notYourTurn id r = false
  /\ exists player,
       getPlayer id (players r) = Some player
       /\ toolBroken player = false /\ hand player <> [].
Proof.
  unfold placeCardUnsent. destruct (notYourTurn id r).
  { split; [discriminate | by intros [H _]]. }
  destruct (getPlayer id (players r)) as [player|].
  2: { split; [discriminate | by intros [_ (p & H & _)]]. }
  destruct (toolBroken player) eqn:Etool.
  { split; [discriminate|]. intros [_ (p & [= <-] & Hp & _)]. congruence. }
  destruct (hand player) as [|card rest] eqn:Ehand.
  { split; [discriminate|]. intros [_ (p & [= <-] & _ & Hp)]. congruence. }
  split; [|reflexivity]. intros _. split; [reflexivity|].
  exists player. rewrite Ehand. by repeat split.
Qed.

Lemma placeCardUnsent_returns id r res r' :
  placeCardUnsent id r = Some (res, r') -> isError res = true /\ r' = r.
Proof.
  unfold placeCardUnsent. destruct (notYourTurn id r); [by intros [= <- <-]|].
  destruct (getPlayer id (players r)) as [player|]; [|by intros [= <- <-]].
  destruct (toolBroken player); [by intros [= <- <-]|].
  destruct (hand player); [by intros [= <- <-] | discriminate].
Qed.

Lemma onCardEvent_thrown id e r :
  onCardEvent id e r = None ->
  (e = PlaceCardEvent None \/ e = RockfallEvent None \/ e = ToolEffectEvent None)
  \/ (roundEnded r = false /\ players r <> []
      /\ Forall (fun p => role p = saboteur) (players r)).
Proof.
  destruct e as [[payload|] | [tileId|] | [payload|]]; cbn [onCardEvent]; intros H.
  - right. exact (resolve_thrown id (PlaceCard payload) r H).
  - left. by left.
  - right. exact (resolve_thrown id (Rockfall tileId) r H).
  - left. right. by left.
  - right. exact (resolve_thrown id (ToolEffect payload) r H).
  - left. right. by right.
Qed.

(** Property X17.  Only a card event or a join can throw.  A card event that
    carries an object is the gameplay call on that object, and it throws only
    in a round that has not ended, in a room whose players are all saboteurs:
    with a miner in the room it returns.  A card event without an object
    ([undefined] or [null]) throws whoever is in the room: always for
    [rockfall] and [toolEffect], and for [placeCard] exactly when it is the
    caller's turn (or nobody's), the caller is a player with a working tool
    and a card in hand; otherwise [placeCard] returns an error and leaves the
    room as it was.  A join that throws finds the miners' win declared and not
    yet settled. *)
Theorem handlers_throw_only_without_miners :
  (forall a r, handle a r = None ->
     (exists id i, a = Play id i) \/ (exists socket name, a = Join socket name))
  /\ (forall id e r,
        onCardEvent id e r = None ->
        (e = PlaceCardEvent None \/ e = RockfallEvent None \/ e = ToolEffectEvent None)
        \/ (roundEnded r = false /\ players r <> []
            /\ Forall (fun p => role p = saboteur) (players r)))
  /\ (forall id e r p,
        e <> PlaceCardEvent None -> e <> RockfallEvent None ->
        e <> ToolEffectEvent None ->
        p ∈ players r -> role p = miner -> is_Some (onCardEvent id e r))
  /\ (forall id r,
        onCardEvent id (RockfallEvent None) r = None
        /\ onCardEvent id (ToolEffectEvent None) r = None
        /\ (onCardEvent id (PlaceCardEvent None) r = None <->
            notYourTurn id r = false
            /\ exists player,
                 getPlayer id (players r) = Some player
                 /\ toolBroken player = false /\ hand player <> [])
        /\ (forall res r',
              onCardEvent id (PlaceCardEvent None) r = Some (res, r') ->
              isError res = true /\ r' = r))
  /\ (forall id r,
        (forall payload,
           onCardEvent id (PlaceCardEvent (Some payload)) r = placeCard id payload r)
        /\ (forall tileId,
              onCardEvent id (RockfallEvent (Some tileId)) r = triggerRockfall id tileId r)
        /\ (forall payload,
              onCardEvent id (ToolEffectEvent (Some payload)) r
              = applyToolEffect id payload r))
  /\ (forall id i r,
        resolve id i r = None ->
        roundEnded r = false /\ players r <> []
        /\ Forall (fun p => role p = saboteur) (players r))
  /\ (forall socket name r,
        insertPlayer socket name r = None ->
        roundEnded r = false /\ winningTeam (board r) = Some miner).
Proof.
  split; [|split; [exact onCardEvent_thrown|split; [|split; [|split;
           [by repeat split|split; [exact resolve_thrown|exact insertPlayer_thrown]]]]]].
  - intros a r. destruct a as [socket name | id | id pos rot | id i | | now |];
      cbn [handle]; intros H.
    + right. by exists socket, name.
    + discriminate H.
    + discriminate H.
    + left. by exists id, i.
    + discriminate H.
    + discriminate H.
    + destruct (resetRoom_total r) as [r' Hr]. rewrite Hr in H. discriminate H.
  - intros id e r p H1 H2 H3 Hp Hrole.
    destruct (onCardEvent id e r) as [res|] eqn:E; [by eexists|].
    apply onCardEvent_thrown in E as [[E | [E | E]] | (_ & _ & Hall)];
      [by destruct H1 | by destruct H2 | by destruct H3 |].
    rewrite Forall_forall in Hall. specialize (Hall p Hp). congruence.
  - intros id r. split; [reflexivity|]. split; [reflexivity|].
    split; [exact (placeCardUnsent_thrown id r)|].
    intros res r'. exact (placeCardUnsent_returns id r res r').
Qed.

(** * Joining *)

Lemma countRole_absent ro (roles : list Role) :
  countRole ro roles = 0%nat -> ro ∉ roles.
Proof.
  unfold countRole. induction roles as [|x roles IH]; [intros _; apply not_elem_of_nil|].
  rewrite filter_cons. destruct (decide (x = ro)) as [->|Hne].
  - rewrite length_cons. discriminate.
  - intros H. apply not_elem_of_cons. split; [congruence | by apply IH].
Qed.

Lemma early_joiner_mines (n : nat) (h : Host) :
  (0 < n < 3)%nat ->
  default miner ((roleDistribution n h).1 !! (n - 1)%nat) = miner.
Proof.
  intros Hn. destruct (roleDistribution_quota n h) as (Hlen & _ & _ & H0 & _).
  cbv zeta in *. specialize (H0 ltac:(lia)). apply countRole_absent in H0.
  destruct ((roleDistribution n h).1 !! (n - 1)%nat) as [ro|] eqn:E; [|done].
  apply list_elem_of_lookup_2 in E. destruct ro; [done | by destruct H0].
Qed.

Lemma seatPlayer_frame player h r :
  table (seatPlayer player (setHost h r)) = table r
  /\ deck (seatPlayer player (setHost h r)) = deck r
  /\ players (seatPlayer player (setHost h r)) = putPlayer player (players r)
  /\ activePlayerId (metrics (seatPlayer player (setHost h r)))
     = activePlayerId (metrics r)
  /\ turnEndsAt (metrics (seatPlayer player (setHost h r))) = turnEndsAt (metrics r).
Proof. repeat split. Qed.

Lemma drawCards_deadline id count r r' :
  drawCards id count r = Some r' ->
  turnEndsAt (metrics r') = turnEndsAt (metrics r).
Proof.
  unfold drawCards. intros H.
  apply maybeFinishRound_metrics in H as (_ & _ & -> & _).
  unfold drawn.
  destruct (players_maybeDeclareSaboteurWin
              (refreshDeckRemaining (takeCards id count r))) as (_ & _ & ->).
  by rewrite takeCards_spec.
Qed.

Lemma setTurnTimer_index r : turnIndex (setTurnTimer r) = turnIndex r.
Proof.
  unfold setTurnTimer, clearTurnTimer.
  destruct (turnTimer r); destruct (negb _); reflexivity.
Qed.

Lemma insertPlayer_seats_shape (socket : string) (name : option string)
    (r r' : GameRoom) :
  insertPlayer socket name r = Some r' ->
  let n := (length (players r) + 1)%nat in
  let ro := default miner ((roleDistribution n (host r)).1 !! (n - 1)%nat) in
  let fresh := newPlayer socket name n ro in
  holding <$> players r'
  = holding <$> assignFirst (hasId socket)
                  (fun p => setHand (hand p ++ drawnCards 5 (deck r)) p)
                  (putPlayer fresh (players r))
  /\ playerId <$> players r'
     = (if bool_decide (socket ∈ playerId <$> players r)
        then playerId <$> players r else (playerId <$> players r) ++ [socket])
  /\ ((n < 3)%nat -> ro = miner)
  /\ suspicionByPlayer (metrics r')
     = <[socket := initialSuspicion ro]> (suspicionByPlayer (metrics r))
  /\ deck r' = take (length (deck r) - 5) (deck r)
  /\ table r' = table r
  /\ (truthy (activePlayerId (metrics r)) = true ->
      activePlayerId (metrics r') = activePlayerId (metrics r)
      /\ turnEndsAt (metrics r') = turnEndsAt (metrics r))
  /\ (truthy (activePlayerId (metrics r)) = false ->
      activePlayerId (metrics r') = Some socket /\ turnIndex r' = 0
      /\ (socket <> EmptyString ->
          turnEndsAt (metrics r') = Some (clock (host r') + 60000)
          /\ turnTimer r' = true)).
Proof.
  intros H. cbv zeta.
  pose proof (insertPlayer_quiet _ _ _ _ H) as (ro' & Hq).
  apply insertPlayer_inv in H as (r3 & E & ->). cbv zeta in E.
  set (n := (length (players r) + 1)%nat) in *.
  set (ro := default miner ((roleDistribution n (host r)).1 !! (n - 1)%nat)) in *.
  destruct (seatPlayer_frame (newPlayer socket name n ro) (roleDistribution n (host r)).2 r)
    as (Ht0 & Hd0 & Hp0 & Ha0 & He0).
  destruct (drawCards_spec _ _ _ _ E) as (Hd3 & _ & _ & _ & Hh3 & Ht3).
  destruct (drawCards_metrics _ _ _ _ E) as (Ha3 & _ & Hi3).
  pose proof (drawCards_deadline _ _ _ _ E) as He3.
  pose proof (quiet_drawCards _ _ _ _ E) as Hq3.
  apply quiet_inv in Hq3 as (Hs3 & _ & _).
  rewrite Ht0 in Ht3. rewrite Hd0 in Hd3. rewrite Hp0, Hd0 in Hh3.
  rewrite Ha0 in Ha3. rewrite Hp0 in Hi3. rewrite He0 in He3.
  destruct (turnOnly_frame _ _ (turnOnly_claimIdleTurn socket r3))
    as (_ & Hp9 & Hd9 & _ & _ & Ht9 & _ & _ & Hh9).
  destruct (turnOnly_suspicion _ _ (turnOnly_claimIdleTurn socket r3)) as (Hs9 & _).
  split; [by rewrite Hp9|].
  split; [rewrite Hp9, Hi3; apply (putPlayer_ids (newPlayer socket name n ro))|].
  split; [intros Hn; apply early_joiner_mines; unfold n in *; lia|].
  split; [by rewrite Hs9, Hs3|].
  split; [by rewrite Hd9|]. split; [by rewrite Ht9|].
  unfold claimIdleTurn in *. rewrite Ha3. split.
  - intros Htruthy. rewrite Htruthy. cbn [negb]. by rewrite Ha3, He3.
  - intros Htruthy. rewrite Htruthy. cbn [negb].
    rewrite setTurnTimer_active. split; [done|].
    split; [by rewrite setTurnTimer_index|].
    intros Hsocket.
    match goal with |- context [setTurnTimer ?x] =>
      destruct (setTurnTimer_deadline x) as [H1 H2];
      [|rewrite H1, H2; split; [|done];
        by rewrite (proj2 (proj2 (proj2 (proj2 (proj2 (proj2 (proj2 (proj2
             (turnOnly_frame _ _ (turnOnly_setTurnTimer x))))))))))] end.
    cbn [metrics onMetrics setMetrics setTurnIndex activePlayerId setActivePlayerId truthy].
    by destruct (String.eqb_spec socket EmptyString).
Qed.

(** * Rotations add up *)

Lemma rotationSteps_cases (r : Z) :
  rotationSteps r = 0 \/ rotationSteps r = 1 \/ rotationSteps r = 2
  \/ rotationSteps r = 3.
Proof. pose proof (rotationSteps_range r). lia. Qed.

Lemma rotationSteps_add (a b : Z) :
  rotationSteps (a + b) = (rotationSteps a + rotationSteps b) mod 4.
Proof. rewrite !rotationSteps_mod. apply Zplus_mod. Qed.

Lemma rotateLoop_openSides (n : nat) (c : PathConnectors) :
  openSides (rotateLoop n c) = openSides c.
Proof.
  revert c. induction n as [|n IH]; intros c; [done|]. cbn [rotateLoop].
  rewrite IH. destruct c as [[] [] [] []]; reflexivity.
Qed.

Lemma rotateConnectors_table (c : PathConnectors) (a : Z) :
  rotateConnectors (Some c) a
  = Some (match a mod 4 with
          | 0 => c
          | 1 => mkConnectors (west c) (north c) (east c) (south c)
          | 2 => mkConnectors (south c) (west c) (north c) (east c)
          | _ => mkConnectors (east c) (south c) (west c) (north c)
          end).
Proof.
  cbn [rotateConnectors]. f_equal.
  pose proof (rotationSteps_cases a) as Hcases. rewrite rotationSteps_mod in *.
  destruct Hcases as [-> | [-> | [-> | ->]]]; destruct c; reflexivity.
Qed.

(** Property X19.  Rotations add up: rotating by [a] and then by [b] is rotating
    by [a + b], for all integers; multiples of 4 change nothing.  A rotation
    by [a] turns the connectors clockwise by [a mod 4] quarter turns: one turn
    makes (n, e, s, w) into (w, n, e, s), two into (s, w, n, e), three, and
    rotation -1, into (e, s, w, n).  A rotation keeps the number of open
    sides. *)
Theorem rotateConnectors_composes (c : option PathConnectors) (a b : Z) :
  rotateConnectors (rotateConnectors c a) b = rotateConnectors c (a + b)
  /\ rotateConnectors c (a + 4 * b) = rotateConnectors c a
  /\ rotateConnectors c 0 = c
  /\ (forall n e s w : bool,
        rotateConnectors (Some (mkConnectors n e s w)) a
        = Some (match a mod 4 with
                | 0 => mkConnectors n e s w
                | 1 => mkConnectors w n e s
                | 2 => mkConnectors s w n e
                | _ => mkConnectors e s w n
                end)
        /\ rotateConnectors (Some (mkConnectors n e s w)) 1
           = Some (mkConnectors w n e s)
        /\ rotateConnectors (Some (mkConnectors n e s w)) (-1)
           = Some (mkConnectors e s w n))
  /\ openSides <$> rotateConnectors c a = openSides <$> c.
Proof.
  split; [|split; [|split; [|split]]].
  - destruct c as [c|]; [|reflexivity]. cbn [rotateConnectors].
    f_equal. rewrite rotateLoop_compose, rotationSteps_add.
    destruct (rotationSteps_cases a) as [-> | [-> | [-> | ->]]];
      destruct (rotationSteps_cases b) as [-> | [-> | [-> | ->]]];
      destruct c; reflexivity.
  - destruct c as [c|]; [|reflexivity]. cbn [rotateConnectors].
    f_equal. f_equal. f_equal. rewrite !rotationSteps_mod.
    rewrite (Z.mul_comm 4 b). apply Z.mod_add. lia.
  - destruct c; reflexivity.
  - intros n e s w. split; [|split; reflexivity].
    exact (rotateConnectors_table (mkConnectors n e s w) a).
  - destruct c as [c|]; [|reflexivity].
    cbn [rotateConnectors fmap option_fmap option_map].
    f_equal. apply rotateLoop_openSides.
Qed.

(** * The roles dealt *)

Lemma shuffleFrom_host {A} (i : nat) (a : list A) (h : Host) :
  (shuffleFrom i a h).2 = afterReads i h.
Proof.
  revert a h. induction i as [|i IH]; intros a h.
  - destruct h. unfold afterReads. cbn. f_equal. lia.
  - cbn [shuffleFrom randomBelow]. rewrite IH. unfold afterReads.
    cbn [random randPos uuids uuidPos clock]. f_equal. lia.
Qed.

Lemma roles_below (s start k : nat) :
  (start + k <= s)%nat ->
  (fun idx => if (idx <? s)%nat then saboteur else miner) <$> seq start k
  = replicate k saboteur.
Proof.
  revert start. induction k as [|k IH]; intros start Hk; [done|].
  cbn [seq]. rewrite fmap_cons. cbn [replicate].
  rewrite IH by lia. by rewrite (proj2 (Nat.ltb_lt start s)) by lia.
Qed.

Lemma roles_above (s start k : nat) :
  (s <= start)%nat ->
  (fun idx => if (idx <? s)%nat then saboteur else miner) <$> seq start k
  = replicate k miner.
Proof.
  revert start. induction k as [|k IH]; intros start Hk; [done|].
  cbn [seq]. rewrite fmap_cons. cbn [replicate].
  rewrite IH by lia. by rewrite (proj2 (Nat.ltb_ge start s)) by lia.
Qed.

Lemma rolesBeforeShuffle_blocks (n s : nat) :
  (s <= n)%nat ->
  rolesBeforeShuffle n s = replicate s saboteur ++ replicate (n - s) miner.
Proof.
  intros Hs. unfold rolesBeforeShuffle.
  replace n with (s + (n - s))%nat at 1 by lia.
  rewrite seq_app, fmap_app. f_equal.
  - apply roles_below. lia.
  - apply roles_above. lia.
Qed.

Lemma saboteurQuota_le (n : nat) : (saboteurQuota n <= n)%nat.
Proof. unfold saboteurQuota. repeat case_match; rewrite ?Nat.leb_le in *; lia. Qed.

(** Property X20.  Whatever the random source, the server's [roleDistribution]
    returns a permutation of quota-many saboteurs and miners for the rest,
    the quota being 0 below 3 players, 1 below 5, 2 below 7 and 3 from 7 on,
    and reads [n - 1] random numbers. *)
Theorem roleDistribution_permutes_quota (n : nat) (h : Host) :
  let quota := saboteurQuota n in
  (roleDistribution n h).1
    ≡ₚ replicate quota saboteur ++ replicate (n - quota) miner
  /\ (quota = if decide (n < 3)%nat then 0 else if decide (n < 5)%nat then 1
              else if decide (n < 7)%nat then 2 else 3)%nat
  /\ (roleDistribution n h).2 = afterReads (n - 1) h.
Proof.
  cbv zeta. split; [|split].
  - unfold roleDistribution. rewrite shuffle_Permutation.
    by rewrite rolesBeforeShuffle_blocks by apply saboteurQuota_le.
  - unfold saboteurQuota. repeat case_match; rewrite ?Nat.leb_le, ?Nat.leb_gt in *; lia.
  - unfold roleDistribution, shuffle. rewrite shuffleFrom_host.
    by rewrite length_rolesBeforeShuffle.
Qed.

(** * A declared win *)

Lemma kept_refl w : kept w w.
Proof. by split. Qed.

Lemma kept_trans w1 w2 w3 : kept w1 w2 -> kept w2 w3 -> kept w1 w3.
Proof. intros [H1 H2] [H3 H4]. split; auto. Qed.

Lemma kept_eq w w' : w' = w -> kept w w'.
Proof. intros ->. apply kept_refl. Qed.

Lemma kept_declareIfGold seen (l : list Tile) w :
  kept w (foldl (declareIfGold seen) w l).
Proof.
  revert w. induction l as [|t l IH]; intros w; [apply kept_refl|].
  cbn [foldl]. eapply kept_trans; [|apply IH].
  unfold declareIfGold. destruct (_ && _); [by split | apply kept_refl].
Qed.

Lemma kept_maybeDeclareSaboteurWin r :
  kept (winningTeam (board r)) (winningTeam (board (maybeDeclareSaboteurWin r))).
Proof.
  unfold maybeDeclareSaboteurWin. destruct (winningTeam (board r)) as [w|] eqn:E.
  - rewrite E. apply kept_refl.
  - destruct (_ =? _); [by split | rewrite E; apply kept_refl].
Qed.

Lemma kept_syncBoardTelemetry r :
  kept (winningTeam (board r)) (winningTeam (board (syncBoardTelemetry r))).
Proof.
  unfold syncBoardTelemetry. cbv zeta. rewrite board_refreshDeckRemaining.
  eapply kept_trans; [|apply kept_maybeDeclareSaboteurWin].
  cbn [onBoard board setBoard onMetrics setMetrics revealGoals winningTeam].
  apply kept_declareIfGold.
Qed.

Lemma board_maybeFinishRound placer r r' :
  maybeFinishRound placer r = Some r' -> board r' = board r.
Proof.
  intros H. apply maybeFinishRound_shape in H
    as [-> | (_ & _ & ps & gold & h & aw & wi & -> & _)]; reflexivity.
Qed.

Lemma kept_drawCards id count r r' :
  drawCards id count r = Some r' ->
  kept (winningTeam (board r)) (winningTeam (board r')).
Proof.
  unfold drawCards. intros H. rewrite (board_maybeFinishRound _ _ _ H).
  unfold drawn. eapply kept_trans; [|apply kept_maybeDeclareSaboteurWin].
  apply kept_eq. by rewrite board_refreshDeckRemaining, (proj2 (takeCards_deck id count r)).
Qed.

Lemma kept_turnOnly r r' :
  turnOnly r r' -> kept (winningTeam (board r)) (winningTeam (board r')).
Proof. intros H. apply kept_eq. by rewrite (proj1 (turnOnly_frame _ _ H)). Qed.

Lemma kept_resolve id i r res r' :
  resolve id i r = Some (res, r') ->
  kept (winningTeam (board r)) (winningTeam (board r')).
Proof.
  destruct i as [payload | tileId | payload]; cbn [resolve]; intros H.
  - apply placeCard_inv in H
      as [[_ ->] | (player & card & tile & c & _ & _ & _ & Hcommit & _)];
      [apply kept_refl|].
    apply commitPlacement_inv in Hcommit as (r7 & E7 & Hfin).
    rewrite (board_maybeFinishRound _ _ _ Hfin).
    eapply kept_trans; [|apply kept_turnOnly, turnOnly_advanceTurn].
    eapply kept_trans; [|apply kept_syncBoardTelemetry].
    eapply kept_trans; [|exact (kept_drawCards _ _ _ _ E7)].
    apply kept_eq. reflexivity.
  - apply triggerRockfall_inv in H
      as [[_ ->] | (player & card & tile & r6 & _ & _ & _ & _ & _ & E6 & -> & _)];
      [apply kept_refl|].
    eapply kept_trans; [|apply kept_turnOnly, turnOnly_advanceTurn].
    eapply kept_trans; [|apply kept_syncBoardTelemetry].
    eapply kept_trans; [|exact (kept_drawCards _ _ _ _ E6)].
    apply kept_eq. reflexivity.
  - apply applyToolEffect_inv in H
      as [[_ ->] | (actor & target & card & r3 & _ & _ & _ & _ & E3 & -> & _)];
      [apply kept_refl|].
    eapply kept_trans; [|apply kept_turnOnly, turnOnly_advanceTurn].
    eapply kept_trans; [|apply kept_eq; reflexivity].
    eapply kept_trans; [|exact (kept_drawCards _ _ _ _ E3)].
    apply kept_eq. unfold stageToolEffect. by destruct (bool_decide _).
Qed.

Lemma kept_handle a r r' :
  isRestart a = false -> handle a r = Some r' ->
  kept (winningTeam (board r)) (winningTeam (board r')).
Proof.
  destruct a as [socket name | id | id pos rot | id i | | now |];
    cbn [handle isRestart]; intros Ha H.
  - apply insertPlayer_inv in H as (r3 & E & ->). cbv zeta in E.
    eapply kept_trans; [|apply kept_turnOnly, turnOnly_claimIdleTurn].
    eapply kept_trans; [|exact (kept_drawCards _ _ _ _ E)].
    apply kept_eq. reflexivity.
  - injection H as <-. unfold removePlayer. cbv zeta.
    destruct (bool_decide _); [|apply kept_refl].
    eapply kept_trans; [|apply kept_turnOnly, turnOnly_advanceTurn]. apply kept_refl.
  - injection H as <-. unfold updatePlayerPose.
    destruct (getPlayer _ _); apply kept_refl.
  - destruct (resolve id i r) as [[res r1]|] eqn:E; [|discriminate H].
    injection H as <-. exact (kept_resolve _ _ _ _ _ E).
  - injection H as <-. apply kept_turnOnly, turnOnly_advanceTurn.
  - injection H as <-. apply kept_refl.
  - discriminate Ha.
Qed.

Lemma kept_run actions r r' :
  Forall (fun a => isRestart a = false) actions -> run actions r = Some r' ->
  kept (winningTeam (board r)) (winningTeam (board r')).
Proof.
  revert r. induction actions as [|a rest IH]; intros r Hall; cbn [run]; intros H.
  - injection H as <-. apply kept_refl.
  - apply Forall_cons in Hall as [Ha Hrest].
    destruct (handle a r) as [r1|] eqn:E; [|discriminate H].
    cbn [mbind option_bind] in H.
    eapply kept_trans; [exact (kept_handle _ _ _ Ha E) | exact (IH _ Hrest H)].
Qed.

(** Property X21.  No handler other than the restart, and no sequence of such
    handlers, withdraws a declared win or takes a win away from the miners (a
    saboteur win can still turn into a miner win); the restart starts from a
    board without winning team. *)
Theorem declared_win_is_kept :
  (forall a r r',
      isRestart a = false -> handle a r = Some r' ->
      (winningTeam (board r) = Some miner -> winningTeam (board r') = Some miner)
      /\ (winningTeam (board r) <> None -> winningTeam (board r') <> None))
  /\ (forall actions r r',
        Forall (fun a => isRestart a = false) actions -> run actions r = Some r' ->
        (winningTeam (board r) = Some miner -> winningTeam (board r') = Some miner)
        /\ (winningTeam (board r) <> None -> winningTeam (board r') <> None))
  /\ (forall r, winningTeam (board (renewRoom r)) = None).
Proof.
  split; [exact kept_handle|]. split; [exact kept_run|]. exact renewRoom_winningTeam.
Qed.

(** * The deal of a restart *)

Lemma assignFirst_at {X} (v : Player -> X) (id : string) (g : Player -> Player)
    (qs : list Player) (k : nat) (w : X) :
  NoDup (playerId <$> qs) -> (playerId <$> qs) !! k = Some id ->
  (forall p, playerId p = id -> v (g p) = w) ->
  v <$> assignFirst (hasId id) g qs = <[k := w]> (v <$> qs).
Proof.
  intros Hnd Hk Hg. revert k Hnd Hk.
  induction qs as [|a qs IH]; intros k Hnd Hk; [done|].
  rewrite fmap_cons in Hnd, Hk. apply NoDup_cons in Hnd as [Ha Hnd].
  cbn [assignFirst]. destruct k as [|k].
  - cbn in Hk. injection Hk as Hid.
    rewrite (proj2 (hasId_true id a) Hid). rewrite !fmap_cons. cbn. by rewrite (Hg a Hid).
  - cbn in Hk. destruct (hasId id a) eqn:E.
    + apply hasId_true in E. destruct Ha. rewrite E. by eapply list_elem_of_lookup_2.
    + rewrite !fmap_cons. cbn. by rewrite (IH k Hnd Hk).
Qed.

Lemma resetSeat_frame id s ro r :
  deck (setSuspicion id s (onPlayer id (resetPlayer ro) r)) = deck r
  /\ players (setSuspicion id s (onPlayer id (resetPlayer ro) r))
     = assignFirst (hasId id) (resetPlayer ro) (players r)
  /\ table (setSuspicion id s (onPlayer id (resetPlayer ro) r)) = table r
  /\ board (setSuspicion id s (onPlayer id (resetPlayer ro) r)) = board r
  /\ activePlayerId (metrics (setSuspicion id s (onPlayer id (resetPlayer ro) r)))
     = activePlayerId (metrics r)
  /\ roundNumber (setSuspicion id s (onPlayer id (resetPlayer ro) r)) = roundNumber r.
Proof. repeat split. Qed.

Lemma resetSeat_deal roles r k id r' :
  NoDup (playerId <$> players r) -> (playerId <$> players r) !! k = Some id ->
  resetSeat roles (Some r) (k, id) = Some r' ->
  holding <$> players r'
  = <[k := (id, default miner (roles !! k), drawnCards 5 (deck r), false)]>
      (holding <$> players r)
  /\ deck r' = take (length (deck r) - 5) (deck r)
  /\ table r' = table r
  /\ playerId <$> players r' = playerId <$> players r.
Proof.
  intros Hnd Hk. unfold resetSeat. cbn [mbind option_bind fst snd]. cbv zeta.
  intros E.
  destruct (resetSeat_frame id (initialSuspicion (default miner (roles !! k)))
              (default miner (roles !! k)) r) as (Hd & Hp & Ht & _).
  destruct (drawCards_spec _ _ _ _ E) as (Hd' & _ & _ & _ & Hh' & Ht').
  destruct (drawCards_metrics _ _ _ _ E) as (_ & _ & Hi').
  rewrite Hd in Hd'. rewrite Hp, Hd in Hh'. rewrite Ht in Ht'. rewrite Hp in Hi'.
  split; [|split; [done | split; [done|]]].
  - rewrite Hh', assignFirst_compose by done.
    apply (assignFirst_at holding _ _ _ k); [done..|].
    intros p Hid. unfold holding. cbn. by rewrite Hid.
  - rewrite Hi'. by apply assignFirst_fmap.
Qed.

Lemma seats_lookup (ps : list Player) (k : nat) (p : Player) :
  ps !! k = Some p ->
  imap (fun idx p => (idx, playerId p)) ps !! k = Some (k, playerId p).
Proof. intros H. by rewrite list_lookup_imap, H. Qed.

Lemma dealt_next roles d (ps : list Player) (k : nat) (p : Player) :
  ps !! k = Some p ->
  <[k := dealtSeat roles d k p]>
    (imap (fun idx p => if (idx <? k)%nat then dealtSeat roles d idx p else holding p) ps)
  = imap (fun idx p => if (idx <? S k)%nat then dealtSeat roles d idx p else holding p) ps.
Proof.
  intros Hk. apply list_eq. intros i. destruct (decide (i = k)) as [->|Hne].
  - rewrite list_lookup_insert_eq by (rewrite length_imap; by eapply lookup_lt_Some).
    rewrite list_lookup_imap, Hk. cbn [fmap option_fmap option_map].
    by rewrite (proj2 (Nat.ltb_lt k (S k))) by lia.
  - rewrite list_lookup_insert_ne by done. rewrite !list_lookup_imap.
    destruct (ps !! i) as [q|]; [|done]. cbn [fmap option_fmap option_map]. f_equal.
    destruct (i <? k)%nat eqn:E1, (i <? S k)%nat eqn:E2; try done;
      rewrite ?Nat.ltb_lt, ?Nat.ltb_ge in *; lia.
Qed.

Lemma resetSeats_deal roles r0 k rk :
  NoDup (playerId <$> players r0) -> (k <= length (players r0))%nat ->
  foldl (resetSeat roles) (Some r0)
    (take k (imap (fun idx p => (idx, playerId p)) (players r0))) = Some rk ->
  holding <$> players rk
  = imap (fun idx p => if (idx <? k)%nat then dealtSeat roles (deck r0) idx p
                       else holding p) (players r0)
  /\ deck rk = take (length (deck r0) - 5 * k) (deck r0)
  /\ table rk = table r0
  /\ playerId <$> players rk = playerId <$> players r0.
Proof.
  intros Hnd. revert rk. induction k as [|k IH]; intros rk Hk H.
  - rewrite take_0 in H. injection H as <-.
    split; [|split; [|done]].
    + rewrite <- (imap_const holding). by apply imap_ext.
    + rewrite Nat.mul_0_r, Nat.sub_0_r. by rewrite firstn_all.
  - destruct (lookup_lt_is_Some_2 (players r0) k) as [p Hp]; [lia|].
    rewrite (take_S_r _ _ _ (seats_lookup _ _ _ Hp)), foldl_app in H.
    destruct (foldl _ _ (take k _)) as [rk0|] eqn:E0; [|discriminate H].
    cbn [foldl] in H.
    destruct (IH rk0 ltac:(lia) eq_refl) as (Hh0 & Hd0 & Ht0 & Hi0).
    assert (Hid : (playerId <$> players rk0) !! k = Some (playerId p))
      by (by rewrite Hi0, list_lookup_fmap, Hp).
    destruct (resetSeat_deal roles rk0 k (playerId p) rk) as (Hh & Hd & Ht & Hi);
      [by rewrite Hi0 | done | done |].
    split; [|split; [|split; congruence]].
    + rewrite Hh, Hh0, Hd0. by apply dealt_next.
    + rewrite Hd, Hd0, take_take, length_take. f_equal. lia.
Qed.

Lemma drawCards_plain id count r :
  winningTeam (board r) = None -> (count < length (deck r))%nat ->
  drawCards id count r = Some (refreshDeckRemaining (takeCards id count r)).
Proof.
  intros Hw Hlen. unfold drawCards, drawn.
  destruct (takeCards_deck id count r) as [Hd Hb].
  set (y := refreshDeckRemaining (takeCards id count r)).
  assert (Hby : board y = board r) by (unfold y; by rewrite board_refreshDeckRemaining).
  assert (Hry : deckRemaining (metrics y) = Z.of_nat (length (deck (takeCards id count r))))
    by reflexivity.
  clearbody y.
  assert (Hm : maybeDeclareSaboteurWin y = y).
  { unfold maybeDeclareSaboteurWin. rewrite Hby, Hw, Hry, Hd, length_take.
    destruct (Z.eqb_spec (Z.of_nat ((length (deck r) - count) `min` length (deck r))) 0);
      [lia | done]. }
  rewrite Hm. unfold maybeFinishRound. rewrite Hby, Hw. by destruct (roundEnded y).
Qed.

(** While cards are left, the reset of a seat settles nothing. *)
Lemma resetSeat_open roles r s r' :
  winningTeam (board r) = None -> (5 < length (deck r))%nat ->
  resetSeat roles (Some r) s = Some r' ->
  board r' = board r /\ ledger r' = ledger r
  /\ deckRemaining (metrics r') = Z.of_nat (length (deck r')).
Proof.
  intros Hw Hlen. unfold resetSeat. cbn [mbind option_bind]. cbv zeta.
  destruct (resetSeat_frame s.2 (initialSuspicion (default miner (roles !! s.1)))
              (default miner (roles !! s.1)) r) as (Hd & _ & _ & Hb & _).
  rewrite drawCards_plain by (by rewrite ?Hb, ?Hd).
  intros H. injection H as <-.
  rewrite board_refreshDeckRemaining, (proj2 (takeCards_deck _ _ _)), Hb.
  split; [done|]. split; [|reflexivity].
  rewrite ledger_refreshDeckRemaining, ledger_takeCards, ledger_setSuspicion.
  by apply ledger_onPlayer.
Qed.

Lemma resetSeats_open roles r0 k rk :
  winningTeam (board r0) = None -> (5 * k < length (deck r0))%nat ->
  (k <= length (players r0))%nat ->
  NoDup (playerId <$> players r0) ->
  deckRemaining (metrics r0) = Z.of_nat (length (deck r0)) ->
  foldl (resetSeat roles) (Some r0)
    (take k (imap (fun idx p => (idx, playerId p)) (players r0))) = Some rk ->
  board rk = board r0 /\ ledger rk = ledger r0
  /\ deckRemaining (metrics rk) = Z.of_nat (length (deck rk)).
Proof.
  intros Hw Hlen Hk Hnd Hrem. revert rk Hlen Hk.
  induction k as [|k IH]; intros rk Hlen Hk H.
  - rewrite take_0 in H. by injection H as <-.
  - destruct (lookup_lt_is_Some_2 (players r0) k) as [p Hp]; [lia|].
    rewrite (take_S_r _ _ _ (seats_lookup _ _ _ Hp)), foldl_app in H.
    destruct (foldl _ _ (take k _)) as [rk0|] eqn:E0; [|discriminate H].
    cbn [foldl] in H.
    destruct (IH rk0 ltac:(lia) ltac:(lia) eq_refl) as (Hb0 & Hl0 & Hr0).
    destruct (resetSeats_deal roles r0 k rk0 Hnd ltac:(lia) E0) as (_ & Hd0 & _).
    destruct (resetSeat_open roles rk0 (k, playerId p) rk) as (Hb & Hl & Hr);
      [by rewrite Hb0 | rewrite Hd0, length_take; lia | done |].
    split; [congruence|]. split; [congruence | done].
Qed.

Lemma roundNumber_drawCards id count r r' :
  drawCards id count r = Some r' -> roundNumber r' = roundNumber r.
Proof.
  unfold drawCards. intros H.
  assert (Hd : roundNumber (drawn id count r) = roundNumber r).
  { unfold drawn, maybeDeclareSaboteurWin. rewrite takeCards_spec.
    repeat case_match; reflexivity. }
  apply maybeFinishRound_shape in H
    as [-> | (_ & _ & ps & gold & h & aw & wi & -> & _)]; by rewrite <- Hd.
Qed.

Lemma resetSeat_turn roles r s r' :
  resetSeat roles (Some r) s = Some r' ->
  activePlayerId (metrics r') = activePlayerId (metrics r)
  /\ roundNumber r' = roundNumber r.
Proof.
  unfold resetSeat. cbn [mbind option_bind]. cbv zeta. intros E.
  destruct (drawCards_metrics _ _ _ _ E) as (-> & _).
  by rewrite (roundNumber_drawCards _ _ _ _ E).
Qed.

Lemma turnOnly_roundNumber r r' : turnOnly r r' -> roundNumber r' = roundNumber r.
Proof. by intros (a & e & i & tm & ->). Qed.

Lemma roundNumber_syncBoardTelemetry r :
  roundNumber (syncBoardTelemetry r) = roundNumber r.
Proof.
  unfold syncBoardTelemetry, maybeDeclareSaboteurWin. cbv zeta.
  repeat case_match; reflexivity.
Qed.

Lemma renewRoom_frame r :
  let fresh := createBoard (host r) in
  let shuffled := generateDeck fresh.2 in
  deck (renewRoom r) = shuffled.1
  /\ host (renewRoom r) = shuffled.2
  /\ roundNumber (renewRoom r) = roundNumber r + 1
  /\ activePlayerId (metrics (renewRoom r)) = None
  /\ deckRemaining (metrics (renewRoom r)) = Z.of_nat (length shuffled.1)
  /\ table (renewRoom r) = (tiles fresh.1, [], 0, 0)
  /\ ledger (renewRoom r)
     = (false, goldByPlayer (metrics r), (fun p => (playerId p, score p)) <$> players r).
Proof.
  cbv zeta. unfold renewRoom. destruct (createBoard _) as [b h1].
  destruct (generateDeck _) as [d h2]. cbv zeta. cbn [fst snd].
  unfold clearTurnTimer. cbn [turnTimer]. by destruct (turnTimer r).
Qed.

Lemma resetRoom_steps r r' :
  resetRoom r = Some r' ->
  let dealt := roleDistribution (length (players (renewRoom r))) (host (renewRoom r)) in
  exists r3,
    foldl (resetSeat dealt.1) (Some (setHost dealt.2 (renewRoom r)))
      (imap (fun idx p => (idx, playerId p)) (players (renewRoom r))) = Some r3
    /\ r' = syncBoardTelemetry (seatFirstTurn r3).
Proof.
  unfold resetRoom. cbv zeta. destruct (roleDistribution _ _) as [roles h3].
  cbn [fst snd].
  destruct (foldl _ _ _) as [r3|] eqn:E; cbn [mbind option_bind]; intros H;
    [|discriminate H].
  injection H as <-. exists r3. split; reflexivity.
Qed.

Lemma fresh_tiles_stay (h : Host) :
  revealIfReached {[ tileId 3 0 ]} <$> tiles (createBoard h).1 = tiles (createBoard h).1.
Proof.
  pose proof (revealGoals_fresh h) as H.
  apply (f_equal tiles) in H. exact H.
Qed.

Lemma syncBoardTelemetry_fresh (h : Host) (x : GameRoom) :
  tiles (board x) = tiles (createBoard h).1 ->
  tiles (board (syncBoardTelemetry x)) = tiles (createBoard h).1.
Proof.
  intros Hb. pose proof (table_syncBoardTelemetry x) as Ht.
  apply table_parts in Ht as (-> & _).
  rewrite (exploreBoard_tiles (board x) (createBoard h).1 Hb), exploreBoard_fresh.
  cbn [visited]. rewrite Hb. apply fresh_tiles_stay.
Qed.

Lemma syncBoardTelemetry_no_win (h : Host) (x : GameRoom) :
  board x = (createBoard h).1 -> deckRemaining (metrics x) <> 0 ->
  winningTeam (board (syncBoardTelemetry x)) = None.
Proof.
  intros Hb Hrem. unfold syncBoardTelemetry. cbv zeta.
  rewrite board_refreshDeckRemaining, Hb, exploreBoard_fresh. cbn [visited].
  set (z := onBoard _ _).
  assert (Hz : board z = (createBoard h).1).
  { unfold z. cbn [onBoard board setBoard onMetrics setMetrics].
    rewrite Hb. apply revealGoals_fresh. }
  assert (Hr : deckRemaining (metrics z) = deckRemaining (metrics x)) by reflexivity.
  clearbody z. unfold maybeDeclareSaboteurWin.
  rewrite Hz, createBoard_winningTeam, Hr.
  destruct (Z.eqb_spec (deckRemaining (metrics x)) 0); [done|].
  by rewrite Hz, createBoard_winningTeam.
Qed.

Lemma ledger_seatFirstTurn r : ledger (seatFirstTurn r) = ledger r.
Proof.
  unfold seatFirstTurn. destruct (playerId <$> players r); [done|].
  by rewrite ledger_setTurnTimer.
Qed.

Lemma seatFirstTurn_active r :
  activePlayerId (metrics r) = None ->
  activePlayerId (metrics (seatFirstTurn r)) = head (playerId <$> players r).
Proof.
  intros Ha. unfold seatFirstTurn. destruct (playerId <$> players r); [done|].
  by rewrite setTurnTimer_active.
Qed.

Lemma roles_of_dealt roles d (ps : list Player) :
  length roles = length ps ->
  (fun t : string * Role * list CardInstance * bool => t.1.1.2)
    <$> imap (dealtSeat roles d) ps = roles.
Proof.
  intros Hlen. apply list_eq. intros i.
  rewrite list_lookup_fmap, list_lookup_imap.
  destruct (ps !! i) as [p|] eqn:Hp; cbn.
  - apply lookup_lt_Some in Hp.
    destruct (lookup_lt_is_Some_2 roles i) as [ro Hro]; [lia|]. by rewrite Hro.
  - apply lookup_ge_None in Hp. symmetry. apply lookup_ge_None. lia.
Qed.

Lemma setHost_frame h x :
  deck (setHost h x) = deck x /\ metrics (setHost h x) = metrics x
  /\ table (setHost h x) = table x /\ ledger (setHost h x) = ledger x
  /\ roundNumber (setHost h x) = roundNumber x.
Proof. repeat split. Qed.

(** Property X22.  With distinct player ids, a restart that returns keeps the
    players in their seats and gives seat [idx] the role [roles[idx]] of a
    fresh role distribution (so the saboteur count is the quota), a working
    tool and the five cards left at the end of the fresh deck after the seats
    before it; the deck keeps its first [59 - 5 n] cards; the tiles are those
    of a fresh board, the discard pile and the counters are reset, the round
    number is one higher and the first player is active.  With at most 11
    players nothing is settled during the restart: the round is open, there
    is no winning team and the gold tallies and scores are as before. *)
Theorem resetRoom_deals_afresh (r r' : GameRoom) :
  NoDup (playerId <$> players r) ->
  resetRoom r = Some r' ->
  let fresh := createBoard (host r) in
  let shuffled := generateDeck fresh.2 in
  let n := length (players r) in
  let roles := (roleDistribution n shuffled.2).1 in
  holding <$> players r' = imap (dealtSeat roles shuffled.1) (players r)
  /\ role <$> players r' = roles
  /\ countRole saboteur (role <$> players r') = saboteurQuota n
  /\ deck r' = take (59 - 5 * n) shuffled.1
  /\ table r' = (tiles fresh.1, [], 0, 0)
  /\ roundNumber r' = roundNumber r + 1
  /\ activePlayerId (metrics r') = head (playerId <$> players r)
  /\ ((n <= 11)%nat ->
      roundEnded r' = false /\ winningTeam (board r') = None
      /\ goldByPlayer (metrics r') = goldByPlayer (metrics r)
      /\ (fun p => (playerId p, score p)) <$> players r'
         = (fun p => (playerId p, score p)) <$> players r).
Proof.
  intros Hnd H. cbv zeta.
  apply resetRoom_steps in H as (r3 & Hfold & ->). cbv zeta in Hfold.
  destruct (renewRoom_frame r) as (Hd0 & Hh0 & Hn0 & Ha0 & Hr0 & Ht0 & Hl0).
  cbv zeta in Hd0, Hh0, Hr0, Ht0.
  pose proof (renewRoom_players r) as Hp0.
  pose proof (board_renewRoom r) as Hb0.
  rewrite Hp0, Hh0 in Hfold.
  set (fresh := createBoard (host r)) in *.
  set (shuffled := generateDeck fresh.2) in *.
  set (dealt := roleDistribution (length (players r)) shuffled.2) in *.
  set (r0 := setHost dealt.2 (renewRoom r)) in *.
  destruct (setHost_frame dealt.2 (renewRoom r)) as (Hsd & Hsm & Hst & Hsl & Hsn).
  fold r0 in Hsd, Hsm, Hst, Hsl, Hsn.
  assert (Hp : players r0 = players r) by (unfold r0; by rewrite players_setHost).
  assert (Hd : deck r0 = shuffled.1) by (by rewrite Hsd).
  assert (Hb : board r0 = fresh.1) by (unfold r0; by rewrite board_setHost).
  assert (Hrem : deckRemaining (metrics r0) = Z.of_nat (length (deck r0)))
    by (by rewrite Hd, Hsm).
  assert (Htab : table r0 = (tiles fresh.1, [], 0, 0)) by (by rewrite Hst).
  assert (Hled : ledger r0 = (false, goldByPlayer (metrics r),
                              (fun p => (playerId p, score p)) <$> players r))
    by (by rewrite Hsl).
  assert (Hact : activePlayerId (metrics r0) = None) by (by rewrite Hsm).
  assert (Hnum : roundNumber r0 = roundNumber r + 1) by (by rewrite Hsn).
  assert (Hlen : length shuffled.1 = 59%nat) by apply generateDeck_length.
  clearbody r0. rewrite <- Hp in Hfold, Hnd.
  assert (Hfold' : foldl (resetSeat dealt.1) (Some r0)
            (take (length (players r0))
               (imap (fun idx p => (idx, playerId p)) (players r0))) = Some r3).
  { rewrite take_ge; [done|]. by rewrite length_imap. }
  destruct (resetSeats_deal _ _ _ _ Hnd (Nat.le_refl _) Hfold')
    as (Hh3 & Hd3 & Ht3 & Hi3).
  assert (Hturn : activePlayerId (metrics r3) = None /\ roundNumber r3 = roundNumber r + 1).
  { revert Hfold. apply (resetSeats_ind
      (fun x => activePlayerId (metrics x) = None /\ roundNumber x = roundNumber r + 1)).
    - intros x s x' [Hx1 Hx2] E. apply resetSeat_turn in E as [-> ->].
      split; assumption.
    - split; assumption. }
  destruct Hturn as [Ha3 Hn3].
  set (x := seatFirstTurn r3).
  destruct (turnOnly_frame _ _ (turnOnly_seatFirstTurn r3))
    as (Hbx & Hpx & Hdx & _ & _ & Htx & Hrx & _).
  pose proof (turnOnly_roundNumber _ _ (turnOnly_seatFirstTurn r3)) as Hnx.
  pose proof (seatFirstTurn_active r3 Ha3) as Hax.
  fold x in Hbx, Hpx, Hdx, Htx, Hrx, Hnx, Hax.
  destruct (syncBoardTelemetry_frame x) as (Hps & Hds & Has & _).
  assert (Hholding : holding <$> players (syncBoardTelemetry x)
                     = imap (dealtSeat dealt.1 shuffled.1) (players r)).
  { rewrite Hps, Hpx, Hh3, Hd, Hp. apply imap_ext. intros i p Hi.
    apply lookup_lt_Some in Hi. cbv beta.
    by rewrite (proj2 (Nat.ltb_lt i (length (players r)))) by done. }
  assert (Hroles : role <$> players (syncBoardTelemetry x) = dealt.1).
  { rewrite <- (roles_of_dealt dealt.1 shuffled.1 (players r))
      by apply roleDistribution_length.
    rewrite <- Hholding, <- list_fmap_compose. done. }
  split; [exact Hholding|]. split; [exact Hroles|].
  split; [rewrite Hroles; apply roleDistribution_quota|].
  split; [by rewrite Hds, Hdx, Hd3, Hd, Hlen, Hp|].
  split.
  { pose proof (table_syncBoardTelemetry x) as Hts.
    rewrite Ht3, Htab in Htx.
    apply table_parts in Htx as (Htiles & Hdis & Hn & Hk).
    rewrite Hdis, Hn, Hk in Hts. rewrite Hts. f_equal. f_equal. f_equal.
    pose proof (syncBoardTelemetry_fresh (host r) x Htiles) as Hfresh.
    apply table_parts in Hts as (Hts & _). by rewrite <- Hts. }
  split; [by rewrite roundNumber_syncBoardTelemetry, Hnx|].
  split; [by rewrite Has, Hax, Hi3, Hp|].
  intros Hfew.
  destruct (resetSeats_open dealt.1 r0 (length (players r0)) r3)
    as (Hb3 & Hl3 & Hr3); [by rewrite Hb; apply createBoard_winningTeam
                          | rewrite Hd, Hlen, Hp; lia | done | done | done | done |].
  pose proof (ledger_syncBoardTelemetry x) as Hls.
  pose proof (ledger_seatFirstTurn r3) as Hlx. fold x in Hlx.
  rewrite Hlx, Hl3, Hled in Hls.
  unfold ledger in Hls. injection Hls as He Hg Hs.
  split; [done|]. split; [|by split].
  apply (syncBoardTelemetry_no_win (host r)).
  - by rewrite Hbx, Hb3, Hb.
  - rewrite Hrx, Hr3, Hd3, Hd, length_take, Hlen, Hp. lia.
Qed.

(** * The turn goes round *)

Lemma advanceTurn_successor r i cur :
  NoDup (playerId <$> players r) ->
  (playerId <$> players r) !! i = Some cur ->
  activePlayerId (metrics r) = Some cur ->
  activePlayerId (metrics (advanceTurn r))
  = (playerId <$> players r) !! (S i mod length (playerId <$> players r))%nat.
Proof.
  intros Hnd Hi Hact.
  assert (Hne : playerId <$> players r <> []) by (intros E; by rewrite E in Hi).
  rewrite (advanceTurn_active r Hne). cbv zeta.
  rewrite Hact, (indexOf_found _ _ _ Hnd Hi).
  replace (0 <=? Z.of_nat i) with true by (symmetry; apply Z.leb_le; lia).
  rewrite successor_index; [done|].
  apply lookup_lt_Some in Hi. lia.
Qed.

Lemma turns_keep_players k r :
  players (Nat.iter k advanceTurn r) = players r.
Proof.
  induction k as [|k IH]; [done|]. rewrite Nat.iter_succ.
  by rewrite (proj1 (proj2 (turnOnly_frame _ _ (turnOnly_advanceTurn _)))).
Qed.

(** Property X23.  With distinct player ids and the player at index [i] active,
    [k] calls of [advanceTurn] in a row make the player at index
    [(i + k) mod n] active; after [n] calls the turn is back where it was, so
    every player had it once. *)
Theorem turn_order_is_round_robin (r : GameRoom) (i : nat) (cur : string) (k : nat) :
  NoDup (playerId <$> players r) ->
  (playerId <$> players r) !! i = Some cur ->
  activePlayerId (metrics r) = Some cur ->
  let ids := playerId <$> players r in
  activePlayerId (metrics (Nat.iter k advanceTurn r)) = ids !! ((i + k) mod length ids)%nat
  /\ activePlayerId (metrics (Nat.iter (length ids) advanceTurn r)) = Some cur.
Proof.
  intros Hnd Hi Hact. cbv zeta.
  pose proof (lookup_lt_Some _ _ _ Hi) as Hlt.
  assert (Hall : forall j,
            activePlayerId (metrics (Nat.iter j advanceTurn r))
            = (playerId <$> players r) !! ((i + j) mod length (playerId <$> players r))%nat).
  { induction j as [|j IH].
    - cbn [Nat.iter nat_rect]. by rewrite Nat.add_0_r, Nat.mod_small, Hact.
    - rewrite Nat.iter_succ.
      destruct (lookup_lt_is_Some_2 (playerId <$> players r)
                  ((i + j) mod length (playerId <$> players r))%nat) as [next Hnext];
        [apply Nat.mod_upper_bound; lia|].
      rewrite Hnext in IH.
      rewrite (advanceTurn_successor _ ((i + j) mod length (playerId <$> players r)) next);
        rewrite ?turns_keep_players; [|done..].
      f_equal. replace (i + S j)%nat with (i + j + 1)%nat by lia.
      replace (S ((i + j) mod length (playerId <$> players r)))
        with ((i + j) mod length (playerId <$> players r) + 1)%nat by lia.
      by rewrite Nat.Div0.add_mod_idemp_l. }
  split; [apply Hall|].
  rewrite Hall. replace (i + length (playerId <$> players r))%nat
    with (i + 1 * length (playerId <$> players r))%nat by lia.
  by rewrite Nat.Div0.mod_add, Nat.mod_small.
Qed.

(** * Moving about *)

Lemma find_assignFirst {A} (pr : A -> bool) (f : A -> A) (l : list A) (x : A) :
  List.find pr l = Some x -> pr (f x) = true ->
  List.find pr (assignFirst pr f l) = Some (f x).
Proof.
  intros Hfind Hf. induction l as [|y l IH]; [discriminate Hfind|].
  cbn [List.find assignFirst] in *. destruct (pr y) eqn:E.
  - injection Hfind as ->. cbn [List.find]. by rewrite Hf.
  - cbn [List.find]. rewrite E. by apply IH.
Qed.

Lemma assignFirst_idle {A} (pr : A -> bool) (f : A -> A) (l : list A) :
  List.find pr l = None -> assignFirst pr f l = l.
Proof.
  induction l as [|x l IH]; [reflexivity|]. cbn [List.find assignFirst].
  destruct (pr x); [discriminate|]. intros H. by rewrite IH.
Qed.

Lemma find_assignFirst_other {A} (pr q : A -> bool) (f : A -> A) (l : list A) :
  (forall x, pr (f x) = pr x) -> (forall x, q x = true -> pr x = false) ->
  List.find pr (assignFirst q f l) = List.find pr l.
Proof.
  intros Hf Hq. induction l as [|x l IH]; [reflexivity|].
  cbn [assignFirst]. destruct (q x) eqn:E; cbn [List.find].
  - by rewrite Hf, (Hq x E).
  - by rewrite IH.
Qed.

Lemma assignFirst_swap {A} (pr q : A -> bool) (f g : A -> A) (l : list A) :
  (forall x, pr (g x) = pr x) -> (forall x, q (f x) = q x) ->
  (forall x, pr x = true -> q x = false) ->
  assignFirst pr f (assignFirst q g l) = assignFirst q g (assignFirst pr f l).
Proof.
  intros Hg Hf Hpq. induction l as [|x l IH]; [reflexivity|].
  cbn [assignFirst]. destruct (q x) eqn:Eq, (pr x) eqn:Ep; cbn [assignFirst].
  - by rewrite (Hpq x Ep) in Eq.
  - by rewrite Hg, Ep, Eq.
  - by rewrite Ep, Hf, Eq.
  - by rewrite Ep, Eq, IH.
Qed.

Lemma updatePlayerPose_players id pos rot r :
  updatePlayerPose id pos rot r
  = setPlayers (assignFirst (hasId id) (setPose pos rot) (players r)) r.
Proof.
  unfold updatePlayerPose. destruct (getPlayer id (players r)) eqn:E; [reflexivity|].
  rewrite (assignFirst_idle _ _ _ E). by destruct r.
Qed.

(** Property X24.  [updatePlayerPose] does nothing for an unknown id and
    otherwise gives the player found under the id the new position and
    rotation and leaves its other fields alone.  The players found under other
    ids, every field of every player but position and rotation, the board,
    the deck, the discard pile, the metrics, the round flag and the turn index
    are unchanged, and it does not ask whose turn it is.  Of two updates for
    the same id the later one wins, and updates for different ids commute. *)
Theorem updatePlayerPose_effects (id : string) (pos : Vec3) (rot : Quaternion)
    (r : GameRoom) :
  let r' := updatePlayerPose id pos rot r in
  (getPlayer id (players r) = None -> r' = r)
  /\ (forall p,
        getPlayer id (players r) = Some p ->
        getPlayer id (players r')
        = Some (mkPlayer (playerId p) (socketId p) (name p) (role p) pos rot
                  (hand p) (connected p) (toolBroken p) (suspicion p) (score p)))
  /\ (forall other,
        other <> id -> getPlayer other (players r') = getPlayer other (players r))
  /\ (fun p => (playerId p, socketId p, name p, role p, hand p, connected p,
                toolBroken p, suspicion p, score p)) <$> players r'
     = (fun p => (playerId p, socketId p, name p, role p, hand p, connected p,
                  toolBroken p, suspicion p, score p)) <$> players r
  /\ (board r' = board r /\ deck r' = deck r /\ discard r' = discard r
      /\ metrics r' = metrics r /\ roundEnded r' = roundEnded r
      /\ turnIndex r' = turnIndex r /\ host r' = host r)
  /\ (forall pos0 rot0,
        updatePlayerPose id pos rot (updatePlayerPose id pos0 rot0 r) = r')
  /\ (forall other pos0 rot0,
        other <> id ->
        updatePlayerPose id pos rot (updatePlayerPose other pos0 rot0 r)
        = updatePlayerPose other pos0 rot0 r').
Proof.
  cbv zeta. rewrite updatePlayerPose_players.
  cbn [players board deck discard metrics roundEnded turnIndex host setPlayers].
  split; [|split; [|split; [|split; [|split; [by repeat split|split]]]]].
  - intros E. rewrite (assignFirst_idle _ _ _ E). by destruct r.
  - intros p E. apply (find_assignFirst _ (setPose pos rot) _ _ E).
    apply find_elem_of in E as [_ E]. exact E.
  - intros other Hother. apply find_assignFirst_other; [reflexivity|].
    intros x Hx. apply hasId_true in Hx. unfold hasId.
    apply String.eqb_neq. congruence.
  - by apply assignFirst_fmap.
  - intros pos0 rot0. rewrite !updatePlayerPose_players.
    cbn [players setPlayers]. rewrite assignFirst_compose by (intros x Hx; exact Hx).
    reflexivity.
  - intros other pos0 rot0 Hother. rewrite !updatePlayerPose_players.
    cbn [players setPlayers]. rewrite assignFirst_swap; [reflexivity.. |].
    intros x Hx. apply hasId_true in Hx. unfold hasId.
    apply String.eqb_neq. congruence.
Qed.

(** * Drawing, in full *)

(** Property X4.  A draw that returns moves the last [count] cards of the deck
    (all of them when fewer are left), the last one first, to the end of the
    hand of the first player with the given id: the deck keeps its front part,
    [deckRemaining] is its new length, no card is lost or duplicated, nobody
    else's hand, role or tool changes, and the tiles, the discard pile and the
    counters of played cards stay as they were.  A draw throws only in an open
    round whose board already shows a miner win in a room of saboteurs alone,
    and it always returns when the miners have not won. *)
Theorem drawCards_moves_cards (id : string) (count : nat) (r : GameRoom) :
  (forall r',
      drawCards id count r = Some r' ->
      deck r' = take (length (deck r) - count) (deck r)
      /\ deck r' ++ reverse (drawnCards count (deck r)) = deck r
      /\ length (drawnCards count (deck r)) = Nat.min count (length (deck r))
      /\ deckRemaining (metrics r') = Z.of_nat (length (deck r'))
      /\ holding <$> players r'
         = holding <$> assignFirst (hasId id)
                         (fun p => setHand (hand p ++ drawnCards count (deck r)) p)
                         (players r)
      /\ table r' = table r)
  /\ (drawCards id count r = None ->
      roundEnded r = false /\ winningTeam (board r) = Some miner
      /\ players r <> [] /\ Forall (fun p => role p = saboteur) (players r))
  /\ (winningTeam (board r) <> Some miner ->
      exists r', drawCards id count r = Some r').
Proof.
  split; [|split].
  - intros r' H. exact (drawCards_spec id count r r' H).
  - intros H. exact (drawCards_thrown id count r H).
  - intros Hw. destruct (drawCards_total id count r Hw) as (r' & E & _).
    exists r'. exact E.
Qed.

(** * The card effects, field by field *)

Lemma find_fmap_same {A} (pr : A -> bool) (g : A -> A) (l : list A) :
  (forall x, pr (g x) = pr x) ->
  List.find pr (g <$> l) = g <$> List.find pr l.
Proof.
  intros Hg. induction l as [|x l IH]; [reflexivity|].
  rewrite fmap_cons. cbn [List.find]. rewrite Hg.
  destruct (pr x); [reflexivity | exact IH].
Qed.



Lemma path_card_connectors (k : CardKey) :
  category (CARD_LIBRARY k) = cat_path ->
  exists base, def_connectors (CARD_LIBRARY k) = Some base.
Proof. destruct k; intros H; first [discriminate H | by eexists]. Qed.

(** Property X12.  A placement that succeeds passed the validation.  The
    connectors laid are those of the card's definition turned clockwise by
    [rotation mod 4] quarter turns (north takes what was west, east what was
    north, south what was east, west what was south).  The target tile becomes
    a revealed path tile with these connectors, the card's key, the payload's
    rotation and the placer as owner, and is found under its id afterwards;
    every goal tile the exploration of that board visits is revealed; the
    progress is the farthest column visited divided by 8; the card is at the
    end of the discard pile; the turn counter is one higher; the placer's hand
    lost every card with the played card's instance id and gained the last
    card of the deck; nobody else's holding changed; the turn advanced as
    [advanceTurn] would from the room before; and the returned flag says
    whether this call ended the round. *)
Theorem placeCard_success_effects (id : string) (payload : Payload) (r r' : GameRoom)
    (card : CardInstance) (justEnded : bool) (placer : option string) :
  placeCard id payload r = Some (Placed card justEnded placer, r') ->
  exists player tile base c,
    passesValidation id payload r player card tile c
    /\ tid tile = targetTileId payload
    /\ def_connectors (CARD_LIBRARY (cardKey card)) = Some base
    /\ c = match payloadRotation payload mod 4 with
           | 0 => base
           | 1 => mkConnectors (west base) (north base) (east base) (south base)
           | 2 => mkConnectors (south base) (west base) (north base) (east base)
           | _ => mkConnectors (east base) (south base) (west base) (north base)
           end
    /\ let path :=
         mkTile (tid tile) (row tile) (col tile) t_path (Some c)
           (Some (placed (cardKey card))) (Some (payloadRotation payload))
           true (Some id) in
       let laid :=
         assignFirst (fun t => String.eqb (tid t) (tid tile))
           (fun t => mkTile (tid t) (row t) (col t) t_path (Some c)
                       (Some (placed (cardKey card))) (Some (payloadRotation payload))
                       true (Some id))
           (tiles (board r)) in
       let ex :=
         exploreBoard
           (mkBoard (rows (board r)) (columns (board r)) laid (winningTeam (board r))) in
       findTile (board r') (targetTileId payload) = Some path
       /\ tiles (board r')
          = (fun t => if bool_decide (tileType t = t_goal)
                         && bool_decide (tid t ∈ visited ex)
                      then mkTile (tid t) (row t) (col t) (tileType t) (connectors t)
                             (tileCard t) (tileRotation t) true (ownerId t)
                      else t) <$> laid
       /\ progress (metrics r')
          = (Q2Qc (inject_Z (farthestCol ex)) / Q2Qc (inject_Z 8))%Qc
       /\ discard r' = discard r ++ [card]
       /\ turnsTaken (metrics r') = turnsTaken (metrics r) + 1
       /\ collapsedTiles (metrics r') = collapsedTiles (metrics r)
       /\ deck r' = take (length (deck r) - 1) (deck r)
       /\ holding <$> players r'
          = holding <$> assignFirst (hasId id)
              (fun p => mkPlayer (playerId p) (socketId p) (name p) (role p)
                          (position p) (rotation p)
                          (List.filter
                             (fun held => negb (String.eqb (instanceId held)
                                                  (instanceId card)))
                             (hand p)
                           ++ drawnCards 1 (deck r))
                          (connected p) (toolBroken p) (suspicion p) (score p))
              (players r)
       /\ activePlayerId (metrics r') = activePlayerId (metrics (advanceTurn r))
       /\ justEnded = negb (roundEnded r) && roundEnded r'
       /\ placer = (if justEnded then Some id else None).
Proof.
  intros H.
  destruct (placeCard_success_shape id payload r r' card justEnded placer H)
    as (player & tile & c & Hval & Htid & Hshape).
  cbv zeta in Hshape.
  destruct Hshape as (Htiles & Hprogress & Hdiscard & Hturns & Hcollapsed & Hdeck
                      & Hhands & Hactive & Hended & Hplacer).
  destruct Hval as (Hturn & Hplayer & Htool & Hcard & Hcat & Htile & Hv).
  destruct (path_card_connectors (cardKey card) Hcat) as [base Hbase].
  assert (Hc : c = match payloadRotation payload mod 4 with
                   | 0 => base
                   | 1 => mkConnectors (west base) (north base) (east base) (south base)
                   | 2 => mkConnectors (south base) (west base) (north base) (east base)
                   | _ => mkConnectors (east base) (south base) (west base) (north base)
                   end).
  { destruct Hv as (_ & _ & _ & Hrot). rewrite Hbase, rotateConnectors_table in Hrot.
    by injection Hrot as <-. }
  exists player, tile, base, c.
  split; [exact (conj Hturn (conj Hplayer (conj Htool (conj Hcard (conj Hcat
                   (conj Htile Hv))))))|].
  split; [exact Htid|]. split; [exact Hbase|]. split; [exact Hc|].
  cbv zeta.
  split; [|split; [exact Htiles|split; [exact Hprogress|split; [exact Hdiscard|
          split; [exact Hturns|split; [exact Hcollapsed|split; [exact Hdeck|
          split; [exact Hhands|split; [exact Hactive|split;
            [exact Hended|exact Hplacer]]]]]]]]]].
  unfold findTile in *. rewrite <- Htid in Htile |- *. rewrite Htiles.
  rewrite find_fmap_same by (intros t; unfold revealIfReached; by destruct (reached _ t)).
  erewrite find_assignFirst; [reflexivity | exact Htile |].
  cbn [placePathCard tid]. by apply String.eqb_eq.
Qed.



(** * The newcomer, field by field *)

Lemma drawCards_scoreOnly id count r r' :
  drawCards id count r = Some r' ->
  scoreOnly (players r')
    (assignFirst (hasId id)
       (fun p => setHand (hand p ++ drawnCards count (deck r)) p) (players r)).
Proof.
  unfold drawCards, drawn. intros H.
  destruct (players_maybeDeclareSaboteurWin
              (refreshDeckRemaining (takeCards id count r))) as (Hp & _ & _).
  assert (Hq : players (refreshDeckRemaining (takeCards id count r))
               = assignFirst (hasId id)
                   (fun p => setHand (hand p ++ drawnCards count (deck r)) p)
                   (players r))
    by (by rewrite takeCards_spec).
  rewrite <- Hq, <- Hp.
  apply maybeFinishRound_shape in H
    as [-> | (_ & _ & ps & gold & h & aw & wi & -> & Hps)];
    [apply scoreOnly_refl | exact Hps].
Qed.

Lemma getPlayer_scoreOnly id (ps qs : list Player) (q : Player) :
  scoreOnly ps qs -> getPlayer id qs = Some q ->
  exists v, getPlayer id ps = Some (setScore v q).
Proof.
  intros H. induction H as [|p x ps qs [v ->] _ IH]; intros Hq; [discriminate Hq|].
  unfold getPlayer in *. cbn [List.find] in *.
  change (hasId id (setScore v x)) with (hasId id x).
  destruct (hasId id x).
  - injection Hq as <-. by exists v.
  - by apply IH.
Qed.

(** Property X18.  A join that returns seats a new player object (in place of
    a player with the same id, else at the end): id and socket id the socket's,
    the given name or [Dwarf-n], position (0, 1.6, 0), an empty hand, a working
    tool, score 0, and the role at the last index of a fresh role distribution
    for the new player count [n], which is miner when [n < 3].  The suspicion
    recorded on the player and in the metrics is 0.5 for a saboteur and 0 for
    a miner.  The player found under the socket's id afterwards is that object
    with the last five cards of the deck as hand (its score apart, which a
    settlement inside the draw may raise).  The tiles,
    the discard pile and the counters are unchanged; the turn stays where it
    is when somebody is active and otherwise goes to the newcomer with turn
    index 0 and a deadline 60000 ms after the clock. *)
Theorem insertPlayer_seats_newcomer (socket : string) (nick : option string)
    (r r' : GameRoom) :
  insertPlayer socket nick r = Some r' ->
  let n := (length (players r) + 1)%nat in
  let ro := default miner ((roleDistribution n (host r)).1 !! (n - 1)%nat) in
  let start := match ro with saboteur => num 1 2 | miner => num 0 1 end in
  let fresh :=
    mkPlayer socket socket
      (if truthy nick then default EmptyString nick else "Dwarf-" +:+ pretty n)
      ro (mkVec3 (num 0 1) (num 8 5) (num 0 1))
      (mkQuat (num 0 1) (num 0 1) (num 0 1) (num 1 1)) [] true false start 0 in
  let unscored := fun p : Player =>
    (playerId p, socketId p, name p, role p, position p, rotation p, hand p,
     connected p, toolBroken p, suspicion p) in
  (exists v,
     getPlayer socket (players r')
     = Some (mkPlayer socket socket
               (if truthy nick then default EmptyString nick
                else "Dwarf-" +:+ pretty n)
               ro (mkVec3 (num 0 1) (num 8 5) (num 0 1))
               (mkQuat (num 0 1) (num 0 1) (num 0 1) (num 1 1))
               (drawnCards 5 (deck r)) true false start v))
  /\ unscored <$> players r'
     = unscored <$> assignFirst (hasId socket)
                      (fun p => mkPlayer (playerId p) (socketId p) (name p) (role p)
                                  (position p) (rotation p)
                                  (hand p ++ drawnCards 5 (deck r))
                                  (connected p) (toolBroken p) (suspicion p) (score p))
                      (putPlayer fresh (players r))
  /\ playerId <$> players r'
     = (if bool_decide (socket ∈ playerId <$> players r)
        then playerId <$> players r else (playerId <$> players r) ++ [socket])
  /\ ((n < 3)%nat -> ro = miner)
  /\ suspicionByPlayer (metrics r') = <[socket := start]> (suspicionByPlayer (metrics r))
  /\ deck r' = take (length (deck r) - 5) (deck r)
  /\ table r' = table r
  /\ (truthy (activePlayerId (metrics r)) = true ->
      activePlayerId (metrics r') = activePlayerId (metrics r)
      /\ turnEndsAt (metrics r') = turnEndsAt (metrics r))
  /\ (truthy (activePlayerId (metrics r)) = false ->
      activePlayerId (metrics r') = Some socket /\ turnIndex r' = 0
      /\ (socket <> EmptyString ->
          turnEndsAt (metrics r') = Some (clock (host r') + 60000)
          /\ turnTimer r' = true)).
Proof.
  intros H. cbv zeta.
  pose proof (insertPlayer_seats_shape socket nick r r' H) as Hshape.
  cbv zeta in Hshape.
  destruct Hshape as (_ & Hids & Hearly & Hmap & Hrest).
  apply insertPlayer_inv in H as (r3 & E & ->). cbv zeta in E.
  set (n := (length (players r) + 1)%nat) in *.
  set (ro := default miner ((roleDistribution n (host r)).1 !! (n - 1)%nat)) in *.
  assert (Hstart : initialSuspicion ro
                   = match ro with saboteur => num 1 2 | miner => num 0 1 end)
    by (by destruct ro).
  set (fresh := newPlayer socket nick n ro) in *.
  pose proof (drawCards_scoreOnly _ _ _ _ E) as Hscore.
  destruct (seatPlayer_frame fresh (roleDistribution n (host r)).2 r)
    as (_ & Hd0 & Hp0 & _).
  rewrite Hp0, Hd0 in Hscore.
  destruct (turnOnly_frame _ _ (turnOnly_claimIdleTurn socket r3))
    as (_ & Hp9 & _).
  rewrite <- Hp9 in Hscore.
  set (deal := fun q : Player => setHand (hand q ++ drawnCards 5 (deck r)) q) in *.
  split; [|split; [|split; [exact Hids|split; [exact Hearly|
          split; [by rewrite <- Hstart|exact Hrest]]]]].
  - assert (Hseated : getPlayer socket (assignFirst (hasId socket) deal
                                          (putPlayer fresh (players r)))
                      = Some (deal fresh)).
    { apply find_assignFirst; [exact (getPlayer_putPlayer fresh (players r))|].
      by apply hasId_true. }
    destruct (getPlayer_scoreOnly _ _ _ _ Hscore Hseated) as [v Hv].
    exists v. rewrite Hv. unfold deal, fresh, newPlayer, setScore, setHand.
    cbn [playerId socketId name role position rotation hand connected toolBroken
         suspicion score app].
    by rewrite Hstart.
  - apply scoreOnly_fmap; [|exact Hscore]. reflexivity.
Qed.

Import Cases.

(** * Further statements at the sample rooms *)

Lemma drawCards_moves_cards_witness :
  drawCards "alice" 1 withAlice = Some afterDraw
  /\ deck afterDraw = take (length (deck withAlice) - 1) (deck withAlice).
Proof.
  assert (H : drawCards "alice" 1 withAlice = Some afterDraw)
    by (vm_compute; reflexivity).
  split; [exact H|].
  exact (proj1 (proj1 (drawCards_moves_cards "alice" 1 withAlice) afterDraw H)).
Defined.

Lemma saboteur_win_payout_witness :
  NoDup (playerId <$> players deckLost)
  /\ winningTeam (board deckLost) = Some saboteur
  /\ exists res r',
       applyRoundRewards None deckLost = Some (res, r')
       /\ winners res = ["alice"]
       /\ score <$> players r' = (fun p => score p + 4) <$> players deckLost.
Proof.
  assert (H1 : NoDup (playerId <$> players deckLost))
    by (apply (bool_decide_unpack _); vm_compute; exact I).
  assert (H2 : winningTeam (board deckLost) = Some saboteur) by (vm_compute; reflexivity).
  split; [exact H1|]. split; [exact H2|].
  destruct (saboteur_win_payout None deckLost H1 H2) as (res & r' & E & Hrest).
  cbv zeta in Hrest. destruct Hrest as (Hps & _ & _ & Hwin & _).
  exists res, r'. split; [exact E|].
  split; [rewrite Hwin | rewrite Hps]; vm_compute; reflexivity.
Defined.

Lemma miner_win_payout_witness :
  NoDup (playerId <$> players struckGold)
  /\ winningTeam (board struckGold) = Some miner
  /\ applyRoundRewards (Some "alice") struckGold = Some (paidOut.1, paidOut.2)
  /\ winners paidOut.1 = ["alice"].
Proof.
  assert (H1 : NoDup (playerId <$> players struckGold))
    by (apply (bool_decide_unpack _); vm_compute; exact I).
  assert (H2 : winningTeam (board struckGold) = Some miner) by (vm_compute; reflexivity).
  assert (H3 : applyRoundRewards (Some "alice") struckGold = Some (paidOut.1, paidOut.2))
    by (vm_compute; reflexivity).
  split; [exact H1|]. split; [exact H2|]. split; [exact H3|].
  apply (proj1 (proj1 (proj2
    (miner_win_payout (Some "alice") struckGold paidOut.2 paidOut.1 H1 H2 H3)))
    "alice" [] []).
  - reflexivity.
  - discriminate.
  - vm_compute; reflexivity.
  - apply not_elem_of_nil.
Defined.

Lemma exploreBoard_reaches_linked_witness :
  NoDup (tid <$> tiles (board bridged))
  /\ (forall id,
        id ∈ visited (exploreBoard (board bridged))
        <-> exists t, linked (board bridged) t /\ tid t = id).
Proof.
  assert (H : NoDup (tid <$> tiles (board bridged)))
    by (apply (bool_decide_unpack _); vm_compute; exact I).
  split; [exact H|].
  exact (proj1 (exploreBoard_reaches_linked (board bridged) H)).
Defined.

Lemma placeCard_success_effects_witness :
  placeCard "alice" firstPlacement withAlice
    = Some (Placed straightCard false None, afterPlacement)
  /\ findTile (board afterPlacement) "3-1"
     = Some (mkTile "3-1" 3 1 t_path (Some (mkConnectors false true false true))
               (Some (placed straight)) (Some 0) true (Some "alice"))
  /\ discard afterPlacement = discard withAlice ++ [straightCard]
  /\ turnsTaken (metrics afterPlacement) = turnsTaken (metrics withAlice) + 1.
Proof.
  assert (H : placeCard "alice" firstPlacement withAlice
              = Some (Placed straightCard false None, afterPlacement))
    by (vm_compute; reflexivity).
  split; [exact H|].
  destruct (placeCard_success_effects "alice" firstPlacement withAlice afterPlacement
              straightCard false None H)
    as (player & tile & base & c & Hval & _ & Hbase & Hc & Hrest).
  cbv zeta in Hrest. destruct Hrest as (Hfind & _ & _ & Hdiscard & Hturns & _).
  destruct Hval as (_ & _ & _ & _ & _ & Htile & _).
  vm_compute in Htile. injection Htile as <-.
  vm_compute in Hbase. injection Hbase as <-.
  vm_compute in Hc. subst c.
  split; [exact Hfind|]. exact (conj Hdiscard Hturns).
Defined.



Lemma insertPlayer_seats_newcomer_witness :
  insertPlayer "alice" (Some "Alice") lobby = Some withAlice
  /\ (exists v,
        getPlayer "alice" (players withAlice)
        = Some (mkPlayer "alice" "alice" "Alice" miner
                  (mkVec3 (num 0 1) (num 8 5) (num 0 1))
                  (mkQuat (num 0 1) (num 0 1) (num 0 1) (num 1 1))
                  (drawnCards 5 (deck lobby)) true false (num 0 1) v))
  /\ deck withAlice = take (length (deck lobby) - 5) (deck lobby)
  /\ table withAlice = table lobby.
Proof.
  assert (H : insertPlayer "alice" (Some "Alice") lobby = Some withAlice)
    by (vm_compute; reflexivity).
  split; [exact H|].
  pose proof (insertPlayer_seats_newcomer "alice" (Some "Alice") lobby withAlice H)
    as Hall.
  cbv zeta in Hall.
  destruct Hall as ((v & Hv) & _ & _ & _ & _ & Hdeck & Htable & _).
  split; [|exact (conj Hdeck Htable)].
  exists v. rewrite Hv. vm_compute. reflexivity.
Defined.

Lemma resetRoom_deals_afresh_witness :
  NoDup (playerId <$> players withAlice)
  /\ resetRoom withAlice = Some restarted
  /\ roundNumber restarted = roundNumber withAlice + 1
  /\ activePlayerId (metrics restarted) = head (playerId <$> players withAlice).
Proof.
  assert (H1 : NoDup (playerId <$> players withAlice))
    by (apply (bool_decide_unpack _); vm_compute; exact I).
  assert (H2 : resetRoom withAlice = Some restarted) by (vm_compute; reflexivity).
  split; [exact H1|]. split; [exact H2|].
  pose proof (resetRoom_deals_afresh withAlice restarted H1 H2) as Hall.
  exact (conj (proj1 (proj2 (proj2 (proj2 (proj2 (proj2 Hall))))))
              (proj1 (proj2 (proj2 (proj2 (proj2 (proj2 (proj2 Hall)))))))).
Defined.

Lemma handlers_throw_only_without_miners_witness :
  (onCardEvent "alice" (PlaceCardEvent (Some firstPlacement)) oneShort = None
   /\ Forall (fun p => role p = saboteur) (players oneShort))
  /\ (onCardEvent "alice" (PlaceCardEvent None) withAlice = None
      /\ role alice = miner /\ getPlayer "alice" (players withAlice) = Some alice).
Proof.
  assert (H : onCardEvent "alice" (PlaceCardEvent (Some firstPlacement)) oneShort = None)
    by (vm_compute; reflexivity).
  assert (Hturn : notYourTurn "alice" withAlice = false) by (vm_compute; reflexivity).
  assert (Halice : getPlayer "alice" (players withAlice) = Some alice)
    by (vm_compute; reflexivity).
  assert (Htool : toolBroken alice = false) by (vm_compute; reflexivity).
  assert (Hhand : hand alice <> []) by (vm_compute; discriminate).
  assert (Hrole : role alice = miner) by (vm_compute; reflexivity).
  split.
  - split; [exact H|].
    destruct (proj1 (proj2 handlers_throw_only_without_miners) "alice"
                (PlaceCardEvent (Some firstPlacement)) oneShort H)
      as [[E | [E | E]] | (_ & _ & Hall)];
      [discriminate E | discriminate E | discriminate E | exact Hall].
  - split; [|exact (conj Hrole Halice)].
    apply (proj2 (proj1 (proj2 (proj2 (proj1 (proj2 (proj2 (proj2
             handlers_throw_only_without_miners))) "alice" withAlice))))).
    split; [exact Hturn|]. exists alice. exact (conj Halice (conj Htool Hhand)).
Defined.

Lemma advanceTurn_next_witness :
  NoDup (playerId <$> players withAlice)
  /\ (playerId <$> players withAlice) !! 0%nat = Some "alice"
  /\ activePlayerId (metrics withAlice) = Some "alice"
  /\ activePlayerId (metrics (advanceTurn withAlice))
     = (playerId <$> players withAlice) !! (1 mod length (playerId <$> players withAlice))%nat.
Proof.
  assert (H1 : NoDup (playerId <$> players withAlice))
    by (apply (bool_decide_unpack _); vm_compute; exact I).
  assert (H2 : (playerId <$> players withAlice) !! 0%nat = Some "alice")
    by (vm_compute; reflexivity).
  assert (H3 : activePlayerId (metrics withAlice) = Some "alice")
    by (vm_compute; reflexivity).
  split; [exact H1|]. split; [exact H2|]. split; [exact H3|].
  exact (proj1 (proj2 (proj2 (advanceTurn_next withAlice))) 0%nat "alice" H1 H2 H3).
Defined.

Lemma removePlayer_effects_witness :
  activePlayerId (metrics withAlice) = Some "alice"
  /\ activePlayerId (metrics (removePlayer "alice" withAlice))
     = (playerId <$> players (removePlayer "alice" withAlice))
         !! (1 mod length (playerId <$> players (removePlayer "alice" withAlice)))%nat.
Proof.
  assert (H : activePlayerId (metrics withAlice) = Some "alice")
    by (vm_compute; reflexivity).
  split; [exact H|].
  exact (proj2 (proj2 (proj2 (proj2 (proj2 (proj2
    (removePlayer_effects "alice" withAlice)))))) H).
Defined.

Lemma players_stay_registered_witness :
  run [Join "alice" (Some "Alice")] (newGameRoom "lobby" host0) = Some withAlice
  /\ registered withAlice.
Proof.
  assert (H : run [Join "alice" (Some "Alice")] (newGameRoom "lobby" host0)
              = Some withAlice) by (vm_compute; reflexivity).
  split; [exact H|].
  exact (proj1 (proj2 (proj2 players_stay_registered))
           [Join "alice" (Some "Alice")] (newGameRoom "lobby" host0) withAlice
           (proj1 players_stay_registered "lobby" host0) H).
Defined.

Lemma round_keeps_layout_witness :
  handle (Play "alice" (PlaceCard firstPlacement)) withAlice = Some afterPlacement
  /\ plan afterPlacement = plan withAlice.
Proof.
  assert (H : handle (Play "alice" (PlaceCard firstPlacement)) withAlice
              = Some afterPlacement) by (vm_compute; reflexivity).
  split; [exact H|].
  exact (proj1 round_keeps_layout (Play "alice" (PlaceCard firstPlacement))
           withAlice afterPlacement eq_refl H).
Defined.

Lemma progress_stays_fraction_witness :
  run [Join "alice" (Some "Alice"); Play "alice" (PlaceCard firstPlacement)]
      (newGameRoom "lobby" host0) = Some afterPlacement
  /\ (num 0 1 <= progress (metrics afterPlacement))%Qc
  /\ (progress (metrics afterPlacement) <= num 1 1)%Qc.
Proof.
  assert (H : run [Join "alice" (Some "Alice"); Play "alice" (PlaceCard firstPlacement)]
                  (newGameRoom "lobby" host0) = Some afterPlacement)
    by (vm_compute; reflexivity).
  split; [exact H|].
  exact (proj2 (proj2 (proj2 (proj2 progress_stays_fraction)) _ "lobby" host0
                  afterPlacement H)).
Defined.

Lemma declared_win_is_kept_witness :
  handle TurnTimeout struckGold = Some (advanceTurn struckGold)
  /\ winningTeam (board struckGold) = Some miner
  /\ winningTeam (board (advanceTurn struckGold)) = Some miner.
Proof.
  assert (H1 : handle TurnTimeout struckGold = Some (advanceTurn struckGold))
    by reflexivity.
  assert (H2 : winningTeam (board struckGold) = Some miner) by (vm_compute; reflexivity).
  split; [exact H1|]. split; [exact H2|].
  exact (proj1 (proj1 declared_win_is_kept TurnTimeout struckGold
                  (advanceTurn struckGold) eq_refl H1) H2).
Defined.

Lemma turn_order_is_round_robin_witness :
  NoDup (playerId <$> players withBob)
  /\ (playerId <$> players withBob) !! 0%nat = Some "alice"
  /\ activePlayerId (metrics withBob) = Some "alice"
  /\ activePlayerId (metrics (Nat.iter (length (playerId <$> players withBob))
                                advanceTurn withBob)) = Some "alice".
Proof.
  assert (H1 : NoDup (playerId <$> players withBob))
    by (apply (bool_decide_unpack _); vm_compute; exact I).
  assert (H2 : (playerId <$> players withBob) !! 0%nat = Some "alice")
    by (vm_compute; reflexivity).
  assert (H3 : activePlayerId (metrics withBob) = Some "alice")
    by (vm_compute; reflexivity).
  split; [exact H1|]. split; [exact H2|]. split; [exact H3|].
  exact (proj2 (turn_order_is_round_robin withBob 0 "alice" 0 H1 H2 H3)).
Defined.
